(** * BLACKHOUSE: market-by-price reconstruction from a market-by-order stream

    A shallow embedding of the order book ([order.hpp], [order_book.hpp]),
    the action engine ([action_engine.hpp]) and the snapshot change detector
    ([snapshot.hpp]), followed by the properties proved about them.

    Conventions of the embedding.
    - Fixed-width unsigned integers are [Z] with the wrap-around written out
      ([wrap32], [wrap64]); prices and identifiers are only compared and used
      as keys, never computed with, and stay plain [Z].
    - An [Order*] is an address [ptr]; the contents of the allocated [Order]
      objects live in one store, shared by the id map and by the levels, so
      that a write through one handle is seen through every other.
    - The intrusive [next]/[prev] links of the orders of one level are kept
      as the list [chain] of that level, head first: [first_order] is its
      head, [last_order] its last element, [o->next] the following entry.
    - [std::map] and the hash map are finite maps ([gmap]); the ordered
      traversal of a side is the key-sorted listing of its map. *)

From Stdlib Require Import ZArith Ascii Lia.
From stdpp Require Import base option list sorting gmap fin_maps.

Local Open Scope Z_scope.

(** ** Machine integers *)

Definition wrap32 (z : Z) : Z := z mod 2 ^ 32.
Definition wrap64 (z : Z) : Z := z mod 2 ^ 64.

Definition is_u32 (z : Z) : Prop := 0 <= z < 2 ^ 32.
Definition is_u64 (z : Z) : Prop := 0 <= z < 2 ^ 64.

(** [++x] on a 64-bit counter. *)
Definition incr64 (z : Z) : Z := wrap64 (z + 1).

Abbreviation ptr := Z (only parsing).

(** ** order.hpp *)

Module Event.
Record t := mk {
  timestamp_ns : Z;
  order_id : Z;
  price_raw : Z;
  size : Z;
  sequence : Z;
  action : ascii;
  side : ascii
}.

(** [Event(ts, act, sd, px, sz, oid)] *)
Definition make (ts : Z) (act sd : ascii) (px sz oid : Z) : t :=
  mk ts oid px sz 0 act sd.

(** The field types of the struct. *)
Definition wf (e : t) : Prop :=
  is_u64 (timestamp_ns e) /\ is_u64 (order_id e) /\ is_u32 (size e).
End Event.

Module Order.
Record t := mk {
  order_id : Z;
  price_raw : Z;
  size : Z;
  original_size : Z;
  timestamp_ns : Z
}.

(** [Order(oid, px, sz, ts)] *)
Definition make (oid px sz ts : Z) : t := mk oid px sz sz ts.

(** [Order{}] *)
Definition zero : t := mk 0 0 0 0 0.

Definition set_size (sz : Z) (o : t) : t :=
  mk (order_id o) (price_raw o) sz (original_size o) (timestamp_ns o).

Definition set_price_raw (px : Z) (o : t) : t :=
  mk (order_id o) px (size o) (original_size o) (timestamp_ns o).
End Order.

(** The store of allocated orders, and a read through a handle.  A handle
    that is not allocated reads as [Order{}]; no operation of a well-formed
    book does that (see [book_inv]). *)
Abbreviation store := (gmap Z Order.t) (only parsing).

Definition deref (st : store) (p : ptr) : Order.t :=
  default Order.zero (st !! p).

Module Level.
Record t := mk {
  price_raw : Z;
  total_size : Z;
  order_count : Z;
  chain : list ptr
}.

(** [Level()] and [Level(px)] *)
Definition init : t := mk 0 0 0 [].
Definition make (px : Z) : t := mk px 0 0 [].

Definition first_order (l : t) : option ptr := head (chain l).
Definition last_order (l : t) : option ptr := last (chain l).

Definition set_price_raw (px : Z) (l : t) : t :=
  mk px (total_size l) (order_count l) (chain l).

Definition add_order (st : store) (order : ptr) (l : t) : t :=
  mk (price_raw l)
     (wrap64 (total_size l + Order.size (deref st order)))
     (wrap32 (order_count l + 1))
     (chain l ++ [order]).

(** Unlinking [order] leaves the other entries of the chain in place; the
    totals are adjusted whether or not [order] was chained here. *)
Definition remove_order (st : store) (order : ptr) (l : t) : t :=
  mk (price_raw l)
     (wrap64 (total_size l - Order.size (deref st order)))
     (wrap32 (order_count l - 1))
     (filter (λ q, q ≠ order) (chain l)).

Definition modify_order_size (old_size new_size : Z) (l : t) : t :=
  mk (price_raw l)
     (wrap64 (total_size l - old_size + new_size))
     (order_count l)
     (chain l).

Definition empty (l : t) : bool := order_count l =? 0.
End Level.

Module MBPSnapshot.
Record t := mk {
  timestamp_ns : Z;
  bid_px : list Z;
  bid_sz : list Z;
  ask_px : list Z;
  ask_sz : list Z
}.

(** [MBPSnapshot()]: everything zeroed. *)
Definition init : t :=
  mk 0 (replicate 10 0) (replicate 10 0) (replicate 10 0) (replicate 10 0).

Definition set_timestamp_ns (ts : Z) (s : t) : t :=
  mk ts (bid_px s) (bid_sz s) (ask_px s) (ask_sz s).

(** [memcmp(a, b, sizeof a) != 0] on two arrays of ten 64-bit words. *)
Definition memcmp_ne (a b : list Z) : bool := negb (bool_decide (a = b)).

Definition differs_from (s other : t) : bool :=
  memcmp_ne (bid_px s) (bid_px other) ||
  memcmp_ne (bid_sz s) (bid_sz other) ||
  memcmp_ne (ask_px s) (ask_px other) ||
  memcmp_ne (ask_sz s) (ask_sz other).
End MBPSnapshot.

Module TradeInfo.
Record t := mk {
  timestamp_ns : Z;
  trade_id : Z;
  price_raw : Z;
  size : Z;
  side : ascii;
  is_aggressor_fill : bool
}.

(** [TradeInfo(ts, tid, px, sz, sd)] *)
Definition make (ts tid px sz : Z) (sd : ascii) : t :=
  mk ts tid px sz sd false.

Definition set_is_aggressor_fill (f : bool) (i : t) : t :=
  mk (timestamp_ns i) (trade_id i) (price_raw i) (size i) (side i) f.
End TradeInfo.

(** ** order_book.hpp: the order slab *)

Module OrderPool.
Definition POOL_SIZE : Z := 50000.

(** Slab slot [i] has address [i]; objects from [operator new] get the
    addresses from [POOL_SIZE] upwards, handed out by [heap_next_].
    [free_list_] is kept back first: its head is [free_list_.back()].
    [objects_] holds the contents of the orders that are allocated. *)
Record t := mk {
  objects_ : gmap Z Order.t;
  free_list_ : list ptr;
  heap_next_ : ptr
}.

Fixpoint slots_down (n : nat) (top : Z) : list ptr :=
  match n with
  | O => []
  | S n' => top :: slots_down n' (top - 1)
  end.

Definition init : t :=
  mk ∅ (slots_down (Z.to_nat POOL_SIZE) (POOL_SIZE - 1)) POOL_SIZE.

#[global] Arguments init : simpl never.

Definition set_objects (st : gmap Z Order.t) (p : t) : t :=
  mk st (free_list_ p) (heap_next_ p).

(** [allocate()] followed by the caller's [*order = v]. *)
Definition allocate (v : Order.t) (p : t) : ptr * t :=
  match free_list_ p with
  | order :: rest => (order, mk (<[order := v]> (objects_ p)) rest (heap_next_ p))
  | [] =>
      let order := heap_next_ p in
      (order, mk (<[order := v]> (objects_ p)) [] (heap_next_ p + 1))
  end.

Definition deallocate (order : ptr) (p : t) : t :=
  if bool_decide (0 <= order < POOL_SIZE)
  then mk (delete order (objects_ p)) (order :: free_list_ p) (heap_next_ p)
  else mk (delete order (objects_ p)) (free_list_ p) (heap_next_ p).
End OrderPool.

(** ** order_book.hpp: the book *)

(** The [LevelMap&] argument of the templated helpers. *)
Inductive side_map := Bids | Asks.

#[global] Instance side_map_eq_dec : EqDecision side_map.
Proof. solve_decision. Defined.

Module OrderBook.
Record t := mk {
  bid_levels_ : gmap Z Level.t;
  ask_levels_ : gmap Z Level.t;
  order_map_ : gmap Z ptr;
  order_pool_ : OrderPool.t;
  cached_bid_prices_ : list Z;
  cached_bid_sizes_ : list Z;
  cached_ask_prices_ : list Z;
  cached_ask_sizes_ : list Z;
  cache_valid_ : bool;
  total_orders_processed_ : Z;
  price_levels_created_ : Z
}.

(** [OrderBook()] *)
Definition init : t :=
  mk ∅ ∅ ∅ OrderPool.init
     (replicate 10 0) (replicate 10 0) (replicate 10 0) (replicate 10 0)
     false 0 0.

Definition objects (b : t) : gmap Z Order.t :=
  OrderPool.objects_ (order_pool_ b).

Definition levels (sm : side_map) (b : t) : gmap Z Level.t :=
  match sm with Bids => bid_levels_ b | Asks => ask_levels_ b end.

Definition set_levels (sm : side_map) (m : gmap Z Level.t) (b : t) : t :=
  match sm with
  | Bids =>
      mk m (ask_levels_ b) (order_map_ b) (order_pool_ b)
         (cached_bid_prices_ b) (cached_bid_sizes_ b)
         (cached_ask_prices_ b) (cached_ask_sizes_ b)
         (cache_valid_ b) (total_orders_processed_ b) (price_levels_created_ b)
  | Asks =>
      mk (bid_levels_ b) m (order_map_ b) (order_pool_ b)
         (cached_bid_prices_ b) (cached_bid_sizes_ b)
         (cached_ask_prices_ b) (cached_ask_sizes_ b)
         (cache_valid_ b) (total_orders_processed_ b) (price_levels_created_ b)
  end.

Definition set_order_map (om : gmap Z ptr) (b : t) : t :=
  mk (bid_levels_ b) (ask_levels_ b) om (order_pool_ b)
     (cached_bid_prices_ b) (cached_bid_sizes_ b)
     (cached_ask_prices_ b) (cached_ask_sizes_ b)
     (cache_valid_ b) (total_orders_processed_ b) (price_levels_created_ b).

Definition set_order_pool (p : OrderPool.t) (b : t) : t :=
  mk (bid_levels_ b) (ask_levels_ b) (order_map_ b) p
     (cached_bid_prices_ b) (cached_bid_sizes_ b)
     (cached_ask_prices_ b) (cached_ask_sizes_ b)
     (cache_valid_ b) (total_orders_processed_ b) (price_levels_created_ b).

Definition set_cache_valid (v : bool) (b : t) : t :=
  mk (bid_levels_ b) (ask_levels_ b) (order_map_ b) (order_pool_ b)
     (cached_bid_prices_ b) (cached_bid_sizes_ b)
     (cached_ask_prices_ b) (cached_ask_sizes_ b)
     v (total_orders_processed_ b) (price_levels_created_ b).

Definition set_total_orders_processed (n : Z) (b : t) : t :=
  mk (bid_levels_ b) (ask_levels_ b) (order_map_ b) (order_pool_ b)
     (cached_bid_prices_ b) (cached_bid_sizes_ b)
     (cached_ask_prices_ b) (cached_ask_sizes_ b)
     (cache_valid_ b) n (price_levels_created_ b).

Definition set_price_levels_created (n : Z) (b : t) : t :=
  mk (bid_levels_ b) (ask_levels_ b) (order_map_ b) (order_pool_ b)
     (cached_bid_prices_ b) (cached_bid_sizes_ b)
     (cached_ask_prices_ b) (cached_ask_sizes_ b)
     (cache_valid_ b) (total_orders_processed_ b) n.

(** A write through an [Order*]. *)
Definition write_order (order : ptr) (o : Order.t) (b : t) : t :=
  set_order_pool
    (OrderPool.set_objects (<[order := o]> (objects b)) (order_pool_ b)) b.

(** *** private helpers *)

Definition add_to_side (order : ptr) (sm : side_map) (b : t) : bool * t :=
  let px := Order.price_raw (deref (objects b) order) in
  (* levels[px] default-constructs a missing level *)
  let level := default Level.init (levels sm b !! px) in
  let '(level, b) :=
    if Level.empty level
    then (Level.set_price_raw px level,
          set_price_levels_created (wrap64 (price_levels_created_ b + 1)) b)
    else (level, b) in
  let level := Level.add_order (objects b) order level in
  (true, set_levels sm (<[px := level]> (levels sm b)) b).

(** The walk [for (o = first_order; o; o = o->next) if (o == order)] is
    membership of the handle in the chain. *)
Definition determine_side (order : ptr) (b : t) : ascii :=
  match bid_levels_ b !! Order.price_raw (deref (objects b) order) with
  | Some level => if bool_decide (order ∈ Level.chain level) then "B"%char else "A"%char
  | None => "A"%char
  end.

Definition remove_order_from (sm : side_map) (order : ptr) (b : t) : t :=
  let px := Order.price_raw (deref (objects b) order) in
  match levels sm b !! px with
  | Some level =>
      let level := Level.remove_order (objects b) order level in
      if Level.empty level
      then set_levels sm (delete px (levels sm b)) b
      else set_levels sm (<[px := level]> (levels sm b)) b
  | None => b
  end.

Definition remove_order_from_level (order : ptr) (side : ascii) (b : t) : t :=
  if Ascii.eqb side "B" then remove_order_from Bids order b
  else remove_order_from Asks order b.

(** *** public operations *)

Definition add_order (order_id price size : Z) (side : ascii) (timestamp : Z)
    (b : t) : bool * t :=
  match order_map_ b !! order_id with
  | Some _ => (false, b)
  | None =>
      let '(order, pool) :=
        OrderPool.allocate (Order.make order_id price size timestamp) (order_pool_ b) in
      let b := set_order_pool pool b in
      let '(success, b) :=
        if Ascii.eqb side "B" then add_to_side order Bids b
        else if Ascii.eqb side "A" then add_to_side order Asks b
        else (false, b) in
      if success
      then (true,
            set_total_orders_processed (wrap64 (total_orders_processed_ b + 1))
              (set_cache_valid false
                 (set_order_map (<[order_id := order]> (order_map_ b)) b)))
      else (false, set_order_pool (OrderPool.deallocate order (order_pool_ b)) b)
  end.

Definition modify_order (order_id new_price new_size : Z) (b : t) : bool * t :=
  match order_map_ b !! order_id with
  | None => (false, b)
  | Some order =>
      let old_price := Order.price_raw (deref (objects b) order) in
      let old_size := Order.size (deref (objects b) order) in
      if bool_decide (old_price ≠ new_price) then
        let side := determine_side order b in
        let b := remove_order_from_level order side b in
        let b :=
          write_order order
            (Order.set_size new_size
               (Order.set_price_raw new_price (deref (objects b) order))) b in
        let '(success, b) :=
          if Ascii.eqb side "B" then add_to_side order Bids b
          else add_to_side order Asks b in
        if negb success
        then (false,
              set_order_pool (OrderPool.deallocate order (order_pool_ b))
                (set_order_map (delete order_id (order_map_ b)) b))
        else (true, set_cache_valid false b)
      else
        let side := determine_side order b in
        let sm := if Ascii.eqb side "B" then Bids else Asks in
        let b :=
          match levels sm b !! old_price with
          | Some level =>
              write_order order
                (Order.set_size new_size (deref (objects b) order))
                (set_levels sm
                   (<[old_price := Level.modify_order_size old_size new_size level]>
                      (levels sm b)) b)
          | None => b
          end in
        (true, set_cache_valid false b)
  end.

Definition cancel_order (order_id : Z) (b : t) : bool * t :=
  match order_map_ b !! order_id with
  | None => (false, b)
  | Some order =>
      let side := determine_side order b in
      let b := remove_order_from_level order side b in
      let b := set_order_map (delete order_id (order_map_ b)) b in
      let b := set_order_pool (OrderPool.deallocate order (order_pool_ b)) b in
      (true, set_cache_valid false b)
  end.

(** The state the [while] loop of [execute_trade_on_side] works on: the
    level it holds a reference to, and the id map and the slab. *)
Record walk := mkwalk {
  remaining_size : Z;
  level : Level.t;
  ids : gmap Z ptr;
  pool : OrderPool.t
}.

(** One pass through the loop body, the guard having been found true and
    [order] being [level.first_order]. *)
Definition trade_body (order : ptr) (w : walk) : walk :=
  let o := deref (OrderPool.objects_ (pool w)) order in
  if Order.size o <=? remaining_size w then
    mkwalk (wrap32 (remaining_size w - Order.size o))
           (Level.remove_order (OrderPool.objects_ (pool w)) order (level w))
           (delete (Order.order_id o) (ids w))
           (OrderPool.deallocate order (pool w))
  else
    let old_size := Order.size o in
    let o' := Order.set_size (wrap32 (Order.size o - remaining_size w)) o in
    mkwalk 0
           (Level.modify_order_size old_size (Order.size o') (level w))
           (ids w)
           (OrderPool.set_objects (<[order := o']> (OrderPool.objects_ (pool w))) (pool w)).

(** [while (remaining_size > 0 && level.first_order != nullptr)], at most
    [fuel] passes. *)
Fixpoint trade_loop (fuel : nat) (w : walk) : walk :=
  match fuel with
  | O => w
  | S fuel' =>
      if 0 <? remaining_size w then
        match Level.first_order (level w) with
        | Some order => trade_loop fuel' (trade_body order w)
        | None => w
        end
      else w
  end.

(** After the loop: the level the loop worked on is erased if it is empty
    (it was modified in place otherwise), and the cache is invalidated. *)
Definition trade_end (price : Z) (sm : side_map) (w : walk) (b : t) : t :=
  let b := set_order_pool (pool w) (set_order_map (ids w) b) in
  let b :=
    if Level.empty (level w)
    then set_levels sm (delete price (levels sm b)) b
    else set_levels sm (<[price := level w]> (levels sm b)) b in
  set_cache_valid false b.

(** Every pass but the last unlinks the head, so the length of the chain
    bounds the number of passes ([trade_loop_exits] below). *)
Definition execute_trade_on_side (price size : Z) (sm : side_map) (b : t) : bool * t :=
  match levels sm b !! price with
  | None => (false, b)
  | Some level =>
      (true,
       trade_end price sm
         (trade_loop (length (Level.chain level))
            (mkwalk size level (order_map_ b) (order_pool_ b))) b)
  end.

Definition execute_trade (price size : Z) (aggressor_side : ascii) (b : t) : bool * t :=
  let passive_side := if Ascii.eqb aggressor_side "B" then "A"%char else "B"%char in
  if Ascii.eqb passive_side "B"
  then execute_trade_on_side price size Bids b
  else execute_trade_on_side price size Asks b.

(** The hash map is visited in an unspecified order; the model takes the
    order of [map_fold].  Only the order of the free list depends on it. *)
Definition clear (b : t) : t :=
  let pool :=
    map_fold (λ _ order pool, OrderPool.deallocate order pool)
             (order_pool_ b) (order_map_ b) in
  set_cache_valid false
    (set_levels Asks ∅ (set_levels Bids ∅ (set_order_map ∅ (set_order_pool pool b)))).

(** *** top of book *)

Definition BidComparator (a b : Z) : bool := bool_decide (a > b).
Definition AskComparator (a b : Z) : bool := bool_decide (a < b).

(** The traversal [begin() .. end()] of a side: its entries, best first. *)
Definition bid_first (x y : Z * Level.t) : Prop := y.1 <= x.1.
Definition ask_first (x y : Z * Level.t) : Prop := x.1 <= y.1.

#[global] Instance bid_first_dec x y : Decision (bid_first x y) :=
  Z_le_dec y.1 x.1.
#[global] Instance ask_first_dec x y : Decision (ask_first x y) :=
  Z_le_dec x.1 y.1.

Definition bids_in_order (m : gmap Z Level.t) : list (Z * Level.t) :=
  merge_sort bid_first (map_to_list m).
Definition asks_in_order (m : gmap Z Level.t) : list (Z * Level.t) :=
  merge_sort ask_first (map_to_list m).

(** [fill(0)], then the first ten entries written from index 0. *)
Definition top10 {A} (f : Z * Level.t → A) (zero : A) (l : list (Z * Level.t)) : list A :=
  resize 10 zero (f <$> l).

Definition update_cache (b : t) : t :=
  mk (bid_levels_ b) (ask_levels_ b) (order_map_ b) (order_pool_ b)
     (top10 fst 0 (bids_in_order (bid_levels_ b)))
     (top10 (λ x, Level.total_size x.2) 0 (bids_in_order (bid_levels_ b)))
     (top10 fst 0 (asks_in_order (ask_levels_ b)))
     (top10 (λ x, Level.total_size x.2) 0 (asks_in_order (ask_levels_ b)))
     true (total_orders_processed_ b) (price_levels_created_ b).

(** The cache is [mutable]: the read returns the book with its cache. *)
Definition get_top10_snapshot (snapshot : MBPSnapshot.t) (b : t) : MBPSnapshot.t * t :=
  let b := if cache_valid_ b then b else update_cache b in
  (MBPSnapshot.mk (MBPSnapshot.timestamp_ns snapshot)
     (cached_bid_prices_ b) (cached_bid_sizes_ b)
     (cached_ask_prices_ b) (cached_ask_sizes_ b), b).

Definition get_best_bid (b : t) : Z * Z :=
  match bids_in_order (bid_levels_ b) with
  | [] => (0, 0)
  | (px, l) :: _ => (px, Level.total_size l)
  end.

Definition get_best_ask (b : t) : Z * Z :=
  match asks_in_order (ask_levels_ b) with
  | [] => (0, 0)
  | (px, l) :: _ => (px, Level.total_size l)
  end.

Definition get_active_orders (b : t) : nat := size (order_map_ b).
End OrderBook.

(** ** action_engine.hpp *)

Inductive TradeState := IDLE | TRADE_RECEIVED | FILL_RECEIVED.

#[global] Instance TradeState_eq_dec : EqDecision TradeState.
Proof. solve_decision. Defined.

Module ActionEngine.
(** [order_book_] is a reference: the book it designates is carried in the
    engine's state, and the driver hands that same book to the emitter. *)
Record t := mk {
  order_book_ : OrderBook.t;
  trade_state_ : TradeState;
  pending_trade_ : option TradeInfo.t;
  last_trade_id_ : Z;
  actions_processed_ : Z;
  trades_aggregated_ : Z;
  errors_encountered_ : Z;
  first_clear_seen_ : bool
}.

(** [ActionEngine(book)] *)
Definition init (book : OrderBook.t) : t :=
  mk book IDLE None 0 0 0 0 false.

Definition set_order_book (b : OrderBook.t) (s : t) : t :=
  mk b (trade_state_ s) (pending_trade_ s) (last_trade_id_ s)
     (actions_processed_ s) (trades_aggregated_ s) (errors_encountered_ s)
     (first_clear_seen_ s).

(** [trade_state_ = st; pending_trade_ = p;] *)
Definition set_trade (st : TradeState) (p : option TradeInfo.t) (s : t) : t :=
  mk (order_book_ s) st p (last_trade_id_ s)
     (actions_processed_ s) (trades_aggregated_ s) (errors_encountered_ s)
     (first_clear_seen_ s).

Definition set_last_trade_id (id : Z) (s : t) : t :=
  mk (order_book_ s) (trade_state_ s) (pending_trade_ s) id
     (actions_processed_ s) (trades_aggregated_ s) (errors_encountered_ s)
     (first_clear_seen_ s).

Definition count_action (s : t) : t :=
  mk (order_book_ s) (trade_state_ s) (pending_trade_ s) (last_trade_id_ s)
     (incr64 (actions_processed_ s)) (trades_aggregated_ s) (errors_encountered_ s)
     (first_clear_seen_ s).

Definition count_trade (s : t) : t :=
  mk (order_book_ s) (trade_state_ s) (pending_trade_ s) (last_trade_id_ s)
     (actions_processed_ s) (incr64 (trades_aggregated_ s)) (errors_encountered_ s)
     (first_clear_seen_ s).

Definition count_error (s : t) : t :=
  mk (order_book_ s) (trade_state_ s) (pending_trade_ s) (last_trade_id_ s)
     (actions_processed_ s) (trades_aggregated_ s) (incr64 (errors_encountered_ s))
     (first_clear_seen_ s).

Definition set_first_clear_seen (v : bool) (s : t) : t :=
  mk (order_book_ s) (trade_state_ s) (pending_trade_ s) (last_trade_id_ s)
     (actions_processed_ s) (trades_aggregated_ s) (errors_encountered_ s) v.

Definition handle_add (event : Event.t) (s : t) : bool * t :=
  if Ascii.eqb (Event.side event) "N" then (false, s)
  else
    let '(success, b) :=
      OrderBook.add_order (Event.order_id event) (Event.price_raw event)
        (Event.size event) (Event.side event) (Event.timestamp_ns event)
        (order_book_ s) in
    let s := set_order_book b s in
    (success, if success then s else count_error s).

Definition handle_modify (event : Event.t) (s : t) : bool * t :=
  if Ascii.eqb (Event.side event) "N" then (false, s)
  else
    let '(success, b) :=
      OrderBook.modify_order (Event.order_id event) (Event.price_raw event)
        (Event.size event) (order_book_ s) in
    let s := set_order_book b s in
    (success, if success then s else count_error s).

Definition complete_trade_sequence (cancel_event : Event.t) (s : t) : bool * t :=
  match pending_trade_ s with
  | Some pending =>
      if bool_decide (trade_state_ s ≠ FILL_RECEIVED)
      then (false, set_trade IDLE None (count_error s))
      else
        let '(success, b) :=
          OrderBook.execute_trade (TradeInfo.price_raw pending)
            (TradeInfo.size pending) (TradeInfo.side pending) (order_book_ s) in
        let s := set_order_book b s in
        let s := if success then count_trade s else count_error s in
        (success, set_trade IDLE None s)
  | None => (false, set_trade IDLE None (count_error s))
  end.

Definition handle_cancel (event : Event.t) (s : t) : bool * t :=
  if bool_decide (trade_state_ s = FILL_RECEIVED)
  then complete_trade_sequence event s
  else
    let '(success, b) :=
      OrderBook.cancel_order (Event.order_id event) (order_book_ s) in
    let s := set_order_book b s in
    (success, if success then s else count_error s).

Definition handle_trade (event : Event.t) (s : t) : bool * t :=
  let pending :=
    TradeInfo.make (Event.timestamp_ns event) (Event.order_id event)
      (Event.price_raw event) (Event.size event) (Event.side event) in
  (false,
   set_last_trade_id (Event.order_id event)
     (set_trade TRADE_RECEIVED (Some pending) s)).

Definition handle_fill (event : Event.t) (s : t) : bool * t :=
  if bool_decide (trade_state_ s ≠ TRADE_RECEIVED)
  then (false, count_error s)
  else
    match pending_trade_ s with
    | Some pending =>
        if bool_decide (Event.order_id event = last_trade_id_ s)
        then (false,
              set_trade FILL_RECEIVED
                (Some (TradeInfo.set_is_aggressor_fill true pending)) s)
        else (false, count_error (set_trade IDLE None s))
    | None => (false, count_error (set_trade IDLE None s))
    end.

Definition handle_clear (event : Event.t) (s : t) : bool * t :=
  if negb (first_clear_seen_ s)
  then (false, set_first_clear_seen true s)
  else
    let s := set_order_book (OrderBook.clear (order_book_ s)) s in
    (true, set_trade IDLE None s).

Definition process_event (event : Event.t) (s : t) : bool * t :=
  let s := count_action s in
  let a := Event.action event in
  if Ascii.eqb a "A" then handle_add event s
  else if Ascii.eqb a "M" then handle_modify event s
  else if Ascii.eqb a "C" then handle_cancel event s
  else if Ascii.eqb a "T" then handle_trade event s
  else if Ascii.eqb a "F" then handle_fill event s
  else if Ascii.eqb a "R" then handle_clear event s
  else if Ascii.eqb a "N" then (true, s)
  else (false, count_error s).

(** The engine after a stream of events, from a given state. *)
Definition run (events : list Event.t) (s : t) : t :=
  foldl (λ s e, (process_event e s).2) s events.
End ActionEngine.

(** ** snapshot.hpp *)

Module SnapshotManager.
Record t := mk {
  current_snapshot_ : MBPSnapshot.t;
  previous_snapshot_ : MBPSnapshot.t;
  has_previous_ : bool;
  snapshots_generated_ : Z;
  snapshots_skipped_ : Z
}.

(** [SnapshotManager()] *)
Definition init : t := mk MBPSnapshot.init MBPSnapshot.init false 0 0.

(** Returns the decision, the manager, and the book with its cache. *)
Definition should_generate_snapshot (book : OrderBook.t) (timestamp : Z) (m : t)
    : bool * t * OrderBook.t :=
  let '(cur, book) := OrderBook.get_top10_snapshot (current_snapshot_ m) book in
  let cur := MBPSnapshot.set_timestamp_ns timestamp cur in
  if has_previous_ m && negb (MBPSnapshot.differs_from cur (previous_snapshot_ m))
  then
    (false,
     mk cur (previous_snapshot_ m) (has_previous_ m)
        (snapshots_generated_ m) (incr64 (snapshots_skipped_ m)),
     book)
  else
    (true,
     mk cur cur true (incr64 (snapshots_generated_ m)) (snapshots_skipped_ m),
     book).
End SnapshotManager.

(** ** Well-formed books *)

(** The sum of the sizes of the orders chained in a level. *)
Definition sizes_sum (st : gmap Z Order.t) (c : list ptr) : Z :=
  foldr (λ p acc, Order.size (deref st p) + acc) 0 c.

(** What the specification asks of one level: its two aggregates agree with
    its chain, and it holds at least one order. *)
Definition level_consistent (st : gmap Z Order.t) (l : Level.t) : Prop :=
  Level.total_size l = sizes_sum st (Level.chain l) ∧
  Level.order_count l = Z.of_nat (length (Level.chain l)) ∧
  Level.order_count l ≠ 0.

Definition levels_consistent (b : OrderBook.t) : Prop :=
  ∀ sm px l, OrderBook.levels sm b !! px = Some l →
    level_consistent (OrderBook.objects b) l.

(** The orders of a chain are allocated, distinct, carry the price of the
    level, and are the ones the id map designates for their ids. *)
Definition chain_ok (st : gmap Z Order.t) (om : gmap Z ptr) (px : Z)
    (c : list ptr) : Prop :=
  NoDup c ∧
  ∀ p, p ∈ c →
    ∃ o, st !! p = Some o ∧ Order.price_raw o = px ∧
         is_u32 (Order.size o) ∧ om !! Order.order_id o = Some p.

Record level_ok (st : gmap Z Order.t) (om : gmap Z ptr) (px : Z) (l : Level.t)
    : Prop := {
  lv_price : Level.price_raw l = px;
  lv_chain : chain_ok st om px (Level.chain l);
  lv_nonempty : Level.chain l ≠ [];
  lv_total : Level.total_size l = sizes_sum st (Level.chain l);
  lv_count : Level.order_count l = Z.of_nat (length (Level.chain l))
}.

Definition levels_ok (st : gmap Z Order.t) (om : gmap Z ptr)
    (m : gmap Z Level.t) : Prop :=
  ∀ px l, m !! px = Some l → level_ok st om px l.

(** The slab: free slots are distinct slab addresses that hold no order,
    and [operator new] has only handed out addresses below [heap_next_]. *)
Record pool_ok (p : OrderPool.t) : Prop := {
  pool_nodup : NoDup (OrderPool.free_list_ p);
  pool_free : ∀ q, q ∈ OrderPool.free_list_ p →
    0 <= q < OrderPool.POOL_SIZE ∧ OrderPool.objects_ p !! q = None;
  pool_heap : OrderPool.POOL_SIZE <= OrderPool.heap_next_ p;
  pool_below : ∀ q, is_Some (OrderPool.objects_ p !! q) → q < OrderPool.heap_next_ p
}.

(** No order is chained on both sides. *)
Definition sides_apart (bids asks : gmap Z Level.t) : Prop :=
  ∀ px lb la p, bids !! px = Some lb → asks !! px = Some la →
    p ∈ Level.chain lb → p ∈ Level.chain la → False.

(** The invariant of the book between two operations. *)
Record book_inv (b : OrderBook.t) : Prop := {
  inv_levels : ∀ sm,
    levels_ok (OrderBook.objects b) (OrderBook.order_map_ b) (OrderBook.levels sm b);
  inv_sides : sides_apart (OrderBook.levels Bids b) (OrderBook.levels Asks b);
  inv_ids : ∀ id p, OrderBook.order_map_ b !! id = Some p →
    ∃ o, OrderBook.objects b !! p = Some o ∧ Order.order_id o = id ∧
      ∃ sm l, OrderBook.levels sm b !! Order.price_raw o = Some l ∧ p ∈ Level.chain l;
  inv_capacity : Z.of_nat (size (OrderBook.order_map_ b)) < 2 ^ 32;
  inv_pool : pool_ok (OrderBook.order_pool_ b)
}.

(** What [remove_order_from] and [add_to_side] do to the map of one side. *)
Definition detach (st : gmap Z Order.t) (p : ptr) (px : Z)
    (m : gmap Z Level.t) : gmap Z Level.t :=
  match m !! px with
  | Some l =>
      let l' := Level.remove_order st p l in
      if Level.empty l' then delete px m else <[px := l']> m
  | None => m
  end.

Definition attach (st : gmap Z Order.t) (p : ptr) (px : Z)
    (m : gmap Z Level.t) : gmap Z Level.t :=
  let l := default Level.init (m !! px) in
  <[px := Level.add_order st p
            (if Level.empty l then Level.set_price_raw px l else l)]> m.

(** ** The walk of a trade through one level, as the specification words it *)

(** The outcome of a walk: the orders fully consumed, head first; the order
    that was larger than what remained, with the quantity taken off it; and
    the chain that is left. *)
Record fill := mkfill {
  filled : list ptr;
  cut : option (ptr * Z);
  rest : list ptr
}.

(** Head first, while some quantity remains: a head order no larger than
    what remains is consumed whole, the first larger one is cut by what
    remains and ends the walk.  [sz] gives the size of a resting order. *)
Fixpoint fifo_walk (sz : ptr → Z) (remaining : Z) (c : list ptr) : fill :=
  match c with
  | [] => mkfill [] None []
  | p :: c' =>
      if 0 <? remaining then
        if sz p <=? remaining then
          let r := fifo_walk sz (remaining - sz p) c' in
          mkfill (p :: filled r) (cut r) (rest r)
        else mkfill [] (Some (p, remaining)) c
      else mkfill [] None c
  end.

(** The same walk without the test that some quantity remains: every head
    order whose size is at most the remaining quantity is consumed. *)
Fixpoint fifo_walk_unguarded (sz : ptr → Z) (remaining : Z) (c : list ptr) : fill :=
  match c with
  | [] => mkfill [] None []
  | p :: c' =>
      if sz p <=? remaining then
        let r := fifo_walk_unguarded sz (remaining - sz p) c' in
        mkfill (p :: filled r) (cut r) (rest r)
      else mkfill [] (Some (p, remaining)) c
  end.

(** The quantity a walk takes out of the level. *)
Definition taken (st : gmap Z Order.t) (f : fill) : Z :=
  sizes_sum st (filled f) + match cut f with Some (_, x) => x | None => 0 end.

(** The store once the walk is done: consumed orders are gone, the cut
    order has its size reduced. *)
Definition fill_objects (st : gmap Z Order.t) (f : fill) : gmap Z Order.t :=
  let st' := foldr (λ q m, delete q m) st (filled f) in
  match cut f with
  | Some (q, x) =>
      <[q := Order.set_size (Order.size (deref st q) - x) (deref st q)]> st'
  | None => st'
  end.

Definition fill_ids (st : gmap Z Order.t) (f : fill) (om : gmap Z ptr) : gmap Z ptr :=
  foldr (λ q m, delete (Order.order_id (deref st q)) m) om (filled f).

Definition fill_levels (st : gmap Z Order.t) (f : fill) (price : Z) (l : Level.t)
    (m : gmap Z Level.t) : gmap Z Level.t :=
  match rest f with
  | [] => delete price m
  | _ =>
      <[price := Level.mk price (Level.total_size l - taken st f)
                   (Level.order_count l - Z.of_nat (length (filled f))) (rest f)]> m
  end.

(** The side a trade consumes from. *)
Definition passive_side (aggressor_side : ascii) : side_map :=
  if Ascii.eqb aggressor_side "B" then Asks else Bids.

(** The chain resting at a price on one side; empty if there is no level. *)
Definition chain_at (sm : side_map) (price : Z) (b : OrderBook.t) : list ptr :=
  match OrderBook.levels sm b !! price with
  | Some l => Level.chain l
  | None => []
  end.

Definition side_char (sm : side_map) : ascii :=
  match sm with Bids => "B"%char | Asks => "A"%char end.

Definition other_side (sm : side_map) : side_map :=
  match sm with Bids => Asks | Asks => Bids end.

(** ** The operations of the book, as data *)

Inductive book_op :=
  | OpAdd (order_id price size : Z) (side : ascii) (timestamp : Z)
  | OpModify (order_id new_price new_size : Z)
  | OpCancel (order_id : Z)
  | OpTrade (price size : Z) (aggressor_side : ascii)
  | OpClear.

Definition apply_op (op : book_op) (b : OrderBook.t) : OrderBook.t :=
  match op with
  | OpAdd id px sz sd ts => (OrderBook.add_order id px sz sd ts b).2
  | OpModify id px sz => (OrderBook.modify_order id px sz b).2
  | OpCancel id => (OrderBook.cancel_order id b).2
  | OpTrade px sz sd => (OrderBook.execute_trade px sz sd b).2
  | OpClear => OrderBook.clear b
  end.

(** Quantities are [uint32_t]. *)
Definition op_wf (op : book_op) : Prop :=
  match op with
  | OpAdd _ _ sz _ _ => is_u32 sz
  | OpModify _ _ sz => is_u32 sz
  | OpTrade _ sz _ => is_u32 sz
  | _ => True
  end.

Definition run_ops (ops : list book_op) (b : OrderBook.t) : OrderBook.t :=
  foldl (λ b op, apply_op op b) b ops.

(** ** Streams of events *)

(** The engine as the driver constructs it, after a stream of events. *)
Definition engine_after (events : list Event.t) (book : OrderBook.t) : ActionEngine.t :=
  ActionEngine.run events (ActionEngine.init book).

(** The last [T] event of a stream. *)
Definition last_trade (events : list Event.t) : option Event.t :=
  foldl (λ acc e, if Ascii.eqb (Event.action e) "T" then Some e else acc) None events.

(** The pending record [handle_trade] buffers for a [T] event. *)
Definition pending_of (e : Event.t) : TradeInfo.t :=
  TradeInfo.make (Event.timestamp_ns e) (Event.order_id e) (Event.price_raw e)
    (Event.size e) (Event.side e).

(** Whether a stream holds an [R] event. *)
Definition clear_seen (events : list Event.t) : bool :=
  existsb (λ e, Ascii.eqb (Event.action e) "R") events.

(** What the state machine of the engine holds after a stream: a pending
    record exactly when a trade sequence is open, built from the last [T]. *)
Definition engine_inv (events : list Event.t) (s : ActionEngine.t) : Prop :=
  ActionEngine.first_clear_seen_ s = clear_seen events ∧
  match ActionEngine.trade_state_ s with
  | IDLE => ActionEngine.pending_trade_ s = None
  | TRADE_RECEIVED =>
      ∃ t, last_trade events = Some t ∧
           ActionEngine.pending_trade_ s = Some (pending_of t) ∧
           ActionEngine.last_trade_id_ s = Event.order_id t
  | FILL_RECEIVED =>
      ∃ t, last_trade events = Some t ∧
           ActionEngine.pending_trade_ s =
             Some (TradeInfo.set_is_aggressor_fill true (pending_of t)) ∧
           ActionEngine.last_trade_id_ s = Event.order_id t
  end.

(** The action characters the engine knows. *)
Definition known_action (a : ascii) : bool :=
  Ascii.eqb a "A" || Ascii.eqb a "M" || Ascii.eqb a "C" || Ascii.eqb a "T" ||
  Ascii.eqb a "F" || Ascii.eqb a "R" || Ascii.eqb a "N".

(** The input-data errors of the specification, for an event arriving in a
    given engine state. *)
Inductive input_error (s : ActionEngine.t) (e : Event.t) : Prop :=
  | unknown_action :
      known_action (Event.action e) = false → input_error s e
  | duplicate_add :
      Event.action e = "A"%char → Event.side e ≠ "N"%char →
      is_Some (OrderBook.order_map_ (ActionEngine.order_book_ s) !! Event.order_id e) →
      input_error s e
  | modify_unknown :
      Event.action e = "M"%char → Event.side e ≠ "N"%char →
      OrderBook.order_map_ (ActionEngine.order_book_ s) !! Event.order_id e = None →
      input_error s e
  | cancel_unknown :
      Event.action e = "C"%char → ActionEngine.trade_state_ s ≠ FILL_RECEIVED →
      OrderBook.order_map_ (ActionEngine.order_book_ s) !! Event.order_id e = None →
      input_error s e
  | fill_out_of_state :
      Event.action e = "F"%char → ActionEngine.trade_state_ s ≠ TRADE_RECEIVED →
      input_error s e
  | fill_mismatched :
      Event.action e = "F"%char → ActionEngine.trade_state_ s = TRADE_RECEIVED →
      Event.order_id e ≠ ActionEngine.last_trade_id_ s →
      input_error s e.

(** An [A] or [M] event that carries the side [N]. *)
Definition invalid_side (e : Event.t) : Prop :=
  (Event.action e = "A"%char ∨ Event.action e = "M"%char) ∧ Event.side e = "N"%char.

(** Counted and dropped: the error counter goes up by one, the book stays. *)
Definition counted_and_dropped (s : ActionEngine.t) (e : Event.t) : Prop :=
  let s' := (ActionEngine.process_event e s).2 in
  ActionEngine.errors_encountered_ s' = incr64 (ActionEngine.errors_encountered_ s) ∧
  ActionEngine.order_book_ s' = ActionEngine.order_book_ s.

(** ** The emitter over a sequence of invocations *)

(** The four arrays the change detection compares. *)
Definition arrays (s : MBPSnapshot.t) : list Z * list Z * list Z * list Z :=
  (MBPSnapshot.bid_px s, MBPSnapshot.bid_sz s, MBPSnapshot.ask_px s, MBPSnapshot.ask_sz s).

(** The top-10 arrays the book hands out. *)
Definition top10_of (book : OrderBook.t) : list Z * list Z * list Z * list Z :=
  arrays (OrderBook.get_top10_snapshot MBPSnapshot.init book).1.

(** The decisions of the manager over successive invocations. *)
Fixpoint decisions (m : SnapshotManager.t) (calls : list (OrderBook.t * Z)) : list bool :=
  match calls with
  | [] => []
  | (book, timestamp) :: calls' =>
      let '(d, m', _) := SnapshotManager.should_generate_snapshot book timestamp m in
      d :: decisions m' calls'
  end.

(** The specification: a line is emitted when nothing was emitted before, or
    when the arrays differ from the ones last emitted. *)
Fixpoint emits (previous : option (list Z * list Z * list Z * list Z))
    (calls : list (OrderBook.t * Z)) : list bool :=
  match calls with
  | [] => []
  | (book, _) :: calls' =>
      let current := top10_of book in
      let emit :=
        match previous with
        | None => true
        | Some p => negb (bool_decide (current = p))
        end in
      emit :: emits (if emit then Some current else previous) calls'
  end.

(** The arrays last emitted, after a sequence of invocations. *)
Fixpoint last_emitted (previous : option (list Z * list Z * list Z * list Z))
    (calls : list (OrderBook.t * Z)) : option (list Z * list Z * list Z * list Z) :=
  match calls with
  | [] => previous
  | (book, _) :: calls' =>
      let current := top10_of book in
      let emit :=
        match previous with
        | None => true
        | Some p => negb (bool_decide (current = p))
        end in
      last_emitted (if emit then Some current else previous) calls'
  end.

(** The manager holds the arrays last emitted, if any. *)
Definition holds_previous (m : SnapshotManager.t)
    (previous : option (list Z * list Z * list Z * list Z)) : Prop :=
  match previous with
  | None => SnapshotManager.has_previous_ m = false
  | Some p =>
      SnapshotManager.has_previous_ m = true ∧
      arrays (SnapshotManager.previous_snapshot_ m) = p
  end.

(** ** The engine, handler by handler *)

(** Which handler [process_event] hands an event to: the [switch] on the
    action character, after [++actions_processed_]. *)
Inductive dispatch (e : Event.t) (s : ActionEngine.t) : Prop :=
  | on_add : Event.action e = "A"%char →
      ActionEngine.process_event e s =
        ActionEngine.handle_add e (ActionEngine.count_action s) → dispatch e s
  | on_modify : Event.action e = "M"%char →
      ActionEngine.process_event e s =
        ActionEngine.handle_modify e (ActionEngine.count_action s) → dispatch e s
  | on_cancel : Event.action e = "C"%char →
      ActionEngine.process_event e s =
        ActionEngine.handle_cancel e (ActionEngine.count_action s) → dispatch e s
  | on_trade : Event.action e = "T"%char →
      ActionEngine.process_event e s =
        ActionEngine.handle_trade e (ActionEngine.count_action s) → dispatch e s
  | on_fill : Event.action e = "F"%char →
      ActionEngine.process_event e s =
        ActionEngine.handle_fill e (ActionEngine.count_action s) → dispatch e s
  | on_clear : Event.action e = "R"%char →
      ActionEngine.process_event e s =
        ActionEngine.handle_clear e (ActionEngine.count_action s) → dispatch e s
  | on_noop : Event.action e = "N"%char →
      ActionEngine.process_event e s = (true, ActionEngine.count_action s) → dispatch e s
  | on_unknown : known_action (Event.action e) = false →
      ActionEngine.process_event e s =
        (false, ActionEngine.count_error (ActionEngine.count_action s)) → dispatch e s.

(** The trade state machine and the clear flag are left alone. *)
Definition same_machine (s s' : ActionEngine.t) : Prop :=
  ActionEngine.trade_state_ s' = ActionEngine.trade_state_ s ∧
  ActionEngine.pending_trade_ s' = ActionEngine.pending_trade_ s ∧
  ActionEngine.last_trade_id_ s' = ActionEngine.last_trade_id_ s ∧
  ActionEngine.first_clear_seen_ s' = ActionEngine.first_clear_seen_ s.

(** The book the engine drives is well formed, holds at most [n] orders,
    and a buffered trade carries a 32-bit quantity. *)
Definition engine_book_ok (n : nat) (s : ActionEngine.t) : Prop :=
  book_inv (ActionEngine.order_book_ s) ∧
  (size (OrderBook.order_map_ (ActionEngine.order_book_ s)) ≤ n)%nat ∧
  ∀ t, ActionEngine.pending_trade_ s = Some t → is_u32 (TradeInfo.size t).

(** The walk of a trade read without the test that some quantity remains:
    the chain left at the price is the one [fifo_walk_unguarded] leaves. *)
Definition trade_walk_as_stated (b : OrderBook.t) (price size : Z) (side : ascii) : Prop :=
  ∀ l, OrderBook.levels (passive_side side) b !! price = Some l →
    chain_at (passive_side side) price (OrderBook.execute_trade price size side b).2 =
    rest (fifo_walk_unguarded (λ q, Order.size (deref (OrderBook.objects b) q))
            size (Level.chain l)).

(** ** Concrete books and streams *)

Definition book_of (ops : list book_op) : OrderBook.t := run_ops ops OrderBook.init.

Definition demo_ops : list book_op :=
  [OpAdd 1001 10050 100 "B" 1000; OpAdd 1002 10050 150 "B" 2000;
   OpAdd 2001 10100 300 "A" 3000; OpModify 1001 10075 120;
   OpTrade 10100 100 "B"; OpCancel 1002; OpClear;
   OpAdd 1 10000 100 "B" 4000].

(** [n] orders of size 1 added at one bid price, with the ids [0 .. n-1]. *)
Definition many_adds (n : nat) : list book_op :=
  (λ i : nat, OpAdd (Z.of_nat i) 10000 1 "B" 0) <$> seq 0 n.

(** Two bids at two prices. *)
Definition two_bids_book : OrderBook.t :=
  run_ops [OpAdd 1001 10050 100 "B" 1000; OpAdd 1002 10075 150 "B" 2000] OrderBook.init.

(** An ask of size 5 followed, at the same price, by an ask of size 0. *)
Definition zero_size_book : OrderBook.t :=
  run_ops [OpAdd 1 10100 5 "A" 1; OpAdd 2 10100 0 "A" 2] OrderBook.init.

(** The sequence of the repository's engine test: an ask, then [T], [F]. *)
Definition tfc_stream : list Event.t :=
  [Event.make 1000 "A" "A" 10100 200 1001;
   Event.make 2000 "T" "B" 10100 100 2001;
   Event.make 3000 "F" "B" 10100 100 2001].

Definition tfc_cancel : Event.t := Event.make 4000 "C" "B" 10100 0 2001.

(** A matched [T], [F] pair, and a second [F] that follows it. *)
Definition stray_fill_stream : list Event.t :=
  [Event.make 1000 "T" "B" 10100 100 7; Event.make 2000 "F" "B" 10100 100 7].

Definition stray_fill : Event.t := Event.make 3000 "F" "B" 10100 100 9.

(** An add that carries no side. *)
Definition side_n_add : Event.t := Event.make 1000 "A" "N" 10000 100 1.

(** A stream that opens with a clear, and a clear that comes later. *)
Definition two_clears : list Event.t :=
  [Event.make 1 "R" "N" 0 0 0; Event.make 2 "A" "B" 10000 100 1].

Definition later_clear : Event.t := Event.make 3 "R" "N" 0 0 0.

(** * The queries of the book, the formatter, the parser and the driver *)

(** ** The book seen through its queries *)

(** The arrays [update_cache] computes from the two side maps. *)
Definition fresh_top10 (b : OrderBook.t) : list Z * list Z * list Z * list Z :=
  (OrderBook.top10 fst 0 (OrderBook.bids_in_order (OrderBook.bid_levels_ b)),
   OrderBook.top10 (λ x, Level.total_size x.2) 0
     (OrderBook.bids_in_order (OrderBook.bid_levels_ b)),
   OrderBook.top10 fst 0 (OrderBook.asks_in_order (OrderBook.ask_levels_ b)),
   OrderBook.top10 (λ x, Level.total_size x.2) 0
     (OrderBook.asks_in_order (OrderBook.ask_levels_ b))).

(** The cached arrays, when flagged valid, are the ones of the side maps. *)
Definition cache_coherent (b : OrderBook.t) : Prop :=
  OrderBook.cache_valid_ b = true →
  (OrderBook.cached_bid_prices_ b, OrderBook.cached_bid_sizes_ b,
   OrderBook.cached_ask_prices_ b, OrderBook.cached_ask_sizes_ b) = fresh_top10 b.

(** The public calls of the book: the five operations, and the read of the
    top ten levels, which refreshes the cache. *)
Inductive book_call :=
  | CallOp (op : book_op)
  | CallTop10.

Definition apply_call (c : book_call) (b : OrderBook.t) : OrderBook.t :=
  match c with
  | CallOp op => apply_op op b
  | CallTop10 => (OrderBook.get_top10_snapshot MBPSnapshot.init b).2
  end.

Definition run_calls (calls : list book_call) (b : OrderBook.t) : OrderBook.t :=
  foldl (λ b c, apply_call c b) b calls.

(** [get_total_orders()] and [get_price_levels()] *)
Definition get_total_orders (b : OrderBook.t) : Z := OrderBook.total_orders_processed_ b.
Definition get_price_levels (b : OrderBook.t) : nat :=
  size (OrderBook.bid_levels_ b) + size (OrderBook.ask_levels_ b).

(** The number of orders chained in the levels of one side. *)
Definition chained (m : gmap Z Level.t) : Z :=
  map_fold (λ _ l acc, Level.order_count l + acc) 0 m.

(** The quantity resting at a price on one side; zero if there is no level. *)
Definition depth_at (sm : side_map) (price : Z) (b : OrderBook.t) : Z :=
  match OrderBook.levels sm b !! price with
  | Some l => Level.total_size l
  | None => 0
  end.

(** The number of levels of a side map priced above, and below, a price. *)
Definition levels_above (m : gmap Z Level.t) (px : Z) : nat :=
  length (filter (λ x, px < x.1) (map_to_list m)).
Definition levels_below (m : gmap Z Level.t) (px : Z) : nat :=
  length (filter (λ x, x.1 < px) (map_to_list m)).

(** The orders chained in the levels of one side. *)
Definition chains (m : gmap Z Level.t) : list ptr :=
  map_to_list m ≫= λ x, Level.chain x.2.

(** ** action_engine.hpp: the verbose engine *)

Module VerboseActionEngine.
Record ActionStats := mkstats {
adds : Z;
modifies : Z;
cancels : Z;
trades : Z;
fills : Z;
clears : Z;
noops : Z
}.

(** The base-class part and the statistics. *)
Record t := mk {
base : ActionEngine.t;
stats_ : ActionStats
}.

(** [VerboseActionEngine(book)] *)
Definition init (book : OrderBook.t) : t :=
mk (ActionEngine.init book) (mkstats 0 0 0 0 0 0 0).

(** The [switch] on the action character: one counter goes up, or none. *)
Definition count (a : ascii) (st : ActionStats) : ActionStats :=
if Ascii.eqb a "A" then
  mkstats (incr64 (adds st)) (modifies st) (cancels st) (trades st) (fills st)
    (clears st) (noops st)
else if Ascii.eqb a "M" then
  mkstats (adds st) (incr64 (modifies st)) (cancels st) (trades st) (fills st)
    (clears st) (noops st)
else if Ascii.eqb a "C" then
  mkstats (adds st) (modifies st) (incr64 (cancels st)) (trades st) (fills st)
    (clears st) (noops st)
else if Ascii.eqb a "T" then
  mkstats (adds st) (modifies st) (cancels st) (incr64 (trades st)) (fills st)
    (clears st) (noops st)
else if Ascii.eqb a "F" then
  mkstats (adds st) (modifies st) (cancels st) (trades st) (incr64 (fills st))
    (clears st) (noops st)
else if Ascii.eqb a "R" then
  mkstats (adds st) (modifies st) (cancels st) (trades st) (fills st)
    (incr64 (clears st)) (noops st)
else if Ascii.eqb a "N" then
  mkstats (adds st) (modifies st) (cancels st) (trades st) (fills st)
    (clears st) (incr64 (noops st))
else st.

Definition process_event_verbose (event : Event.t) (v : t) : bool * t :=
let st := count (Event.action event) (stats_ v) in
let '(r, e) := ActionEngine.process_event event (base v) in
(r, mk e st).

(** The verbose engine after a stream of events, with the bits returned. *)
Definition run (events : list Event.t) (v : t) : list bool * t :=
foldl (λ acc e,
         let '(r, v) := process_event_verbose e acc.2 in (acc.1 ++ [r], v))
      ([], v) events.
End VerboseActionEngine.

(** The bits [process_event] returns over a stream. *)
Definition bits_of (events : list Event.t) (s : ActionEngine.t) : list bool :=
  (foldl (λ acc e,
            let '(r, s) := ActionEngine.process_event e acc.2 in (acc.1 ++ [r], s))
         ([], s) events).1.

(** The number of events of a stream that carry a given action. *)
Definition events_with (a : ascii) (events : list Event.t) : nat :=
  length (filter (λ e, Event.action e = a) events).

(** ** Text *)

(** Text is a list of characters; [std::string] and the mapped file alike. *)
Abbreviation text := (list ascii) (only parsing).

Definition char_code (c : ascii) : Z := Z.of_N (N_of_ascii c).

(** ['0' + d] *)
Definition digit_char (d : Z) : ascii := ascii_of_N (Z.to_N (48 + d)).

(** [c >= '0' && c <= '9'], and [c - '0'] *)
Definition is_digit (c : ascii) : bool :=
  (48 <=? char_code c) && (char_code c <=? 57).
Definition digit_of (c : ascii) : Z := char_code c - 48.

(** The decimal digits of a natural number, most significant first, in
    front of [acc]; [fuel] bounds their number. *)
Fixpoint decimal (fuel : nat) (n : Z) (acc : list ascii) : list ascii :=
  match fuel with
  | O => acc
  | S fuel' =>
      if n <? 10 then digit_char n :: acc
      else decimal fuel' (n / 10) (digit_char (n mod 10) :: acc)
  end.

(** [std::to_string] on an integer of at most 64 bits: at most twenty
    digits, after a minus sign for a negative number. *)
Definition to_string (n : Z) : list ascii :=
  if n <? 0 then "-"%char :: decimal 20 (- n) [] else decimal 20 n [].

(** The number a run of decimal digits denotes. *)
Definition decimal_value (l : list ascii) : Z :=
  foldl (λ acc c, acc * 10 + digit_of c) 0 l.

(** The number of occurrences of a character. *)
Definition occurrences (c : ascii) (l : list ascii) : nat :=
  length (filter (λ x, x = c) l).

(** ** snapshot.hpp: the formatter *)

Module MBPFormatter.
(** [%02lld]: two digits for [0 .. 99]; a negative number already fills
  the width with its sign. *)
Definition pad2 (frac : Z) : list ascii :=
if frac <? 0 then to_string frac
else if frac <? 10 then "0"%char :: to_string frac
else to_string frac.

(** [snprintf(buffer, 32, ...)] keeps at most 31 characters. *)
Definition price_to_string (price_raw : Z) : list ascii :=
let whole := Z.quot price_raw 100 in
let frac := Z.rem price_raw 100 in
if frac =? 0 then to_string whole
else take 31 (to_string whole ++ "."%char :: pad2 frac).

(** [a[i]] on an array of ten. *)
Definition at_index (a : list Z) (i : nat) : Z := default 0 (a !! i).

(** One pass of a [for] loop of [format_snapshot]: the two fields of level
  [i], each after its comma, a zero printing as nothing. *)
Definition format_level (px sz : list Z) (i : nat) : list ascii :=
","%char :: (if at_index px i =? 0 then [] else price_to_string (at_index px i)) ++
","%char :: (if at_index sz i =? 0 then [] else to_string (at_index sz i)).

Definition format_snapshot (snapshot : MBPSnapshot.t) : list ascii :=
to_string (MBPSnapshot.timestamp_ns snapshot) ++
(seq 0 10 ≫= format_level (MBPSnapshot.bid_px snapshot) (MBPSnapshot.bid_sz snapshot)) ++
(seq 0 10 ≫= format_level (MBPSnapshot.ask_px snapshot) (MBPSnapshot.ask_sz snapshot)) ++
["010"%char].
End MBPFormatter.

Module CSVHeader.
Definition format_level_index (index : Z) : list ascii :=
if index <? 10 then "0"%char :: to_string index else to_string index.

Definition generate_mbp_header : list ascii :=
["t"; "s"; "_"; "e"; "v"; "e"; "n"; "t"]%char ++
(seq 0 10 ≫= λ i,
   ([","; "b"; "i"; "d"; "_"; "p"; "x"; "_"]%char ++ format_level_index (Z.of_nat i)) ++
   ([","; "b"; "i"; "d"; "_"; "s"; "z"; "_"]%char ++ format_level_index (Z.of_nat i))) ++
(seq 0 10 ≫= λ i,
   ([","; "a"; "s"; "k"; "_"; "p"; "x"; "_"]%char ++ format_level_index (Z.of_nat i)) ++
   ([","; "a"; "s"; "k"; "_"; "s"; "z"; "_"]%char ++ format_level_index (Z.of_nat i))) ++
["010"%char].
End CSVHeader.

(** ** snapshot.hpp: the statistics *)

(** A value of type [double], by the expression that computes it.  The
    rounding of the division and the digits that [%.2f] prints are the C
    library's, and are not modelled. *)
Inductive double :=
  | DZero                      (* [0.0] *)
  | DQuotient (a b : Z)        (* [static_cast<double>(a) / b] *)
  | DPercent (x : double).     (* [x * 100.0] *)

(** What is written to the standard output: characters, and the fields
    that [printf] formats with [%.2f], which hold no newline. *)
Inductive printed :=
  | Text (s : list ascii)
  | Fixed2 (x : double).

(** The number of newline characters written. *)
Definition newlines (out : list printed) : nat :=
  foldr (λ x n, match x with
                | Text s => (occurrences "010" s + n)%nat
                | Fixed2 _ => n
                end) 0%nat out.

(** [SnapshotManager::get_compression_ratio] *)
Definition get_compression_ratio (m : SnapshotManager.t) : double :=
  let total :=
    wrap64 (SnapshotManager.snapshots_generated_ m + SnapshotManager.snapshots_skipped_ m) in
  if 0 <? total then DQuotient (SnapshotManager.snapshots_skipped_ m) total else DZero.

(** [printf] of a label followed by a [%llu] field and a newline. *)
Definition printf_llu (label : list ascii) (value : Z) : printed :=
  Text (label ++ to_string value ++ ["010"%char]).

Module SnapshotProcessor.
Record t := mk {
manager_ : SnapshotManager.t;
total_events_processed_ : Z;
snapshots_written_ : Z
}.

(** [SnapshotProcessor()] *)
Definition init : t := mk SnapshotManager.init 0 0.

(** Returns the line, empty when nothing is to be written, the processor,
  and the book with its cache. *)
Definition process_event (book : OrderBook.t) (timestamp : Z) (p : t)
  : list ascii * t * OrderBook.t :=
let total := incr64 (total_events_processed_ p) in
let '(emit, m, book) :=
  SnapshotManager.should_generate_snapshot book timestamp (manager_ p) in
if emit
then (MBPFormatter.format_snapshot (SnapshotManager.current_snapshot_ m),
      mk m total (incr64 (snapshots_written_ p)), book)
else ([], mk m total (snapshots_written_ p), book).

(** [output.clear()], then one [push_back] for each line that is not empty. *)
Definition process_events_batch (book : OrderBook.t) (timestamps : list Z) (p : t)
  : list (list ascii) * t * OrderBook.t :=
foldl (λ acc timestamp,
         let '(output, p, book) := acc in
         let '(snapshot, p, book) := process_event book timestamp p in
         (if bool_decide (snapshot = []) then output else output ++ [snapshot],
          p, book))
      ([], p, book) timestamps.

(** [print_statistics()]: six lines on the standard output, and a seventh
  when an event was processed. *)
Definition print_statistics (p : t) : list printed :=
[Text ["S"; "n"; "a"; "p"; "s"; "h"; "o"; "t"; " "; "S"; "t"; "a"; "t"; "i"; "s"; "t"; "i";
   "c"; "s"; ":"; "010"]%char;
 printf_llu [" "; " "; "E"; "v"; "e"; "n"; "t"; "s"; " "; "p"; "r"; "o"; "c"; "e"; "s"; "s"; "e";
   "d"; ":"; " "]%char
   (total_events_processed_ p);
 printf_llu [" "; " "; "S"; "n"; "a"; "p"; "s"; "h"; "o"; "t"; "s"; " "; "w"; "r"; "i"; "t"; "t";
   "e"; "n"; ":"; " "]%char
   (snapshots_written_ p);
 printf_llu [" "; " "; "S"; "n"; "a"; "p"; "s"; "h"; "o"; "t"; "s"; " "; "g"; "e"; "n"; "e"; "r";
   "a"; "t"; "e"; "d"; ":"; " "]%char
   (SnapshotManager.snapshots_generated_ (manager_ p));
 printf_llu [" "; " "; "S"; "n"; "a"; "p"; "s"; "h"; "o"; "t"; "s"; " "; "s"; "k"; "i"; "p"; "p";
   "e"; "d"; ":"; " "]%char
   (SnapshotManager.snapshots_skipped_ (manager_ p));
 Text [" "; " "; "C"; "o"; "m"; "p"; "r"; "e"; "s"; "s"; "i"; "o"; "n"; " "; "r"; "a"; "t";
   "i"; "o"; ":"; " "]%char;
 Fixed2 (DPercent (get_compression_ratio (manager_ p)));
 Text ["%"; "010"]%char] ++
(if 0 <? total_events_processed_ p
 then [Text [" "; " "; "O"; "u"; "t"; "p"; "u"; "t"; " "; "r"; "a"; "t"; "e"; ":"; " "]%char;
       Fixed2 (DPercent (DQuotient (snapshots_written_ p) (total_events_processed_ p)));
       Text ["%"; "010"]%char]
 else []).
End SnapshotProcessor.

(** The values a snapshot can hold: 64-bit unsigned timestamp and sizes,
    64-bit signed prices. *)
Definition is_i64 (z : Z) : Prop := - 2 ^ 63 <= z < 2 ^ 63.

Definition snapshot_wf (s : MBPSnapshot.t) : Prop :=
  is_u64 (MBPSnapshot.timestamp_ns s) ∧
  Forall is_i64 (MBPSnapshot.bid_px s) ∧ Forall is_u64 (MBPSnapshot.bid_sz s) ∧
  Forall is_i64 (MBPSnapshot.ask_px s) ∧ Forall is_u64 (MBPSnapshot.ask_sz s).

(** ** csv_parser.hpp *)

(** What leaves [parse_next_event] without a result: a read through
    [current_] when [current_ == end_], and an [int64_t] computation whose
    value does not fit. *)
Inductive fault := OutOfBounds | SignedOverflow.

Module FastCSVParser.
(** The mapped file from [current_] up to [end_], and the header flag. *)
Record t := mk {
current_ : list ascii;
first_line_skipped_ : bool
}.

(** [FastCSVParser(filename)] on a file that opens and is mapped, holding
  [data].  The constructor throws otherwise; [mmap] refuses a length of
  zero, so that [data] is not empty. *)
Definition make (data : list ascii) : t := mk data false.

Definition set_current (l : list ascii) (st : t) : t := mk l (first_line_skipped_ st).

(** A member function: the parser goes in, and a fault or a result with
  the parser comes out. *)
Definition M (A : Type) : Type := t → fault + A * t.

#[global] Instance M_ret : MRet M := λ A a st, inr (a, st).
#[global] Instance M_bind : MBind M := λ A B f m st,
match m st with
| inl e => inl e
| inr (a, st') => f a st'
end.

Definition get : M t := λ st, inr (st, st).
Definition failure {A} (e : fault) : M A := λ _, inl e.

(** [current_ >= end_] *)
Definition at_end (st : t) : bool := bool_decide (current_ st = []).

(** [*current_], with no test against [end_]. *)
Definition read_char : M ascii := λ st,
match current_ st with
| c :: _ => inr (c, st)
| [] => inl OutOfBounds
end.

(** [while (current_ < end_ && *current_ >= '0' && *current_ <= '9')] with
  [result = result * 10 + digit], [digit] being [*current_ - '0'], in unsigned arithmetic. *)
Fixpoint digits_loop (wrap : Z → Z) (result : Z) (l : list ascii) : Z * list ascii :=
match l with
| c :: l' =>
    if is_digit c then digits_loop wrap (wrap (result * 10 + digit_of c)) l'
    else (result, l)
| [] => (result, [])
end.

Definition parse_uint64 : M Z := λ st,
let '(result, l) := digits_loop wrap64 0 (current_ st) in
inr (result, set_current l st).

Definition parse_uint32 : M Z := λ st,
let '(result, l) := digits_loop wrap32 0 (current_ st) in
inr (result, set_current l st).

(** A value of type [int64_t]. *)
Definition int64 (z : Z) : M Z := λ st,
if bool_decide (- 2 ^ 63 <= z < 2 ^ 63) then inr (z, st) else inl SignedOverflow.

(** The same loop in [int64_t]; [result] never being negative, the sum
  fits whenever it does not exceed the largest value. *)
Fixpoint price_digits (result : Z) (l : list ascii) : fault + Z * list ascii :=
match l with
| c :: l' =>
    if is_digit c then
      if result * 10 + digit_of c <? 2 ^ 63
      then price_digits (result * 10 + digit_of c) l'
      else inl SignedOverflow
    else inr (result, l)
| [] => inr (result, [])
end.

Definition expect_char (expected : ascii) : M unit := λ st,
match current_ st with
| c :: l => if Ascii.eqb c expected then inr (tt, set_current l st) else inr (tt, st)
| [] => inr (tt, st)
end.

Definition advance_char : M unit := λ st,
match current_ st with
| _ :: l => inr (tt, set_current l st)
| [] => inr (tt, st)
end.

(** The text after the first newline; nothing if there is none. *)
Fixpoint after_newline (l : list ascii) : list ascii :=
match l with
| c :: l' => if Ascii.eqb c "010" then l' else after_newline l'
| [] => []
end.

Definition skip_to_next_line : M unit := λ st,
inr (tt, set_current (after_newline (current_ st)) st).

(** [if (current_ < end_ && digit) { result += digit * weight; ++current_; }] *)
Definition fraction_digit (weight : Z) (result : Z) : M Z := λ st,
match current_ st with
| c :: l =>
    if is_digit c
    then (result ← int64 (result + digit_of c * weight); mret result) (set_current l st)
    else inr (result, st)
| [] => inr (result, st)
end.

Definition parse_price : M Z :=
c ← read_char;
negative ← (if Ascii.eqb c "-" then _ ← advance_char; mret true else mret false);
result ← (λ st,
  match price_digits 0 (current_ st) with
  | inl e => inl e
  | inr (result, l) => inr (result, set_current l st)
  end);
st ← get;
result ← match current_ st with
         | c :: _ =>
             if Ascii.eqb c "." then
               _ ← advance_char;
               result ← int64 (result * 100);
               result ← fraction_digit 10 result;
               fraction_digit 1 result
             else int64 (result * 100)
         | [] => int64 (result * 100)
         end;
mret (if negative : bool then - result else result).

Definition set_first_line_skipped (v : bool) : M unit := λ st,
inr (tt, mk (current_ st) v).

(** The fields are written into [event] as they are read; [sequence] is
  never written. *)
Definition parse_next_event (event : Event.t) : M (bool * Event.t) :=
st ← get;
if at_end st then mret (false, event) else
more ← (if first_line_skipped_ st then mret true
        else _ ← skip_to_next_line;
             _ ← set_first_line_skipped true;
             st ← get;
             mret (negb (at_end st)));
if negb more then mret (false, event) else
timestamp_ns ← parse_uint64;
_ ← expect_char ",";
action ← read_char;
_ ← advance_char;
_ ← expect_char ",";
side ← read_char;
_ ← advance_char;
_ ← expect_char ",";
price_raw ← parse_price;
_ ← expect_char ",";
size ← parse_uint32;
_ ← expect_char ",";
order_id ← parse_uint64;
_ ← skip_to_next_line;
mret (true,
      Event.mk timestamp_ns order_id price_raw size (Event.sequence event) action side).
End FastCSVParser.

(** ** main.cpp: the driver *)

Module MBPReconstructor.
(** The engine holds the book ([*order_book_]); what goes to [std::cerr] is
  left out. *)
Record t := mk {
action_engine_ : ActionEngine.t;
snapshot_processor_ : SnapshotProcessor.t;
events_processed_ : Z;
snapshots_emitted_ : Z
}.

(** [MBPReconstructor()] *)
Definition init : t :=
mk (ActionEngine.init OrderBook.init) SnapshotProcessor.init 0 0.

(** The body of the [while] loop for one parsed event: the text it sends
  to [std::cout], and the reconstructor.  The emitter reads the book the
  engine drives, and leaves its cache in it. *)
Definition step (event : Event.t) (r : t) : list ascii * t :=
let events := incr64 (events_processed_ r) in
let '(should_snapshot, engine) :=
  ActionEngine.process_event event (action_engine_ r) in
if should_snapshot then
  let '(snapshot_line, processor, book) :=
    SnapshotProcessor.process_event (ActionEngine.order_book_ engine)
      (Event.timestamp_ns event) (snapshot_processor_ r) in
  let engine := ActionEngine.set_order_book book engine in
  if bool_decide (snapshot_line = [])
  then ([], mk engine processor events (snapshots_emitted_ r))
  else (snapshot_line, mk engine processor events (incr64 (snapshots_emitted_ r)))
else ([], mk engine (snapshot_processor_ r) events (snapshots_emitted_ r)).

(** [while (parser.parse_next_event(event))], at most [fuel] passes; [None]
  when the passes run out. *)
Fixpoint loop (fuel : nat) (parser : FastCSVParser.t) (event : Event.t) (r : t)
  (out : list ascii) : option (fault + list ascii * t) :=
match fuel with
| O => None
| S fuel' =>
    match FastCSVParser.parse_next_event event parser with
    | inl e => Some (inl e)
    | inr ((false, _), _) => Some (inr (out, r))
    | inr ((true, event), parser) =>
        let '(line, r) := step event r in
        loop fuel' parser event r (out ++ line)
    end
end.

(** [print_statistics()]: the lines sent to [std::cerr] are left out; the
  processor writes its own to the standard output. *)
Definition print_statistics (r : t) : list printed :=
SnapshotProcessor.print_statistics (snapshot_processor_ r).

(** [reconstruct] on a file holding [data], not empty, with at most [fuel]
  passes of the loop: what it writes to the standard output, the header
  and the lines of the loop first, the statistics after them, and the
  reconstructor it leaves.  [event] is the uninitialised [Event event;]
  the loop writes into. *)
Definition reconstruct_within (fuel : nat) (data : list ascii) (event : Event.t)
  : option (fault + list printed * t) :=
match loop fuel (FastCSVParser.make data) event init CSVHeader.generate_mbp_header with
| Some (inr (out, r)) => Some (inr (Text out :: print_statistics r, r))
| Some (inl e) => Some (inl e)
| None => None
end.

(** Each pass consumes at least one character, so [length data + 1] passes
  are enough, as is proved below. *)
Definition reconstruct (data : list ascii) (event : Event.t)
  : option (fault + list printed * t) :=
reconstruct_within (S (length data)) data event.
End MBPReconstructor.

(** The events [parse_next_event] yields until it returns false, with the
    same bound on the number of passes. *)
Fixpoint parsed_events (fuel : nat) (parser : FastCSVParser.t) (event : Event.t)
    : option (fault + list Event.t) :=
  match fuel with
  | O => None
  | S fuel' =>
      match FastCSVParser.parse_next_event event parser with
      | inl e => Some (inl e)
      | inr ((false, _), _) => Some (inr [])
      | inr ((true, event), parser) =>
          match parsed_events fuel' parser event with
          | Some (inr events) => Some (inr (event :: events))
          | other => other
          end
      end
  end.

(** The driver on a stream of events already parsed: the lines written. *)
Definition run_steps (events : list Event.t) (r : MBPReconstructor.t)
    : list ascii * MBPReconstructor.t :=
  foldl (λ acc e, let '(line, r) := MBPReconstructor.step e acc.2 in (acc.1 ++ line, r))
        ([], r) events.

(** ** The emitter over a sequence of invocations, continued *)

(** The manager after successive invocations. *)
Fixpoint manager_after (m : SnapshotManager.t) (calls : list (OrderBook.t * Z))
    : SnapshotManager.t :=
  match calls with
  | [] => m
  | (book, timestamp) :: calls' =>
      manager_after (SnapshotManager.should_generate_snapshot book timestamp m).1.2 calls'
  end.

(** The snapshots handed to the formatter, in order: [current_snapshot_]
    after each invocation that returned true. *)
Fixpoint emitted_snapshots (m : SnapshotManager.t) (calls : list (OrderBook.t * Z))
    : list MBPSnapshot.t :=
  match calls with
  | [] => []
  | (book, timestamp) :: calls' =>
      let '(d, m', _) := SnapshotManager.should_generate_snapshot book timestamp m in
      if d : bool
      then SnapshotManager.current_snapshot_ m' :: emitted_snapshots m' calls'
      else emitted_snapshots m' calls'
  end.

(** The number of true and of false decisions. *)
Definition count_bool (v : bool) (l : list bool) : nat :=
  length (filter (λ d, d = v) l).

(** A text that does not begin with a decimal digit. *)
Definition no_digit_ahead (l : list ascii) : Prop :=
  match l with
  | c :: _ => is_digit c = false
  | [] => True
  end.

(** What [parse_price] reads after the decimal point: the value of at most
    two digits, in hundredths, and the text left. *)
Definition fraction_read (l : list ascii) : Z * list ascii :=
  match l with
  | d1 :: l1 =>
      if is_digit d1 then
        match l1 with
        | d2 :: l2 =>
            if is_digit d2 then (digit_of d1 * 10 + digit_of d2, l2)
            else (digit_of d1 * 10, l1)
        | [] => (digit_of d1 * 10, [])
        end
      else (0, l)
  | [] => (0, [])
  end.

(** A text that begins neither with a digit nor with a decimal point. *)
Definition no_number_ahead (l : list ascii) : Prop :=
  match l with
  | c :: _ => is_digit c = false ∧ c ≠ "."%char
  | [] => True
  end.

(** A character that is neither the separator nor the end of a line. *)
Definition plain (c : ascii) : Prop := c ≠ ","%char ∧ c ≠ "010"%char.

(** A member function of the parser that never moves [current_] backwards
    and leaves the header flag alone. *)
Definition forward {A} (m : FastCSVParser.M A) : Prop :=
  ∀ st a st', m st = inr (a, st') →
    (length (FastCSVParser.current_ st') ≤ length (FastCSVParser.current_ st))%nat ∧
    FastCSVParser.first_line_skipped_ st' = FastCSVParser.first_line_skipped_ st.

(** ** A file and the event of the driver *)

(** A header line and four events: the clear that opens a stream, two
    orders, and the cancellation of the first. *)
Definition sample_file : list ascii :=
  [
   "t"; "s"; "_"; "e"; "v"; "e"; "n"; "t"; ","; "a"; "c"; "t"; "i"; "o"; "n"; ","; "s"; "i";
   "d"; "e"; ","; "p"; "r"; "i"; "c"; "e"; ","; "s"; "i"; "z"; "e"; ","; "o"; "r"; "d"; "e";
   "r"; "_"; "i"; "d"; "010";
   "0"; ","; "R"; ","; "N"; ","; ","; "0"; ","; "0"; "010";
   "1"; "0"; "0"; "0"; ","; "A"; ","; "B"; ","; "5"; "."; "1"; "2"; ","; "2"; "0"; "0"; ",";
   "1"; "0"; "0"; "1"; "010";
   "2"; "0"; "0"; "0"; ","; "A"; ","; "A"; ","; "5"; "."; "2"; "0"; ","; "1"; "0"; "0"; ",";
   "1"; "0"; "0"; "2"; "010";
   "3"; "0"; "0"; "0"; ","; "C"; ","; "B"; ","; "5"; "."; "1"; "2"; ","; "2"; "0"; "0"; ",";
   "1"; "0"; "0"; "1"; "010"
  ]%char.

(** [Event event;] is not initialised: any value stands for it. *)
Definition blank_event : Event.t := Event.mk 0 0 0 0 0 "N" "N".

(** * Properties of the order book *)

Lemma wrap32_small z : is_u32 z → wrap32 z = z.
Proof. unfold is_u32, wrap32. intros. apply Z.mod_small. lia. Qed.

Lemma wrap64_small z : is_u64 z → wrap64 z = z.
Proof. unfold is_u64, wrap64. intros. apply Z.mod_small. lia. Qed.

Lemma sizes_sum_app st c1 c2 :
  sizes_sum st (c1 ++ c2) = sizes_sum st c1 + sizes_sum st c2.
Proof. induction c1 as [|p c1 IH]; simpl; [done | rewrite IH; lia]. Qed.

Lemma sizes_sum_frame st st' c :
  (∀ p, p ∈ c → st' !! p = st !! p) → sizes_sum st' c = sizes_sum st c.
Proof.
  induction c as [|p c IH]; intros H; simpl; [done|].
  rewrite IH by (intros q Hq; apply H; by right).
  unfold deref. rewrite H by left. done.
Qed.

Lemma filter_ne_notin (p : Z) (c : list Z) :
  p ∉ c → filter (λ q, q ≠ p) c = c.
Proof.
  induction c as [|q c IH]; intros H; [done|].
  rewrite filter_cons. apply not_elem_of_cons in H as [H1 H2].
  case_decide; [by rewrite IH | congruence].
Qed.

Lemma filter_ne_head (p : Z) (c : list Z) :
  NoDup (p :: c) → filter (λ q, q ≠ p) (p :: c) = c.
Proof.
  intros H. apply NoDup_cons in H as [H1 H2].
  rewrite filter_cons. case_decide; [congruence|]. by apply filter_ne_notin.
Qed.

Lemma filter_ne_length (p : Z) (c : list Z) :
  NoDup c → p ∈ c →
  Z.of_nat (length (filter (λ q, q ≠ p) c)) = Z.of_nat (length c) - 1.
Proof.
  induction c as [|q c IH]; intros Hnd Hin; [by apply elem_of_nil in Hin|].
  destruct (decide (q = p)) as [->|Hne].
  - rewrite filter_ne_head by done. simpl. lia.
  - apply NoDup_cons in Hnd as [H1 H2]. apply elem_of_cons in Hin as [?|Hin]; [congruence|].
    rewrite filter_cons. case_decide; [|congruence]. simpl. rewrite Nat2Z.inj_succ, IH by done. lia.
Qed.

Lemma sizes_sum_filter st (p : Z) (c : list Z) :
  NoDup c → p ∈ c →
  sizes_sum st (filter (λ q, q ≠ p) c) = sizes_sum st c - Order.size (deref st p).
Proof.
  induction c as [|q c IH]; intros Hnd Hin; [by apply elem_of_nil in Hin|].
  destruct (decide (q = p)) as [->|Hne].
  - rewrite filter_ne_head by done. simpl. lia.
  - apply NoDup_cons in Hnd as [H1 H2]. apply elem_of_cons in Hin as [?|Hin]; [congruence|].
    rewrite filter_cons. case_decide; [|congruence]. simpl. rewrite IH by done. lia.
Qed.

Lemma sizes_sum_bounds st c :
  (∀ p, p ∈ c → is_u32 (Order.size (deref st p))) →
  0 <= sizes_sum st c <= Z.of_nat (length c) * (2 ^ 32 - 1).
Proof.
  induction c as [|p c IH]; intros H; simpl; [lia|].
  specialize (IH (λ q Hq, H q (list_elem_of_further _ _ _ Hq))).
  specialize (H p (list_elem_of_here _ _)). unfold is_u32 in H. lia.
Qed.

(** chain_ok *)

Lemma chain_ok_alloc st om px c p :
  chain_ok st om px c → p ∈ c → is_Some (st !! p).
Proof. intros [_ H] Hp. destruct (H p Hp) as (o & Ho & _). eauto. Qed.

Lemma chain_ok_size_u32 st om px c p :
  chain_ok st om px c → p ∈ c → is_u32 (Order.size (deref st p)).
Proof.
  intros [_ H] Hp. destruct (H p Hp) as (o & Ho & _ & Hs & _).
  unfold deref. by rewrite Ho.
Qed.

Lemma chain_ok_frame st st' om om' px c :
  chain_ok st om px c →
  (∀ p o, p ∈ c → st !! p = Some o →
     st' !! p = Some o ∧ om' !! Order.order_id o = Some p) →
  chain_ok st' om' px c.
Proof.
  intros [Hnd H] Hfr. split; [done|].
  intros p Hp. destruct (H p Hp) as (o & Ho & Hpx & Hsz & Hid).
  destruct (Hfr p o Hp Ho) as [Ho' Hid']. eauto 10.
Qed.

Lemma chain_ok_length st om px c :
  chain_ok st om px c → (length c ≤ size om)%nat.
Proof.
  intros [Hnd H].
  set (f := λ p, Order.order_id (deref st p)).
  assert (Hnd' : NoDup (f <$> c)).
  { apply NoDup_fmap_2_strong; [|done].
    intros p q Hp Hq Hf. unfold f, deref in Hf.
    destruct (H p Hp) as (o & Ho & _ & _ & Hid).
    destruct (H q Hq) as (o' & Ho' & _ & _ & Hid').
    rewrite Ho, Ho' in Hf. simpl in Hf. congruence. }
  rewrite <- (length_fmap f c), <- (size_list_to_set (C := gset Z) (f <$> c)) by done.
  rewrite <- (size_dom (D := gset Z) om).
  apply subseteq_size. intros id Hid.
  apply elem_of_list_to_set, list_elem_of_fmap in Hid as (p & -> & Hp).
  destruct (H p Hp) as (o & Ho & _ & _ & Hid).
  apply elem_of_dom. unfold f, deref. rewrite Ho. simpl. eauto.
Qed.

Lemma chain_ok_sum_bound st om px c :
  chain_ok st om px c → Z.of_nat (size om) < 2 ^ 32 →
  0 <= sizes_sum st c < 2 ^ 64 - 2 ^ 32.
Proof.
  intros Hc Hcap.
  pose proof (chain_ok_length _ _ _ _ Hc) as Hlen.
  pose proof (sizes_sum_bounds st c (λ p Hp, chain_ok_size_u32 _ _ _ _ _ Hc Hp)) as Hb.
  nia.
Qed.

Lemma level_ok_consistent st om px l :
  level_ok st om px l → level_consistent st l.
Proof.
  intros [? ? Hne ? Hcnt]. repeat split; [done..|].
  rewrite Hcnt. destruct (Level.chain l); [done | simpl; lia].
Qed.

Lemma level_ok_not_empty st om px l :
  level_ok st om px l → Level.empty l = false.
Proof.
  intros H. apply level_ok_consistent in H as (_ & _ & H).
  unfold Level.empty. by apply Z.eqb_neq.
Qed.

Lemma level_ok_frame st st' om om' px l :
  level_ok st om px l →
  (∀ p o, p ∈ Level.chain l → st !! p = Some o →
     st' !! p = Some o ∧ om' !! Order.order_id o = Some p) →
  level_ok st' om' px l.
Proof.
  intros [H1 H2 H3 H4 H5] Hfr. split; try done.
  - by eapply chain_ok_frame.
  - rewrite H4. symmetry. apply sizes_sum_frame. intros p Hp.
    destruct (chain_ok_alloc _ _ _ _ _ H2 Hp) as [o Ho].
    destruct (Hfr p o Hp Ho) as [-> _]. done.
Qed.

Lemma levels_ok_frame st st' om om' m :
  levels_ok st om m →
  (∀ px l p o, m !! px = Some l → p ∈ Level.chain l → st !! p = Some o →
     st' !! p = Some o ∧ om' !! Order.order_id o = Some p) →
  levels_ok st' om' m.
Proof.
  intros H Hfr px l Hl. apply (level_ok_frame st st' om om' px l (H px l Hl)).
  intros p o Hp Ho. by apply (Hfr px l).
Qed.

(** the slab *)

Lemma allocate_ok v pool p pool' :
  pool_ok pool → OrderPool.allocate v pool = (p, pool') →
  OrderPool.objects_ pool !! p = None ∧
  OrderPool.objects_ pool' = <[p := v]> (OrderPool.objects_ pool) ∧
  pool_ok pool'.
Proof.
  intros [Hnd Hfree Hheap Hbelow] Hal. unfold OrderPool.allocate in Hal.
  destruct (OrderPool.free_list_ pool) as [|q rest] eqn:Hfl;
    injection Hal as <- <-; simpl.
  - split_and!; [| done |].
    + destruct (OrderPool.objects_ pool !! OrderPool.heap_next_ pool) eqn:E; [|done].
      specialize (Hbelow _ (mk_is_Some _ _ E)). lia.
    + split; simpl; [constructor | | lia |].
      * intros q Hq. by apply elem_of_nil in Hq.
      * intros q [o Hq]. destruct (decide (q = OrderPool.heap_next_ pool)) as [->|Hne]; [lia|].
        rewrite lookup_insert_ne in Hq by done.
        specialize (Hbelow _ (mk_is_Some _ _ Hq)). lia.
  - apply NoDup_cons in Hnd as [Hq Hnd].
    split_and!; [| done |].
    + apply Hfree. left.
    + split; simpl; [done | | done |].
      * intros r Hr. destruct (Hfree r (list_elem_of_further _ _ _ Hr)) as [? ?].
        split; [done|]. rewrite lookup_insert_ne; [done|]. intros ->. done.
      * intros r [o Hr]. destruct (decide (r = q)) as [->|Hne].
        -- destruct (Hfree q (list_elem_of_here _ _)) as [? _]. lia.
        -- rewrite lookup_insert_ne in Hr by done. apply Hbelow. eauto.
Qed.

Lemma deallocate_objects p pool :
  OrderPool.objects_ (OrderPool.deallocate p pool) = delete p (OrderPool.objects_ pool).
Proof. unfold OrderPool.deallocate. by case_bool_decide. Qed.

Lemma deallocate_ok p pool :
  pool_ok pool → is_Some (OrderPool.objects_ pool !! p) →
  pool_ok (OrderPool.deallocate p pool).
Proof.
  intros [Hnd Hfree Hheap Hbelow] [o Ho]. unfold OrderPool.deallocate.
  case_bool_decide as Hr; split; simpl; try done.
  - apply NoDup_cons. split; [|done]. intros Hin.
    destruct (Hfree p Hin) as [_ ?]. congruence.
  - intros q Hq. apply elem_of_cons in Hq as [->|Hq].
    + split; [done|]. apply lookup_delete_eq.
    + destruct (Hfree q Hq) as [? ?]. split; [done|].
      rewrite lookup_delete_ne; [done|]. intros ->. congruence.
  - intros q [o' Hq]. apply lookup_delete_Some in Hq as [_ Hq]. apply Hbelow. eauto.
  - intros q Hq. destruct (Hfree q Hq) as [? ?]. split; [done|].
    rewrite lookup_delete_ne; [done|]. intros ->. congruence.
  - intros q [o' Hq]. apply lookup_delete_Some in Hq as [_ Hq]. apply Hbelow. eauto.
Qed.

Lemma set_objects_ok p o pool :
  pool_ok pool → is_Some (OrderPool.objects_ pool !! p) →
  pool_ok (OrderPool.set_objects (<[p := o]> (OrderPool.objects_ pool)) pool).
Proof.
  intros [Hnd Hfree Hheap Hbelow] [o' Ho]. split; simpl; try done.
  - intros q Hq. destruct (Hfree q Hq) as [? ?]. split; [done|].
    rewrite lookup_insert_ne; [done|]. intros ->. congruence.
  - intros q [o'' Hq]. destruct (decide (q = p)) as [->|Hne].
    + apply Hbelow. eauto.
    + rewrite lookup_insert_ne in Hq by done. apply Hbelow. eauto.
Qed.

(** one level *)

Lemma level_add_order_ok st om px l p o :
  Level.price_raw l = px →
  chain_ok st om px (Level.chain l) →
  Level.total_size l = sizes_sum st (Level.chain l) →
  Level.order_count l = Z.of_nat (length (Level.chain l)) →
  p ∉ Level.chain l →
  st !! p = Some o → Order.price_raw o = px → is_u32 (Order.size o) →
  om !! Order.order_id o = Some p →
  Z.of_nat (size om) < 2 ^ 32 →
  level_ok st om px (Level.add_order st p l).
Proof.
  intros Hpx [Hnd Hc] Htot Hcnt Hp Ho Hopx Hsz Hid Hcap.
  assert (Hc' : chain_ok st om px (Level.chain l ++ [p])).
  { split.
    - apply NoDup_app. split_and!; [done | | apply NoDup_singleton].
      intros q Hq Hq'. apply list_elem_of_singleton in Hq'. congruence.
    - intros q Hq. apply elem_of_app in Hq as [Hq|Hq]; [by apply Hc|].
      apply list_elem_of_singleton in Hq as ->. eauto 10. }
  pose proof (chain_ok_length _ _ _ _ Hc') as Hlen.
  pose proof (chain_ok_sum_bound _ _ _ _ Hc' Hcap) as Hsum.
  rewrite length_app in Hlen. simpl in Hlen.
  rewrite sizes_sum_app in Hsum. simpl in Hsum.
  split; simpl; [done | done | by destruct (Level.chain l) | |].
  - rewrite sizes_sum_app. simpl. rewrite Htot, wrap64_small; [lia|].
    unfold is_u64. lia.
  - rewrite length_app. simpl. rewrite Hcnt, wrap32_small; [lia|].
    unfold is_u32. lia.
Qed.

Lemma level_remove_order_ok st om px l p :
  level_ok st om px l → p ∈ Level.chain l →
  Z.of_nat (size om) < 2 ^ 32 →
  let l' := Level.remove_order st p l in
  Level.chain l' = filter (λ q, q ≠ p) (Level.chain l) ∧
  Level.price_raw l' = px ∧
  chain_ok st om px (Level.chain l') ∧
  Level.total_size l' = sizes_sum st (Level.chain l') ∧
  Level.order_count l' = Z.of_nat (length (Level.chain l')) ∧
  Level.empty l' = bool_decide (Level.chain l' = []).
Proof.
  intros [Hpx Hc Hne Htot Hcnt] Hp Hcap. simpl.
  pose proof (chain_ok_length _ _ _ _ Hc) as Hlen.
  pose proof (chain_ok_sum_bound _ _ _ _ Hc Hcap) as Hsum.
  pose proof (chain_ok_size_u32 _ _ _ _ _ Hc Hp) as Hsz.
  destruct Hc as [Hnd Hc].
  pose proof (sizes_sum_filter st p _ Hnd Hp) as Hsf.
  pose proof (filter_ne_length p _ Hnd Hp) as Hlf.
  assert (Hc' : chain_ok st om px (filter (λ q, q ≠ p) (Level.chain l))).
  { split; [by apply NoDup_filter|].
    intros q Hq. apply list_elem_of_filter in Hq as [_ Hq]. by apply Hc. }
  pose proof (chain_ok_sum_bound _ _ _ _ Hc' Hcap) as Hsum'.
  assert (Htot' : wrap64 (Level.total_size l - Order.size (deref st p)) =
                  sizes_sum st (filter (λ q, q ≠ p) (Level.chain l))).
  { rewrite Hsf, Htot. apply wrap64_small. unfold is_u64. lia. }
  assert (Hcnt' : wrap32 (Level.order_count l - 1) =
                  Z.of_nat (length (filter (λ q, q ≠ p) (Level.chain l)))).
  { rewrite Hlf, Hcnt. apply wrap32_small. unfold is_u32.
    destruct (Level.chain l); [done | simpl in *; lia]. }
  split_and!; try done.
  unfold Level.empty. simpl. rewrite Hcnt'.
  destruct (filter (λ q, q ≠ p) (Level.chain l)); done.
Qed.

(** projections of the updated book *)

Section projections.
Import OrderBook.
Implicit Types (b : OrderBook.t) (sm : side_map).

Lemma levels_set_levels sm sm' m b :
  levels sm' (set_levels sm m b) = if decide (sm' = sm) then m else levels sm' b.
Proof. by destruct sm, sm'. Qed.
Lemma levels_set_levels_eq sm m b : levels sm (set_levels sm m b) = m.
Proof. by destruct sm. Qed.
Lemma levels_set_levels_other sm m b :
  levels (other_side sm) (set_levels sm m b) = levels (other_side sm) b.
Proof. by destruct sm. Qed.
Lemma order_map_set_levels sm m b : order_map_ (set_levels sm m b) = order_map_ b.
Proof. by destruct sm. Qed.
Lemma order_pool_set_levels sm m b : order_pool_ (set_levels sm m b) = order_pool_ b.
Proof. by destruct sm. Qed.
Lemma objects_set_levels sm m b : objects (set_levels sm m b) = objects b.
Proof. by destruct sm. Qed.

Lemma levels_set_order_map sm om b : levels sm (set_order_map om b) = levels sm b.
Proof. by destruct sm. Qed.
Lemma order_map_set_order_map om b : order_map_ (set_order_map om b) = om.
Proof. done. Qed.
Lemma order_pool_set_order_map om b : order_pool_ (set_order_map om b) = order_pool_ b.
Proof. done. Qed.
Lemma objects_set_order_map om b : objects (set_order_map om b) = objects b.
Proof. done. Qed.

Lemma levels_set_order_pool sm pl b : levels sm (set_order_pool pl b) = levels sm b.
Proof. by destruct sm. Qed.
Lemma order_map_set_order_pool pl b : order_map_ (set_order_pool pl b) = order_map_ b.
Proof. done. Qed.
Lemma order_pool_set_order_pool pl b : order_pool_ (set_order_pool pl b) = pl.
Proof. done. Qed.
Lemma objects_set_order_pool pl b : objects (set_order_pool pl b) = OrderPool.objects_ pl.
Proof. done. Qed.

Lemma levels_set_cache_valid sm v b : levels sm (set_cache_valid v b) = levels sm b.
Proof. by destruct sm. Qed.
Lemma order_map_set_cache_valid v b : order_map_ (set_cache_valid v b) = order_map_ b.
Proof. done. Qed.
Lemma order_pool_set_cache_valid v b : order_pool_ (set_cache_valid v b) = order_pool_ b.
Proof. done. Qed.
Lemma objects_set_cache_valid v b : objects (set_cache_valid v b) = objects b.
Proof. done. Qed.

Lemma levels_set_total_orders_processed sm n b :
  levels sm (set_total_orders_processed n b) = levels sm b.
Proof. by destruct sm. Qed.
Lemma order_map_set_total_orders_processed n b :
  order_map_ (set_total_orders_processed n b) = order_map_ b.
Proof. done. Qed.
Lemma order_pool_set_total_orders_processed n b :
  order_pool_ (set_total_orders_processed n b) = order_pool_ b.
Proof. done. Qed.
Lemma objects_set_total_orders_processed n b :
  objects (set_total_orders_processed n b) = objects b.
Proof. done. Qed.

Lemma levels_set_price_levels_created sm n b :
  levels sm (set_price_levels_created n b) = levels sm b.
Proof. by destruct sm. Qed.
Lemma order_map_set_price_levels_created n b :
  order_map_ (set_price_levels_created n b) = order_map_ b.
Proof. done. Qed.
Lemma order_pool_set_price_levels_created n b :
  order_pool_ (set_price_levels_created n b) = order_pool_ b.
Proof. done. Qed.
Lemma objects_set_price_levels_created n b :
  objects (set_price_levels_created n b) = objects b.
Proof. done. Qed.

Lemma levels_write_order sm p o b : levels sm (write_order p o b) = levels sm b.
Proof. by destruct sm. Qed.
Lemma order_map_write_order p o b : order_map_ (write_order p o b) = order_map_ b.
Proof. done. Qed.
Lemma objects_write_order p o b : objects (write_order p o b) = <[p := o]> (objects b).
Proof. done. Qed.
Lemma order_pool_write_order p o b :
  order_pool_ (write_order p o b) =
  OrderPool.set_objects (<[p := o]> (objects b)) (order_pool_ b).
Proof. done. Qed.
End projections.

Create Rewrite HintDb book.
#[global] Hint Rewrite
  levels_set_levels_eq levels_set_levels_other
  order_map_set_levels order_pool_set_levels objects_set_levels
  levels_set_order_map order_map_set_order_map order_pool_set_order_map
  objects_set_order_map
  levels_set_order_pool order_map_set_order_pool order_pool_set_order_pool
  objects_set_order_pool
  levels_set_cache_valid order_map_set_cache_valid order_pool_set_cache_valid
  objects_set_cache_valid
  levels_set_total_orders_processed order_map_set_total_orders_processed
  order_pool_set_total_orders_processed objects_set_total_orders_processed
  levels_set_price_levels_created order_map_set_price_levels_created
  order_pool_set_price_levels_created objects_set_price_levels_created
  levels_write_order order_map_write_order objects_write_order
  order_pool_write_order deallocate_objects : book.

Ltac book_simpl := autorewrite with book in *.

(** one side of the book *)

Lemma levels_ok_price st om m px px' l l' p :
  levels_ok st om m →
  m !! px = Some l → p ∈ Level.chain l →
  m !! px' = Some l' → p ∈ Level.chain l' → px = px'.
Proof.
  intros H Hl Hp Hl' Hp'.
  destruct (lv_chain _ _ _ _ (H _ _ Hl)) as [_ Hc].
  destruct (lv_chain _ _ _ _ (H _ _ Hl')) as [_ Hc'].
  destruct (Hc p Hp) as (o & Ho & Hpx & _).
  destruct (Hc' p Hp') as (o' & Ho' & Hpx' & _). congruence.
Qed.

Section detach.
Context (st : gmap Z Order.t) (om : gmap Z Z) (m : gmap Z Level.t).
Context (px : Z) (l : Level.t) (p : Z).
Hypothesis Hm : levels_ok st om m.
Hypothesis Hl : m !! px = Some l.
Hypothesis Hp : p ∈ Level.chain l.
Hypothesis Hcap : Z.of_nat (size om) < 2 ^ 32.

Lemma detach_eq :
  detach st p px m =
  if bool_decide (filter (λ q, q ≠ p) (Level.chain l) = [])
  then delete px m else <[px := Level.remove_order st p l]> m.
Proof.
  unfold detach. rewrite Hl.
  destruct (level_remove_order_ok st om px l p (Hm _ _ Hl) Hp Hcap)
    as (Hch & _ & _ & _ & _ & ->).
  by rewrite Hch.
Qed.

Lemma detach_lookup_ne px' : px' ≠ px → detach st p px m !! px' = m !! px'.
Proof.
  intros Hne. rewrite detach_eq. case_bool_decide.
  - by rewrite lookup_delete_ne.
  - by rewrite lookup_insert_ne.
Qed.

Lemma detach_lookup_eq :
  detach st p px m !! px =
  if bool_decide (filter (λ q, q ≠ p) (Level.chain l) = [])
  then None else Some (Level.remove_order st p l).
Proof.
  rewrite detach_eq. case_bool_decide.
  - by rewrite lookup_delete_eq.
  - by rewrite lookup_insert_eq.
Qed.

Lemma detach_ok : levels_ok st om (detach st p px m).
Proof.
  intros px' l' Hl'. destruct (decide (px' = px)) as [->|Hne].
  - rewrite detach_lookup_eq in Hl'. case_bool_decide as Hemp; [done|].
    injection Hl' as <-.
    destruct (level_remove_order_ok st om px l p (Hm _ _ Hl) Hp Hcap)
      as (Hch & Hpx & Hc & Htot & Hcnt & _).
    split; try done; by rewrite Hch.
  - rewrite detach_lookup_ne in Hl' by done. by apply Hm.
Qed.

Lemma detach_notin px' l' :
  detach st p px m !! px' = Some l' → p ∉ Level.chain l'.
Proof.
  intros Hl'. destruct (decide (px' = px)) as [->|Hne].
  - rewrite detach_lookup_eq in Hl'. case_bool_decide; [done|].
    injection Hl' as <-. simpl. intros Hin.
    apply list_elem_of_filter in Hin as [? _]. done.
  - rewrite detach_lookup_ne in Hl' by done. intros Hin.
    by pose proof (levels_ok_price _ _ _ _ _ _ _ _ Hm Hl Hp Hl' Hin).
Qed.

Lemma detach_sub px' l' q :
  detach st p px m !! px' = Some l' → q ∈ Level.chain l' →
  ∃ l0, m !! px' = Some l0 ∧ q ∈ Level.chain l0.
Proof.
  intros Hl' Hq. destruct (decide (px' = px)) as [->|Hne].
  - rewrite detach_lookup_eq in Hl'. case_bool_decide; [done|].
    injection Hl' as <-. simpl in Hq.
    apply list_elem_of_filter in Hq as [_ ?]. eauto.
  - rewrite detach_lookup_ne in Hl' by done. eauto.
Qed.

Lemma detach_keeps px' l0 q :
  m !! px' = Some l0 → q ∈ Level.chain l0 → q ≠ p →
  ∃ l', detach st p px m !! px' = Some l' ∧ q ∈ Level.chain l'.
Proof.
  intros Hl0 Hq Hne. destruct (decide (px' = px)) as [->|Hpx].
  - rewrite detach_lookup_eq. simplify_eq.
    assert (Hq' : q ∈ filter (λ q, q ≠ p) (Level.chain l))
      by by apply list_elem_of_filter.
    case_bool_decide as Hemp.
    + rewrite Hemp in Hq'. by apply elem_of_nil in Hq'.
    + eexists. split; [done|]. done.
  - rewrite detach_lookup_ne by done. eauto.
Qed.
End detach.

Section attach.
Context (st : gmap Z Order.t) (om : gmap Z Z) (m : gmap Z Level.t).
Context (p : Z) (o : Order.t).
Hypothesis Hm : levels_ok st om m.
Hypothesis Ho : st !! p = Some o.
Hypothesis Hsz : is_u32 (Order.size o).
Hypothesis Hid : om !! Order.order_id o = Some p.
Hypothesis Hfresh : ∀ px l, m !! px = Some l → p ∉ Level.chain l.
Hypothesis Hcap : Z.of_nat (size om) < 2 ^ 32.

Lemma attach_eq :
  attach st p (Order.price_raw o) m =
  <[Order.price_raw o := match m !! Order.price_raw o with
          | Some l => Level.add_order st p l
          | None => Level.mk (Order.price_raw o) (Order.size o) 1 [p]
          end]> m.
Proof.
  unfold attach. destruct (m !! Order.price_raw o) as [l|] eqn:Hl; simpl.
  - by rewrite (level_ok_not_empty _ _ _ _ (Hm _ _ Hl)).
  - unfold Level.add_order, deref. simpl. rewrite Ho. simpl.
    rewrite wrap64_small by (unfold is_u64, is_u32 in *; lia).
    done.
Qed.

Lemma attach_ok : levels_ok st om (attach st p (Order.price_raw o) m).
Proof.
  intros px' l' Hl'. unfold attach in Hl'.
  destruct (decide (px' = Order.price_raw o)) as [->|Hne].
  - rewrite lookup_insert_eq in Hl'. injection Hl' as <-.
    destruct (m !! Order.price_raw o) as [l|] eqn:Hl; simpl.
    + rewrite (level_ok_not_empty _ _ _ _ (Hm _ _ Hl)).
      destruct (Hm _ _ Hl) as [H1 H2 H3 H4 H5].
      eapply level_add_order_ok; eauto.
    + eapply level_add_order_ok; eauto; simpl; try done.
      * split; [constructor|]. intros q Hq. by apply elem_of_nil in Hq.
      * apply not_elem_of_nil.
  - rewrite lookup_insert_ne in Hl' by done. by apply Hm.
Qed.

Lemma attach_chain px' l' q :
  attach st p (Order.price_raw o) m !! px' = Some l' → q ∈ Level.chain l' →
  (q = p ∧ px' = Order.price_raw o) ∨ ∃ l0, m !! px' = Some l0 ∧ q ∈ Level.chain l0.
Proof.
  rewrite attach_eq. intros Hl' Hq. destruct (decide (px' = Order.price_raw o)) as [->|Hne].
  - rewrite lookup_insert_eq in Hl'. injection Hl' as <-.
    destruct (m !! Order.price_raw o) as [l|] eqn:Hl; simpl in Hq.
    + apply elem_of_app in Hq as [Hq|Hq]; [eauto|].
      apply list_elem_of_singleton in Hq. eauto.
    + apply list_elem_of_singleton in Hq. eauto.
  - rewrite lookup_insert_ne in Hl' by done. eauto.
Qed.

Lemma attach_keeps px' l0 q :
  m !! px' = Some l0 → q ∈ Level.chain l0 →
  ∃ l', attach st p (Order.price_raw o) m !! px' = Some l' ∧ q ∈ Level.chain l'.
Proof.
  rewrite attach_eq. intros Hl0 Hq. destruct (decide (px' = Order.price_raw o)) as [->|Hne].
  - rewrite lookup_insert_eq, Hl0. eexists. split; [done|]. simpl.
    apply elem_of_app. by left.
  - rewrite lookup_insert_ne by done. eauto.
Qed.

Lemma attach_has :
  ∃ l', attach st p (Order.price_raw o) m !! Order.price_raw o = Some l' ∧ p ∈ Level.chain l'.
Proof.
  rewrite attach_eq, lookup_insert_eq. eexists. split; [done|].
  destruct (m !! Order.price_raw o); simpl; [|by left]. apply elem_of_app. right. by left.
Qed.
End attach.

(** the book *)

Lemma deref_Some (st : gmap Z Order.t) p o : st !! p = Some o → deref st p = o.
Proof. intros H. unfold deref. by rewrite H. Qed.

Lemma set_levels_id sm b : OrderBook.set_levels sm (OrderBook.levels sm b) b = b.
Proof. by destruct sm, b. Qed.

Lemma inv_chained b sm px l p :
  book_inv b → OrderBook.levels sm b !! px = Some l → p ∈ Level.chain l →
  ∃ o, OrderBook.objects b !! p = Some o ∧ Order.price_raw o = px ∧
       is_u32 (Order.size o) ∧ OrderBook.order_map_ b !! Order.order_id o = Some p.
Proof.
  intros Hb Hl Hp. destruct (lv_chain _ _ _ _ (inv_levels b Hb sm _ _ Hl)) as [_ Hc].
  by apply Hc.
Qed.

Lemma inv_unique_level b sm sm' px px' l l' p :
  book_inv b →
  OrderBook.levels sm b !! px = Some l → p ∈ Level.chain l →
  OrderBook.levels sm' b !! px' = Some l' → p ∈ Level.chain l' →
  sm = sm' ∧ px = px'.
Proof.
  intros Hb Hl Hp Hl' Hp'.
  destruct (inv_chained b sm px l p Hb Hl Hp) as (o & Ho & Hpx & _).
  destruct (inv_chained b sm' px' l' p Hb Hl' Hp') as (o' & Ho' & Hpx' & _).
  assert (px = px') as <- by congruence. split; [|done].
  destruct sm, sm'; try done; exfalso.
  - eapply (inv_sides b Hb); eauto.
  - eapply (inv_sides b Hb); eauto.
Qed.

Lemma inv_resting b id p :
  book_inv b → OrderBook.order_map_ b !! id = Some p →
  ∃ o sm l, OrderBook.objects b !! p = Some o ∧ Order.order_id o = id ∧
    is_u32 (Order.size o) ∧
    OrderBook.levels sm b !! Order.price_raw o = Some l ∧ p ∈ Level.chain l.
Proof.
  intros Hb Hid. destruct (inv_ids b Hb id p Hid) as (o & Ho & Hoid & sm & l & Hl & Hp).
  destruct (inv_chained b sm _ l p Hb Hl Hp) as (o' & Ho' & _ & Hsz & _).
  simplify_eq. eauto 10.
Qed.

Lemma inv_ids_inj b id id' p :
  book_inv b → OrderBook.order_map_ b !! id = Some p →
  OrderBook.order_map_ b !! id' = Some p → id = id'.
Proof.
  intros Hb H1 H2.
  destruct (inv_ids b Hb _ _ H1) as (o & Ho & Hoid & _).
  destruct (inv_ids b Hb _ _ H2) as (o' & Ho' & Hoid' & _). congruence.
Qed.

Lemma determine_side_correct b sm p l :
  book_inv b →
  OrderBook.levels sm b !! Order.price_raw (deref (OrderBook.objects b) p) = Some l →
  p ∈ Level.chain l →
  OrderBook.determine_side p b = side_char sm.
Proof.
  intros Hb Hl Hp. unfold OrderBook.determine_side.
  destruct sm; simpl in *.
  - rewrite Hl. by rewrite bool_decide_eq_true_2.
  - destruct (OrderBook.bid_levels_ b !! _) as [lb|] eqn:Hlb; [|done].
    case_bool_decide as Hin; [|done].
    by destruct (inv_unique_level b Bids Asks _ _ lb l p Hb Hlb Hin Hl Hp).
Qed.

Lemma remove_order_from_eq sm p b :
  OrderBook.remove_order_from sm p b =
  OrderBook.set_levels sm
    (detach (OrderBook.objects b) p
       (Order.price_raw (deref (OrderBook.objects b) p)) (OrderBook.levels sm b)) b.
Proof.
  unfold OrderBook.remove_order_from, detach.
  destruct (OrderBook.levels sm b !! _); [by case_match|].
  by rewrite set_levels_id.
Qed.

Lemma remove_order_from_level_eq sm p b :
  OrderBook.remove_order_from_level p (side_char sm) b =
  OrderBook.set_levels sm
    (detach (OrderBook.objects b) p
       (Order.price_raw (deref (OrderBook.objects b) p)) (OrderBook.levels sm b)) b.
Proof.
  unfold OrderBook.remove_order_from_level.
  destruct sm; simpl; apply remove_order_from_eq.
Qed.

Lemma add_to_side_eq p sm b :
  ∃ n, OrderBook.add_to_side p sm b =
    (true,
     OrderBook.set_levels sm
       (attach (OrderBook.objects b) p
          (Order.price_raw (deref (OrderBook.objects b) p)) (OrderBook.levels sm b))
       (OrderBook.set_price_levels_created n b)).
Proof.
  unfold OrderBook.add_to_side, attach.
  destruct (Level.empty _) eqn:E.
  - eexists. book_simpl. done.
  - exists (OrderBook.price_levels_created_ b).
    by replace (OrderBook.set_price_levels_created _ b) with b by by destruct b.
Qed.

Lemma sides_apart_sub (bids asks bids' asks' : gmap Z Level.t) :
  sides_apart bids asks →
  (∀ px l' q, bids' !! px = Some l' → q ∈ Level.chain l' →
     ∃ l, bids !! px = Some l ∧ q ∈ Level.chain l) →
  (∀ px l' q, asks' !! px = Some l' → q ∈ Level.chain l' →
     ∃ l, asks !! px = Some l ∧ q ∈ Level.chain l) →
  sides_apart bids' asks'.
Proof.
  intros H Hb Ha px lb la p Hlb Hla Hpb Hpa.
  destruct (Hb _ _ _ Hlb Hpb) as (lb0 & ? & ?).
  destruct (Ha _ _ _ Hla Hpa) as (la0 & ? & ?).
  eapply H; eauto.
Qed.

Lemma cancel_order_inv b id :
  book_inv b → book_inv (OrderBook.cancel_order id b).2.
Proof.
  intros Hb. unfold OrderBook.cancel_order.
  destruct (OrderBook.order_map_ b !! id) as [p|] eqn:Hid; [|done].
  destruct (inv_resting b id p Hb Hid) as (o & sm & l & Ho & Hoid & Hsz & Hl & Hp).
  pose proof (deref_Some _ _ _ Ho) as Hd.
  rewrite (determine_side_correct b sm p l Hb) by by rewrite ?Hd.
  rewrite remove_order_from_level_eq, Hd. simpl.
  pose proof (inv_levels b Hb sm) as Hm.
  pose proof (inv_capacity b Hb) as Hcap.
  set (st := OrderBook.objects b) in *. set (om := OrderBook.order_map_ b) in *.
  set (px := Order.price_raw o) in *.
  set (m' := detach st p px (OrderBook.levels sm b)).
  assert (Hframe : ∀ sm' px' l' q o',
    (if decide (sm' = sm) then m' else OrderBook.levels sm' b) !! px' = Some l' →
    q ∈ Level.chain l' → st !! q = Some o' →
    delete p st !! q = Some o' ∧ delete id om !! Order.order_id o' = Some q).
  { intros sm' px' l' q o' Hl' Hq Ho'.
    assert (q ≠ p ∧ om !! Order.order_id o' = Some q) as [Hne Hq'].
    { case_decide as Hsm.
      - subst sm'. split.
        + intros ->. by eapply (detach_notin st om _ px l p).
        + destruct (lv_chain _ _ _ _ (detach_ok st om _ px l p Hm Hl Hp Hcap _ _ Hl'))
            as [_ Hc]. destruct (Hc q Hq) as (o'' & ? & _ & _ & ?). congruence.
      - destruct (inv_chained b sm' px' l' q Hb Hl' Hq) as (o'' & ? & _ & _ & ?).
        split; [|unfold st, om in *; congruence]. intros ->.
        by destruct (inv_unique_level b sm sm' _ _ l l' p Hb Hl Hp Hl' Hq). }
    split; [by rewrite lookup_delete_ne|].
    rewrite lookup_delete_ne; [done|]. intros Heq. rewrite <- Heq in Hq'. congruence. }
  split; book_simpl.
  - intros sm'. rewrite !levels_set_cache_valid, levels_set_order_pool,
      levels_set_order_map, levels_set_levels.
    eapply levels_ok_frame with (st := st) (om := om).
    + case_decide; [by apply (detach_ok st om _ px l p) | apply (inv_levels b Hb)].
    + intros px' l' q o'. apply Hframe.
  - rewrite !levels_set_levels.
    eapply sides_apart_sub; [apply (inv_sides b Hb)|..]; intros px' l' q Hl' Hq.
    + case_decide; [subst; by eapply detach_sub | eauto].
    + case_decide; [subst; by eapply detach_sub | eauto].
  - intros id' p' Hid'. apply lookup_delete_Some in Hid' as [Hne Hid'].
    destruct (inv_resting b id' p' Hb Hid') as (o' & sm' & l' & Ho' & Hoid' & _ & Hl' & Hp').
    assert (p' ≠ p) as Hpp by (intros ->; unfold st in *; congruence).
    exists o'. split; [by rewrite lookup_delete_ne|]. split; [done|].
    exists sm'. rewrite levels_set_cache_valid, levels_set_order_pool,
      levels_set_order_map, levels_set_levels.
    case_decide; [subst; by eapply detach_keeps | eauto].
  - pose proof (map_size_delete id (OrderBook.order_map_ b)) as Hs.
    unfold om in *. rewrite Hid in Hs. lia.
  - apply deallocate_ok; [apply (inv_pool b Hb) | by exists o].
Qed.

(** The book once [order] has been allocated, chained on side [sm] and
    registered: what [add_order] and [modify_order] build. *)
Lemma add_order_inv_side b id px sz ts sm p pool' n :
  book_inv b →
  is_u32 sz →
  Z.of_nat (size (OrderBook.order_map_ b)) < 2 ^ 32 - 1 →
  OrderBook.order_map_ b !! id = None →
  OrderPool.allocate (Order.make id px sz ts) (OrderBook.order_pool_ b) = (p, pool') →
  book_inv
    (OrderBook.set_order_map (<[id := p]> (OrderBook.order_map_ b))
       (OrderBook.set_levels sm
          (attach (OrderPool.objects_ pool') p px (OrderBook.levels sm b))
          (OrderBook.set_price_levels_created n (OrderBook.set_order_pool pool' b)))).
Proof.
  intros Hb Hsz Hcap Hid Hal.
  destruct (allocate_ok _ _ _ _ (inv_pool b Hb) Hal) as (Hfresh & Hobj & Hpool').
  set (o := Order.make id px sz ts) in *.
  assert (Hnew : OrderPool.objects_ pool' !! p = Some o)
    by (rewrite Hobj; apply lookup_insert_eq).
  assert (Hfree : ∀ sm' px' l', OrderBook.levels sm' b !! px' = Some l' →
                    p ∉ Level.chain l').
  { intros sm' px' l' Hl' Hp.
    destruct (inv_chained b sm' px' l' p Hb Hl' Hp) as (o' & Ho' & _).
    unfold OrderBook.objects in Ho'. congruence. }
  assert (Hframe : ∀ sm', levels_ok (OrderPool.objects_ pool')
      (<[id := p]> (OrderBook.order_map_ b)) (OrderBook.levels sm' b)).
  { intros sm'. eapply levels_ok_frame; [apply (inv_levels b Hb)|].
    intros px' l' q o' Hl' Hq Ho'.
    destruct (inv_chained b sm' px' l' q Hb Hl' Hq) as (o'' & Ho'' & _ & _ & Hq').
    assert (o'' = o') as -> by congruence.
    assert (q ≠ p) by (intros ->; by eapply Hfree).
    split; [by rewrite Hobj, lookup_insert_ne|].
    rewrite lookup_insert_ne; [done|]. intros Heq. rewrite <- Heq in Hq'. congruence. }
  assert (Hcap' : Z.of_nat (size (<[id := p]> (OrderBook.order_map_ b))) < 2 ^ 32).
  { rewrite map_size_insert_None by done. lia. }
  assert (Hidp : <[id := p]> (OrderBook.order_map_ b) !! Order.order_id o = Some p)
    by apply lookup_insert_eq.
  change px with (Order.price_raw o).
  split; book_simpl.
  - intros sm'. rewrite levels_set_order_map, levels_set_levels. case_decide.
    + apply (attach_ok _ _ _ p o (Hframe sm) Hnew Hsz Hidp); [|done].
      intros px' l'. apply Hfree.
    + rewrite levels_set_price_levels_created, levels_set_order_pool. apply Hframe.
  - rewrite !levels_set_levels, !levels_set_price_levels_created, !levels_set_order_pool.
    intros px' lb la q Hlb Hla Hqb Hqa.
    destruct sm.
    + rewrite decide_True in Hlb by done. rewrite decide_False in Hla by done.
      destruct (attach_chain _ _ _ p o (Hframe Bids) Hnew Hsz px' lb q Hlb Hqb)
        as [[-> _]|(l0 & Hl0 & Hq0)].
      * by eapply (Hfree Asks).
      * eapply (inv_sides b Hb); eauto.
    + rewrite decide_False in Hlb by done. rewrite decide_True in Hla by done.
      destruct (attach_chain _ _ _ p o (Hframe Asks) Hnew Hsz px' la q Hla Hqa)
        as [[-> _]|(l0 & Hl0 & Hq0)].
      * by eapply (Hfree Bids).
      * eapply (inv_sides b Hb); eauto.
  - intros id' q Hid'. apply lookup_insert_Some in Hid' as [[<- <-]|[Hne Hid']].
    + exists o. split; [done|]. split; [done|]. exists sm.
      rewrite levels_set_order_map, levels_set_levels_eq.
      apply (attach_has _ _ _ p o (Hframe sm) Hnew Hsz).
    + destruct (inv_resting b id' q Hb Hid') as (o' & sm' & l' & Ho' & Hoid' & _ & Hl' & Hq).
      assert (q ≠ p) by (intros ->; by eapply Hfree).
      exists o'. split; [by rewrite Hobj, lookup_insert_ne|]. split; [done|].
      exists sm'. rewrite levels_set_order_map, levels_set_levels. case_decide.
      * subst sm'. apply (attach_keeps _ _ _ p o (Hframe sm) Hnew Hsz _ _ _ Hl' Hq).
      * rewrite levels_set_price_levels_created, levels_set_order_pool. eauto.
  - done.
  - done.
Qed.

Lemma add_order_inv b id px sz sd ts :
  book_inv b → is_u32 sz →
  Z.of_nat (size (OrderBook.order_map_ b)) < 2 ^ 32 - 1 →
  book_inv (OrderBook.add_order id px sz sd ts b).2.
Proof.
  intros Hb Hsz Hcap. unfold OrderBook.add_order.
  destruct (OrderBook.order_map_ b !! id) eqn:Hid; [done|].
  destruct (OrderPool.allocate _ _) as [p pool'] eqn:Hal.
  destruct (allocate_ok _ _ _ _ (inv_pool b Hb) Hal) as (Hfresh & Hobj & Hpool').
  assert (Hd : deref (OrderBook.objects (OrderBook.set_order_pool pool' b)) p =
               Order.make id px sz ts).
  { apply deref_Some. book_simpl. rewrite Hobj. apply lookup_insert_eq. }
  assert (Hside : ∀ sm,
    book_inv (let '(success, b0) := OrderBook.add_to_side p sm (OrderBook.set_order_pool pool' b) in
       if success
       then (true,
             OrderBook.set_total_orders_processed
               (wrap64 (OrderBook.total_orders_processed_ b0 + 1))
               (OrderBook.set_cache_valid false
                  (OrderBook.set_order_map (<[id := p]> (OrderBook.order_map_ b0)) b0)))
       else (false,
             OrderBook.set_order_pool
               (OrderPool.deallocate p (OrderBook.order_pool_ b0)) b0)).2).
  { intros sm. destruct (add_to_side_eq p sm (OrderBook.set_order_pool pool' b)) as [n ->].
    rewrite Hd. simpl. book_simpl.
    pose proof (add_order_inv_side b id px sz ts sm p pool' n Hb Hsz Hcap Hid Hal) as H.
    destruct H as [H1 H2 H3 H4 H5]. split; book_simpl; done. }
  destruct (Ascii.eqb sd "B"); [apply Hside|].
  destruct (Ascii.eqb sd "A"); [apply Hside|].
  simpl. destruct Hb as [H1 H2 H3 H4 H5].
  assert (Hst : delete p (OrderPool.objects_ pool') = OrderBook.objects b).
  { rewrite Hobj, delete_insert_eq. by apply delete_id. }
  split; book_simpl; rewrite ?Hst; try done.
  apply deallocate_ok; [done|]. rewrite Hobj, lookup_insert_eq. eauto.
Qed.

(** [add_order] with a new id on a side of the book, with nothing assumed
    of the number of orders: the level is the one [attach] computes, with
    its counters wrapped. *)
Lemma add_order_raw b id px sz ts sm :
  book_inv b → OrderBook.order_map_ b !! id = None →
  ∃ p pool' n,
    OrderBook.objects b !! p = None ∧
    OrderBook.add_order id px sz (side_char sm) ts b =
      (true,
       OrderBook.set_total_orders_processed
         (wrap64 (OrderBook.total_orders_processed_ b + 1))
         (OrderBook.set_cache_valid false
            (OrderBook.set_order_map (<[id := p]> (OrderBook.order_map_ b))
               (OrderBook.set_levels sm
                  (attach (OrderPool.objects_ pool') p px (OrderBook.levels sm b))
                  (OrderBook.set_price_levels_created n
                     (OrderBook.set_order_pool pool' b)))))).
Proof.
  intros Hb Hid.
  destruct (OrderPool.allocate (Order.make id px sz ts) (OrderBook.order_pool_ b))
    as [p pool'] eqn:Hal.
  destruct (allocate_ok _ _ _ _ (inv_pool b Hb) Hal) as (Hfresh & Hobj & Hpool').
  set (o := Order.make id px sz ts) in *.
  assert (Hnew : OrderPool.objects_ pool' !! p = Some o)
    by (rewrite Hobj; apply lookup_insert_eq).
  assert (Hd : deref (OrderBook.objects (OrderBook.set_order_pool pool' b)) p = o).
  { apply deref_Some. by book_simpl. }
  destruct (add_to_side_eq p sm (OrderBook.set_order_pool pool' b)) as [n Hadd].
  exists p, pool', n. split; [done|].
  unfold OrderBook.add_order. fold o. rewrite Hid, Hal.
  assert (Hgo : (if Ascii.eqb (side_char sm) "B"
                 then OrderBook.add_to_side p Bids (OrderBook.set_order_pool pool' b)
                 else if Ascii.eqb (side_char sm) "A"
                      then OrderBook.add_to_side p Asks (OrderBook.set_order_pool pool' b)
                      else (false, OrderBook.set_order_pool pool' b)) =
                OrderBook.add_to_side p sm (OrderBook.set_order_pool pool' b))
    by (by destruct sm).
  rewrite Hgo, Hadd, Hd. cbn iota beta. book_simpl.
  change (Order.price_raw o) with px. by destruct sm.
Qed.

(** When the book that [add_order] leaves holds fewer than [2 ^ 32] orders,
    it is well formed. *)
Lemma add_order_inv_room b id px sz sd ts :
  book_inv b → is_u32 sz →
  Z.of_nat (size (OrderBook.order_map_ (OrderBook.add_order id px sz sd ts b).2)) < 2 ^ 32 →
  book_inv (OrderBook.add_order id px sz sd ts b).2.
Proof.
  intros Hb Hsz Hpost.
  destruct (decide (Z.of_nat (size (OrderBook.order_map_ b)) < 2 ^ 32 - 1)) as [Hcap|Hfull];
    [by apply add_order_inv|].
  destruct (OrderBook.order_map_ b !! id) eqn:Hid.
  { unfold OrderBook.add_order. by rewrite Hid. }
  assert (Hside : ∀ sm, sd = side_char sm → False).
  { intros sm ->. destruct (add_order_raw b id px sz ts sm Hb Hid) as (p & pool' & n & _ & Heq).
    rewrite Heq in Hpost. cbn [snd] in Hpost. revert Hpost. book_simpl.
    rewrite map_size_insert_None by done. lia. }
  destruct (Ascii.eqb sd "B") eqn:HB.
  { apply Ascii.eqb_eq in HB. destruct (Hside Bids HB). }
  destruct (Ascii.eqb sd "A") eqn:HA.
  { apply Ascii.eqb_eq in HA. destruct (Hside Asks HA). }
  unfold OrderBook.add_order. rewrite Hid.
  destruct (OrderPool.allocate _ _) as [p pool'] eqn:Hal.
  destruct (allocate_ok _ _ _ _ (inv_pool b Hb) Hal) as (Hfresh & Hobj & Hpool').
  rewrite HB, HA. simpl. destruct Hb as [H1 H2 H3 H4 H5].
  assert (Hst : delete p (OrderPool.objects_ pool') = OrderBook.objects b).
  { rewrite Hobj, delete_insert_eq. by apply delete_id. }
  split; book_simpl; rewrite ?Hst; try done.
  apply deallocate_ok; [done|]. rewrite Hobj, lookup_insert_eq. eauto.
Qed.

(** no wrap-around in the aggregates of a well-formed level *)

Lemma sizes_sum_ge st (c : list Z) p :
  (∀ q, q ∈ c → is_u32 (Order.size (deref st q))) → p ∈ c →
  Order.size (deref st p) <= sizes_sum st c.
Proof.
  induction c as [|q c IH]; intros H Hp; [by apply elem_of_nil in Hp|].
  simpl. pose proof (sizes_sum_bounds st c (λ r Hr, H r (list_elem_of_further _ _ _ Hr))).
  apply elem_of_cons in Hp as [->|Hp]; [lia|].
  specialize (IH (λ r Hr, H r (list_elem_of_further _ _ _ Hr)) Hp).
  specialize (H q (list_elem_of_here _ _)). unfold is_u32 in H. lia.
Qed.

Lemma sizes_sum_insert st (c : list Z) p o :
  NoDup c → p ∈ c →
  sizes_sum (<[p := o]> st) c = sizes_sum st c - Order.size (deref st p) + Order.size o.
Proof.
  induction c as [|q c IH]; intros Hnd Hp; [by apply elem_of_nil in Hp|].
  apply NoDup_cons in Hnd as [Hq Hnd]. simpl.
  destruct (decide (q = p)) as [->|Hne].
  - rewrite (sizes_sum_frame st (<[p := o]> st) c).
    + unfold deref at 1. rewrite lookup_insert_eq. simpl. lia.
    + intros r Hr. rewrite lookup_insert_ne; [done|]. intros ->. done.
  - apply elem_of_cons in Hp as [?|Hp]; [congruence|].
    rewrite IH by done. unfold deref at 1. rewrite lookup_insert_ne by done.
    fold (deref st q). lia.
Qed.

Lemma level_remove_order_eq st om px l p o :
  level_ok st om px l → p ∈ Level.chain l → st !! p = Some o →
  Z.of_nat (size om) < 2 ^ 32 →
  Level.remove_order st p l =
  Level.mk px (Level.total_size l - Order.size o) (Level.order_count l - 1)
           (filter (λ q, q ≠ p) (Level.chain l)).
Proof.
  intros Hl Hp Ho Hcap.
  destruct (level_remove_order_ok st om px l p Hl Hp Hcap)
    as (Hch & Hpx & Hc & Htot & Hcnt & _).
  destruct Hl as [Hpx0 Hc0 Hne Htot0 Hcnt0].
  pose proof (sizes_sum_filter st p _ (proj1 Hc0) Hp) as Hsf.
  pose proof (filter_ne_length p _ (proj1 Hc0) Hp) as Hlf.
  rewrite (deref_Some _ _ _ Ho) in Hsf.
  destruct (Level.remove_order st p l) as [a t n c] eqn:E. simpl in *.
  subst. f_equal; lia.
Qed.

Lemma level_add_order_eq st om px l p o :
  level_ok st om px l → p ∉ Level.chain l →
  st !! p = Some o → Order.price_raw o = px → is_u32 (Order.size o) →
  om !! Order.order_id o = Some p →
  Z.of_nat (size om) < 2 ^ 32 →
  Level.add_order st p l =
  Level.mk px (Level.total_size l + Order.size o) (Level.order_count l + 1)
           (Level.chain l ++ [p]).
Proof.
  intros Hl Hp Ho Hpx Hsz Hid Hcap.
  destruct Hl as [Hpx0 Hc0 Hne Htot0 Hcnt0].
  destruct (level_add_order_ok st om px l p o Hpx0 Hc0 Htot0 Hcnt0 Hp Ho Hpx Hsz Hid Hcap)
    as [_ _ _ Htot Hcnt].
  destruct (Level.add_order st p l) as [a t n c] eqn:E.
  unfold Level.add_order in E. injection E as <- Et En <-. simpl in *.
  rewrite sizes_sum_app in Htot. simpl in Htot. rewrite (deref_Some _ _ _ Ho) in Htot.
  rewrite length_app in Hcnt. simpl in Hcnt.
  f_equal; lia.
Qed.

Lemma level_modify_ok st om px l p o ns :
  level_ok st om px l → p ∈ Level.chain l → st !! p = Some o → is_u32 ns →
  Z.of_nat (size om) < 2 ^ 32 →
  Level.modify_order_size (Order.size o) ns l =
    Level.mk px (Level.total_size l + (ns - Order.size o)) (Level.order_count l)
             (Level.chain l) ∧
  level_ok (<[p := Order.set_size ns o]> st) om px
    (Level.modify_order_size (Order.size o) ns l).
Proof.
  intros [Hpx [Hnd Hc] Hne Htot Hcnt] Hp Ho Hsz Hcap.
  assert (Hc' : chain_ok (<[p := Order.set_size ns o]> st) om px (Level.chain l)).
  { split; [done|]. intros q Hq. destruct (decide (q = p)) as [->|Hqp].
    - exists (Order.set_size ns o). rewrite lookup_insert_eq.
      destruct (Hc p Hp) as (o' & ? & ? & ? & ?). simplify_eq. done.
    - rewrite lookup_insert_ne by done. by apply Hc. }
  pose proof (chain_ok_sum_bound _ _ _ _ Hc' Hcap) as Hsum.
  rewrite sizes_sum_insert, (deref_Some _ _ _ Ho) in Hsum by done. simpl in Hsum.
  assert (Hw : wrap64 (Level.total_size l - Order.size o + ns) =
               Level.total_size l + (ns - Order.size o)).
  { rewrite wrap64_small; [lia|]. unfold is_u64. lia. }
  unfold Level.modify_order_size. rewrite Hw, Hpx. split; [done|].
  split; simpl; try done.
  rewrite sizes_sum_insert, (deref_Some _ _ _ Ho) by done. simpl. lia.
Qed.

Lemma side_of_char sm :
  (if Ascii.eqb (side_char sm) "B" then Bids else Asks) = sm.
Proof. by destruct sm. Qed.

Lemma modify_order_unfold b id np ns p o sm l :
  book_inv b →
  OrderBook.order_map_ b !! id = Some p →
  OrderBook.objects b !! p = Some o →
  OrderBook.levels sm b !! Order.price_raw o = Some l →
  p ∈ Level.chain l →
  ∃ n, OrderBook.modify_order id np ns b =
    (true,
     if decide (Order.price_raw o = np) then
       OrderBook.set_cache_valid false
         (OrderBook.write_order p (Order.set_size ns o)
            (OrderBook.set_levels sm
               (<[Order.price_raw o := Level.modify_order_size (Order.size o) ns l]>
                  (OrderBook.levels sm b)) b))
     else
       let o' := Order.set_size ns (Order.set_price_raw np o) in
       let m1 := detach (OrderBook.objects b) p (Order.price_raw o) (OrderBook.levels sm b) in
       OrderBook.set_cache_valid false
         (OrderBook.set_levels sm
            (attach (<[p := o']> (OrderBook.objects b)) p np m1)
            (OrderBook.set_price_levels_created n
               (OrderBook.write_order p o' (OrderBook.set_levels sm m1 b))))).
Proof.
  intros Hb Hid Ho Hl Hp. unfold OrderBook.modify_order. rewrite Hid.
  pose proof (deref_Some _ _ _ Ho) as Hd. rewrite !Hd.
  rewrite (determine_side_correct b sm p l Hb) by by rewrite ?Hd.
  destruct (decide (Order.price_raw o = np)) as [Hpx|Hpx].
  2:{ rewrite bool_decide_eq_true_2 by done.
    rewrite remove_order_from_level_eq, Hd.
    set (m1 := detach _ _ _ _).
    set (b2 := OrderBook.write_order p _ _).
    assert (Hd2 : deref (OrderBook.objects b2) p =
                  Order.set_size ns (Order.set_price_raw np o)).
    { apply deref_Some. unfold b2. book_simpl. rewrite Hd. apply lookup_insert_eq. }
    assert (Hsame :
      (if Ascii.eqb (side_char sm) "B" then OrderBook.add_to_side p Bids b2
       else OrderBook.add_to_side p Asks b2) = OrderBook.add_to_side p sm b2)
      by by destruct sm.
    rewrite Hsame. destruct (add_to_side_eq p sm b2) as [n ->].
    exists n. simpl. rewrite Hd2. unfold b2. book_simpl. rewrite Hd. done. }
  rewrite bool_decide_eq_false_2 by (intros ?; done).
    exists 0. rewrite side_of_char, Hl. done.
Qed.

Lemma levels_ok_insert_notin st om m p o' :
  levels_ok st om m →
  (∀ px l, m !! px = Some l → p ∉ Level.chain l) →
  levels_ok (<[p := o']> st) om m.
Proof.
  intros Hm Hp. eapply levels_ok_frame; [done|].
  intros px l q o Hl Hq Ho.
  assert (q ≠ p) by (intros ->; by eapply Hp).
  split; [by rewrite lookup_insert_ne|].
  destruct (lv_chain _ _ _ _ (Hm _ _ Hl)) as [_ Hc].
  destruct (Hc q Hq) as (o'' & ? & _ & _ & ?). congruence.
Qed.

Lemma inv_not_other_side b sm px l p :
  book_inv b → OrderBook.levels sm b !! px = Some l → p ∈ Level.chain l →
  ∀ sm' px' l', sm' ≠ sm → OrderBook.levels sm' b !! px' = Some l' →
    p ∉ Level.chain l'.
Proof.
  intros Hb Hl Hp sm' px' l' Hne Hl' Hp'.
  by destruct (inv_unique_level b sm sm' px px' l l' p Hb Hl Hp Hl' Hp').
Qed.

Lemma decide_nested {A} (P : Prop) `{Decision P} (x y z : A) :
  (if decide P then x else if decide P then y else z) = if decide P then x else z.
Proof. by destruct (decide P). Qed.

Lemma modify_order_inv b id np ns :
  book_inv b → is_u32 ns →
  book_inv (OrderBook.modify_order id np ns b).2.
Proof.
  intros Hb Hns.
  destruct (OrderBook.order_map_ b !! id) as [p|] eqn:Hid.
  2:{ unfold OrderBook.modify_order. by rewrite Hid. }
  destruct (inv_resting b id p Hb Hid) as (o & sm & l & Ho & Hoid & Hsz & Hl & Hp).
  destruct (modify_order_unfold b id np ns p o sm l Hb Hid Ho Hl Hp) as [n ->].
  pose proof (inv_levels b Hb) as Hlv.
  pose proof (inv_capacity b Hb) as Hcap.
  pose proof (inv_not_other_side b sm _ l p Hb Hl Hp) as Hother.
  simpl. case_decide as Hpx.
  - (* same price: the size is changed in place *)
    destruct (level_modify_ok _ _ _ l p o ns (Hlv sm _ _ Hl) Hp Ho Hns Hcap) as [Heq Hok].
    assert (Hlev : ∀ sm', levels_ok (<[p := Order.set_size ns o]> (OrderBook.objects b))
        (OrderBook.order_map_ b)
        (if decide (sm' = sm)
         then <[Order.price_raw o := Level.modify_order_size (Order.size o) ns l]>
                (OrderBook.levels sm b)
         else OrderBook.levels sm' b)).
    { intros sm'. case_decide as Hsm.
      - intros px' l' Hl'. destruct (decide (px' = Order.price_raw o)) as [->|Hne].
        + rewrite lookup_insert_eq in Hl'. by injection Hl' as <-.
        + rewrite lookup_insert_ne in Hl' by done.
          eapply level_ok_frame; [by apply (Hlv sm)|].
          intros q oq Hq Hoq.
          assert (q ≠ p).
          { intros ->. by destruct (inv_unique_level b sm sm _ _ l l' p Hb Hl Hp Hl' Hq). }
          split; [by rewrite lookup_insert_ne|].
          destruct (inv_chained b sm px' l' q Hb Hl' Hq) as (o'' & ? & _ & _ & ?).
          congruence.
      - apply levels_ok_insert_notin; [apply Hlv|]. intros px' l'. by apply Hother. }
    assert (Hsame : ∀ sm' px' l' q,
      (if decide (sm' = sm)
       then <[Order.price_raw o := Level.modify_order_size (Order.size o) ns l]>
              (OrderBook.levels sm b)
       else OrderBook.levels sm' b) !! px' = Some l' →
      q ∈ Level.chain l' →
      ∃ l0, OrderBook.levels sm' b !! px' = Some l0 ∧ q ∈ Level.chain l0).
    { intros sm' px' l' q Hl' Hq. case_decide as Hsm; [subst sm'|eauto].
      destruct (decide (px' = Order.price_raw o)) as [->|Hne].
      - rewrite lookup_insert_eq in Hl'. injection Hl' as <-. eauto.
      - rewrite lookup_insert_ne in Hl' by done. eauto. }
    assert (Hkeep : ∀ sm' px' l0 q,
      OrderBook.levels sm' b !! px' = Some l0 → q ∈ Level.chain l0 →
      ∃ l', (if decide (sm' = sm)
       then <[Order.price_raw o := Level.modify_order_size (Order.size o) ns l]>
              (OrderBook.levels sm b)
       else OrderBook.levels sm' b) !! px' = Some l' ∧ q ∈ Level.chain l').
    { intros sm' px' l0 q Hl0 Hq. case_decide as Hsm; [subst sm'|eauto].
      destruct (decide (px' = Order.price_raw o)) as [->|Hne].
      - rewrite lookup_insert_eq. simplify_eq. eauto.
      - rewrite lookup_insert_ne by done. eauto. }
    split; book_simpl.
    + intros sm'. rewrite levels_set_cache_valid, levels_write_order, levels_set_levels.
      apply Hlev.
    + rewrite !levels_set_levels.
      eapply sides_apart_sub; [apply (inv_sides b Hb)|..]; intros px' l' q; apply Hsame.
    + intros id' q Hid'.
      destruct (inv_resting b id' q Hb Hid') as (oq & sm' & l' & Hoq & Hoid' & _ & Hl' & Hq).
      destruct (decide (q = p)) as [->|Hqp].
      * exists (Order.set_size ns o). rewrite lookup_insert_eq. simplify_eq.
        split; [done|]. split; [done|]. exists sm'.
        rewrite levels_set_cache_valid, levels_write_order, levels_set_levels.
        eapply Hkeep; eauto.
      * exists oq. rewrite lookup_insert_ne by done.
        split; [done|]. split; [done|]. exists sm'.
        rewrite levels_set_cache_valid, levels_write_order, levels_set_levels.
        eapply Hkeep; eauto.
    + done.
    + apply set_objects_ok; [apply (inv_pool b Hb) | by exists o].
  - (* price change: unchain, rewrite, chain at the tail of the destination *)
    set (o' := Order.set_size ns (Order.set_price_raw np o)).
    set (st := OrderBook.objects b) in *. set (om := OrderBook.order_map_ b) in *.
    set (m1 := detach st p (Order.price_raw o) (OrderBook.levels sm b)).
    assert (Hm1 : levels_ok st om m1) by by eapply detach_ok.
    assert (Hp1 : ∀ px' l', m1 !! px' = Some l' → p ∉ Level.chain l')
      by by eapply detach_notin.
    assert (Hm1' : levels_ok (<[p := o']> st) om m1)
      by by apply levels_ok_insert_notin.
    assert (Hnew : <[p := o']> st !! p = Some o') by apply lookup_insert_eq.
    assert (Hidp : om !! Order.order_id o' = Some p) by (simpl; congruence).
    change np with (Order.price_raw o').
    assert (Hsub : ∀ sm' px' l' q,
      (if decide (sm' = sm) then attach (<[p := o']> st) p (Order.price_raw o') m1
       else OrderBook.levels sm' b) !! px' = Some l' →
      q ∈ Level.chain l' →
      (q = p ∧ sm' = sm) ∨
      ∃ l0, OrderBook.levels sm' b !! px' = Some l0 ∧ q ∈ Level.chain l0).
    { intros sm' px' l' q Hl' Hq. case_decide as Hsm; [subst sm'|eauto].
      destruct (attach_chain _ _ _ p o' Hm1' Hnew Hns px' l' q Hl' Hq)
        as [[-> _]|(l0 & Hl0 & Hq0)]; [by left|right].
      by eapply detach_sub. }
    split; book_simpl.
    + intros sm'. rewrite levels_set_cache_valid, levels_set_levels. case_decide.
      * by apply attach_ok.
      * rewrite levels_set_price_levels_created, levels_write_order, levels_set_levels.
        rewrite decide_False by done.
        apply levels_ok_insert_notin; [apply Hlv|]. intros px' l'. by apply Hother.
    + rewrite !levels_set_levels, !levels_set_price_levels_created,
        !levels_write_order, !levels_set_levels.
      intros px' lb la q Hlb Hla Hqb Hqa.
      rewrite decide_nested in Hlb, Hla.
      destruct (Hsub Bids _ _ _ Hlb Hqb) as [[-> Hs]|(lb0 & Hlb0 & Hqb0)];
        destruct (Hsub Asks _ _ _ Hla Hqa) as [[Hq' Hs']|(la0 & Hla0 & Hqa0)];
        try congruence.
      * subst sm. by eapply (Hother Asks).
      * subst q sm. by eapply (Hother Bids).
      * eapply (inv_sides b Hb); eauto.
    + intros id' q Hid'.
      destruct (inv_resting b id' q Hb Hid') as (oq & sm' & l' & Hoq & Hoid' & _ & Hl' & Hq).
      destruct (decide (q = p)) as [->|Hqp].
      * assert (oq = o) as -> by (unfold st in *; congruence).
        exists o'. split; [done|]. split; [exact Hoid'|]. exists sm.
        rewrite levels_set_cache_valid, levels_set_levels_eq.
        by apply (attach_has _ _ _ p o' Hm1' Hnew Hns).
      * exists oq. rewrite lookup_insert_ne by done.
        split; [done|]. split; [done|]. exists sm'.
        rewrite levels_set_cache_valid, levels_set_levels. case_decide as Hsm.
        -- subst sm'. 
           destruct (detach_keeps st om _ _ l p (Hlv sm) Hl Hp Hcap _ _ _ Hl' Hq Hqp)
             as (l1 & Hl1 & Hq1).
           by apply (attach_keeps _ _ _ p o' Hm1' Hnew Hns _ _ _ Hl1 Hq1).
        -- rewrite levels_set_price_levels_created, levels_write_order, levels_set_levels.
           rewrite decide_False by done. eauto.
    + done.
    + apply set_objects_ok; [apply (inv_pool b Hb) | by exists o].
Qed.

Lemma cancel_order_unfold b id p o sm l :
  book_inv b →
  OrderBook.order_map_ b !! id = Some p →
  OrderBook.objects b !! p = Some o →
  OrderBook.levels sm b !! Order.price_raw o = Some l →
  p ∈ Level.chain l →
  OrderBook.cancel_order id b =
    (true,
     OrderBook.set_cache_valid false
       (OrderBook.set_order_pool (OrderPool.deallocate p (OrderBook.order_pool_ b))
          (OrderBook.set_order_map (delete id (OrderBook.order_map_ b))
             (OrderBook.set_levels sm
                (detach (OrderBook.objects b) p (Order.price_raw o)
                   (OrderBook.levels sm b)) b)))).
Proof.
  intros Hb Hid Ho Hl Hp. unfold OrderBook.cancel_order. rewrite Hid.
  pose proof (deref_Some _ _ _ Ho) as Hd.
  rewrite (determine_side_correct b sm p l Hb) by by rewrite ?Hd.
  rewrite remove_order_from_level_eq, Hd. by book_simpl.
Qed.

(** clear *)

Lemma clear_pool_ok (om : gmap Z Z) pool :
  pool_ok pool →
  (∀ id p, om !! id = Some p → is_Some (OrderPool.objects_ pool !! p)) →
  (∀ id id' p, om !! id = Some p → om !! id' = Some p → id = id') →
  pool_ok (map_fold (λ _ order pl, OrderPool.deallocate order pl) pool om).
Proof.
  intros Hpool.
  apply (map_fold_weak_ind (λ r (m : gmap Z Z),
    (∀ id p, m !! id = Some p → is_Some (OrderPool.objects_ pool !! p)) →
    (∀ id id' p, m !! id = Some p → m !! id' = Some p → id = id') →
    pool_ok r ∧
    ∀ q, (∀ id, m !! id ≠ Some q) → OrderPool.objects_ r !! q = OrderPool.objects_ pool !! q)).
  - intros _ _. split; [done|]. done.
  - intros i x m r Hi IH Hall Hinj.
    destruct IH as [Hr Hsame].
    { intros id p Hp. apply (Hall id p). rewrite lookup_insert_ne; [done|].
      intros ->. congruence. }
    { intros id id' p H1 H2. apply (Hinj id id' p).
      - rewrite lookup_insert_ne; [done|]. intros ->. congruence.
      - rewrite lookup_insert_ne; [done|]. intros ->. congruence. }
    assert (Hx : ∀ id, m !! id ≠ Some x).
    { intros id Hid. assert (id = i) as ->; [|congruence].
      apply (Hinj id i x); [|apply lookup_insert_eq].
      rewrite lookup_insert_ne; [done|]. intros ->. congruence. }
    split.
    + apply deallocate_ok; [done|]. rewrite Hsame by done.
      apply (Hall i x), lookup_insert_eq.
    + intros q Hq. rewrite deallocate_objects.
      assert (q ≠ x) by (intros ->; apply (Hq i), lookup_insert_eq).
      rewrite lookup_delete_ne by done. apply Hsame.
      intros id Hid. apply (Hq id). rewrite lookup_insert_ne; [done|].
      intros ->. congruence.
Qed.

Lemma clear_destroys (om : gmap Z Z) pool :
  ∀ id p, om !! id = Some p →
    OrderPool.objects_ (map_fold (λ _ order pl, OrderPool.deallocate order pl) pool om) !! p
    = None.
Proof.
  apply (map_fold_weak_ind (λ r (m : gmap Z Z),
    ∀ id p, m !! id = Some p → OrderPool.objects_ r !! p = None)).
  - intros id p Hp. by rewrite lookup_empty in Hp.
  - intros i x m r Hi IH id p Hp. rewrite deallocate_objects.
    destruct (decide (p = x)) as [->|Hne]; [apply lookup_delete_eq|].
    rewrite lookup_delete_ne by done.
    apply lookup_insert_Some in Hp as [[_ ?]|[_ Hp]]; [congruence|]. eauto.
Qed.

Lemma clear_inv b : book_inv b → book_inv (OrderBook.clear b).
Proof.
  intros Hb. unfold OrderBook.clear. split; book_simpl.
  - intros sm px l. rewrite levels_set_cache_valid.
    destruct sm; simpl; by rewrite lookup_empty.
  - intros px lb la p Hlb. simpl in Hlb. by rewrite lookup_empty in Hlb.
  - intros id p Hp. by rewrite lookup_empty in Hp.
  - rewrite map_size_empty. lia.
  - apply clear_pool_ok; [apply (inv_pool b Hb)|..].
    + intros id p Hp. destruct (inv_ids b Hb id p Hp) as (o & ? & _). by exists o.
    + intros id id' p. apply (inv_ids_inj b id id' p Hb).
Qed.

(** execute_trade *)

Lemma trade_loop_zero n w :
  OrderBook.remaining_size w = 0 → OrderBook.trade_loop n w = w.
Proof. intros H. destruct n; simpl; [done|]. by rewrite H. Qed.

Lemma trade_loop_step n w p :
  0 < OrderBook.remaining_size w →
  Level.chain (OrderBook.level w) = p :: tail (Level.chain (OrderBook.level w)) →
  OrderBook.trade_loop (S n) w = OrderBook.trade_loop n (OrderBook.trade_body p w).
Proof.
  intros Hr Hc. simpl. apply Z.ltb_lt in Hr. rewrite Hr.
  unfold Level.first_order. by rewrite Hc.
Qed.

Lemma trade_end_absorb price sm w b v pl om l1 :
  OrderBook.trade_end price sm w
    (OrderBook.set_cache_valid v
       (OrderBook.set_order_pool pl
          (OrderBook.set_order_map om
             (OrderBook.set_levels sm (<[price := l1]> (OrderBook.levels sm b)) b)))) =
  OrderBook.trade_end price sm w b.
Proof.
  unfold OrderBook.trade_end, OrderBook.set_cache_valid.
  destruct sm, b; simpl; destruct (Level.empty _); simpl;
    by rewrite ?delete_insert_eq, ?insert_insert_eq.
Qed.

Lemma trade_end_id price sm b l rem :
  OrderBook.levels sm b !! price = Some l →
  Level.empty l = false →
  OrderBook.trade_end price sm
    (OrderBook.mkwalk rem l (OrderBook.order_map_ b) (OrderBook.order_pool_ b)) b =
  OrderBook.set_cache_valid false b.
Proof.
  intros Hl He. unfold OrderBook.trade_end, OrderBook.set_cache_valid. simpl.
  rewrite He. destruct sm, b; simpl in *; by rewrite insert_id.
Qed.

Lemma execute_trade_on_side_unroll b sm price rem l p c' o :
  book_inv b → is_u32 rem →
  OrderBook.levels sm b !! price = Some l →
  Level.chain l = p :: c' →
  OrderBook.objects b !! p = Some o →
  OrderBook.execute_trade_on_side price rem sm b =
    if rem =? 0 then (true, OrderBook.set_cache_valid false b)
    else if Order.size o <=? rem then
      match c' with
      | [] => (true, (OrderBook.cancel_order (Order.order_id o) b).2)
      | _ => OrderBook.execute_trade_on_side price (rem - Order.size o) sm
               (OrderBook.cancel_order (Order.order_id o) b).2
      end
    else (true, (OrderBook.modify_order (Order.order_id o) price (Order.size o - rem) b).2).
Proof.
  intros Hb Hrem Hl Hc Ho.
  pose proof (inv_levels b Hb sm _ _ Hl) as Hlok.
  pose proof (inv_capacity b Hb) as Hcap.
  assert (Hp : p ∈ Level.chain l) by (rewrite Hc; left).
  destruct (inv_chained b sm price l p Hb Hl Hp) as (o' & Ho' & Hpx & Hsz & Hid).
  assert (o' = o) as -> by congruence.
  pose proof (deref_Some _ _ _ Ho) as Hd.
  unfold OrderBook.execute_trade_on_side at 1. rewrite Hl.
  destruct (rem =? 0) eqn:Hz.
  { apply Z.eqb_eq in Hz as ->. rewrite trade_loop_zero by done.
    by rewrite (trade_end_id _ _ _ _ _ Hl (level_ok_not_empty _ _ _ _ Hlok)). }
  apply Z.eqb_neq in Hz. unfold is_u32 in Hrem, Hsz.
  rewrite Hc. simpl length.
  rewrite (trade_loop_step _ _ p) by (simpl; first [lia | by rewrite Hc]).
  unfold OrderBook.trade_body. simpl.
  fold (OrderBook.objects b). rewrite Hd.
  destruct (Order.size o <=? rem) eqn:Hle.
  - apply Z.leb_le in Hle.
    rewrite <- Hpx in Hl.
    rewrite (cancel_order_unfold b _ p o sm l Hb Hid Ho Hl Hp). simpl.
    rewrite (detach_eq _ _ _ _ l p (inv_levels b Hb sm) Hl Hp Hcap).
    rewrite (level_remove_order_eq _ _ _ l p o Hlok Hp Ho Hcap).
    assert (Hnd : NoDup (p :: c')) by (rewrite <- Hc; apply (lv_chain _ _ _ _ Hlok)).
    rewrite Hc, (filter_ne_head p c' Hnd).
    rewrite wrap32_small by (unfold is_u32; lia).
    destruct c' as [|q c''].
    + rewrite bool_decide_eq_true_2 by done. simpl.
      unfold OrderBook.trade_end, Level.empty. simpl.
      rewrite (lv_count _ _ _ _ Hlok), Hc. simpl.
      rewrite Hpx. by destruct sm, b.
    + rewrite bool_decide_eq_false_2 by done.
      unfold OrderBook.execute_trade_on_side. book_simpl.
      rewrite Hpx, lookup_insert_eq. simpl.
      by rewrite trade_end_absorb.
  - apply Z.leb_gt in Hle.
    rewrite trade_loop_zero by done.
    rewrite <- Hpx in Hl.
    destruct (modify_order_unfold b (Order.order_id o) price (Order.size o - rem)
                p o sm l Hb Hid Ho Hl Hp) as [n ->].
    rewrite decide_True by done. simpl.
    rewrite wrap32_small by (unfold is_u32; lia).
    unfold OrderBook.trade_end, Level.empty. simpl.
    rewrite (lv_count _ _ _ _ Hlok), Hc. simpl.
    rewrite Hpx. destruct sm, b; done.
Qed.

Lemma set_cache_valid_inv v b : book_inv b → book_inv (OrderBook.set_cache_valid v b).
Proof.
  intros [H1 H2 H3 H4 H5]. split; book_simpl; done.
Qed.

(** What cancelling the head of a level leaves at its price. *)
Lemma cancel_head_level b sm price l p c' o :
  book_inv b →
  OrderBook.levels sm b !! price = Some l →
  Level.chain l = p :: c' →
  OrderBook.objects b !! p = Some o →
  OrderBook.levels sm (OrderBook.cancel_order (Order.order_id o) b).2 !! price =
    match c' with
    | [] => None
    | _ => Some (Level.mk price (Level.total_size l - Order.size o)
                   (Level.order_count l - 1) c')
    end.
Proof.
  intros Hb Hl Hc Ho.
  pose proof (inv_levels b Hb sm _ _ Hl) as Hlok.
  pose proof (inv_capacity b Hb) as Hcap.
  assert (Hp : p ∈ Level.chain l) by (rewrite Hc; left).
  destruct (inv_chained b sm price l p Hb Hl Hp) as (o' & Ho' & Hpx & Hsz & Hid).
  assert (o' = o) as -> by congruence. subst price.
  rewrite (cancel_order_unfold b _ p o sm l Hb Hid Ho Hl Hp). simpl.
  rewrite levels_set_cache_valid, levels_set_order_pool, levels_set_order_map,
    levels_set_levels_eq.
  rewrite (detach_lookup_eq _ _ _ _ l p (inv_levels b Hb sm) Hl Hp Hcap).
  rewrite (level_remove_order_eq _ _ _ l p o Hlok Hp Ho Hcap).
  assert (Hnd : NoDup (p :: c')) by (rewrite <- Hc; apply (lv_chain _ _ _ _ Hlok)).
  rewrite Hc, (filter_ne_head p c' Hnd). by destruct c'.
Qed.

Lemma cancel_order_size b id :
  (size (OrderBook.order_map_ (OrderBook.cancel_order id b).2)
   ≤ size (OrderBook.order_map_ b))%nat.
Proof.
  unfold OrderBook.cancel_order.
  destruct (OrderBook.order_map_ b !! id) eqn:Hid; [|done]. simpl.
  unfold OrderBook.remove_order_from_level.
  assert (H : ∀ sm p, OrderBook.order_map_ (OrderBook.remove_order_from sm p b) =
                      OrderBook.order_map_ b).
  { intros sm p. rewrite remove_order_from_eq. apply order_map_set_levels. }
  destruct (Ascii.eqb _ _); rewrite H, map_size_delete, Hid; lia.
Qed.

Lemma modify_order_ids b id np ns :
  book_inv b →
  OrderBook.order_map_ (OrderBook.modify_order id np ns b).2 = OrderBook.order_map_ b.
Proof.
  intros Hb.
  destruct (OrderBook.order_map_ b !! id) as [p|] eqn:Hid.
  2:{ unfold OrderBook.modify_order. by rewrite Hid. }
  destruct (inv_resting b id p Hb Hid) as (o & sm & l & Ho & Hoid & Hsz & Hl & Hp).
  destruct (modify_order_unfold b id np ns p o sm l Hb Hid Ho Hl Hp) as [n ->].
  simpl. case_decide; by book_simpl.
Qed.

Lemma execute_trade_on_side_inv n : ∀ b sm price rem,
  book_inv b → is_u32 rem →
  (∀ l, OrderBook.levels sm b !! price = Some l → (length (Level.chain l) ≤ n)%nat) →
  book_inv (OrderBook.execute_trade_on_side price rem sm b).2 ∧
  (size (OrderBook.order_map_ (OrderBook.execute_trade_on_side price rem sm b).2)
   ≤ size (OrderBook.order_map_ b))%nat.
Proof.
  induction n as [|n IH]; intros b sm price rem Hb Hrem Hlen.
  - unfold OrderBook.execute_trade_on_side.
    destruct (OrderBook.levels sm b !! price) as [l|] eqn:Hl; [|done].
    specialize (Hlen l eq_refl).
    pose proof (lv_nonempty _ _ _ _ (inv_levels b Hb sm _ _ Hl)).
    destruct (Level.chain l); [done | simpl in Hlen; lia].
  - destruct (OrderBook.levels sm b !! price) as [l|] eqn:Hl.
    2:{ unfold OrderBook.execute_trade_on_side. by rewrite Hl. }
    pose proof (lv_nonempty _ _ _ _ (inv_levels b Hb sm _ _ Hl)) as Hne.
    destruct (Level.chain l) as [|p c'] eqn:Hc; [done|].
    assert (Hp : p ∈ Level.chain l) by (rewrite Hc; left).
    destruct (inv_chained b sm price l p Hb Hl Hp) as (o & Ho & Hpx & Hsz & Hid).
    rewrite (execute_trade_on_side_unroll b sm price rem l p c' o Hb Hrem Hl Hc Ho).
    unfold is_u32 in Hrem, Hsz.
    destruct (rem =? 0) eqn:Hz; [split; [by apply set_cache_valid_inv | done]|].
    destruct (Order.size o <=? rem) eqn:Hle.
    + apply Z.leb_le in Hle.
      pose proof (cancel_order_inv b (Order.order_id o) Hb) as Hb1.
      pose proof (cancel_order_size b (Order.order_id o)) as Hs1.
      pose proof (cancel_head_level b sm price l p c' o Hb Hl Hc Ho) as Hl1.
      destruct c' as [|q c'']; [done|].
      destruct (IH (OrderBook.cancel_order (Order.order_id o) b).2 sm price
                  (rem - Order.size o) Hb1) as [H1 H2].
      * unfold is_u32. lia.
      * intros l1 Hl1'. rewrite Hl1 in Hl1'. injection Hl1' as <-. simpl.
        specialize (Hlen l eq_refl). rewrite Hc in Hlen. simpl in Hlen. lia.
      * split; [done | lia].
    + apply Z.leb_gt in Hle. split.
      * apply modify_order_inv; [done|]. unfold is_u32. lia.
      * simpl. by rewrite modify_order_ids.
Qed.

Lemma execute_trade_inv b price rem side :
  book_inv b → is_u32 rem →
  book_inv (OrderBook.execute_trade price rem side b).2 ∧
  (size (OrderBook.order_map_ (OrderBook.execute_trade price rem side b).2)
   ≤ size (OrderBook.order_map_ b))%nat.
Proof.
  intros Hb Hrem. unfold OrderBook.execute_trade.
  assert (H : ∀ sm,
    book_inv (OrderBook.execute_trade_on_side price rem sm b).2 ∧
    (size (OrderBook.order_map_ (OrderBook.execute_trade_on_side price rem sm b).2)
     ≤ size (OrderBook.order_map_ b))%nat).
  { intros sm. destruct (OrderBook.levels sm b !! price) as [l|] eqn:Hl.
    - apply (execute_trade_on_side_inv (length (Level.chain l))); [done..|].
      intros l' Hl'. rewrite Hl in Hl'. by injection Hl' as <-.
    - apply (execute_trade_on_side_inv 0); [done..|].
      intros l' Hl'. by rewrite Hl in Hl'. }
  destruct (Ascii.eqb (if Ascii.eqb side "B" then _ else _) "B"); apply H.
Qed.

(** the constructed book *)

Lemma slots_down_elem n top q :
  q ∈ OrderPool.slots_down n top → top - Z.of_nat n < q <= top.
Proof.
  revert top. induction n as [|n IH]; intros top Hq; simpl in Hq.
  - by apply elem_of_nil in Hq.
  - apply elem_of_cons in Hq as [->|Hq]; [lia|]. apply IH in Hq. lia.
Qed.

Lemma slots_down_NoDup n top : NoDup (OrderPool.slots_down n top).
Proof.
  revert top. induction n as [|n IH]; intros top; simpl; [constructor|].
  apply NoDup_cons. split; [|apply IH].
  intros Hq. apply slots_down_elem in Hq. lia.
Qed.

Lemma pool_init_ok : pool_ok OrderPool.init.
Proof.
  unfold OrderPool.init. split; cbn [OrderPool.free_list_ OrderPool.objects_ OrderPool.heap_next_].
  - apply slots_down_NoDup.
  - intros q Hq. apply slots_down_elem in Hq.
    split; [|apply lookup_empty]. rewrite Z2Nat.id in Hq by done. lia.
  - lia.
  - intros q [o Hq]. by rewrite lookup_empty in Hq.
Qed.

Lemma init_inv : book_inv OrderBook.init.
Proof.
  split.
  - intros sm px l. destruct sm; simpl; by rewrite lookup_empty.
  - intros px lb la p Hlb. simpl in Hlb. by rewrite lookup_empty in Hlb.
  - intros id p Hp. simpl in Hp. by rewrite lookup_empty in Hp.
  - simpl. rewrite map_size_empty. lia.
  - apply pool_init_ok.
Qed.

Lemma add_order_size b id px sz sd ts :
  (size (OrderBook.order_map_ (OrderBook.add_order id px sz sd ts b).2)
   ≤ S (size (OrderBook.order_map_ b)))%nat.
Proof.
  unfold OrderBook.add_order.
  destruct (OrderBook.order_map_ b !! id) eqn:Hid; [simpl; lia|].
  destruct (OrderPool.allocate _ _) as [p pool'].
  assert (H : ∀ sm,
    (size (OrderBook.order_map_
       (let '(success, b0) := OrderBook.add_to_side p sm (OrderBook.set_order_pool pool' b) in
        if success
        then (true,
              OrderBook.set_total_orders_processed
                (wrap64 (OrderBook.total_orders_processed_ b0 + 1))
                (OrderBook.set_cache_valid false
                   (OrderBook.set_order_map (<[id := p]> (OrderBook.order_map_ b0)) b0)))
        else (false,
              OrderBook.set_order_pool
                (OrderPool.deallocate p (OrderBook.order_pool_ b0)) b0)).2)
     ≤ S (size (OrderBook.order_map_ b)))%nat).
  { intros sm. destruct (add_to_side_eq p sm (OrderBook.set_order_pool pool' b)) as [n ->].
    simpl. book_simpl. by rewrite map_size_insert_None. }
  destruct (Ascii.eqb sd "B"); [apply H|].
  destruct (Ascii.eqb sd "A"); [apply H|]. simpl. lia.
Qed.

Lemma apply_op_inv op b (n : nat) :
  book_inv b → op_wf op →
  (size (OrderBook.order_map_ b) ≤ n)%nat → Z.of_nat n < 2 ^ 32 - 1 →
  book_inv (apply_op op b) ∧
  (size (OrderBook.order_map_ (apply_op op b)) ≤ S n)%nat.
Proof.
  intros Hb Hwf Hn Hcap. destruct op as [id px sz sd ts|id px sz|id|px sz sd|]; simpl in *.
  - split; [apply add_order_inv; [done..|lia]|].
    pose proof (add_order_size b id px sz sd ts). lia.
  - split; [by apply modify_order_inv|]. rewrite modify_order_ids by done. lia.
  - split; [by apply cancel_order_inv|].
    pose proof (cancel_order_size b id). lia.
  - destruct (execute_trade_inv b px sz sd Hb Hwf). split; [done | lia].
  - split; [by apply clear_inv|]. unfold OrderBook.clear. book_simpl.
    rewrite map_size_empty. lia.
Qed.

Lemma run_ops_inv ops : ∀ b (n : nat),
  book_inv b → Forall op_wf ops →
  (size (OrderBook.order_map_ b) ≤ n)%nat →
  Z.of_nat (n + length ops) < 2 ^ 32 →
  book_inv (run_ops ops b).
Proof.
  induction ops as [|op ops IH]; intros b n Hb Hwf Hn Hcap; [done|].
  apply Forall_cons in Hwf as [Hop Hwf]. simpl in Hcap.
  destruct (apply_op_inv op b n Hb Hop Hn) as [Hb' Hn']; [lia|].
  apply (IH (apply_op op b) (S n) Hb' Hwf Hn'). lia.
Qed.

Lemma book_inv_consistent b : book_inv b → levels_consistent b.
Proof.
  intros Hb sm px l Hl. eapply level_ok_consistent, (inv_levels b Hb sm px l Hl).
Qed.

Lemma apply_op_inv_room op b :
  book_inv b → op_wf op →
  Z.of_nat (size (OrderBook.order_map_ (apply_op op b))) < 2 ^ 32 →
  book_inv (apply_op op b).
Proof.
  intros Hb Hwf Hroom. destruct op as [id px sz sd ts|id px sz|id|px sz sd|]; simpl in *.
  - by apply add_order_inv_room.
  - by apply modify_order_inv.
  - by apply cancel_order_inv.
  - by destruct (execute_trade_inv b px sz sd Hb Hwf).
  - by apply clear_inv.
Qed.

Lemma run_ops_inv_room ops : ∀ b,
  book_inv b → Forall op_wf ops →
  (∀ k, Z.of_nat (size (OrderBook.order_map_ (run_ops (take k ops) b))) < 2 ^ 32) →
  book_inv (run_ops ops b).
Proof.
  induction ops as [|op ops IH]; intros b Hb Hwf Hroom; [done|].
  apply Forall_cons in Hwf as [Hop Hwf].
  change (run_ops (op :: ops) b) with (run_ops ops (apply_op op b)).
  apply IH; [|done|].
  - apply apply_op_inv_room; [done..|]. apply (Hroom 1%nat).
  - intros k. apply (Hroom (S k)).
Qed.

(** C5. Take any sequence of [add_order], [modify_order], [cancel_order],
    [execute_trade] and [clear] applied to the empty book, with sizes that
    fit their 32-bit field, along which the book never holds [2 ^ 32]
    orders or more.  Between any two of them, and at both ends, every level
    present in either side map has [total_size] equal to the sum of the
    sizes of its chained orders, [order_count] equal to their number, and
    [order_count] different from zero.  This is so in particular for every
    sequence of fewer than [2 ^ 32] operations. *)
Theorem levels_consistent_run (ops : list book_op) :
  Forall op_wf ops →
  ((∀ k, Z.of_nat (OrderBook.get_active_orders (run_ops (take k ops) OrderBook.init))
         < 2 ^ 32) →
   ∀ k, levels_consistent (run_ops (take k ops) OrderBook.init)) ∧
  (Z.of_nat (length ops) < 2 ^ 32 →
   ∀ k, levels_consistent (run_ops (take k ops) OrderBook.init)).
Proof.
  intros Hwf. split.
  - intros Hroom k. apply book_inv_consistent.
    apply (run_ops_inv_room (take k ops) OrderBook.init init_inv).
    + by apply Forall_take.
    + intros j. rewrite take_take. apply Hroom.
  - intros Hlen k. apply book_inv_consistent.
    apply (run_ops_inv (take k ops) OrderBook.init 0 init_inv).
    + by apply Forall_take.
    + simpl. rewrite map_size_empty. lia.
    + rewrite length_take. lia.
Qed.

Lemma levels_consistent_run_witness :
  Forall op_wf demo_ops ∧
  (∀ k, Z.of_nat (OrderBook.get_active_orders (run_ops (take k demo_ops) OrderBook.init))
        < 2 ^ 32) ∧
  levels_consistent (run_ops (take 5 demo_ops) OrderBook.init) ∧
  levels_consistent (run_ops demo_ops OrderBook.init).
Proof.
  assert (Hwf : Forall op_wf demo_ops)
    by (unfold demo_ops; repeat constructor; unfold is_u32; lia).
  assert (Hroom : ∀ k,
    Z.of_nat (OrderBook.get_active_orders (run_ops (take k demo_ops) OrderBook.init))
      < 2 ^ 32).
  { intros k. do 9 (destruct k as [|k]; [vm_compute; reflexivity|]).
    vm_compute. reflexivity. }
  split; [exact Hwf|]. split; [exact Hroom|].
  destruct (levels_consistent_run demo_ops Hwf) as [H _].
  split; [apply (H Hroom 5%nat) | apply (H Hroom 8%nat)].
Defined.

(** The level of [attach]: one more order counted, modulo [2 ^ 32], and
    chained last. *)
Lemma attach_counts st p px m :
  ∃ l', attach st p px m !! px = Some l' ∧
    Level.order_count l' =
      wrap32 (Level.order_count (default Level.init (m !! px)) + 1) ∧
    Level.chain l' = Level.chain (default Level.init (m !! px)) ++ [p].
Proof.
  unfold attach. rewrite lookup_insert_eq. eexists. split; [done|].
  by destruct (Level.empty _).
Qed.

Lemma many_adds_snoc n :
  many_adds (S n) = many_adds n ++ [OpAdd (Z.of_nat n) 10000 1 "B" 0].
Proof. unfold many_adds. by rewrite seq_S, fmap_app. Qed.

Lemma many_adds_wf n : Forall op_wf (many_adds n).
Proof.
  unfold many_adds. apply Forall_fmap, Forall_forall. intros i _. simpl.
  unfold is_u32. lia.
Qed.

(** Fewer than [2 ^ 32] orders added at one price: the level counts them. *)
Lemma many_adds_inv n :
  Z.of_nat n < 2 ^ 32 →
  book_inv (run_ops (many_adds n) OrderBook.init) ∧
  size (OrderBook.order_map_ (run_ops (many_adds n) OrderBook.init)) = n ∧
  (∀ id, Z.of_nat n <= id →
     OrderBook.order_map_ (run_ops (many_adds n) OrderBook.init) !! id = None) ∧
  Level.order_count
    (default Level.init
       (OrderBook.levels Bids (run_ops (many_adds n) OrderBook.init) !! 10000))
    = Z.of_nat n ∧
  length (Level.chain
    (default Level.init
       (OrderBook.levels Bids (run_ops (many_adds n) OrderBook.init) !! 10000))) = n.
Proof.
  induction n as [|n IH]; intros Hn.
  - split; [apply init_inv|]. by split_and!.
  - destruct IH as (Hb & Hsize & Hfree & Hcount & Hlen); [lia|].
    rewrite many_adds_snoc. unfold run_ops at 1 2 3 4 5. rewrite foldl_app.
    cbn [foldl apply_op]. fold (run_ops (many_adds n) OrderBook.init).
    set (b := run_ops (many_adds n) OrderBook.init) in *.
    assert (Hid : OrderBook.order_map_ b !! Z.of_nat n = None) by (apply Hfree; lia).
    split.
    { apply add_order_inv; [done | unfold is_u32; lia | lia]. }
    destruct (add_order_raw b (Z.of_nat n) 10000 1 0 Bids Hb Hid)
      as (p & pool' & k & _ & Heq).
    change (side_char Bids) with "B"%char in Heq. rewrite Heq. cbn [snd]. book_simpl.
    rewrite ?levels_set_levels_eq.
    destruct (attach_counts (OrderPool.objects_ pool') p 10000 (OrderBook.levels Bids b))
      as (l' & Hl' & Hc' & Hch').
    rewrite Hl'. cbn [from_option id]. rewrite Hc', Hch', Hcount, length_app, Hlen.
    split_and!.
    + rewrite map_size_insert_None by done. lia.
    + intros id Hge. rewrite lookup_insert_ne by lia. apply Hfree. lia.
    + rewrite wrap32_small by (unfold is_u32; lia). lia.
    + simpl. lia.
Qed.

(** C5, with no bound on the number of orders.  After [2 ^ 32] orders
    added at one bid price, through operations whose sizes fit their field,
    the level chains [2 ^ 32] orders and its [order_count], a 32-bit
    counter, is back to zero: the level is present with a count of zero
    that is not the number of its orders. *)
Lemma order_count_wraps :
  Forall op_wf (many_adds (Z.to_nat (2 ^ 32))) ∧
  (∃ l,
     OrderBook.levels Bids (run_ops (many_adds (Z.to_nat (2 ^ 32))) OrderBook.init)
       !! 10000 = Some l ∧
     Level.order_count l = 0 ∧
     Z.of_nat (length (Level.chain l)) = 2 ^ 32) ∧
  ¬ levels_consistent (run_ops (many_adds (Z.to_nat (2 ^ 32))) OrderBook.init).
Proof.
  split; [apply many_adds_wf|].
  assert (Hl : ∃ l,
     OrderBook.levels Bids (run_ops (many_adds (Z.to_nat (2 ^ 32))) OrderBook.init)
       !! 10000 = Some l ∧
     Level.order_count l = 0 ∧
     Z.of_nat (length (Level.chain l)) = 2 ^ 32).
  { assert (HN : ∃ n : nat, Z.to_nat (2 ^ 32) = S n ∧ Z.of_nat n = 2 ^ 32 - 1).
    { exists (Z.to_nat (2 ^ 32 - 1)). lia. }
    destruct HN as (n & -> & Hn).
    destruct (many_adds_inv n) as (Hb & Hsize & Hfree & Hcount & Hlen); [lia|].
    rewrite many_adds_snoc. unfold run_ops. rewrite foldl_app.
    cbn [foldl apply_op]. fold (run_ops (many_adds n) OrderBook.init).
    set (b := run_ops (many_adds n) OrderBook.init) in *.
    assert (Hid : OrderBook.order_map_ b !! Z.of_nat n = None) by (apply Hfree; lia).
    destruct (add_order_raw b (Z.of_nat n) 10000 1 0 Bids Hb Hid)
      as (p & pool' & k & _ & Heq).
    change (side_char Bids) with "B"%char in Heq. rewrite Heq. cbn [snd]. book_simpl.
    rewrite ?levels_set_levels_eq.
    destruct (attach_counts (OrderPool.objects_ pool') p 10000 (OrderBook.levels Bids b))
      as (l' & Hl' & Hc' & Hch').
    exists l'. split; [done|]. rewrite Hc', Hch', Hcount, length_app, Hlen, Hn.
    split; [reflexivity|]. simpl. lia. }
  split; [exact Hl|].
  destruct Hl as (l & Hl & H0 & _). intros Hcons.
  destruct (Hcons Bids 10000 l Hl) as (_ & _ & Hne). by apply Hne.
Qed.

Lemma modify_order_fails_iff b id np ns :
  (OrderBook.modify_order id np ns b).1 = false ↔ OrderBook.order_map_ b !! id = None.
Proof.
  unfold OrderBook.modify_order.
  destruct (OrderBook.order_map_ b !! id) as [p|]; [|done].
  split; [|done]. case_bool_decide; [|done].
  set (b2 := OrderBook.write_order _ _ _).
  destruct (add_to_side_eq p Bids b2) as [n1 ->].
  destruct (add_to_side_eq p Asks b2) as [n2 ->].
  by destruct (Ascii.eqb _ _).
Qed.

(** C6. [modify_order id new_price new_size] on a book satisfying its
    invariant returns false exactly when [id] is not resting, and then
    leaves the book as it is.  For a resting order the id map is kept, the
    order is rewritten with the new price and size, and the other side is
    untouched.  At an unchanged price the chain and the count of the level
    are kept and [total_size] moves by [new_size - old_size].  At a new
    price the order leaves its level, which is deleted if that empties it,
    and is appended after the last order of the destination level on the
    same side, the level being created if absent. *)
Theorem modify_order_spec b id np ns :
  book_inv b → is_u32 ns →
  ((OrderBook.modify_order id np ns b).1 = false ↔ OrderBook.order_map_ b !! id = None) ∧
  (OrderBook.order_map_ b !! id = None → (OrderBook.modify_order id np ns b).2 = b) ∧
  ∀ p, OrderBook.order_map_ b !! id = Some p →
    (∃ o sm l,
       OrderBook.objects b !! p = Some o ∧
       OrderBook.levels sm b !! Order.price_raw o = Some l ∧ p ∈ Level.chain l) ∧
    ∀ o sm l,
      OrderBook.objects b !! p = Some o →
      OrderBook.levels sm b !! Order.price_raw o = Some l → p ∈ Level.chain l →
      let b' := (OrderBook.modify_order id np ns b).2 in
      OrderBook.order_map_ b' = OrderBook.order_map_ b ∧
      OrderBook.objects b' =
        <[p := Order.mk id np ns (Order.original_size o) (Order.timestamp_ns o)]>
          (OrderBook.objects b) ∧
      OrderBook.levels (other_side sm) b' = OrderBook.levels (other_side sm) b ∧
      OrderBook.levels sm b' =
        if decide (np = Order.price_raw o) then
          <[np := Level.mk np (Level.total_size l + (ns - Order.size o))
                    (Level.order_count l) (Level.chain l)]> (OrderBook.levels sm b)
        else
          <[np := match OrderBook.levels sm b !! np with
                  | Some d => Level.mk np (Level.total_size d + ns)
                                (Level.order_count d + 1) (Level.chain d ++ [p])
                  | None => Level.mk np ns 1 [p]
                  end]>
            (if bool_decide (filter (λ q, q ≠ p) (Level.chain l) = [])
             then delete (Order.price_raw o) (OrderBook.levels sm b)
             else <[Order.price_raw o :=
                      Level.mk (Order.price_raw o) (Level.total_size l - Order.size o)
                        (Level.order_count l - 1)
                        (filter (λ q, q ≠ p) (Level.chain l))]>
                    (OrderBook.levels sm b)).
Proof.
  intros Hb Hns. split; [apply modify_order_fails_iff|]. split.
  { intros Hid. unfold OrderBook.modify_order. by rewrite Hid. }
  intros p Hid. split.
  { destruct (inv_resting b id p Hb Hid) as (o & sm & l & Ho & _ & _ & Hl & Hp).
    by exists o, sm, l. }
  intros o sm l Ho Hl Hp.
  destruct (inv_resting b id p Hb Hid) as (o' & _ & _ & Ho' & Hoid & Hsz & _).
  assert (o' = o) as -> by congruence.
  destruct (modify_order_unfold b id np ns p o sm l Hb Hid Ho Hl Hp) as [n ->].
  pose proof (inv_levels b Hb) as Hlv.
  pose proof (inv_capacity b Hb) as Hcap.
  cbn zeta. cbn [snd].
  destruct (decide (Order.price_raw o = np)) as [Hpx|Hpx].
  - rewrite decide_True by done.
    destruct (level_modify_ok _ _ _ l p o ns (Hlv sm _ _ Hl) Hp Ho Hns Hcap) as [Heq _].
    book_simpl. rewrite Heq. subst np id. by destruct o.
  - rewrite decide_False by done.
    set (o' := Order.set_size ns (Order.set_price_raw np o)).
    set (m1 := detach _ _ _ _).
    assert (Hm1 : levels_ok (OrderBook.objects b) (OrderBook.order_map_ b) m1)
      by by eapply detach_ok.
    assert (Hp1 : ∀ px' l', m1 !! px' = Some l' → p ∉ Level.chain l')
      by by eapply detach_notin.
    assert (Hm1' : levels_ok (<[p := o']> (OrderBook.objects b)) (OrderBook.order_map_ b) m1)
      by by apply levels_ok_insert_notin.
    assert (Hnew : <[p := o']> (OrderBook.objects b) !! p = Some o')
      by apply lookup_insert_eq.
    assert (Hidp : OrderBook.order_map_ b !! Order.order_id o' = Some p)
      by (simpl; congruence).
    book_simpl.
    split; [done|]. split; [subst id; by destruct o|]. split; [done|].
    change np with (Order.price_raw o') at 1.
    rewrite (attach_eq _ _ _ p o' Hm1' Hnew Hns).
    assert (Hdst : m1 !! np = OrderBook.levels sm b !! np).
    { unfold m1. by rewrite (detach_lookup_ne _ _ _ _ l p (Hlv sm) Hl Hp Hcap). }
    change (Order.price_raw o') with np. change (Order.size o') with ns.
    rewrite Hdst.
    assert (Hm1eq : m1 =
      if bool_decide (filter (λ q, q ≠ p) (Level.chain l) = [])
      then delete (Order.price_raw o) (OrderBook.levels sm b)
      else <[Order.price_raw o :=
               Level.mk (Order.price_raw o) (Level.total_size l - Order.size o)
                 (Level.order_count l - 1) (filter (λ q, q ≠ p) (Level.chain l))]>
             (OrderBook.levels sm b)).
    { unfold m1. rewrite (detach_eq _ _ _ _ l p (Hlv sm) Hl Hp Hcap).
      by rewrite (level_remove_order_eq _ _ _ l p o (Hlv sm _ _ Hl) Hp Ho Hcap). }
    rewrite <- Hm1eq. f_equal.
    destruct (OrderBook.levels sm b !! np) as [d|] eqn:Hd; [|done].
    rewrite <- Hdst in Hd.
    apply (level_add_order_eq _ (OrderBook.order_map_ b) np d p o'); try done.
    + by apply Hm1'.
    + by eapply Hp1.
Qed.

Lemma modify_order_spec_witness :
  book_inv two_bids_book ∧ is_u32 120 ∧
  OrderBook.levels Bids (OrderBook.modify_order 1001 10075 120 two_bids_book).2 !! 10075 =
    Some (Level.mk 10075 270 2 [49998; 49999]) ∧
  OrderBook.levels Bids (OrderBook.modify_order 1001 10075 120 two_bids_book).2 !! 10050 =
    None.
Proof.
  assert (Hb : book_inv two_bids_book).
  { apply (run_ops_inv _ OrderBook.init 0 init_inv).
    - repeat constructor; unfold is_u32; lia.
    - simpl. rewrite map_size_empty. lia.
    - simpl. lia. }
  assert (Hu : is_u32 120) by (unfold is_u32; lia).
  split; [done|]. split; [done|].
  destruct (modify_order_spec two_bids_book 1001 10075 120 Hb Hu) as (_ & _ & H).
  destruct (H 49999 eq_refl) as [_ H'].
  destruct (H' (Order.mk 1001 10050 100 100 1000) Bids (Level.mk 10050 100 1 [49999])
              eq_refl eq_refl) as (_ & _ & _ & E).
  { by left. }
  rewrite E. vm_compute. done.
Defined.

(** the walk of the specification *)

Lemma fifo_walk_ext sz sz' rem c :
  (∀ q, q ∈ c → sz q = sz' q) → fifo_walk sz rem c = fifo_walk sz' rem c.
Proof.
  revert rem. induction c as [|p c IH]; intros rem H; simpl; [done|].
  rewrite <- (H p) by left.
  rewrite (IH (rem - sz p)) by (intros q Hq; apply H; by right). done.
Qed.

Lemma fifo_walk_parts sz rem c :
  filled (fifo_walk sz rem c) ++ rest (fifo_walk sz rem c) = c ∧
  ∀ q x, cut (fifo_walk sz rem c) = Some (q, x) → q ∈ c.
Proof.
  revert rem. induction c as [|p c IH]; intros rem; simpl; [done|].
  destruct (0 <? rem); [|done].
  destruct (sz p <=? rem); simpl.
  - destruct (IH (rem - sz p)) as [-> H]. split; [done|].
    intros q x Hq. right. by eapply H.
  - split; [done|]. intros q x [= <- <-]. left.
Qed.

Lemma fifo_walk_filled_in sz rem c q :
  q ∈ filled (fifo_walk sz rem c) → q ∈ c.
Proof.
  intros Hq. destruct (fifo_walk_parts sz rem c) as [<- _].
  apply elem_of_app. by left.
Qed.

Lemma foldr_delete_comm {A} (f : Z → Z) (k : Z) (m : gmap Z A) (l : list Z) :
  foldr (λ q m, delete (f q) m) (delete k m) l =
  delete k (foldr (λ q m, delete (f q) m) m l).
Proof.
  induction l as [|q l IH]; simpl; [done|]. by rewrite IH, delete_delete.
Qed.

Lemma foldr_delete_ext {A} (f g : Z → Z) (m : gmap Z A) (l : list Z) :
  (∀ q, q ∈ l → f q = g q) →
  foldr (λ q m, delete (f q) m) m l = foldr (λ q m, delete (g q) m) m l.
Proof.
  induction l as [|q l IH]; intros H; simpl; [done|].
  rewrite (H q) by left. rewrite IH by (intros r Hr; apply H; by right). done.
Qed.

Lemma deref_delete_ne (st : gmap Z Order.t) p q :
  q ≠ p → deref (delete p st) q = deref st q.
Proof. intros H. unfold deref. by rewrite lookup_delete_ne. Qed.

Lemma cancel_head_effect b sm price l p c' o :
  book_inv b →
  OrderBook.levels sm b !! price = Some l →
  Level.chain l = p :: c' →
  OrderBook.objects b !! p = Some o →
  let b1 := (OrderBook.cancel_order (Order.order_id o) b).2 in
  OrderBook.levels sm b1 =
    match c' with
    | [] => delete price (OrderBook.levels sm b)
    | _ => <[price := Level.mk price (Level.total_size l - Order.size o)
                        (Level.order_count l - 1) c']> (OrderBook.levels sm b)
    end ∧
  OrderBook.levels (other_side sm) b1 = OrderBook.levels (other_side sm) b ∧
  OrderBook.order_map_ b1 = delete (Order.order_id o) (OrderBook.order_map_ b) ∧
  OrderBook.objects b1 = delete p (OrderBook.objects b).
Proof.
  intros Hb Hl Hc Ho.
  pose proof (inv_levels b Hb sm _ _ Hl) as Hlok.
  pose proof (inv_capacity b Hb) as Hcap.
  assert (Hp : p ∈ Level.chain l) by (rewrite Hc; left).
  destruct (inv_chained b sm price l p Hb Hl Hp) as (o' & Ho' & Hpx & Hsz & Hid).
  assert (o' = o) as -> by congruence. subst price.
  rewrite (cancel_order_unfold b _ p o sm l Hb Hid Ho Hl Hp). cbn zeta. cbn [snd].
  book_simpl. split; [|done].
  rewrite (detach_eq _ _ _ _ l p (inv_levels b Hb sm) Hl Hp Hcap).
  rewrite (level_remove_order_eq _ _ _ l p o Hlok Hp Ho Hcap).
  assert (Hnd : NoDup (p :: c')) by (rewrite <- Hc; apply (lv_chain _ _ _ _ Hlok)).
  rewrite Hc, (filter_ne_head p c' Hnd). by destruct c'.
Qed.

Lemma execute_trade_on_side_fill c : ∀ b sm price rem l,
  book_inv b → is_u32 rem →
  OrderBook.levels sm b !! price = Some l →
  Level.chain l = c →
  let st := OrderBook.objects b in
  let f := fifo_walk (λ q, Order.size (deref st q)) rem c in
  let b' := (OrderBook.execute_trade_on_side price rem sm b).2 in
  OrderBook.levels sm b' = fill_levels st f price l (OrderBook.levels sm b) ∧
  OrderBook.levels (other_side sm) b' = OrderBook.levels (other_side sm) b ∧
  OrderBook.order_map_ b' = fill_ids st f (OrderBook.order_map_ b) ∧
  OrderBook.objects b' = fill_objects st f.
Proof.
  induction c as [|p c' IH]; intros b sm price rem l Hb Hrem Hl Hc.
  { by destruct (lv_nonempty _ _ _ _ (inv_levels b Hb sm _ _ Hl)). }
  pose proof (inv_levels b Hb sm _ _ Hl) as Hlok.
  pose proof (inv_capacity b Hb) as Hcap.
  assert (Hp : p ∈ Level.chain l) by (rewrite Hc; left).
  assert (Hnd : NoDup (p :: c')) by (rewrite <- Hc; apply (lv_chain _ _ _ _ Hlok)).
  destruct (inv_chained b sm price l p Hb Hl Hp) as (o & Ho & Hpx & Hsz & Hid).
  pose proof (deref_Some _ _ _ Ho) as Hd.
  cbn zeta.
  rewrite (execute_trade_on_side_unroll b sm price rem l p c' o Hb Hrem Hl Hc Ho).
  unfold is_u32 in Hrem, Hsz. simpl fifo_walk. rewrite Hd.
  destruct (rem =? 0) eqn:Hz.
  { apply Z.eqb_eq in Hz as ->. simpl.
    unfold fill_levels, fill_ids, fill_objects, taken. simpl. book_simpl.
    split; [|done]. rewrite insert_id; [done|]. rewrite Hl. f_equal.
    destruct Hlok as [Hpr _ _ _ _]. destruct l; simpl in *. subst. f_equal; lia. }
  apply Z.eqb_neq in Hz.
  assert ((0 <? rem) = true) as -> by (apply Z.ltb_lt; lia).
  destruct (Order.size o <=? rem) eqn:Hle.
  - apply Z.leb_le in Hle.
    destruct (cancel_head_effect b sm price l p c' o Hb Hl Hc Ho) as (E1 & E2 & E3 & E4).
    pose proof (cancel_order_inv b (Order.order_id o) Hb) as Hb1.
    set (b1 := (OrderBook.cancel_order (Order.order_id o) b).2) in *.
    destruct c' as [|q c''].
    + simpl. unfold fill_levels, fill_ids, fill_objects, taken. simpl.
      by rewrite Hd.
    + set (c' := q :: c'') in *.
      set (l1 := Level.mk price (Level.total_size l - Order.size o)
                   (Level.order_count l - 1) c') in *.
      assert (Hl1 : OrderBook.levels sm b1 !! price = Some l1)
        by (rewrite E1; apply lookup_insert_eq).
      destruct (IH b1 sm price (rem - Order.size o) l1 Hb1) as (F1 & F2 & F3 & F4);
        [unfold is_u32; lia | done | done |].
      assert (Hfr : ∀ r, r ∈ c' →
        deref (OrderBook.objects b1) r = deref (OrderBook.objects b) r).
      { intros r Hr. rewrite E4. apply deref_delete_ne. intros ->.
        by apply NoDup_cons in Hnd as [? _]. }
      rewrite (fifo_walk_ext _ (λ r, Order.size (deref (OrderBook.objects b) r)))
        in F1, F3, F4 by (intros r Hr; by rewrite Hfr).
      set (f := fifo_walk _ (rem - Order.size o) c') in *.
      assert (Hfin : ∀ r, r ∈ filled f → r ∈ c') by (intros r; apply fifo_walk_filled_in).
      split_and!.
      * rewrite F1, E1. unfold fill_levels, taken. simpl.
        rewrite (sizes_sum_frame (OrderBook.objects b) (OrderBook.objects b1))
          by (intros r Hr; rewrite E4; apply lookup_delete_ne; intros ->;
              apply Hfin in Hr; by apply NoDup_cons in Hnd as [? _]).
        rewrite Hd. destruct (rest f).
        -- by rewrite delete_insert_eq.
        -- rewrite insert_insert_eq. f_equal. f_equal; [lia|].
           rewrite Nat2Z.inj_succ. lia.
      * by rewrite F2, E2.
      * rewrite F3, E3. unfold fill_ids. simpl. rewrite Hd.
        rewrite <- foldr_delete_comm. apply foldr_delete_ext.
        intros r Hr. rewrite Hfr; [done|]. by apply Hfin.
      * rewrite F4. unfold fill_objects. simpl. rewrite E4.
        rewrite (foldr_delete_comm (λ r, r)).
        destruct (cut f) as [[r x]|] eqn:Hcut; [|done].
        rewrite deref_delete_ne; [done|]. intros ->.
        destruct (fifo_walk_parts (λ r, Order.size (deref (OrderBook.objects b) r))
                    (rem - Order.size o) c') as [_ Hin].
        apply (Hin _ _) in Hcut. by apply NoDup_cons in Hnd as [? _].
  - apply Z.leb_gt in Hle. rewrite <- Hpx in Hl.
    destruct (modify_order_unfold b (Order.order_id o) price (Order.size o - rem)
                p o sm l Hb Hid Ho Hl Hp) as [n ->].
    rewrite decide_True by done. cbn [snd].
    assert (Hu : is_u32 (Order.size o - rem)) by (unfold is_u32; lia).
    rewrite Hpx in Hl.
    destruct (level_modify_ok _ _ _ l p o _ Hlok Hp Ho Hu Hcap) as [Heq _].
    unfold fill_levels, fill_ids, fill_objects, taken. simpl. book_simpl.
    rewrite Heq, Hd, Hpx, Hc. split; [|done]. f_equal. f_equal; lia.
Qed.

Lemma fifo_walk_exhaust sz rem c :
  (∀ q, q ∈ c → 0 <= sz q) →
  foldr (λ q acc, sz q + acc) 0 c < rem →
  fifo_walk sz rem c = mkfill c None [].
Proof.
  revert rem. induction c as [|p c IH]; intros rem Hpos Hlt; simpl in *; [done|].
  assert (Hc : 0 <= foldr (λ q acc, sz q + acc) 0 c).
  { clear -Hpos. induction c as [|q c IH]; simpl; [lia|].
    pose proof (Hpos q (list_elem_of_further _ _ _ (list_elem_of_here _ _))).
    assert (0 <= foldr (λ q acc, sz q + acc) 0 c); [|lia].
    apply IH. intros r Hr. apply elem_of_cons in Hr as [->|Hr].
    - apply Hpos. left.
    - apply Hpos. right. by right. }
  pose proof (Hpos p (list_elem_of_here _ _)).
  assert ((0 <? rem) = true) as -> by (apply Z.ltb_lt; lia).
  assert ((sz p <=? rem) = true) as -> by (apply Z.leb_le; lia).
  rewrite IH; [done | | lia]. intros q Hq. apply Hpos. by right.
Qed.

Lemma execute_trade_eq price size side b :
  OrderBook.execute_trade price size side b =
  OrderBook.execute_trade_on_side price size (passive_side side) b.
Proof.
  unfold OrderBook.execute_trade, passive_side. by destruct (Ascii.eqb side "B").
Qed.

(** C3. [execute_trade] consumes from the passive side (the asks for the
    aggressor [B], the bids otherwise) at exactly the given price.  It
    returns false if and only if that side has no level at the price, and
    the book is then unchanged.  Otherwise it returns true and the level is
    walked head first for as long as some quantity remains ([fifo_walk]):
    each head order no larger than the remaining quantity is removed from
    the level, from the id map and from the store, the first larger one is
    reduced by the remainder, the aggregates of the level follow, and the
    other side is untouched.  When the level holds less than the traded
    size every order of it is consumed and the level is deleted. *)
Theorem execute_trade_spec b price size side :
  book_inv b → is_u32 size →
  let sm := passive_side side in
  let r := OrderBook.execute_trade price size side b in
  (r.1 = false ↔ OrderBook.levels sm b !! price = None) ∧
  (OrderBook.levels sm b !! price = None → r.2 = b) ∧
  ∀ l, OrderBook.levels sm b !! price = Some l →
    let st := OrderBook.objects b in
    let f := fifo_walk (λ q, Order.size (deref st q)) size (Level.chain l) in
    r.1 = true ∧
    OrderBook.levels sm r.2 = fill_levels st f price l (OrderBook.levels sm b) ∧
    OrderBook.levels (other_side sm) r.2 = OrderBook.levels (other_side sm) b ∧
    OrderBook.order_map_ r.2 = fill_ids st f (OrderBook.order_map_ b) ∧
    OrderBook.objects r.2 = fill_objects st f ∧
    (sizes_sum st (Level.chain l) < size →
       filled f = Level.chain l ∧ cut f = None ∧
       OrderBook.levels sm r.2 = delete price (OrderBook.levels sm b)).
Proof.
  intros Hb Hsz. cbn zeta. rewrite execute_trade_eq.
  set (sm := passive_side side).
  split_and!.
  - unfold OrderBook.execute_trade_on_side.
    by destruct (OrderBook.levels sm b !! price).
  - intros Hl. unfold OrderBook.execute_trade_on_side. by rewrite Hl.
  - intros l Hl.
    destruct (execute_trade_on_side_fill (Level.chain l) b sm price size l Hb Hsz Hl eq_refl)
      as (F1 & F2 & F3 & F4).
    split_and!; try done.
    + unfold OrderBook.execute_trade_on_side. by rewrite Hl.
    + intros Hlt.
      pose proof (lv_chain _ _ _ _ (inv_levels b Hb sm _ _ Hl)) as Hc.
      assert (Hex : fifo_walk (λ q, Order.size (deref (OrderBook.objects b) q)) size
                      (Level.chain l) = mkfill (Level.chain l) None []).
      { apply fifo_walk_exhaust; [|done].
        intros q Hq. pose proof (chain_ok_size_u32 _ _ _ _ _ Hc Hq) as Hu.
        unfold is_u32 in Hu. lia. }
      rewrite Hex in F1 |- *. by rewrite F1.
Qed.

(** C3, the walk read without its guard.  On a level holding an order of
    size 5 followed by an order of size 0, a trade of size 5 stops once the
    first order is consumed: the second order stays in the level, although
    its size is at most the remaining quantity, which is zero. *)
Lemma trade_walk_as_stated_fails :
  OrderBook.levels Asks zero_size_book !! 10100 =
    Some (Level.mk 10100 5 2 [49999; 49998]) ∧
  chain_at Asks 10100 (OrderBook.execute_trade 10100 5 "B" zero_size_book).2 = [49998] ∧
  ¬ trade_walk_as_stated zero_size_book 10100 5 "B".
Proof.
  split; [by vm_compute|]. split; [by vm_compute|].
  intros H.
  specialize (H (Level.mk 10100 5 2 [49999; 49998]) eq_refl).
  vm_compute in H. discriminate H.
Qed.

Lemma execute_trade_spec_witness :
  book_inv zero_size_book ∧ is_u32 5 ∧
  chain_at Asks 10100 (OrderBook.execute_trade 10100 5 "B" zero_size_book).2 = [49998].
Proof.
  assert (Hb : book_inv zero_size_book).
  { apply (run_ops_inv _ OrderBook.init 0 init_inv).
    - repeat constructor; unfold is_u32; lia.
    - simpl. rewrite map_size_empty. lia.
    - simpl. lia. }
  assert (Hu : is_u32 5) by (unfold is_u32; lia).
  split; [done|]. split; [done|].
  destruct (execute_trade_spec zero_size_book 10100 5 "B" Hb Hu) as (_ & _ & H).
  destruct (H (Level.mk 10100 5 2 [49999; 49998]) eq_refl) as (_ & H1 & _).
  unfold chain_at. change (passive_side "B") with Asks in H1. rewrite H1.
  vm_compute. reflexivity.
Defined.

(** the loop of a trade ends because its guard fails *)

Lemma trade_body_chain p w :
  Level.first_order (OrderBook.level w) = Some p →
  OrderBook.remaining_size (OrderBook.trade_body p w) = 0 ∨
  (length (Level.chain (OrderBook.level (OrderBook.trade_body p w)))
   < length (Level.chain (OrderBook.level w)))%nat.
Proof.
  intros Hp. unfold OrderBook.trade_body.
  destruct (_ <=? _); simpl; [right | by left].
  unfold Level.first_order in Hp.
  destruct (Level.chain (OrderBook.level w)) as [|q c]; [done|].
  injection Hp as ->. rewrite filter_cons. rewrite decide_False by (intros ?; done).
  pose proof (length_filter (λ q, q ≠ p) c). simpl. lia.
Qed.

Lemma trade_loop_exits n : ∀ w,
  (length (Level.chain (OrderBook.level w)) ≤ n)%nat →
  let w' := OrderBook.trade_loop n w in
  (0 <? OrderBook.remaining_size w') = false ∨
  Level.first_order (OrderBook.level w') = None.
Proof.
  induction n as [|n IH]; intros w Hlen; simpl.
  - right. unfold Level.first_order.
    destruct (Level.chain (OrderBook.level w)); [done | simpl in Hlen; lia].
  - destruct (0 <? OrderBook.remaining_size w) eqn:Hr; [|by left].
    destruct (Level.first_order (OrderBook.level w)) as [p|] eqn:Hp; [|by right].
    destruct (trade_body_chain p w Hp) as [Hz|Hlt].
    + rewrite trade_loop_zero by done. left. by rewrite Hz.
    + apply IH. lia.
Qed.

Lemma trade_loop_more n : ∀ m w,
  (length (Level.chain (OrderBook.level w)) ≤ n)%nat → (n ≤ m)%nat →
  OrderBook.trade_loop m w = OrderBook.trade_loop n w.
Proof.
  induction n as [|n IH]; intros m w Hlen Hm.
  - simpl. destruct m; simpl; [done|].
    destruct (0 <? _); [|done].
    unfold Level.first_order.
    destruct (Level.chain (OrderBook.level w)); [done | simpl in Hlen; lia].
  - destruct m as [|m]; [lia|]. simpl.
    destruct (0 <? OrderBook.remaining_size w) eqn:Hr; [|done].
    destruct (Level.first_order (OrderBook.level w)) as [p|] eqn:Hp; [|done].
    destruct (trade_body_chain p w Hp) as [Hz|Hlt].
    + by rewrite !trade_loop_zero.
    + apply IH; lia.
Qed.

(** ** The quantity a trade takes *)

Lemma fifo_walk_taken st rem c :
  (∀ q, q ∈ c → 0 <= Order.size (deref st q)) → 0 <= rem →
  let f := fifo_walk (λ q, Order.size (deref st q)) rem c in
  taken st f = Z.min rem (sizes_sum st c) ∧
  (rest f = [] → taken st f = sizes_sum st c).
Proof.
  revert rem. induction c as [|p c IH]; intros rem Hpos Hrem; simpl.
  - unfold taken. simpl. split; [lia|done].
  - assert (Hp : 0 <= Order.size (deref st p)) by (apply Hpos; left).
    assert (Hc : ∀ q, q ∈ c → 0 <= Order.size (deref st q))
      by (intros q Hq; apply Hpos; by right).
    assert (Hs : 0 <= sizes_sum st c).
    { clear -Hc. induction c as [|q c IH]; simpl; [lia|].
      assert (0 <= Order.size (deref st q)) by (apply Hc; left).
      assert (0 <= sizes_sum st c) by (apply IH; intros; apply Hc; by right). lia. }
    destruct (0 <? rem) eqn:H0.
    + apply Z.ltb_lt in H0. destruct (_ <=? rem) eqn:Hle.
      * apply Z.leb_le in Hle.
        destruct (IH (rem - Order.size (deref st p)) Hc) as [IH1 IH2]; [lia|].
        unfold taken in *. simpl in *. split; [lia|]. intros Hr. specialize (IH2 Hr). lia.
      * apply Z.leb_gt in Hle. unfold taken. simpl. split; [lia|done].
    + apply Z.ltb_ge in H0. unfold taken. simpl. split; [lia|done].
Qed.

(** A trade on one side takes out of the level at its price the smaller
    of its size and of the quantity resting there. *)
Lemma execute_trade_on_side_depth b price size sm :
  book_inv b → is_u32 size →
  let b' := (OrderBook.execute_trade_on_side price size sm b).2 in
  depth_at sm price b' = depth_at sm price b - Z.min size (depth_at sm price b) ∧
  (∀ px, px ≠ price → OrderBook.levels sm b' !! px = OrderBook.levels sm b !! px) ∧
  OrderBook.levels (other_side sm) b' = OrderBook.levels (other_side sm) b.
Proof.
  intros Hb Hsz b'. unfold b'. unfold depth_at.
  destruct (OrderBook.levels sm b !! price) as [l|] eqn:Hl.
  - destruct (execute_trade_on_side_fill (Level.chain l) b sm price size l Hb Hsz Hl eq_refl)
      as (H1 & H2 & _ & _).
    pose proof (inv_levels b Hb sm _ _ Hl) as Hlok.
    destruct (fifo_walk_taken (OrderBook.objects b) size (Level.chain l)) as [T1 T2].
    { intros q Hq. pose proof (chain_ok_size_u32 _ _ _ _ _ (lv_chain _ _ _ _ Hlok) Hq) as Hu.
      unfold is_u32 in Hu. lia. }
    { unfold is_u32 in Hsz. lia. }
    rewrite H1, H2. rewrite (lv_total _ _ _ _ Hlok).
    unfold fill_levels.
    destruct (rest _) as [|q c'] eqn:Hrest.
    + rewrite lookup_delete_eq. specialize (T2 eq_refl).
      split; [lia|]. split; [|done]. intros px Hne. by rewrite lookup_delete_ne.
    + rewrite lookup_insert_eq. simpl. rewrite (lv_total _ _ _ _ Hlok).
      split; [lia|]. split; [|done]. intros px Hne. by rewrite lookup_insert_ne.
  - unfold OrderBook.execute_trade_on_side. rewrite Hl. cbn [snd]. rewrite Hl.
    unfold is_u32 in Hsz. split; [lia|done].
Qed.

(** * The action engine *)

Lemma process_event_dispatch e s : dispatch e s.
Proof.
  destruct (Ascii.eqb (Event.action e) "A") eqn:HA.
  { apply on_add; [by apply Ascii.eqb_eq|].
    unfold ActionEngine.process_event. by rewrite HA. }
  destruct (Ascii.eqb (Event.action e) "M") eqn:HM.
  { apply on_modify; [by apply Ascii.eqb_eq|].
    unfold ActionEngine.process_event. by rewrite HA, HM. }
  destruct (Ascii.eqb (Event.action e) "C") eqn:HC.
  { apply on_cancel; [by apply Ascii.eqb_eq|].
    unfold ActionEngine.process_event. by rewrite HA, HM, HC. }
  destruct (Ascii.eqb (Event.action e) "T") eqn:HT.
  { apply on_trade; [by apply Ascii.eqb_eq|].
    unfold ActionEngine.process_event. by rewrite HA, HM, HC, HT. }
  destruct (Ascii.eqb (Event.action e) "F") eqn:HF.
  { apply on_fill; [by apply Ascii.eqb_eq|].
    unfold ActionEngine.process_event. by rewrite HA, HM, HC, HT, HF. }
  destruct (Ascii.eqb (Event.action e) "R") eqn:HR.
  { apply on_clear; [by apply Ascii.eqb_eq|].
    unfold ActionEngine.process_event. by rewrite HA, HM, HC, HT, HF, HR. }
  destruct (Ascii.eqb (Event.action e) "N") eqn:HN.
  { apply on_noop; [by apply Ascii.eqb_eq|].
    unfold ActionEngine.process_event. by rewrite HA, HM, HC, HT, HF, HR, HN. }
  apply on_unknown.
  - unfold known_action. by rewrite HA, HM, HC, HT, HF, HR, HN.
  - unfold ActionEngine.process_event. by rewrite HA, HM, HC, HT, HF, HR, HN.
Qed.

(** The handlers that leave the trade state machine alone. *)

Lemma handle_add_machine e s : same_machine s (ActionEngine.handle_add e s).2.
Proof.
  unfold ActionEngine.handle_add. destruct (Ascii.eqb _ _); [done|].
  destruct (OrderBook.add_order _ _ _ _ _ _) as [[] b]; done.
Qed.

Lemma handle_modify_machine e s : same_machine s (ActionEngine.handle_modify e s).2.
Proof.
  unfold ActionEngine.handle_modify. destruct (Ascii.eqb _ _); [done|].
  destruct (OrderBook.modify_order _ _ _ _) as [[] b]; done.
Qed.

Lemma handle_cancel_plain e s :
  ActionEngine.trade_state_ s ≠ FILL_RECEIVED →
  same_machine s (ActionEngine.handle_cancel e s).2.
Proof.
  intros H. unfold ActionEngine.handle_cancel. rewrite bool_decide_eq_false_2 by done.
  destruct (OrderBook.cancel_order _ _) as [[] b]; done.
Qed.

Lemma run_snoc events e s :
  ActionEngine.run (events ++ [e]) s =
  (ActionEngine.process_event e (ActionEngine.run events s)).2.
Proof. unfold ActionEngine.run. by rewrite foldl_snoc. Qed.

Lemma last_trade_snoc events e :
  last_trade (events ++ [e]) =
  if Ascii.eqb (Event.action e) "T" then Some e else last_trade events.
Proof. unfold last_trade. by rewrite foldl_snoc. Qed.

Lemma clear_seen_snoc events e :
  clear_seen (events ++ [e]) = clear_seen events || Ascii.eqb (Event.action e) "R".
Proof. unfold clear_seen. rewrite existsb_app. simpl. by rewrite orb_false_r. Qed.

Lemma engine_inv_same events e s s' :
  engine_inv events s → same_machine s s' →
  Ascii.eqb (Event.action e) "T" = false →
  Ascii.eqb (Event.action e) "R" = false →
  engine_inv (events ++ [e]) s'.
Proof.
  intros [Hc Hm] (H1 & H2 & H3 & H4) HT HR. unfold engine_inv.
  rewrite clear_seen_snoc, last_trade_snoc, HT, HR, orb_false_r, H1, H2, H3, H4.
  done.
Qed.

Lemma count_action_machine s : same_machine s (ActionEngine.count_action s).
Proof. done. Qed.

Lemma same_machine_trans s1 s2 s3 :
  same_machine s1 s2 → same_machine s2 s3 → same_machine s1 s3.
Proof. intros (?&?&?&?) (?&?&?&?). unfold same_machine. split_and!; congruence. Qed.

Lemma engine_inv_step events s e :
  engine_inv events s →
  engine_inv (events ++ [e]) (ActionEngine.process_event e s).2.
Proof.
  intros Hinv.
  destruct (process_event_dispatch e s) as [Ha He|Ha He|Ha He|Ha He|Ha He|Ha He|Ha He|Ha He];
    rewrite He.
  - eapply engine_inv_same; [done| |by rewrite Ha..].
    eapply same_machine_trans; [apply count_action_machine | apply handle_add_machine].
  - eapply engine_inv_same; [done| |by rewrite Ha..].
    eapply same_machine_trans; [apply count_action_machine | apply handle_modify_machine].
  - destruct (decide (ActionEngine.trade_state_ s = FILL_RECEIVED)) as [Hst|Hst].
    + destruct Hinv as [Hc Hm]. unfold engine_inv.
      rewrite clear_seen_snoc, last_trade_snoc, Ha. simpl. rewrite orb_false_r.
      unfold ActionEngine.handle_cancel. simpl.
      rewrite bool_decide_eq_true_2 by done.
      unfold ActionEngine.complete_trade_sequence. simpl.
      destruct (ActionEngine.pending_trade_ s); [|done].
      rewrite bool_decide_eq_false_2 by (intros ?; done).
      by destruct (OrderBook.execute_trade _ _ _ _) as [[] b].
    + eapply engine_inv_same; [done| |by rewrite Ha..].
      eapply same_machine_trans; [apply count_action_machine|].
      by apply handle_cancel_plain.
  - destruct Hinv as [Hc Hm]. unfold engine_inv.
    rewrite clear_seen_snoc, last_trade_snoc, Ha. simpl. rewrite orb_false_r.
    split; [done|]. by exists e.
  - destruct Hinv as [Hc Hm]. unfold engine_inv.
    rewrite clear_seen_snoc, last_trade_snoc, Ha. simpl. rewrite orb_false_r.
    unfold ActionEngine.handle_fill. simpl.
    destruct (ActionEngine.trade_state_ s) eqn:Hst; simpl.
    + by rewrite Hst.
    + destruct Hm as (t & Ht & Hp & Hid). rewrite Hp.
      case_bool_decide; simpl; [|done]. split; [done|]. by exists t.
    + by rewrite Hst.
  - destruct Hinv as [Hc Hm]. unfold engine_inv.
    rewrite clear_seen_snoc, last_trade_snoc, Ha. simpl. rewrite orb_true_r.
    unfold ActionEngine.handle_clear. simpl.
    destruct (ActionEngine.first_clear_seen_ s) eqn:Hf; simpl; done.
  - eapply engine_inv_same; [done| |by rewrite Ha..]. apply count_action_machine.
  - unfold known_action in Ha.
    destruct (Ascii.eqb (Event.action e) "T") eqn:HT;
      [by rewrite !orb_true_r in Ha; rewrite ?orb_true_l in Ha|].
    destruct (Ascii.eqb (Event.action e) "R") eqn:HR;
      [by rewrite !orb_true_r in Ha; rewrite ?orb_true_l in Ha|].
    eapply engine_inv_same; [done| |done..]. done.
Qed.

Lemma engine_after_inv events book : engine_inv events (engine_after events book).
Proof.
  induction events as [|e events IH] using rev_ind; [done|].
  unfold engine_after. rewrite run_snoc. by apply engine_inv_step.
Qed.

Lemma cancel_completes_trade events book e :
  let s := engine_after events book in
  ActionEngine.trade_state_ s = FILL_RECEIVED →
  Event.action e = "C"%char →
  ∃ t, last_trade events = Some t ∧
    let r := OrderBook.execute_trade (Event.price_raw t) (Event.size t) (Event.side t)
               (ActionEngine.order_book_ s) in
    ActionEngine.process_event e s =
      (r.1,
       ActionEngine.mk r.2 IDLE None (ActionEngine.last_trade_id_ s)
         (incr64 (ActionEngine.actions_processed_ s))
         (if r.1 then incr64 (ActionEngine.trades_aggregated_ s)
          else ActionEngine.trades_aggregated_ s)
         (if r.1 then ActionEngine.errors_encountered_ s
          else incr64 (ActionEngine.errors_encountered_ s))
         (ActionEngine.first_clear_seen_ s)) ∧
    ∀ e', Event.action e' = "C"%char →
      ActionEngine.process_event e' s = ActionEngine.process_event e s.
Proof.
  intros s Hst Ha.
  destruct (engine_after_inv events book) as [_ Hm]. fold s in Hm.
  rewrite Hst in Hm. destruct Hm as (t & Ht & Hp & _).
  exists t. split; [done|].
  assert (Hall : ∀ e0, Event.action e0 = "C"%char →
    ActionEngine.process_event e0 s =
      (let r := OrderBook.execute_trade (Event.price_raw t) (Event.size t) (Event.side t)
                  (ActionEngine.order_book_ s) in
       (r.1,
        ActionEngine.mk r.2 IDLE None (ActionEngine.last_trade_id_ s)
          (incr64 (ActionEngine.actions_processed_ s))
          (if r.1 then incr64 (ActionEngine.trades_aggregated_ s)
           else ActionEngine.trades_aggregated_ s)
          (if r.1 then ActionEngine.errors_encountered_ s
           else incr64 (ActionEngine.errors_encountered_ s))
          (ActionEngine.first_clear_seen_ s)))).
  { intros e0 Ha0.
    destruct (process_event_dispatch e0 s) as [H He|H He|H He|H He|H He|H He|H He|H He];
      try (rewrite Ha0 in H; discriminate H).
    rewrite He. unfold ActionEngine.handle_cancel. simpl.
    rewrite bool_decide_eq_true_2 by done.
    unfold ActionEngine.complete_trade_sequence. simpl. rewrite Hp.
    rewrite bool_decide_eq_false_2 by (intros ?; done). simpl.
    by destruct (OrderBook.execute_trade _ _ _ _) as [[] b]. }
  cbn zeta. split; [by apply Hall|].
  intros e' Ha'. by rewrite !Hall.
Qed.

(** C1. A [C] event processed in state [FILL_RECEIVED] replays the buffered
    trade.  After any stream that leaves the engine in that state, the book
    becomes the one [execute_trade] gives at the price, the size and the
    side of the last [T] event (the aggressor side that event carried); the
    bit returned is the result of that call; and, whether the call
    succeeded or not, the state is [IDLE] and the pending record is empty.
    Any other [C] event in its place has the same outcome: the order id,
    the price and the size of the [C] event play no part. *)
Theorem trade_completion events book e :
  let s := engine_after events book in
  ActionEngine.trade_state_ s = FILL_RECEIVED →
  Event.action e = "C"%char →
  ∃ t, last_trade events = Some t ∧
    let r := OrderBook.execute_trade (Event.price_raw t) (Event.size t) (Event.side t)
               (ActionEngine.order_book_ s) in
    ActionEngine.process_event e s =
      (r.1,
       ActionEngine.mk r.2 IDLE None (ActionEngine.last_trade_id_ s)
         (incr64 (ActionEngine.actions_processed_ s))
         (if r.1 then incr64 (ActionEngine.trades_aggregated_ s)
          else ActionEngine.trades_aggregated_ s)
         (if r.1 then ActionEngine.errors_encountered_ s
          else incr64 (ActionEngine.errors_encountered_ s))
         (ActionEngine.first_clear_seen_ s)) ∧
    ∀ e', Event.action e' = "C"%char →
      ActionEngine.process_event e' s = ActionEngine.process_event e s.
Proof. apply cancel_completes_trade. Qed.

(** when the operations of the book succeed *)

Lemma add_order_succeeds b id px sz sd ts :
  (OrderBook.add_order id px sz sd ts b).1 = true ↔
  OrderBook.order_map_ b !! id = None ∧ (sd = "B"%char ∨ sd = "A"%char).
Proof.
  unfold OrderBook.add_order.
  destruct (OrderBook.order_map_ b !! id) as [p|]; [by split; [|intros [? _]]|].
  destruct (OrderPool.allocate _ _) as [p pool'].
  destruct (add_to_side_eq p Bids (OrderBook.set_order_pool pool' b)) as [n1 ->].
  destruct (add_to_side_eq p Asks (OrderBook.set_order_pool pool' b)) as [n2 ->].
  destruct (Ascii.eqb sd "B") eqn:HB.
  { apply Ascii.eqb_eq in HB. simpl. split; [intros _; split; [done | by left] | done]. }
  destruct (Ascii.eqb sd "A") eqn:HA.
  { apply Ascii.eqb_eq in HA. simpl. split; [intros _; split; [done | by right] | done]. }
  apply Ascii.eqb_neq in HB, HA. simpl. split; [done|]. intros [_ [?|?]]; done.
Qed.

Lemma modify_order_succeeds b id np ns :
  (OrderBook.modify_order id np ns b).1 = true ↔
  is_Some (OrderBook.order_map_ b !! id).
Proof.
  pose proof (modify_order_fails_iff b id np ns) as H.
  destruct (OrderBook.modify_order id np ns b).1;
    destruct (OrderBook.order_map_ b !! id); split; try done.
  - intros _. destruct H as [_ H]. by specialize (H eq_refl).
  - intros _. destruct H as [H _]. by specialize (H eq_refl).
Qed.

Lemma cancel_order_succeeds b id :
  (OrderBook.cancel_order id b).1 = true ↔ is_Some (OrderBook.order_map_ b !! id).
Proof.
  unfold OrderBook.cancel_order.
  destruct (OrderBook.order_map_ b !! id); simpl; split; try done.
  all: by intros [? ?].
Qed.

Lemma execute_trade_succeeds b price size side :
  (OrderBook.execute_trade price size side b).1 = true ↔
  is_Some (OrderBook.levels (passive_side side) b !! price).
Proof.
  rewrite execute_trade_eq. unfold OrderBook.execute_trade_on_side.
  destruct (OrderBook.levels _ b !! price); simpl; split; try done.
  all: by intros [? ?].
Qed.

(** The snapshot-worthy bit, handler by handler. *)
Lemma handle_add_bit e s :
  (ActionEngine.handle_add e s).1 =
  negb (Ascii.eqb (Event.side e) "N") &&
  (OrderBook.add_order (Event.order_id e) (Event.price_raw e) (Event.size e)
     (Event.side e) (Event.timestamp_ns e) (ActionEngine.order_book_ s)).1.
Proof.
  unfold ActionEngine.handle_add. destruct (Ascii.eqb _ _); [done|].
  by destruct (OrderBook.add_order _ _ _ _ _ _) as [[] b].
Qed.

Lemma handle_modify_bit e s :
  (ActionEngine.handle_modify e s).1 =
  negb (Ascii.eqb (Event.side e) "N") &&
  (OrderBook.modify_order (Event.order_id e) (Event.price_raw e) (Event.size e)
     (ActionEngine.order_book_ s)).1.
Proof.
  unfold ActionEngine.handle_modify. destruct (Ascii.eqb _ _); [done|].
  by destruct (OrderBook.modify_order _ _ _ _) as [[] b].
Qed.

Lemma handle_cancel_bit e s :
  (ActionEngine.handle_cancel e s).1 =
  if decide (ActionEngine.trade_state_ s = FILL_RECEIVED) then
    match ActionEngine.pending_trade_ s with
    | Some t => (OrderBook.execute_trade (TradeInfo.price_raw t) (TradeInfo.size t)
                   (TradeInfo.side t) (ActionEngine.order_book_ s)).1
    | None => false
    end
  else (OrderBook.cancel_order (Event.order_id e) (ActionEngine.order_book_ s)).1.
Proof.
  unfold ActionEngine.handle_cancel. case_decide as Hst.
  - rewrite bool_decide_eq_true_2 by done.
    unfold ActionEngine.complete_trade_sequence.
    destruct (ActionEngine.pending_trade_ s); [|done].
    rewrite bool_decide_eq_false_2 by (intros ?; done).
    by destruct (OrderBook.execute_trade _ _ _ _) as [[] b].
  - rewrite bool_decide_eq_false_2 by done.
    by destruct (OrderBook.cancel_order _ _) as [[] b].
Qed.

Lemma clear_seen_true events :
  clear_seen events = true ↔ Exists (λ e, Event.action e = "R"%char) events.
Proof.
  unfold clear_seen. rewrite existsb_exists, Exists_exists. split.
  - intros (e & He & Ha). exists e. split; [by apply list_elem_of_In|].
    by apply Ascii.eqb_eq.
  - intros (e & He & Ha). exists e. split; [by apply list_elem_of_In|].
    by apply Ascii.eqb_eq.
Qed.

(** C2. The bit returned by [process_event].  It is false for every [T] and
    [F]; true for every [N]; for an [R], true exactly when an [R] was seen
    before; for an [A], an [M] and a plain [C], true exactly when the book
    operation succeeds; for a [C] that completes a trade, true exactly when
    the replayed [execute_trade] succeeds.  So a true bit only ever comes
    from an [A], [M], [C], [R] or [N] event. *)
Theorem snapshot_worthy_bit e s :
  let r := (ActionEngine.process_event e s).1 in
  let a := Event.action e in
  let book := ActionEngine.order_book_ s in
  (a = "T"%char ∨ a = "F"%char → r = false) ∧
  (a = "N"%char → r = true) ∧
  (a = "R"%char → r = ActionEngine.first_clear_seen_ s) ∧
  (a = "R"%char → ∀ events book0, s = engine_after events book0 →
     (r = true ↔ Exists (λ x, Event.action x = "R"%char) events)) ∧
  (a = "A"%char →
     (r = true ↔ OrderBook.order_map_ book !! Event.order_id e = None ∧
                 (Event.side e = "B"%char ∨ Event.side e = "A"%char))) ∧
  (a = "M"%char →
     (r = true ↔ Event.side e ≠ "N"%char ∧
                 is_Some (OrderBook.order_map_ book !! Event.order_id e))) ∧
  (a = "C"%char → ActionEngine.trade_state_ s ≠ FILL_RECEIVED →
     (r = true ↔ is_Some (OrderBook.order_map_ book !! Event.order_id e))) ∧
  (a = "C"%char → ActionEngine.trade_state_ s = FILL_RECEIVED →
     (r = true ↔ ∃ t, ActionEngine.pending_trade_ s = Some t ∧
        (OrderBook.execute_trade (TradeInfo.price_raw t) (TradeInfo.size t)
           (TradeInfo.side t) book).1 = true)) ∧
  (r = true → a ∈ ["A"; "M"; "C"; "R"; "N"]%char).
Proof.
  cbn zeta.
  destruct (process_event_dispatch e s) as [H He|H He|H He|H He|H He|H He|H He|H He];
    rewrite He; clear He;
    (split_and!;
     try (let X := fresh in intros X; rewrite H in X; try destruct X as [X|X];
          discriminate X)).
  all: try (intros _; rewrite H;
            by repeat first [apply list_elem_of_here | apply list_elem_of_further]).
  all: try (let X := fresh in intros X; rewrite X in H; vm_compute in H; discriminate H).
  - (* A *)
    intros _. rewrite handle_add_bit. simpl. rewrite andb_true_iff, add_order_succeeds.
    rewrite negb_true_iff, Ascii.eqb_neq. split; [tauto|].
    intros [? [HB|HA]]; split_and!; auto; rewrite ?HB, ?HA; discriminate.
  - (* M *)
    intros _. rewrite handle_modify_bit. simpl.
    by rewrite andb_true_iff, modify_order_succeeds, negb_true_iff, Ascii.eqb_neq.
  - (* C, plain *)
    intros _ Hst. rewrite handle_cancel_bit. simpl. rewrite decide_False by done.
    apply cancel_order_succeeds.
  - (* C, completing a trade *)
    intros _ Hst. rewrite handle_cancel_bit. simpl. rewrite decide_True by done.
    destruct (ActionEngine.pending_trade_ s) as [t|].
    + split; [eauto|]. by intros (t' & [= <-] & ?).
    + split; [done|]. by intros (t' & ? & _).
  - (* T *) done.
  - done.
  - (* F *)
    intros _. unfold ActionEngine.handle_fill.
    case_bool_decide; [done|].
    destruct (ActionEngine.pending_trade_ _); [|done]. by case_bool_decide.
  - unfold ActionEngine.handle_fill.
    case_bool_decide; [done|].
    destruct (ActionEngine.pending_trade_ _); [|done]. by case_bool_decide.
  - (* R *)
    intros _. unfold ActionEngine.handle_clear. simpl.
    by destruct (ActionEngine.first_clear_seen_ s).
  - intros _ events book0 ->. unfold ActionEngine.handle_clear. simpl.
    destruct (engine_after_inv events book0) as [-> _].
    rewrite <- clear_seen_true. by destruct (clear_seen events).
  - (* N *) done.
  - (* unknown *) done.
  - done.
Qed.

(** F events *)

Lemma handle_fill_spec e s :
  Event.action e = "F"%char →
  let r := ActionEngine.process_event e s in
  r.1 = false ∧
  ActionEngine.order_book_ r.2 = ActionEngine.order_book_ s ∧
  (ActionEngine.trade_state_ s ≠ TRADE_RECEIVED →
     ActionEngine.trade_state_ r.2 = ActionEngine.trade_state_ s ∧
     ActionEngine.pending_trade_ r.2 = ActionEngine.pending_trade_ s ∧
     ActionEngine.errors_encountered_ r.2 = incr64 (ActionEngine.errors_encountered_ s)) ∧
  (ActionEngine.trade_state_ s = TRADE_RECEIVED →
     Event.order_id e ≠ ActionEngine.last_trade_id_ s →
     ActionEngine.trade_state_ r.2 = IDLE ∧
     ActionEngine.pending_trade_ r.2 = None ∧
     ActionEngine.errors_encountered_ r.2 = incr64 (ActionEngine.errors_encountered_ s)).
Proof.
  intros Ha.
  destruct (process_event_dispatch e s) as [H He|H He|H He|H He|H He|H He|H He|H He];
    try (rewrite Ha in H; discriminate H).
  cbn zeta. rewrite He. unfold ActionEngine.handle_fill. simpl.
  case_bool_decide as Hst; simpl; [by split_and!|].
  destruct (ActionEngine.pending_trade_ s) as [t|];
    [destruct (bool_decide (Event.order_id e = ActionEngine.last_trade_id_ s)) eqn:Hid|];
    simpl; split_and!; try done.
  intros _ Hne. by apply bool_decide_eq_true in Hid.
Qed.

(** C7. An [F] that arrives in state [FILL_RECEIVED].  After a [T] and its
    matching [F], a further [F] (here with another order id) raises the
    error counter and nothing else: the state is still [FILL_RECEIVED] and
    the pending trade is still buffered, so that neither the reset to
    [IDLE] nor the discard of the pending record takes place. *)
Theorem stray_fill_keeps_pending :
  let s := engine_after stray_fill_stream OrderBook.init in
  let s' := (ActionEngine.process_event stray_fill s).2 in
  ActionEngine.trade_state_ s = FILL_RECEIVED ∧
  Event.order_id stray_fill ≠ ActionEngine.last_trade_id_ s ∧
  ActionEngine.trade_state_ s' = FILL_RECEIVED ∧
  ActionEngine.pending_trade_ s' =
    Some (TradeInfo.mk 1000 7 10100 100 "B" true) ∧
  ActionEngine.errors_encountered_ s' = 1.
Proof. vm_compute. split_and!; done. Qed.

(** R events *)

Lemma clear_spec b :
  OrderBook.levels Bids (OrderBook.clear b) = ∅ ∧
  OrderBook.levels Asks (OrderBook.clear b) = ∅ ∧
  OrderBook.order_map_ (OrderBook.clear b) = ∅ ∧
  ∀ id p, OrderBook.order_map_ b !! id = Some p →
    OrderBook.objects (OrderBook.clear b) !! p = None.
Proof.
  split_and!; try done.
  intros id p Hp. unfold OrderBook.clear. book_simpl.
  by eapply clear_destroys.
Qed.

(** C8. An [R] event after a stream that holds no [R] is ignored: the
    bit is false and the book, the trade state, the pending record and the
    error counter are as before.  An [R] event after a stream that holds an
    [R] clears the book: the bit is true, both side maps and the id
    map are empty, every order that was resting is destroyed, the state is
    [IDLE] and the pending record is empty. *)
Theorem clear_events events book e :
  Event.action e = "R"%char →
  let s := engine_after events book in
  let r := ActionEngine.process_event e s in
  (Forall (λ x, Event.action x ≠ "R"%char) events →
     r.1 = false ∧
     ActionEngine.order_book_ r.2 = ActionEngine.order_book_ s ∧
     ActionEngine.trade_state_ r.2 = ActionEngine.trade_state_ s ∧
     ActionEngine.pending_trade_ r.2 = ActionEngine.pending_trade_ s ∧
     ActionEngine.errors_encountered_ r.2 = ActionEngine.errors_encountered_ s) ∧
  (Exists (λ x, Event.action x = "R"%char) events →
     r.1 = true ∧
     ActionEngine.order_book_ r.2 = OrderBook.clear (ActionEngine.order_book_ s) ∧
     OrderBook.levels Bids (ActionEngine.order_book_ r.2) = ∅ ∧
     OrderBook.levels Asks (ActionEngine.order_book_ r.2) = ∅ ∧
     OrderBook.order_map_ (ActionEngine.order_book_ r.2) = ∅ ∧
     (∀ id p, OrderBook.order_map_ (ActionEngine.order_book_ s) !! id = Some p →
        OrderBook.objects (ActionEngine.order_book_ r.2) !! p = None) ∧
     ActionEngine.trade_state_ r.2 = IDLE ∧
     ActionEngine.pending_trade_ r.2 = None).
Proof.
  intros Ha s r.
  destruct (engine_after_inv events book) as [Hc _]. fold s in Hc.
  destruct (process_event_dispatch e s) as [H He|H He|H He|H He|H He|H He|H He|H He];
    try (rewrite Ha in H; discriminate H).
  unfold r. rewrite He. unfold ActionEngine.handle_clear. simpl. rewrite Hc.
  split.
  - intros Hno. assert (clear_seen events = false) as ->; [|done].
    destruct (clear_seen events) eqn:E; [|done].
    apply clear_seen_true, Exists_exists in E as (x & Hx & Hax).
    rewrite Forall_forall in Hno. by destruct (Hno x Hx).
  - intros Hsome. apply clear_seen_true in Hsome. rewrite Hsome. simpl.
    destruct (clear_spec (ActionEngine.order_book_ s)) as (? & ? & ? & ?).
    split_and!; done.
Qed.

(** input-data errors *)

(** C9, the invalid side.  An [A] event with side [N] sent to a fresh
    engine is dropped, but the error counter stays at zero. *)
Lemma invalid_side_not_counted :
  invalid_side side_n_add ∧
  ¬ counted_and_dropped (ActionEngine.init OrderBook.init) side_n_add.
Proof.
  split; [by split; [left|]|].
  intros [H _]. vm_compute in H. discriminate H.
Qed.

(** C9. An unknown action character, a duplicate add, a modify of an unknown
    id, a cancel of an unknown id (a [C] outside a trade completion), an
    [F] out of state and an [F] whose id is not the one of the pending
    trade each raise the error counter by one and leave the book
    unchanged.  An [A] or [M] event with the side [N] is dropped as well,
    book and error counter unchanged: only the count of processed actions
    moves.  [process_event] being a total function, the stream goes on in
    every case. *)
Theorem input_errors_counted s e :
  (input_error s e → counted_and_dropped s e) ∧
  (invalid_side e →
     ActionEngine.process_event e s = (false, ActionEngine.count_action s)).
Proof.
  split.
  - intros Herr. unfold counted_and_dropped.
    destruct (process_event_dispatch e s) as [H He|H He|H He|H He|H He|H He|H He|H He];
      rewrite He; clear He;
      destruct Herr as [Hu|Ha Hs Hid|Ha Hs Hid|Ha Hs Hid|Ha Hs|Ha Hs Hid];
      try (rewrite H in Ha; discriminate Ha);
      try (unfold known_action in Hu; rewrite H in Hu; discriminate Hu);
      try (rewrite Ha in H; vm_compute in H; discriminate H).
    + (* duplicate add *)
      unfold ActionEngine.handle_add.
      apply Ascii.eqb_neq in Hs. rewrite Hs.
      unfold OrderBook.add_order. simpl. destruct Hid as [p ->]. done.
    + (* modify of an unknown id *)
      unfold ActionEngine.handle_modify.
      apply Ascii.eqb_neq in Hs. rewrite Hs.
      unfold OrderBook.modify_order. simpl. rewrite Hid. done.
    + (* cancel of an unknown id *)
      unfold ActionEngine.handle_cancel. simpl.
      rewrite bool_decide_eq_false_2 by done.
      unfold OrderBook.cancel_order. rewrite Hid. done.
    + (* F out of state *)
      unfold ActionEngine.handle_fill. simpl.
      rewrite bool_decide_eq_true_2 by done. done.
    + (* mismatched F *)
      unfold ActionEngine.handle_fill. simpl.
      rewrite bool_decide_eq_false_2 by (intros ?; done).
      destruct (ActionEngine.pending_trade_ s); [|done].
      rewrite bool_decide_eq_false_2 by done. done.
    + (* unknown action *) done.
  - intros [[Ha|Ha] Hs].
    + destruct (process_event_dispatch e s) as [H He|H He|H He|H He|H He|H He|H He|H He];
        try (rewrite Ha in H; vm_compute in H; discriminate H).
      rewrite He. unfold ActionEngine.handle_add. by rewrite Hs.
    + destruct (process_event_dispatch e s) as [H He|H He|H He|H He|H He|H He|H He|H He];
        try (rewrite Ha in H; vm_compute in H; discriminate H).
      rewrite He. unfold ActionEngine.handle_modify. by rewrite Hs.
Qed.

Lemma input_errors_counted_witness :
  input_error (ActionEngine.init OrderBook.init) (Event.make 1000 "C" "B" 10000 0 42) ∧
  counted_and_dropped (ActionEngine.init OrderBook.init)
    (Event.make 1000 "C" "B" 10000 0 42) ∧
  invalid_side side_n_add ∧
  ActionEngine.process_event side_n_add (ActionEngine.init OrderBook.init) =
    (false, ActionEngine.count_action (ActionEngine.init OrderBook.init)).
Proof.
  assert (H : input_error (ActionEngine.init OrderBook.init)
                (Event.make 1000 "C" "B" 10000 0 42))
    by (by apply cancel_unknown).
  assert (H' : invalid_side side_n_add) by (by split; [left|]).
  split; [done|]. split.
  - by apply (input_errors_counted (ActionEngine.init OrderBook.init)
                (Event.make 1000 "C" "B" 10000 0 42)).
  - split; [done|].
    by apply (input_errors_counted (ActionEngine.init OrderBook.init) side_n_add).
Defined.

(** the passive side *)

Lemma execute_trade_on_side_other price size sm b :
  OrderBook.levels (other_side sm) (OrderBook.execute_trade_on_side price size sm b).2 =
  OrderBook.levels (other_side sm) b.
Proof.
  unfold OrderBook.execute_trade_on_side.
  destruct (OrderBook.levels sm b !! price); [|done]. simpl.
  unfold OrderBook.trade_end. destruct (Level.empty _); by book_simpl.
Qed.

(** C10. For a side character other than [B], [N] included, [execute_trade]
    consumes bid liquidity: on a well-formed book it succeeds exactly when
    there is a bid level at the price, the quantity resting there goes down
    by the smaller of the traded size and of that quantity, the level is
    walked head first as [fifo_walk] says, the other bid levels and the
    asks are untouched.  For [B], and for [B] only, it is the ask level at
    the price that is consumed, and the bids are untouched.  In both cases
    [execute_trade] is the walk over that side.  [handle_trade] buffers the
    side of the [T] event as it comes, so a [T] that carries such a side,
    once matched by its [F] and completed by a [C], consumes bid
    liquidity. *)
Theorem trade_side_not_B (c : ascii) :
  c ≠ "B"%char →
  (∀ price size b, book_inv b → is_u32 size →
     let r := OrderBook.execute_trade price size c b in
     (r.1 = true ↔ is_Some (OrderBook.levels Bids b !! price)) ∧
     depth_at Bids price r.2 =
       depth_at Bids price b - Z.min size (depth_at Bids price b) ∧
     (∀ l, OrderBook.levels Bids b !! price = Some l →
        let st := OrderBook.objects b in
        let f := fifo_walk (λ q, Order.size (deref st q)) size (Level.chain l) in
        OrderBook.levels Bids r.2 = fill_levels st f price l (OrderBook.levels Bids b) ∧
        OrderBook.order_map_ r.2 = fill_ids st f (OrderBook.order_map_ b) ∧
        OrderBook.objects r.2 = fill_objects st f) ∧
     (∀ px, px ≠ price →
        OrderBook.levels Bids r.2 !! px = OrderBook.levels Bids b !! px) ∧
     OrderBook.levels Asks r.2 = OrderBook.levels Asks b) ∧
  (∀ price size b, book_inv b → is_u32 size →
     let r := OrderBook.execute_trade price size "B" b in
     (r.1 = true ↔ is_Some (OrderBook.levels Asks b !! price)) ∧
     depth_at Asks price r.2 =
       depth_at Asks price b - Z.min size (depth_at Asks price b) ∧
     OrderBook.levels Bids r.2 = OrderBook.levels Bids b) ∧
  (∀ price size b,
     OrderBook.execute_trade price size c b =
       OrderBook.execute_trade_on_side price size Bids b ∧
     OrderBook.levels Asks (OrderBook.execute_trade price size c b).2 =
       OrderBook.levels Asks b) ∧
  (∀ price size b,
     OrderBook.execute_trade price size "B" b =
       OrderBook.execute_trade_on_side price size Asks b) ∧
  (∀ e s, Event.side e = c →
     ActionEngine.pending_trade_ (ActionEngine.handle_trade e s).2 = Some (pending_of e) ∧
     TradeInfo.side (pending_of e) = c) ∧
  (∀ events book t e,
     ActionEngine.trade_state_ (engine_after events book) = FILL_RECEIVED →
     last_trade events = Some t → Event.side t = c →
     Event.action e = "C"%char →
     ActionEngine.order_book_
       (ActionEngine.process_event e (engine_after events book)).2 =
     (OrderBook.execute_trade_on_side (Event.price_raw t) (Event.size t) Bids
        (ActionEngine.order_book_ (engine_after events book))).2).
Proof.
  intros Hc.
  assert (Hbid : ∀ price size b,
    OrderBook.execute_trade price size c b =
    OrderBook.execute_trade_on_side price size Bids b).
  { intros price size b. rewrite execute_trade_eq. unfold passive_side.
    apply Ascii.eqb_neq in Hc. by rewrite Hc. }
  assert (Hbit : ∀ price size sm b,
    (OrderBook.execute_trade_on_side price size sm b).1 = true ↔
    is_Some (OrderBook.levels sm b !! price)).
  { intros price size sm b. unfold OrderBook.execute_trade_on_side.
    destruct (OrderBook.levels sm b !! price); simpl; [by split|].
    split; [done|]. by intros [? ?]. }
  split_and!.
  - intros price size b Hb Hsz. cbv zeta. rewrite Hbid.
    destruct (execute_trade_on_side_depth b price size Bids Hb Hsz) as (D1 & D2 & D3).
    split_and!; [apply Hbit | exact D1 | | exact D2 | exact D3].
    intros l Hl.
    by destruct (execute_trade_on_side_fill (Level.chain l) b Bids price size l Hb Hsz Hl
                   eq_refl) as (F1 & _ & F3 & F4).
  - intros price size b Hb Hsz. cbv zeta. rewrite execute_trade_eq.
    change (passive_side "B") with Asks.
    destruct (execute_trade_on_side_depth b price size Asks Hb Hsz) as (D1 & _ & D3).
    split_and!; [apply Hbit | exact D1 | exact D3].
  - intros price size b. split; [apply Hbid|].
    rewrite Hbid. apply (execute_trade_on_side_other price size Bids b).
  - intros price size b. by rewrite execute_trade_eq.
  - intros e s Hs. split; [done|]. apply Hs.
  - intros events book t e Hst Ht Hs Ha.
    destruct (cancel_completes_trade events book e Hst Ha) as (t' & Ht' & He & _).
    assert (t' = t) as -> by congruence.
    rewrite He. simpl. by rewrite Hs, Hbid.
Qed.

Lemma trade_side_not_B_witness :
  "N"%char ≠ "B"%char ∧ book_inv two_bids_book ∧ is_u32 30 ∧
  depth_at Bids 10050 two_bids_book = 100 ∧
  (OrderBook.execute_trade 10050 30 "N" two_bids_book).1 = true ∧
  depth_at Bids 10050 (OrderBook.execute_trade 10050 30 "N" two_bids_book).2 = 70.
Proof.
  assert (H : "N"%char ≠ "B"%char) by done.
  assert (Hb : book_inv two_bids_book).
  { apply (run_ops_inv _ OrderBook.init 0 init_inv).
    - repeat constructor; unfold is_u32; lia.
    - simpl. rewrite map_size_empty. lia.
    - simpl. lia. }
  assert (Hu : is_u32 30) by (unfold is_u32; lia).
  assert (Hd : depth_at Bids 10050 two_bids_book = 100) by (vm_compute; reflexivity).
  split; [exact H|]. split; [exact Hb|]. split; [exact Hu|]. split; [exact Hd|].
  destruct (trade_side_not_B "N" H) as [Hbids _].
  destruct (Hbids 10050 30 two_bids_book Hb Hu) as (Hbit & Hdepth & _).
  cbv zeta in Hbit, Hdepth. split.
  - apply Hbit. vm_compute. eexists. reflexivity.
  - rewrite Hdepth, Hd. reflexivity.
Defined.

(** the book the engine drives stays well formed *)

Lemma process_event_book_ok e s n :
  engine_book_ok n s → Event.wf e → Z.of_nat n < 2 ^ 32 - 1 →
  engine_book_ok (S n) (ActionEngine.process_event e s).2.
Proof.
  intros (Hb & Hn & Hp) (_ & _ & Hsz) Hcap.
  assert (Hsame : engine_book_ok (S n) (ActionEngine.count_action s)).
  { unfold engine_book_ok. simpl. split_and!; [done | lia | done]. }
  destruct (process_event_dispatch e s) as [H He|H He|H He|H He|H He|H He|H He|H He];
    rewrite He; clear He.
  - unfold ActionEngine.handle_add. destruct (Ascii.eqb _ _); [done|].
    pose proof (add_order_inv (ActionEngine.order_book_ s) (Event.order_id e)
                  (Event.price_raw e) (Event.size e) (Event.side e)
                  (Event.timestamp_ns e) Hb Hsz) as Hb'.
    pose proof (add_order_size (ActionEngine.order_book_ s) (Event.order_id e)
                  (Event.price_raw e) (Event.size e) (Event.side e)
                  (Event.timestamp_ns e)) as Hn'.
    simpl. destruct (OrderBook.add_order _ _ _ _ _ _) as [[] b]; simpl in *;
      (unfold engine_book_ok; simpl; split_and!; [apply Hb'; lia | lia | done]).
  - unfold ActionEngine.handle_modify. destruct (Ascii.eqb _ _); [done|].
    pose proof (modify_order_inv (ActionEngine.order_book_ s) (Event.order_id e)
                  (Event.price_raw e) (Event.size e) Hb Hsz) as Hb'.
    pose proof (modify_order_ids (ActionEngine.order_book_ s) (Event.order_id e)
                  (Event.price_raw e) (Event.size e) Hb) as Hn'.
    simpl. destruct (OrderBook.modify_order _ _ _ _) as [[] b]; simpl in *;
      (unfold engine_book_ok; simpl; split_and!; [done | rewrite Hn'; lia | done]).
  - unfold ActionEngine.handle_cancel. simpl. case_bool_decide as Hst.
    + unfold ActionEngine.complete_trade_sequence. simpl.
      destruct (ActionEngine.pending_trade_ s) as [t|] eqn:Ht.
      2:{ unfold engine_book_ok. simpl. split_and!; [done | lia | done]. }
      rewrite bool_decide_eq_false_2 by (intros ?; done).
      destruct (execute_trade_inv (ActionEngine.order_book_ s) (TradeInfo.price_raw t)
                  (TradeInfo.size t) (TradeInfo.side t) Hb (Hp t eq_refl)) as [Hb' Hn'].
      destruct (OrderBook.execute_trade _ _ _ _) as [[] b]; simpl in *;
        (unfold engine_book_ok; simpl; split_and!; [done | lia | done]).
    + pose proof (cancel_order_inv (ActionEngine.order_book_ s) (Event.order_id e) Hb) as Hb'.
      pose proof (cancel_order_size (ActionEngine.order_book_ s) (Event.order_id e)) as Hn'.
      destruct (OrderBook.cancel_order _ _) as [[] b]; simpl in *;
        (unfold engine_book_ok; simpl; split_and!; [done | lia | done]).
  - unfold engine_book_ok. simpl. split_and!; [done | lia |]. by intros t [= <-].
  - unfold ActionEngine.handle_fill. simpl.
    case_bool_decide; [done|].
    destruct (ActionEngine.pending_trade_ s) as [t|] eqn:Ht;
      [case_bool_decide|];
      (unfold engine_book_ok; simpl; split_and!; [done | lia | try done]).
    intros t' [= <-]. by apply (Hp t).
  - unfold ActionEngine.handle_clear. simpl.
    destruct (ActionEngine.first_clear_seen_ s); simpl.
    + unfold engine_book_ok. simpl. split_and!; [by apply clear_inv | | done].
      unfold OrderBook.clear. book_simpl. rewrite map_size_empty. lia.
    + unfold engine_book_ok. simpl. split_and!; [done | lia | done].
  - done.
  - done.
Qed.

Lemma run_book_ok events : ∀ s n,
  engine_book_ok n s → Forall Event.wf events →
  Z.of_nat (n + length events) < 2 ^ 32 →
  engine_book_ok (n + length events) (ActionEngine.run events s).
Proof.
  induction events as [|e events IH]; intros s n Hs Hwf Hcap; simpl.
  - by rewrite Nat.add_0_r.
  - apply Forall_cons in Hwf as [He Hwf]. simpl in Hcap.
    replace (n + S (length events))%nat with (S n + length events)%nat by lia.
    apply IH; [|done|lia]. apply process_event_book_ok; [done..|lia].
Qed.

Lemma engine_after_book_inv events :
  Forall Event.wf events → Z.of_nat (length events) < 2 ^ 32 →
  book_inv (ActionEngine.order_book_ (engine_after events OrderBook.init)).
Proof.
  intros Hwf Hcap.
  destruct (run_book_ok events (ActionEngine.init OrderBook.init) 0) as [H _]; try done.
  split_and!; [apply init_inv | | done]. simpl. by rewrite map_size_empty.
Qed.

(** concrete streams *)

Lemma trade_completion_witness :
  ActionEngine.trade_state_ (engine_after tfc_stream OrderBook.init) = FILL_RECEIVED ∧
  Event.action tfc_cancel = "C"%char ∧
  OrderBook.get_best_ask
    (ActionEngine.order_book_
       (ActionEngine.process_event tfc_cancel
          (engine_after tfc_stream OrderBook.init)).2) = (10100, 100) ∧
  ActionEngine.trade_state_
    (ActionEngine.process_event tfc_cancel
       (engine_after tfc_stream OrderBook.init)).2 = IDLE.
Proof.
  assert (H1 : ActionEngine.trade_state_ (engine_after tfc_stream OrderBook.init)
               = FILL_RECEIVED) by (vm_compute; reflexivity).
  assert (H2 : Event.action tfc_cancel = "C"%char) by reflexivity.
  split; [done|]. split; [done|].
  destruct (trade_completion tfc_stream OrderBook.init tfc_cancel H1 H2)
    as (t & Ht & He & _).
  injection Ht as <-. rewrite He. split; [|done]. vm_compute. reflexivity.
Defined.

Lemma clear_events_witness :
  Event.action later_clear = "R"%char ∧
  Forall (λ x, Event.action x ≠ "R"%char) [] ∧
  (ActionEngine.process_event later_clear (engine_after [] OrderBook.init)).1 = false ∧
  Exists (λ x, Event.action x = "R"%char) two_clears ∧
  (ActionEngine.process_event later_clear (engine_after two_clears OrderBook.init)).1 = true ∧
  OrderBook.order_map_
    (ActionEngine.order_book_
       (ActionEngine.process_event later_clear
          (engine_after two_clears OrderBook.init)).2) = ∅.
Proof.
  assert (Ha : Event.action later_clear = "R"%char) by reflexivity.
  assert (Hno : Forall (λ x, Event.action x ≠ "R"%char) []) by constructor.
  assert (Hyes : Exists (λ x, Event.action x = "R"%char) two_clears)
    by (by apply Exists_cons_hd).
  destruct (clear_events [] OrderBook.init later_clear Ha) as [H1 _].
  destruct (clear_events two_clears OrderBook.init later_clear Ha) as [_ H2].
  destruct (H1 Hno) as (E1 & _).
  destruct (H2 Hyes) as (E2 & _ & _ & _ & E3 & _).
  by split_and!.
Defined.

Lemma snapshot_worthy_bit_witness :
  (ActionEngine.process_event tfc_cancel (engine_after tfc_stream OrderBook.init)).1 = true ∧
  Event.action tfc_cancel ∈ ["A"; "M"; "C"; "R"; "N"]%char.
Proof.
  assert (H1 : (ActionEngine.process_event tfc_cancel
                  (engine_after tfc_stream OrderBook.init)).1 = true)
    by (vm_compute; reflexivity).
  split; [done|].
  destruct (snapshot_worthy_bit tfc_cancel (engine_after tfc_stream OrderBook.init))
    as (_ & _ & _ & _ & _ & _ & _ & _ & H).
  exact (H H1).
Defined.

(** The cases of [test_order_book.cpp], replayed on the model. *)

Example test_add_both_sides :
  let b := book_of [OpAdd 1001 10050 100 "B" 1000; OpAdd 1002 10100 200 "A" 2000] in
  OrderBook.get_best_bid b = (10050, 100) ∧ OrderBook.get_best_ask b = (10100, 200).
Proof. vm_compute. done. Qed.

Example test_price_time_priority :
  OrderBook.get_best_bid
    (book_of [OpAdd 1001 10050 100 "B" 1000; OpAdd 1002 10050 150 "B" 2000])
  = (10050, 250).
Proof. vm_compute. done. Qed.

Example test_order_modification :
  let b := book_of [OpAdd 1001 10050 100 "B" 1000; OpModify 1001 10050 150] in
  OrderBook.get_best_bid b = (10050, 150) ∧
  OrderBook.get_best_bid (apply_op (OpModify 1001 10075 150) b) = (10075, 150).
Proof. vm_compute. done. Qed.

Example test_order_cancellation :
  let b := book_of [OpAdd 1001 10050 100 "B" 1000; OpAdd 1002 10025 200 "B" 2000;
                    OpCancel 1001] in
  OrderBook.get_best_bid b = (10025, 200) ∧
  OrderBook.get_best_bid (apply_op (OpCancel 1002) b) = (0, 0).
Proof. vm_compute. done. Qed.

Example test_full_fill :
  OrderBook.get_best_ask (book_of [OpAdd 1001 10100 100 "A" 1000; OpTrade 10100 100 "B"])
  = (0, 0).
Proof. vm_compute. done. Qed.

Example test_partial_fill :
  OrderBook.get_best_ask (book_of [OpAdd 1001 10100 200 "A" 1000; OpTrade 10100 75 "B"])
  = (10100, 125).
Proof. vm_compute. done. Qed.

Example test_multiple_fill :
  OrderBook.get_best_ask
    (book_of [OpAdd 1001 10100 100 "A" 1000; OpAdd 1002 10100 150 "A" 2000;
              OpTrade 10100 200 "B"])
  = (10100, 50).
Proof. vm_compute. done. Qed.

Example test_top10_ordering :
  let b := book_of [OpAdd 1001 10050 100 "B" 1000; OpAdd 1002 10025 150 "B" 2000;
                    OpAdd 1003 10075 200 "B" 3000; OpAdd 2001 10100 300 "A" 4000;
                    OpAdd 2002 10125 250 "A" 5000; OpAdd 2003 10090 400 "A" 6000] in
  top10_of b =
    ([10075; 10050; 10025; 0; 0; 0; 0; 0; 0; 0], [200; 100; 150; 0; 0; 0; 0; 0; 0; 0],
     [10090; 10100; 10125; 0; 0; 0; 0; 0; 0; 0], [400; 300; 250; 0; 0; 0; 0; 0; 0; 0]).
Proof. vm_compute. done. Qed.

Example test_edge_cases :
  (OrderBook.add_order 1001 10075 150 "B" 2000
     (book_of [OpAdd 1001 10050 100 "B" 1000])).1 = false ∧
  (OrderBook.modify_order 9999 10050 100 OrderBook.init).1 = false ∧
  (OrderBook.cancel_order 9999 OrderBook.init).1 = false ∧
  (OrderBook.execute_trade 10050 100 "B" OrderBook.init).1 = false ∧
  (OrderBook.execute_trade 10075 100 "A"
     (book_of [OpAdd 1001 10050 100 "B" 1000])).1 = false.
Proof. vm_compute. done. Qed.

(** * The snapshot emitter *)

Lemma differs_from_arrays cur prev :
  MBPSnapshot.differs_from cur prev = negb (bool_decide (arrays cur = arrays prev)).
Proof.
  unfold MBPSnapshot.differs_from, MBPSnapshot.memcmp_ne, arrays.
  repeat case_bool_decide; simpl; try done; congruence.
Qed.

Lemma get_top10_arrays snap book :
  arrays (OrderBook.get_top10_snapshot snap book).1 = top10_of book.
Proof. done. Qed.

Lemma should_generate_step book timestamp m previous :
  holds_previous m previous →
  let current := top10_of book in
  let emit :=
    match previous with
    | None => true
    | Some p => negb (bool_decide (current = p))
    end in
  (SnapshotManager.should_generate_snapshot book timestamp m).1.1 = emit ∧
  holds_previous (SnapshotManager.should_generate_snapshot book timestamp m).1.2
    (if emit then Some current else previous).
Proof.
  intros Hm. cbn zeta. unfold SnapshotManager.should_generate_snapshot.
  destruct (OrderBook.get_top10_snapshot _ book) as [cur book'] eqn:Hg.
  assert (Hcur : arrays (MBPSnapshot.set_timestamp_ns timestamp cur) = top10_of book).
  { rewrite <- (get_top10_arrays (SnapshotManager.current_snapshot_ m) book).
    by rewrite Hg. }
  rewrite differs_from_arrays, Hcur.
  destruct previous as [p|]; simpl in Hm.
  - destruct Hm as [-> Hp]. rewrite Hp. simpl.
    case_bool_decide; simpl; [done|]. by rewrite Hcur.
  - rewrite Hm. simpl. by rewrite Hcur.
Qed.

Lemma decisions_emits calls : ∀ m previous,
  holds_previous m previous → decisions m calls = emits previous calls.
Proof.
  induction calls as [|[book ts] calls IH]; intros m previous Hm; simpl; [done|].
  destruct (should_generate_step book ts m previous Hm) as [Hd Hm'].
  destruct (SnapshotManager.should_generate_snapshot book ts m) as [[d m'] book'].
  simpl in *. rewrite Hd. f_equal. by apply IH.
Qed.

Lemma emits_app previous calls calls' :
  emits previous (calls ++ calls') =
  emits previous calls ++ emits (last_emitted previous calls) calls'.
Proof.
  revert previous. induction calls as [|[book ts] calls IH]; intros previous; simpl; [done|].
  by rewrite IH.
Qed.

Lemma emits_timestamps previous calls calls' :
  calls.*1 = calls'.*1 → emits previous calls = emits previous calls'.
Proof.
  revert previous calls'.
  induction calls as [|[book ts] calls IH]; intros previous [|[book' ts'] calls'] H;
    simpl in *; try done.
  injection H as <- H. f_equal. by apply IH.
Qed.

(** C4. The decisions of [should_generate_snapshot] over any sequence of
    invocations, starting from a fresh manager, are those of [emits]: a
    line is emitted exactly when nothing was emitted before or one of the
    four top-10 arrays differs from those of the snapshot last emitted.
    The timestamps do not enter the decisions; the first invocation always
    emits; and an invocation whose book has the same top-10 arrays as the
    one just before it emits nothing, whatever the two timestamps. *)
Theorem snapshot_emission (calls : list (OrderBook.t * Z)) :
  decisions SnapshotManager.init calls = emits None calls ∧
  (∀ calls', calls.*1 = calls'.*1 →
     decisions SnapshotManager.init calls = decisions SnapshotManager.init calls') ∧
  (∀ book timestamp calls', calls = (book, timestamp) :: calls' →
     head (decisions SnapshotManager.init calls) = Some true) ∧
  (∀ pre book1 ts1 book2 ts2,
     calls = pre ++ [(book1, ts1); (book2, ts2)] →
     top10_of book1 = top10_of book2 →
     last (decisions SnapshotManager.init calls) = Some false).
Proof.
  assert (H0 : holds_previous SnapshotManager.init None) by done.
  split_and!.
  - by apply decisions_emits.
  - intros calls' Heq. rewrite !(decisions_emits _ _ None) by done.
    by apply emits_timestamps.
  - intros book ts calls' ->. by rewrite (decisions_emits _ _ None).
  - intros pre book1 ts1 book2 ts2 -> Heq.
    rewrite (decisions_emits _ _ None), emits_app by done. simpl.
    rewrite last_app. simpl.
    destruct (last_emitted None pre) as [p|]; simpl.
    + case_bool_decide as H1; simpl.
      * subst p. rewrite Heq. by rewrite bool_decide_eq_true_2.
      * rewrite Heq. by rewrite bool_decide_eq_true_2.
    + rewrite Heq. by rewrite bool_decide_eq_true_2.
Qed.

Lemma snapshot_emission_witness :
  head (decisions SnapshotManager.init [(two_bids_book, 1000); (two_bids_book, 2000)])
    = Some true ∧
  last (decisions SnapshotManager.init [(two_bids_book, 1000); (two_bids_book, 2000)])
    = Some false.
Proof.
  destruct (snapshot_emission [(two_bids_book, 1000); (two_bids_book, 2000)])
    as (_ & _ & Hfirst & Hsame).
  split.
  - by apply (Hfirst two_bids_book 1000 [(two_bids_book, 2000)]).
  - by apply (Hsame [] two_bids_book 1000 two_bids_book 2000).
Defined.

(** * Further properties *)

(** * More of the order book *)

Lemma add_order_unfold b id px sz ts sm :
  book_inv b → is_u32 sz →
  Z.of_nat (size (OrderBook.order_map_ b)) < 2 ^ 32 - 1 →
  OrderBook.order_map_ b !! id = None →
  ∃ p pool' n,
    OrderPool.allocate (Order.make id px sz ts) (OrderBook.order_pool_ b) = (p, pool') ∧
    OrderBook.objects b !! p = None ∧
    OrderPool.objects_ pool' = <[p := Order.make id px sz ts]> (OrderBook.objects b) ∧
    OrderBook.add_order id px sz (side_char sm) ts b =
      (true,
       OrderBook.set_total_orders_processed
         (wrap64 (OrderBook.total_orders_processed_ b + 1))
         (OrderBook.set_cache_valid false
            (OrderBook.set_order_map (<[id := p]> (OrderBook.order_map_ b))
               (OrderBook.set_levels sm
                  (<[px := match OrderBook.levels sm b !! px with
                           | Some d => Level.mk px (Level.total_size d + sz)
                                         (Level.order_count d + 1) (Level.chain d ++ [p])
                           | None => Level.mk px sz 1 [p]
                           end]> (OrderBook.levels sm b))
                  (OrderBook.set_price_levels_created n
                     (OrderBook.set_order_pool pool' b)))))).
Proof.
  intros Hb Hsz Hcap Hid.
  destruct (OrderPool.allocate (Order.make id px sz ts) (OrderBook.order_pool_ b))
    as [p pool'] eqn:Hal.
  destruct (allocate_ok _ _ _ _ (inv_pool b Hb) Hal) as (Hfresh & Hobj & Hpool').
  set (o := Order.make id px sz ts) in *.
  assert (Hnew : OrderPool.objects_ pool' !! p = Some o)
    by (rewrite Hobj; apply lookup_insert_eq).
  assert (Hfree : ∀ sm' px' l', OrderBook.levels sm' b !! px' = Some l' →
                    p ∉ Level.chain l').
  { intros sm' px' l' Hl' Hp.
    destruct (inv_chained b sm' px' l' p Hb Hl' Hp) as (o' & Ho' & _).
    unfold OrderBook.objects in Ho'. congruence. }
  assert (Hframe : ∀ sm', levels_ok (OrderPool.objects_ pool')
      (<[id := p]> (OrderBook.order_map_ b)) (OrderBook.levels sm' b)).
  { intros sm'. eapply levels_ok_frame; [apply (inv_levels b Hb)|].
    intros px' l' q o' Hl' Hq Ho'.
    destruct (inv_chained b sm' px' l' q Hb Hl' Hq) as (o'' & Ho'' & _ & _ & Hq').
    assert (o'' = o') as -> by congruence.
    assert (q ≠ p) by (intros ->; by eapply Hfree).
    split; [by rewrite Hobj, lookup_insert_ne|].
    rewrite lookup_insert_ne; [done|]. intros Heq. rewrite <- Heq in Hq'. congruence. }
  assert (Hcap' : Z.of_nat (size (<[id := p]> (OrderBook.order_map_ b))) < 2 ^ 32).
  { rewrite map_size_insert_None by done. lia. }
  assert (Hidp : <[id := p]> (OrderBook.order_map_ b) !! Order.order_id o = Some p)
    by apply lookup_insert_eq.
  assert (Hd : deref (OrderBook.objects (OrderBook.set_order_pool pool' b)) p = o).
  { apply deref_Some. by book_simpl. }
  destruct (add_to_side_eq p sm (OrderBook.set_order_pool pool' b)) as [n Hadd].
  exists p, pool', n. split; [done|]. split; [done|]. split; [done|].
  unfold OrderBook.add_order. fold o. rewrite Hid, Hal.
  assert (Hgo : (if Ascii.eqb (side_char sm) "B"
                 then OrderBook.add_to_side p Bids (OrderBook.set_order_pool pool' b)
                 else if Ascii.eqb (side_char sm) "A"
                      then OrderBook.add_to_side p Asks (OrderBook.set_order_pool pool' b)
                      else (false, OrderBook.set_order_pool pool' b)) =
                OrderBook.add_to_side p sm (OrderBook.set_order_pool pool' b))
    by (by destruct sm).
  rewrite Hgo, Hadd, Hd. cbn iota beta. book_simpl.
  pose proof (attach_eq _ _ _ p o (Hframe sm) Hnew Hsz) as Hat.
  change (Order.price_raw o) with px in *. rewrite Hat.
  assert (Hlev : match OrderBook.levels sm b !! px with
                 | Some l => Level.add_order (OrderPool.objects_ pool') p l
                 | None => Level.mk px (Order.size o) 1 [p]
                 end =
                 match OrderBook.levels sm b !! px with
                 | Some d => Level.mk px (Level.total_size d + sz)
                               (Level.order_count d + 1) (Level.chain d ++ [p])
                 | None => Level.mk px sz 1 [p]
                 end).
  { destruct (OrderBook.levels sm b !! px) as [d|] eqn:Hd'; [|done].
    assert (Hdok : level_ok (OrderPool.objects_ pool')
                     (<[id := p]> (OrderBook.order_map_ b)) px d) by (by apply (Hframe sm)).
    apply (level_add_order_eq _ _ _ d p o Hdok); try done.
    by eapply Hfree. }
  rewrite Hlev. by destruct sm.
Qed.

(** X1. [add_order] on a well-formed book with room for one more order.  It
    fails exactly when the id is already in the book or the side is
    neither [B] nor [A]; a failure leaves the id map, the stored orders and
    the levels of both sides as they were, and a duplicate id leaves the
    whole book as it was.  A success takes an address that held no order,
    maps the id to it, appends the order at the tail of the level at its
    price on its side (a new level holds this order alone, an existing one
    gains its size and one order), leaves the other side alone and counts
    one more order processed. *)
Theorem add_order_spec b id px sz sd ts :
  book_inv b → is_u32 sz →
  Z.of_nat (size (OrderBook.order_map_ b)) < 2 ^ 32 - 1 →
  let r := OrderBook.add_order id px sz sd ts b in
  (r.1 = false ↔
     is_Some (OrderBook.order_map_ b !! id) ∨ (sd ≠ "B"%char ∧ sd ≠ "A"%char)) ∧
  (is_Some (OrderBook.order_map_ b !! id) → r.2 = b) ∧
  (r.1 = false →
     OrderBook.order_map_ r.2 = OrderBook.order_map_ b ∧
     OrderBook.objects r.2 = OrderBook.objects b ∧
     ∀ sm, OrderBook.levels sm r.2 = OrderBook.levels sm b) ∧
  (∀ sm, OrderBook.order_map_ b !! id = None → sd = side_char sm →
     ∃ p, OrderBook.objects b !! p = None ∧
       r.1 = true ∧
       OrderBook.order_map_ r.2 = <[id := p]> (OrderBook.order_map_ b) ∧
       OrderBook.objects r.2 = <[p := Order.mk id px sz sz ts]> (OrderBook.objects b) ∧
       OrderBook.levels (other_side sm) r.2 = OrderBook.levels (other_side sm) b ∧
       OrderBook.levels sm r.2 =
         <[px := match OrderBook.levels sm b !! px with
                 | Some d => Level.mk px (Level.total_size d + sz)
                               (Level.order_count d + 1) (Level.chain d ++ [p])
                 | None => Level.mk px sz 1 [p]
                 end]> (OrderBook.levels sm b) ∧
       OrderBook.total_orders_processed_ r.2 =
         wrap64 (OrderBook.total_orders_processed_ b + 1)).
Proof.
  intros Hb Hsz Hcap r.
  assert (Hfalse : r.1 = false ↔
     is_Some (OrderBook.order_map_ b !! id) ∨ (sd ≠ "B"%char ∧ sd ≠ "A"%char)).
  { pose proof (add_order_succeeds b id px sz sd ts) as Hs. fold r in Hs.
    destruct (r.1).
    - split; [done|]. destruct Hs as [Hs _]. destruct (Hs eq_refl) as [Hn Hsd].
      intros [[q Hq]|[H1 H2]]; [congruence | destruct Hsd; done].
    - split; [intros _|done].
      destruct (OrderBook.order_map_ b !! id) as [q|] eqn:Hq; [left; eauto|].
      right. split; intros ->; destruct Hs as [_ Hs]; (discriminate Hs; split; [done|auto]). }
  assert (Hsome : is_Some (OrderBook.order_map_ b !! id) → r.2 = b).
  { intros [q Hq]. unfold r, OrderBook.add_order. by rewrite Hq. }
  split; [done|]. split; [done|]. split.
  - intros Hr. apply Hfalse in Hr as [Hq|[HB HA]].
    { by rewrite (Hsome Hq). }
    destruct (OrderBook.order_map_ b !! id) as [q|] eqn:Hq.
    { rewrite Hsome by eauto. done. }
    unfold r, OrderBook.add_order. rewrite Hq.
    destruct (OrderPool.allocate _ _) as [p pool'] eqn:Hal.
    destruct (allocate_ok _ _ _ _ (inv_pool b Hb) Hal) as (Hfresh & Hobj & _).
    apply Ascii.eqb_neq in HB, HA. rewrite HB, HA. simpl. book_simpl.
    split; [done|]. split; [|by intros sm; rewrite !levels_set_order_pool].
    rewrite Hobj, delete_insert_eq. by apply delete_id.
  - intros sm Hid ->.
    destruct (add_order_unfold b id px sz ts sm Hb Hsz Hcap Hid)
      as (p & pool' & n & Hal & Hfresh & Hobj & Heq).
    exists p. split; [done|]. unfold r. rewrite Heq. cbn [fst snd]. book_simpl.
    split; [done|]. split; [done|]. split; [done|]. by destruct sm.
Qed.

Lemma book_of_inv ops :
  Forall op_wf ops → Z.of_nat (length ops) < 2 ^ 32 →
  book_inv (run_ops ops OrderBook.init).
Proof.
  intros Hwf Hlen. apply (run_ops_inv ops OrderBook.init 0 init_inv Hwf); [|done].
  simpl. rewrite map_size_empty. lia.
Qed.

Lemma two_bids_book_inv : book_inv two_bids_book.
Proof. apply book_of_inv; [repeat constructor; unfold is_u32; lia | simpl; lia]. Qed.

Lemma add_order_spec_witness :
  book_inv two_bids_book ∧ is_u32 30 ∧
  Z.of_nat (size (OrderBook.order_map_ two_bids_book)) < 2 ^ 32 - 1 ∧
  (OrderBook.add_order 1001 10050 30 "B" 3000 two_bids_book).2 = two_bids_book.
Proof.
  assert (Hu : is_u32 30) by (unfold is_u32; lia).
  assert (Hc : Z.of_nat (size (OrderBook.order_map_ two_bids_book)) < 2 ^ 32 - 1)
    by (vm_compute; reflexivity).
  split; [apply two_bids_book_inv|]. split; [done|]. split; [done|].
  destruct (add_order_spec two_bids_book 1001 10050 30 "B" 3000 two_bids_book_inv Hu Hc)
    as (_ & H & _).
  apply H. vm_compute. eexists. reflexivity.
Defined.

Lemma cancel_order_effect b id p o sm l :
  book_inv b →
  OrderBook.order_map_ b !! id = Some p →
  OrderBook.objects b !! p = Some o →
  OrderBook.levels sm b !! Order.price_raw o = Some l →
  p ∈ Level.chain l →
  let r := OrderBook.cancel_order id b in
  r.1 = true ∧
  OrderBook.order_map_ r.2 = delete id (OrderBook.order_map_ b) ∧
  OrderBook.objects r.2 = delete p (OrderBook.objects b) ∧
  OrderBook.levels (other_side sm) r.2 = OrderBook.levels (other_side sm) b ∧
  OrderBook.levels sm r.2 =
    if bool_decide (filter (λ q, q ≠ p) (Level.chain l) = [])
    then delete (Order.price_raw o) (OrderBook.levels sm b)
    else <[Order.price_raw o :=
             Level.mk (Order.price_raw o) (Level.total_size l - Order.size o)
               (Level.order_count l - 1)
               (filter (λ q, q ≠ p) (Level.chain l))]> (OrderBook.levels sm b).
Proof.
  intros Hb Hid Ho Hl Hp r.
  pose proof (inv_capacity b Hb) as Hcap.
  unfold r. rewrite (cancel_order_unfold b id p o sm l Hb Hid Ho Hl Hp).
  cbn [fst snd]. book_simpl.
  split; [done|]. split; [done|]. split; [done|]. split; [done|].
  rewrite (detach_eq _ _ _ _ l p (inv_levels b Hb sm) Hl Hp Hcap).
  by rewrite (level_remove_order_eq _ _ _ l p o (inv_levels b Hb sm _ _ Hl) Hp Ho Hcap).
Qed.

(** X2. [cancel_order] on a well-formed book.  It fails exactly when the id
    is unknown, and the book is then unchanged.  Otherwise the id leaves
    the id map, the order leaves the store and the chain of the level at
    its price, whose total goes down by the size of the order and whose
    count goes down by one; the level is deleted when the order was its
    last; the other side is left alone. *)
Theorem cancel_order_spec b id :
  book_inv b →
  let r := OrderBook.cancel_order id b in
  (r.1 = false ↔ OrderBook.order_map_ b !! id = None) ∧
  (OrderBook.order_map_ b !! id = None → r.2 = b) ∧
  ∀ p, OrderBook.order_map_ b !! id = Some p →
    ∃ o sm l,
      OrderBook.objects b !! p = Some o ∧ Order.order_id o = id ∧
      OrderBook.levels sm b !! Order.price_raw o = Some l ∧ p ∈ Level.chain l ∧
      OrderBook.order_map_ r.2 = delete id (OrderBook.order_map_ b) ∧
      OrderBook.objects r.2 = delete p (OrderBook.objects b) ∧
      OrderBook.levels (other_side sm) r.2 = OrderBook.levels (other_side sm) b ∧
      OrderBook.levels sm r.2 =
        if bool_decide (filter (λ q, q ≠ p) (Level.chain l) = [])
        then delete (Order.price_raw o) (OrderBook.levels sm b)
        else <[Order.price_raw o :=
                 Level.mk (Order.price_raw o) (Level.total_size l - Order.size o)
                   (Level.order_count l - 1)
                   (filter (λ q, q ≠ p) (Level.chain l))]> (OrderBook.levels sm b).
Proof.
  intros Hb r. split; [|split].
  - unfold r, OrderBook.cancel_order. by destruct (OrderBook.order_map_ b !! id).
  - intros Hid. unfold r, OrderBook.cancel_order. by rewrite Hid.
  - intros p Hid.
    destruct (inv_resting b id p Hb Hid) as (o & sm & l & Ho & Hoid & Hsz & Hl & Hp).
    exists o, sm, l. split; [done|]. split; [done|]. split; [done|]. split; [done|].
    by destruct (cancel_order_effect b id p o sm l Hb Hid Ho Hl Hp) as (_ & ? & ? & ? & ?).
Qed.

Lemma cancel_order_spec_witness :
  book_inv two_bids_book ∧
  (OrderBook.cancel_order 7 two_bids_book).2 = two_bids_book.
Proof.
  split; [apply two_bids_book_inv|].
  destruct (cancel_order_spec two_bids_book 7 two_bids_book_inv) as (_ & H & _).
  apply H. vm_compute. reflexivity.
Defined.

(** X3. An order added with a fresh id and cancelled at once: the
    cancellation succeeds, and the id map, the store and both side maps are
    as they were before the order was added. *)
Theorem add_then_cancel b id px sz sm ts :
  book_inv b → is_u32 sz →
  Z.of_nat (size (OrderBook.order_map_ b)) < 2 ^ 32 - 1 →
  OrderBook.order_map_ b !! id = None →
  let b1 := (OrderBook.add_order id px sz (side_char sm) ts b).2 in
  let r := OrderBook.cancel_order id b1 in
  r.1 = true ∧
  OrderBook.order_map_ r.2 = OrderBook.order_map_ b ∧
  OrderBook.objects r.2 = OrderBook.objects b ∧
  ∀ sm', OrderBook.levels sm' r.2 = OrderBook.levels sm' b.
Proof.
  intros Hb Hsz Hcap Hid b1 r.
  assert (Hb1 : book_inv b1) by (by apply add_order_inv).
  destruct (add_order_unfold b id px sz ts sm Hb Hsz Hcap Hid)
    as (p & pool' & n & Hal & Hfresh & Hobj & Heq).
  set (o := Order.make id px sz ts) in *.
  set (l1 := match OrderBook.levels sm b !! px with
             | Some d => Level.mk px (Level.total_size d + sz)
                           (Level.order_count d + 1) (Level.chain d ++ [p])
             | None => Level.mk px sz 1 [p]
             end) in *.
  assert (Hom1 : OrderBook.order_map_ b1 = <[id := p]> (OrderBook.order_map_ b)).
  { unfold b1. rewrite Heq. cbn [snd]. by book_simpl. }
  assert (Hst1 : OrderBook.objects b1 = <[p := o]> (OrderBook.objects b)).
  { unfold b1. rewrite Heq. cbn [snd]. by book_simpl. }
  assert (Hlv1 : OrderBook.levels sm b1 = <[px := l1]> (OrderBook.levels sm b)).
  { unfold b1. rewrite Heq. cbn [snd]. by destruct sm. }
  assert (Hot1 : OrderBook.levels (other_side sm) b1 = OrderBook.levels (other_side sm) b).
  { unfold b1. rewrite Heq. cbn [snd]. by destruct sm. }
  assert (Hp1 : p ∈ Level.chain l1).
  { unfold l1. destruct (OrderBook.levels sm b !! px); simpl;
      [apply elem_of_app; right|]; apply list_elem_of_here. }
  destruct (cancel_order_effect b1 id p o sm l1 Hb1) as (H1 & H2 & H3 & H4 & H5);
    try done.
  { rewrite Hom1. apply lookup_insert_eq. }
  { rewrite Hst1. apply lookup_insert_eq. }
  { rewrite Hlv1. apply lookup_insert_eq. }
  fold r in H1, H2, H3, H4, H5.
  split; [done|]. split; [|split].
  - rewrite H2, Hom1, delete_insert_eq. by apply delete_id.
  - rewrite H3, Hst1, delete_insert_eq. by apply delete_id.
  - assert (Hsame : OrderBook.levels sm r.2 = OrderBook.levels sm b).
    { rewrite H5, Hlv1. change (Order.price_raw o) with px. change (Order.size o) with sz.
      unfold l1. destruct (OrderBook.levels sm b !! px) as [d|] eqn:Hd; simpl.
      - pose proof (inv_levels b Hb sm _ _ Hd) as Hdok.
        assert (Hnp : p ∉ Level.chain d).
        { intros Hp. destruct (inv_chained b sm px d p Hb Hd Hp) as (o' & Ho' & _).
          congruence. }
        rewrite filter_app, (filter_ne_notin p _ Hnp).
        rewrite filter_cons, decide_False by (intros ?; done).
        rewrite filter_nil, app_nil_r.
        rewrite bool_decide_eq_false_2 by apply (lv_nonempty _ _ _ _ Hdok).
        rewrite insert_insert_eq. apply insert_id. rewrite Hd. f_equal.
        destruct d as [dp dt dc dch]. simpl in *.
        pose proof (lv_price _ _ _ _ Hdok) as Hpx. simpl in Hpx. subst dp.
        f_equal; lia.
      - rewrite filter_cons, decide_False by (intros ?; done).
        rewrite filter_nil. rewrite bool_decide_eq_true_2 by done.
        rewrite delete_insert_eq. by apply delete_id. }
    intros sm'. destruct (decide (sm' = sm)) as [->|Hne]; [done|].
    assert (sm' = other_side sm) as -> by (by destruct sm, sm').
    by rewrite H4, Hot1.
Qed.

Lemma add_then_cancel_witness :
  OrderBook.levels Bids
    (OrderBook.cancel_order 5
       (OrderBook.add_order 5 10050 30 "B" 3000 two_bids_book).2).2 =
  OrderBook.levels Bids two_bids_book.
Proof.
  assert (Hu : is_u32 30) by (unfold is_u32; lia).
  assert (Hc : Z.of_nat (size (OrderBook.order_map_ two_bids_book)) < 2 ^ 32 - 1)
    by (vm_compute; reflexivity).
  assert (Hn : OrderBook.order_map_ two_bids_book !! 5 = None)
    by (vm_compute; reflexivity).
  destruct (add_then_cancel two_bids_book 5 10050 30 Bids 3000 two_bids_book_inv Hu Hc Hn)
    as (_ & _ & _ & H).
  exact (H Bids).
Defined.

(** X4. A trade takes out of the level at its price, on the passive side,
    the smaller of its size and of the quantity resting there; the other
    levels of that side and the whole other side are left alone. *)
Theorem execute_trade_takes_min b price size side :
  book_inv b → is_u32 size →
  let sm := passive_side side in
  let b' := (OrderBook.execute_trade price size side b).2 in
  depth_at sm price b' = depth_at sm price b - Z.min size (depth_at sm price b) ∧
  (∀ px, px ≠ price → OrderBook.levels sm b' !! px = OrderBook.levels sm b !! px) ∧
  OrderBook.levels (other_side sm) b' = OrderBook.levels (other_side sm) b.
Proof.
  intros Hb Hsz sm b'. unfold b'. rewrite execute_trade_eq. fold sm.
  by apply execute_trade_on_side_depth.
Qed.

Lemma execute_trade_takes_min_witness :
  depth_at Asks 10100 (OrderBook.execute_trade 10100 3 "B" zero_size_book).2 = 2.
Proof.
  assert (Hb : book_inv zero_size_book)
    by (apply book_of_inv; [repeat constructor; unfold is_u32; lia | simpl; lia]).
  assert (Hu : is_u32 3) by (unfold is_u32; lia).
  destruct (execute_trade_takes_min zero_size_book 10100 3 "B" Hb Hu) as (H & _).
  change (passive_side "B") with Asks in H. rewrite H.
  vm_compute. reflexivity.
Defined.

(** ** The ordered traversal of a side *)

Lemma filter_none {A} (P : A → Prop) `{!∀ x, Decision (P x)} (l : list A) :
  (∀ x, x ∈ l → ¬ P x) → filter P l = [].
Proof.
  induction l as [|a l IH]; intros Hl; [done|].
  rewrite filter_cons, decide_False by (apply Hl; left).
  apply IH. intros x Hx. apply Hl. by right.
Qed.

Section in_order.
Context (before : Z → Z → Prop).
Context (R : relation (Z * Level.t)).
Hypothesis R_before : ∀ x y, R x y → x.1 ≠ y.1 → before x.1 y.1.
Hypothesis before_irrefl : ∀ a, ¬ before a a.
Hypothesis before_asym : ∀ a b, before a b → ¬ before b a.

Lemma sorted_rank (L : list (Z * Level.t)) :
  StronglySorted R L → NoDup L.*1 →
  ∀ (j : nat) px l `{!∀ x : Z * Level.t, Decision (before x.1 px)},
    L !! j = Some (px, l) →
    length (filter (λ x, before x.1 px) L) = j.
Proof.
  induction L as [|a L IH]; intros Hs Hnd j px l D Hj; [done|].
  apply StronglySorted_inv in Hs as [Hs Ha].
  rewrite fmap_cons in Hnd. apply NoDup_cons in Hnd as [Hna Hnd].
  rewrite filter_cons. destruct j as [|j]; simpl in Hj.
  - injection Hj as ->. simpl.
    rewrite decide_False by apply before_irrefl.
    assert (Hnone : filter (λ x : Z * Level.t, before x.1 px) L = []).
    { apply filter_none. intros y Hy.
      rewrite Forall_forall in Ha. specialize (Ha y Hy).
      apply before_asym. apply (R_before _ _ Ha). simpl.
      intros Heq. apply Hna. rewrite Heq. apply list_elem_of_fmap. by exists y. }
    by rewrite Hnone.
  - assert (Hin : (px, l) ∈ L) by (by eapply list_elem_of_lookup_2).
    rewrite Forall_forall in Ha. specialize (Ha _ Hin).
    rewrite decide_True.
    + simpl. f_equal. by eapply IH.
    + apply (R_before _ _ Ha). simpl. intros Heq. apply Hna. rewrite Heq.
      apply list_elem_of_fmap. by exists (px, l).
Qed.
End in_order.

#[local] Instance bid_first_trans : Transitive OrderBook.bid_first.
Proof. unfold OrderBook.bid_first. intros x y z. lia. Qed.
#[local] Instance bid_first_total : Total OrderBook.bid_first.
Proof. unfold OrderBook.bid_first. intros x y. lia. Qed.
#[local] Instance ask_first_trans : Transitive OrderBook.ask_first.
Proof. unfold OrderBook.ask_first. intros x y z. lia. Qed.
#[local] Instance ask_first_total : Total OrderBook.ask_first.
Proof. unfold OrderBook.ask_first. intros x y. lia. Qed.

Lemma bids_in_order_length m : length (OrderBook.bids_in_order m) = size m.
Proof.
  unfold OrderBook.bids_in_order. rewrite merge_sort_Permutation.
  by rewrite length_map_to_list.
Qed.

Lemma asks_in_order_length m : length (OrderBook.asks_in_order m) = size m.
Proof.
  unfold OrderBook.asks_in_order. rewrite merge_sort_Permutation.
  by rewrite length_map_to_list.
Qed.

Lemma bids_in_order_index m px l :
  m !! px = Some l →
  OrderBook.bids_in_order m !! levels_above m px = Some (px, l).
Proof.
  intros Hl. unfold OrderBook.bids_in_order, levels_above.
  set (L := merge_sort OrderBook.bid_first (map_to_list m)).
  assert (Hperm : L ≡ₚ map_to_list m) by apply merge_sort_Permutation.
  assert (Hin : (px, l) ∈ L) by (rewrite Hperm; by apply elem_of_map_to_list).
  apply list_elem_of_lookup_1 in Hin as [j Hj].
  assert (Hr : length (filter (λ x : Z * Level.t, (λ a b, b < a) x.1 px) L) = j).
  { apply (sorted_rank (λ a b, b < a) OrderBook.bid_first) with (l := l); try done.
    - intros x y Hxy Hne. unfold OrderBook.bid_first in Hxy. lia.
    - intros a. lia.
    - intros a b. lia.
    - by apply StronglySorted_merge_sort; apply _.
    - rewrite Hperm. apply NoDup_fst_map_to_list. }
  cbv beta in Hr. rewrite <- Hperm, Hr. done.
Qed.

Lemma asks_in_order_index m px l :
  m !! px = Some l →
  OrderBook.asks_in_order m !! levels_below m px = Some (px, l).
Proof.
  intros Hl. unfold OrderBook.asks_in_order, levels_below.
  set (L := merge_sort OrderBook.ask_first (map_to_list m)).
  assert (Hperm : L ≡ₚ map_to_list m) by apply merge_sort_Permutation.
  assert (Hin : (px, l) ∈ L) by (rewrite Hperm; by apply elem_of_map_to_list).
  apply list_elem_of_lookup_1 in Hin as [j Hj].
  assert (Hr : length (filter (λ x : Z * Level.t, (λ a b, a < b) x.1 px) L) = j).
  { apply (sorted_rank (λ a b, a < b) OrderBook.ask_first) with (l := l); try done.
    - intros x y Hxy Hne. unfold OrderBook.ask_first in Hxy. lia.
    - intros a. lia.
    - intros a b. lia.
    - by apply StronglySorted_merge_sort; apply _.
    - rewrite Hperm. apply NoDup_fst_map_to_list. }
  cbv beta in Hr. rewrite <- Hperm, Hr. done.
Qed.

Lemma top10_length {A} (f : Z * Level.t → A) z L : length (OrderBook.top10 f z L) = 10%nat.
Proof. unfold OrderBook.top10. apply length_resize. Qed.

Lemma top10_shown {A} (f : Z * Level.t → A) z L (i : nat) x :
  (i < 10)%nat → L !! i = Some x → OrderBook.top10 f z L !! i = Some (f x).
Proof.
  intros Hi Hx. unfold OrderBook.top10.
  rewrite lookup_resize; [by rewrite list_lookup_fmap, Hx| done |].
  rewrite length_fmap. by eapply lookup_lt_Some.
Qed.

Lemma top10_padding {A} (f : Z * Level.t → A) z L (i : nat) :
  (length L ≤ i < 10)%nat → OrderBook.top10 f z L !! i = Some z.
Proof.
  intros Hi. unfold OrderBook.top10.
  apply lookup_resize_new; [rewrite length_fmap|]; lia.
Qed.

Lemma get_top10_coherent snap b :
  cache_coherent b →
  arrays (OrderBook.get_top10_snapshot snap b).1 = fresh_top10 b.
Proof.
  intros Hc. unfold OrderBook.get_top10_snapshot, arrays.
  destruct (OrderBook.cache_valid_ b) eqn:Hv; simpl; [by apply Hc | done].
Qed.

(** X5. What [get_top10_snapshot] writes, when a cache flagged valid holds
    the levels of the side maps: the timestamp of the snapshot is kept,
    each of the four arrays has ten entries, the bid level with [i] bid
    levels priced above it sits at index [i] with its total size, the ask
    level with [i] ask levels priced below it sits at index [i], and the
    indexes past the number of levels of a side hold zeros. *)
Theorem top10_snapshot_ranks snap b :
  cache_coherent b →
  let s := (OrderBook.get_top10_snapshot snap b).1 in
  MBPSnapshot.timestamp_ns s = MBPSnapshot.timestamp_ns snap ∧
  (length (MBPSnapshot.bid_px s) = 10 ∧ length (MBPSnapshot.bid_sz s) = 10 ∧
   length (MBPSnapshot.ask_px s) = 10 ∧ length (MBPSnapshot.ask_sz s) = 10)%nat ∧
  (∀ px l, OrderBook.bid_levels_ b !! px = Some l →
     (levels_above (OrderBook.bid_levels_ b) px < 10)%nat →
     MBPSnapshot.bid_px s !! levels_above (OrderBook.bid_levels_ b) px = Some px ∧
     MBPSnapshot.bid_sz s !! levels_above (OrderBook.bid_levels_ b) px =
       Some (Level.total_size l)) ∧
  (∀ px l, OrderBook.ask_levels_ b !! px = Some l →
     (levels_below (OrderBook.ask_levels_ b) px < 10)%nat →
     MBPSnapshot.ask_px s !! levels_below (OrderBook.ask_levels_ b) px = Some px ∧
     MBPSnapshot.ask_sz s !! levels_below (OrderBook.ask_levels_ b) px =
       Some (Level.total_size l)) ∧
  (∀ i : nat, (size (OrderBook.bid_levels_ b) ≤ i < 10)%nat →
     MBPSnapshot.bid_px s !! i = Some 0 ∧ MBPSnapshot.bid_sz s !! i = Some 0) ∧
  (∀ i : nat, (size (OrderBook.ask_levels_ b) ≤ i < 10)%nat →
     MBPSnapshot.ask_px s !! i = Some 0 ∧ MBPSnapshot.ask_sz s !! i = Some 0).
Proof.
  intros Hc s.
  pose proof (get_top10_coherent snap b Hc) as Ha. fold s in Ha.
  unfold arrays, fresh_top10 in Ha.
  assert (Hbp : MBPSnapshot.bid_px s =
    OrderBook.top10 fst 0 (OrderBook.bids_in_order (OrderBook.bid_levels_ b)))
    by congruence.
  assert (Hbs : MBPSnapshot.bid_sz s =
    OrderBook.top10 (λ x, Level.total_size x.2) 0
      (OrderBook.bids_in_order (OrderBook.bid_levels_ b))) by congruence.
  assert (Hap : MBPSnapshot.ask_px s =
    OrderBook.top10 fst 0 (OrderBook.asks_in_order (OrderBook.ask_levels_ b)))
    by congruence.
  assert (Has : MBPSnapshot.ask_sz s =
    OrderBook.top10 (λ x, Level.total_size x.2) 0
      (OrderBook.asks_in_order (OrderBook.ask_levels_ b))) by congruence.
  clear Ha.
  split; [by unfold s, OrderBook.get_top10_snapshot|].
  rewrite Hbp, Hbs, Hap, Has.
  split; [by rewrite !top10_length|].
  split; [|split; [|split]].
  - intros px l Hl Hr. pose proof (bids_in_order_index _ _ _ Hl) as Hi.
    split; [apply (top10_shown fst 0 _ _ _ Hr Hi)|].
    apply (top10_shown (λ x, Level.total_size x.2) 0 _ _ _ Hr Hi).
  - intros px l Hl Hr. pose proof (asks_in_order_index _ _ _ Hl) as Hi.
    split; [apply (top10_shown fst 0 _ _ _ Hr Hi)|].
    apply (top10_shown (λ x, Level.total_size x.2) 0 _ _ _ Hr Hi).
  - intros i Hi. split; apply top10_padding; by rewrite bids_in_order_length.
  - intros i Hi. split; apply top10_padding; by rewrite asks_in_order_length.
Qed.

Lemma top10_snapshot_ranks_witness :
  cache_coherent two_bids_book ∧
  MBPSnapshot.bid_px (OrderBook.get_top10_snapshot MBPSnapshot.init two_bids_book).1 !! 1%nat
    = Some 10050 ∧
  MBPSnapshot.bid_sz (OrderBook.get_top10_snapshot MBPSnapshot.init two_bids_book).1 !! 1%nat
    = Some 100.
Proof.
  assert (Hc : cache_coherent two_bids_book).
  { intros Hv. vm_compute in Hv. discriminate Hv. }
  split; [done|].
  destruct (top10_snapshot_ranks MBPSnapshot.init two_bids_book Hc)
    as (_ & _ & H & _).
  apply (H 10050 (Level.mk 10050 100 1 [49999])).
  - vm_compute. reflexivity.
  - vm_compute. lia.
Defined.

(** X6. [get_best_bid] returns the highest bid price with the total size
    resting there, [get_best_ask] the lowest ask price with its total
    size; a side with no level reads as [(0, 0)], and a side with a level
    has a best price. *)
Theorem best_bid_ask b :
  (OrderBook.bid_levels_ b = ∅ → OrderBook.get_best_bid b = (0, 0)) ∧
  (OrderBook.ask_levels_ b = ∅ → OrderBook.get_best_ask b = (0, 0)) ∧
  (∀ px l, OrderBook.bid_levels_ b !! px = Some l →
     (∀ px', is_Some (OrderBook.bid_levels_ b !! px') → px' <= px) →
     OrderBook.get_best_bid b = (px, Level.total_size l)) ∧
  (∀ px l, OrderBook.ask_levels_ b !! px = Some l →
     (∀ px', is_Some (OrderBook.ask_levels_ b !! px') → px <= px') →
     OrderBook.get_best_ask b = (px, Level.total_size l)) ∧
  (OrderBook.bid_levels_ b ≠ ∅ →
     ∃ px l, OrderBook.bid_levels_ b !! px = Some l ∧
       (∀ px', is_Some (OrderBook.bid_levels_ b !! px') → px' <= px)) ∧
  (OrderBook.ask_levels_ b ≠ ∅ →
     ∃ px l, OrderBook.ask_levels_ b !! px = Some l ∧
       (∀ px', is_Some (OrderBook.ask_levels_ b !! px') → px <= px')).
Proof.
  split_and!.
  - intros He. unfold OrderBook.get_best_bid, OrderBook.bids_in_order.
    by rewrite He, map_to_list_empty.
  - intros He. unfold OrderBook.get_best_ask, OrderBook.asks_in_order.
    by rewrite He, map_to_list_empty.
  - intros px l Hl Hmax. pose proof (bids_in_order_index _ _ _ Hl) as Hi.
    assert (Hz : levels_above (OrderBook.bid_levels_ b) px = 0%nat).
    { unfold levels_above. rewrite filter_none; [done|].
      intros [px' l'] Hin. apply elem_of_map_to_list in Hin. simpl.
      assert (px' <= px) by (apply Hmax; eauto). lia. }
    rewrite Hz in Hi. unfold OrderBook.get_best_bid.
    destruct (OrderBook.bids_in_order _) as [|[px0 l0] L]; [done|].
    simpl in Hi. by injection Hi as -> ->.
  - intros px l Hl Hmin. pose proof (asks_in_order_index _ _ _ Hl) as Hi.
    assert (Hz : levels_below (OrderBook.ask_levels_ b) px = 0%nat).
    { unfold levels_below. rewrite filter_none; [done|].
      intros [px' l'] Hin. apply elem_of_map_to_list in Hin. simpl.
      assert (px <= px') by (apply Hmin; eauto). lia. }
    rewrite Hz in Hi. unfold OrderBook.get_best_ask.
    destruct (OrderBook.asks_in_order _) as [|[px0 l0] L]; [done|].
    simpl in Hi. by injection Hi as -> ->.
  - intros Hne.
    pose proof (bids_in_order_length (OrderBook.bid_levels_ b)) as Hlen.
    assert (Hs : StronglySorted OrderBook.bid_first
                   (OrderBook.bids_in_order (OrderBook.bid_levels_ b)))
      by (by apply StronglySorted_merge_sort; apply _).
    assert (Hperm : OrderBook.bids_in_order (OrderBook.bid_levels_ b)
                    ≡ₚ map_to_list (OrderBook.bid_levels_ b))
      by apply merge_sort_Permutation.
    destruct (OrderBook.bids_in_order _) as [|[px l] L].
    { simpl in Hlen. symmetry in Hlen. by apply map_size_empty_iff in Hlen. }
    apply StronglySorted_inv in Hs as [_ Hall]. rewrite Forall_forall in Hall.
    exists px, l. split.
    + apply elem_of_map_to_list. rewrite <- Hperm. left.
    + intros px' [l' Hl']. apply elem_of_map_to_list in Hl'. rewrite <- Hperm in Hl'.
      apply elem_of_cons in Hl' as [Heq|Hin]; [injection Heq as -> _; lia|].
      specialize (Hall _ Hin). unfold OrderBook.bid_first in Hall. simpl in Hall. lia.
  - intros Hne.
    pose proof (asks_in_order_length (OrderBook.ask_levels_ b)) as Hlen.
    assert (Hs : StronglySorted OrderBook.ask_first
                   (OrderBook.asks_in_order (OrderBook.ask_levels_ b)))
      by (by apply StronglySorted_merge_sort; apply _).
    assert (Hperm : OrderBook.asks_in_order (OrderBook.ask_levels_ b)
                    ≡ₚ map_to_list (OrderBook.ask_levels_ b))
      by apply merge_sort_Permutation.
    destruct (OrderBook.asks_in_order _) as [|[px l] L].
    { simpl in Hlen. symmetry in Hlen. by apply map_size_empty_iff in Hlen. }
    apply StronglySorted_inv in Hs as [_ Hall]. rewrite Forall_forall in Hall.
    exists px, l. split.
    + apply elem_of_map_to_list. rewrite <- Hperm. left.
    + intros px' [l' Hl']. apply elem_of_map_to_list in Hl'. rewrite <- Hperm in Hl'.
      apply elem_of_cons in Hl' as [Heq|Hin]; [injection Heq as -> _; lia|].
      specialize (Hall _ Hin). unfold OrderBook.ask_first in Hall. simpl in Hall. lia.
Qed.

(** ** The cache of the top ten levels *)

Lemma cache_coherent_invalid b : OrderBook.cache_valid_ b = false → cache_coherent b.
Proof. intros Hv Ht. congruence. Qed.

Lemma cache_coherent_same b b' :
  cache_coherent b →
  OrderBook.bid_levels_ b' = OrderBook.bid_levels_ b →
  OrderBook.ask_levels_ b' = OrderBook.ask_levels_ b →
  OrderBook.cached_bid_prices_ b' = OrderBook.cached_bid_prices_ b →
  OrderBook.cached_bid_sizes_ b' = OrderBook.cached_bid_sizes_ b →
  OrderBook.cached_ask_prices_ b' = OrderBook.cached_ask_prices_ b →
  OrderBook.cached_ask_sizes_ b' = OrderBook.cached_ask_sizes_ b →
  OrderBook.cache_valid_ b' = OrderBook.cache_valid_ b →
  cache_coherent b'.
Proof.
  intros Hc H1 H2 H3 H4 H5 H6 H7 Hv. unfold fresh_top10.
  rewrite H1, H2, H3, H4, H5, H6. apply Hc. congruence.
Qed.

Lemma add_order_coherent id px sz sd ts b :
  cache_coherent b → cache_coherent (OrderBook.add_order id px sz sd ts b).2.
Proof.
  intros Hc. unfold OrderBook.add_order.
  destruct (OrderBook.order_map_ b !! id); [done|].
  destruct (OrderPool.allocate _ _) as [p pool'].
  destruct (add_to_side_eq p Bids (OrderBook.set_order_pool pool' b)) as [n1 ->].
  destruct (add_to_side_eq p Asks (OrderBook.set_order_pool pool' b)) as [n2 ->].
  destruct (Ascii.eqb sd "B"); [by apply cache_coherent_invalid|].
  destruct (Ascii.eqb sd "A"); [by apply cache_coherent_invalid|].
  by apply (cache_coherent_same b).
Qed.

Lemma modify_order_coherent id np ns b :
  cache_coherent b → cache_coherent (OrderBook.modify_order id np ns b).2.
Proof.
  intros Hc. unfold OrderBook.modify_order.
  destruct (OrderBook.order_map_ b !! id) as [p|]; [|done].
  case_bool_decide.
  - set (b2 := OrderBook.write_order _ _ _).
    destruct (add_to_side_eq p Bids b2) as [n1 ->].
    destruct (add_to_side_eq p Asks b2) as [n2 ->].
    destruct (Ascii.eqb _ _); by apply cache_coherent_invalid.
  - by apply cache_coherent_invalid.
Qed.

Lemma cancel_order_coherent id b :
  cache_coherent b → cache_coherent (OrderBook.cancel_order id b).2.
Proof.
  intros Hc. unfold OrderBook.cancel_order.
  destruct (OrderBook.order_map_ b !! id) as [p|]; [|done].
  by apply cache_coherent_invalid.
Qed.

Lemma execute_trade_coherent price size side b :
  cache_coherent b → cache_coherent (OrderBook.execute_trade price size side b).2.
Proof.
  intros Hc. rewrite execute_trade_eq. unfold OrderBook.execute_trade_on_side.
  destruct (OrderBook.levels _ b !! price); [|done].
  by apply cache_coherent_invalid.
Qed.

Lemma apply_call_coherent c b : cache_coherent b → cache_coherent (apply_call c b).
Proof.
  intros Hc. destruct c as [[id px sz sd ts|id np ns|id|px sz sd|]|]; simpl.
  - by apply add_order_coherent.
  - by apply modify_order_coherent.
  - by apply cancel_order_coherent.
  - by apply execute_trade_coherent.
  - by apply cache_coherent_invalid.
  - unfold OrderBook.get_top10_snapshot.
    destruct (OrderBook.cache_valid_ b) eqn:Hv; simpl; [done|].
    by intros _.
Qed.

Lemma run_calls_coherent calls : ∀ b,
  cache_coherent b → cache_coherent (run_calls calls b).
Proof.
  induction calls as [|c calls IH]; intros b Hc; [done|].
  simpl. apply IH. by apply apply_call_coherent.
Qed.

(** X7. The cache never serves stale levels.  After any sequence of
    [add_order], [modify_order], [cancel_order], [execute_trade], [clear]
    and [get_top10_snapshot] calls on a new book, a read of the top ten
    levels gives the arrays computed from the side maps as they are at
    that moment, and so does a second read served from the cache. *)
Theorem top10_never_stale (calls : list book_call) (snap : MBPSnapshot.t) :
  let b := run_calls calls OrderBook.init in
  arrays (OrderBook.get_top10_snapshot snap b).1 = fresh_top10 b ∧
  arrays
    (OrderBook.get_top10_snapshot snap (OrderBook.get_top10_snapshot snap b).2).1 =
  fresh_top10 b.
Proof.
  intros b.
  assert (Hc : cache_coherent b).
  { apply run_calls_coherent. by apply cache_coherent_invalid. }
  split; [by apply get_top10_coherent|].
  pose proof (apply_call_coherent CallTop10 b Hc) as Hc'. simpl in Hc'.
  assert (Hsame : OrderBook.get_top10_snapshot snap b = 
     ((OrderBook.get_top10_snapshot snap b).1,
      (OrderBook.get_top10_snapshot MBPSnapshot.init b).2)) by done.
  rewrite Hsame. cbn [snd].
  rewrite (get_top10_coherent _ _ Hc').
  unfold OrderBook.get_top10_snapshot. by destruct (OrderBook.cache_valid_ b).
Qed.

(** ** Counting the resting orders *)

Lemma chained_length st om m :
  levels_ok st om m → chained m = Z.of_nat (length (chains m)).
Proof.
  intros Hm. unfold chained, chains. rewrite map_fold_foldr.
  assert (Hall : ∀ x, x ∈ map_to_list m →
            Level.order_count x.2 = Z.of_nat (length (Level.chain x.2))).
  { intros [px l] Hx. apply elem_of_map_to_list in Hx.
    apply (lv_count _ _ _ _ (Hm _ _ Hx)). }
  induction (map_to_list m) as [|x L IH]; [done|].
  simpl. rewrite length_app, Nat2Z.inj_add, IH by (intros; apply Hall; by right).
  pose proof (Hall x (list_elem_of_here _ _)) as Hx. destruct x as [px l].
  simpl in *. by rewrite Hx.
Qed.

Lemma chains_elem m p :
  p ∈ chains m ↔ ∃ px l, m !! px = Some l ∧ p ∈ Level.chain l.
Proof.
  unfold chains. rewrite list_elem_of_bind. split.
  - intros ([px l] & Hp & Hx). apply elem_of_map_to_list in Hx. eauto.
  - intros (px & l & Hl & Hp). exists (px, l). split; [done|].
    by apply elem_of_map_to_list.
Qed.

Lemma chains_NoDup b sm : book_inv b → NoDup (chains (OrderBook.levels sm b)).
Proof.
  intros Hb. unfold chains. apply NoDup_bind.
  - intros [px1 l1] [px2 l2] p H1 H2 Hp1 Hp2.
    apply elem_of_map_to_list in H1, H2. simpl in *.
    destruct (inv_unique_level b sm sm px1 px2 l1 l2 p Hb H1 Hp1 H2 Hp2) as [_ ->].
    congruence.
  - intros [px l] Hx. apply elem_of_map_to_list in Hx.
    apply (lv_chain _ _ _ _ (inv_levels b Hb sm _ _ Hx)).
  - apply NoDup_map_to_list.
Qed.

(** X8. On a well-formed book [get_active_orders] is the number of orders
    the levels of the two sides count: the sum of [order_count] over the
    bid levels and the ask levels. *)
Theorem active_orders_chained b :
  book_inv b →
  Z.of_nat (OrderBook.get_active_orders b) =
    chained (OrderBook.bid_levels_ b) + chained (OrderBook.ask_levels_ b).
Proof.
  intros Hb.
  change (OrderBook.bid_levels_ b) with (OrderBook.levels Bids b).
  change (OrderBook.ask_levels_ b) with (OrderBook.levels Asks b).
  rewrite (chained_length _ _ _ (inv_levels b Hb Bids)).
  rewrite (chained_length _ _ _ (inv_levels b Hb Asks)).
  rewrite <- Nat2Z.inj_add, <- length_app. f_equal.
  unfold OrderBook.get_active_orders.
  rewrite <- length_map_to_list, <- (length_fmap snd).
  apply Permutation_length, NoDup_Permutation.
  - apply NoDup_fmap_2_strong; [|apply NoDup_map_to_list].
    intros [id1 p1] [id2 p2] H1 H2 Heq. simpl in Heq. subst p2.
    apply elem_of_map_to_list in H1, H2.
    by rewrite (inv_ids_inj b id1 id2 p1 Hb H1 H2).
  - apply NoDup_app. split; [apply (chains_NoDup b Bids Hb)|].
    split; [|apply (chains_NoDup b Asks Hb)].
    intros p Hp1 Hp2.
    apply chains_elem in Hp1 as (px1 & l1 & Hl1 & Hq1).
    apply chains_elem in Hp2 as (px2 & l2 & Hl2 & Hq2).
    by destruct (inv_unique_level b Bids Asks px1 px2 l1 l2 p Hb Hl1 Hq1 Hl2 Hq2).
  - intros p. rewrite list_elem_of_fmap, elem_of_app, !chains_elem. split.
    + intros ([id q] & -> & Hx). apply elem_of_map_to_list in Hx. simpl.
      destruct (inv_resting b id q Hb Hx) as (o & sm & l & _ & _ & _ & Hl & Hq).
      destruct sm; [left | right]; eauto.
    + intros [(px & l & Hl & Hq)|(px & l & Hl & Hq)].
      * destruct (inv_chained b Bids px l p Hb Hl Hq) as (o & _ & _ & _ & Hid).
        exists (Order.order_id o, p). split; [done|]. by apply elem_of_map_to_list.
      * destruct (inv_chained b Asks px l p Hb Hl Hq) as (o & _ & _ & _ & Hid).
        exists (Order.order_id o, p). split; [done|]. by apply elem_of_map_to_list.
Qed.

Lemma active_orders_chained_witness :
  Z.of_nat (OrderBook.get_active_orders two_bids_book) =
    chained (OrderBook.bid_levels_ two_bids_book) +
    chained (OrderBook.ask_levels_ two_bids_book).
Proof. apply (active_orders_chained two_bids_book two_bids_book_inv). Defined.

(** ** The order slab *)

(** X9. [allocate] on a well-formed pool hands out an address that holds no
    order and keeps the pool well formed; the address is a slab slot while
    the free list is not empty, and a heap object afterwards.  A slab slot
    that is freed is the next address handed out; an address outside the
    slab that is freed does not enter the free list. *)
Theorem allocate_fresh pool v :
  pool_ok pool →
  let r := OrderPool.allocate v pool in
  OrderPool.objects_ pool !! r.1 = None ∧
  OrderPool.objects_ r.2 = <[r.1 := v]> (OrderPool.objects_ pool) ∧
  pool_ok r.2 ∧
  (OrderPool.free_list_ pool ≠ [] → 0 <= r.1 < OrderPool.POOL_SIZE) ∧
  (OrderPool.free_list_ pool = [] →
     r.1 = OrderPool.heap_next_ pool ∧ OrderPool.POOL_SIZE <= r.1) ∧
  (∀ q w, 0 <= q < OrderPool.POOL_SIZE →
     (OrderPool.allocate w (OrderPool.deallocate q pool)).1 = q) ∧
  (∀ q, ¬ 0 <= q < OrderPool.POOL_SIZE →
     OrderPool.free_list_ (OrderPool.deallocate q pool) = OrderPool.free_list_ pool).
Proof.
  intros Hp r.
  destruct (OrderPool.allocate v pool) as [p pool'] eqn:Hal.
  destruct (allocate_ok _ _ _ _ Hp Hal) as (H1 & H2 & H3).
  unfold r. cbn [fst snd]. split_and!; try done.
  - intros Hne. unfold OrderPool.allocate in Hal.
    destruct (OrderPool.free_list_ pool) as [|q rest] eqn:Hf; [done|].
    injection Hal as <- _. apply (pool_free _ Hp). rewrite Hf. left.
  - intros He. unfold OrderPool.allocate in Hal. rewrite He in Hal.
    injection Hal as <- _. split; [done|]. apply (pool_heap _ Hp).
  - intros q w Hq. unfold OrderPool.deallocate.
    by rewrite bool_decide_eq_true_2.
  - intros q Hq. unfold OrderPool.deallocate.
    by rewrite bool_decide_eq_false_2.
Qed.

Lemma allocate_fresh_witness :
  (OrderPool.allocate Order.zero OrderPool.init).1 = 49999 ∧
  OrderPool.objects_ (OrderPool.allocate Order.zero OrderPool.init).2 !! 49999 =
    Some Order.zero.
Proof.
  destruct (allocate_fresh OrderPool.init Order.zero pool_init_ok)
    as (_ & H & _).
  assert (Hp : (OrderPool.allocate Order.zero OrderPool.init).1 = 49999)
    by (vm_compute; reflexivity).
  split; [done|]. rewrite H, Hp. apply lookup_insert_eq.
Defined.

(** * More of the action engine *)

Lemma known_action_cases a :
  known_action a = false →
  a ≠ "A"%char ∧ a ≠ "M"%char ∧ a ≠ "C"%char ∧ a ≠ "T"%char ∧
  a ≠ "F"%char ∧ a ≠ "R"%char ∧ a ≠ "N"%char.
Proof.
  unfold known_action. intros H.
  repeat (apply orb_false_elim in H as [H ?]).
  split_and!; by apply Ascii.eqb_neq.
Qed.

(** X10. The trade state machine, one event at a time.  A [T] buffers the
    trade and moves to [TRADE_RECEIVED] from any state, without an error;
    an [F] with the buffered id in [TRADE_RECEIVED] moves to
    [FILL_RECEIVED] and marks the trade; a [C] in [FILL_RECEIVED] and an
    [R] after the first one end in [IDLE] with nothing buffered; the first
    [R] only sets its flag; a [C] in another state, and every [A], [M], [N]
    and unknown action, leave the state, the buffered trade, the last trade
    id and the flag alone; and only [A], [M], [C] and [R] events can change
    the book. *)
Theorem trade_machine_transitions e s :
  let s' := (ActionEngine.process_event e s).2 in
  let a := Event.action e in
  (a = "T"%char →
     ActionEngine.trade_state_ s' = TRADE_RECEIVED ∧
     ActionEngine.pending_trade_ s' = Some (pending_of e) ∧
     ActionEngine.last_trade_id_ s' = Event.order_id e ∧
     ActionEngine.errors_encountered_ s' = ActionEngine.errors_encountered_ s) ∧
  (a = "F"%char → ActionEngine.trade_state_ s = TRADE_RECEIVED →
     Event.order_id e = ActionEngine.last_trade_id_ s →
     ∀ t, ActionEngine.pending_trade_ s = Some t →
       ActionEngine.trade_state_ s' = FILL_RECEIVED ∧
       ActionEngine.pending_trade_ s' = Some (TradeInfo.set_is_aggressor_fill true t) ∧
       ActionEngine.errors_encountered_ s' = ActionEngine.errors_encountered_ s) ∧
  (a = "C"%char → ActionEngine.trade_state_ s = FILL_RECEIVED →
     ActionEngine.trade_state_ s' = IDLE ∧ ActionEngine.pending_trade_ s' = None) ∧
  (a = "R"%char → ActionEngine.first_clear_seen_ s = true →
     ActionEngine.trade_state_ s' = IDLE ∧ ActionEngine.pending_trade_ s' = None) ∧
  (a = "R"%char → ActionEngine.first_clear_seen_ s = false →
     ActionEngine.trade_state_ s' = ActionEngine.trade_state_ s ∧
     ActionEngine.pending_trade_ s' = ActionEngine.pending_trade_ s ∧
     ActionEngine.first_clear_seen_ s' = true) ∧
  (a = "C"%char → ActionEngine.trade_state_ s ≠ FILL_RECEIVED → same_machine s s') ∧
  (a ∉ ["T"; "F"; "C"; "R"]%char → same_machine s s') ∧
  (a ∉ ["A"; "M"; "C"; "R"]%char →
     ActionEngine.order_book_ s' = ActionEngine.order_book_ s).
Proof.
  intros s' a. unfold s', a.
  destruct (process_event_dispatch e s) as [Ha He|Ha He|Ha He|Ha He|Ha He|Ha He|Ha He|Ha He];
    rewrite He; clear He.
  1-7: rewrite Ha.
  all: split_and!; try (intros; discriminate).
  all: try solve [intros Hn; exfalso; apply Hn;
                  repeat first [apply list_elem_of_here | apply list_elem_of_further]].
  all: try solve [intros _; eapply same_machine_trans;
                    [apply count_action_machine | apply handle_add_machine]].
  all: try solve [intros _; eapply same_machine_trans;
                    [apply count_action_machine | apply handle_modify_machine]].
  all: try solve [intros _ Hst; eapply same_machine_trans;
                    [apply count_action_machine | by apply handle_cancel_plain]].
  all: try solve [intros _; apply count_action_machine].
  all: try solve [intros _; unfold ActionEngine.handle_add; simpl;
                  destruct (Ascii.eqb _ _); [done|];
                  by destruct (OrderBook.add_order _ _ _ _ _ _) as [[] b]].
  all: try solve [intros _; unfold ActionEngine.handle_fill; simpl;
                  case_bool_decide; [done|];
                  destruct (ActionEngine.pending_trade_ s); [|done];
                  by case_bool_decide].
  all: try solve [intros _ Hf; unfold ActionEngine.handle_clear; simpl; by rewrite Hf].
  all: try solve [intros _ Hst; unfold ActionEngine.handle_cancel; simpl;
                  rewrite bool_decide_eq_true_2 by done;
                  unfold ActionEngine.complete_trade_sequence; simpl;
                  destruct (ActionEngine.pending_trade_ s); [|done];
                  rewrite bool_decide_eq_false_2 by (intros ?; done);
                  by destruct (OrderBook.execute_trade _ _ _ _) as [[] b]].
  all: try solve [intros _ Hst Hid t Ht; unfold ActionEngine.handle_fill; simpl;
                  rewrite bool_decide_eq_false_2 by (intros ?; done);
                  rewrite Ht; by rewrite bool_decide_eq_true_2].
  all: try solve [apply known_action_cases in Ha; intros Heq; rewrite Heq in Ha;
                  by destruct Ha as (? & ? & ? & ? & ? & ? & ?)].
  all: try done.
Qed.

Lemma incr64_wrap n : incr64 (wrap64 n) = wrap64 (n + 1).
Proof. unfold incr64, wrap64. by rewrite Zplus_mod_idemp_l. Qed.

Ltac pick := first [by left | by (right; left) | by (right; right)].

Lemma process_event_counters e s :
  let s' := (ActionEngine.process_event e s).2 in
  ActionEngine.actions_processed_ s' = incr64 (ActionEngine.actions_processed_ s) ∧
  ((ActionEngine.trades_aggregated_ s' = ActionEngine.trades_aggregated_ s ∧
    ActionEngine.errors_encountered_ s' = ActionEngine.errors_encountered_ s) ∨
   (ActionEngine.trades_aggregated_ s' = incr64 (ActionEngine.trades_aggregated_ s) ∧
    ActionEngine.errors_encountered_ s' = ActionEngine.errors_encountered_ s ∧
    Event.action e = "C"%char ∧ (ActionEngine.process_event e s).1 = true) ∨
   (ActionEngine.trades_aggregated_ s' = ActionEngine.trades_aggregated_ s ∧
    ActionEngine.errors_encountered_ s' = incr64 (ActionEngine.errors_encountered_ s) ∧
    (ActionEngine.process_event e s).1 = false)).
Proof.
  intros s'. unfold s'.
  destruct (process_event_dispatch e s) as [Ha He|Ha He|Ha He|Ha He|Ha He|Ha He|Ha He|Ha He];
    rewrite He; clear He.
  - unfold ActionEngine.handle_add. simpl. destruct (Ascii.eqb _ _); [(split; [done | pick])|].
    destruct (OrderBook.add_order _ _ _ _ _ _) as [[] b]; simpl; (split; [done | pick]).
  - unfold ActionEngine.handle_modify. simpl. destruct (Ascii.eqb _ _); [(split; [done | pick])|].
    destruct (OrderBook.modify_order _ _ _ _) as [[] b]; simpl; (split; [done | pick]).
  - unfold ActionEngine.handle_cancel. simpl. case_bool_decide.
    + unfold ActionEngine.complete_trade_sequence. simpl.
      destruct (ActionEngine.pending_trade_ s); [|(split; [done | pick])].
      rewrite bool_decide_eq_false_2 by (intros ?; done).
      destruct (OrderBook.execute_trade _ _ _ _) as [[] b]; simpl; (split; [done | pick]).
    + destruct (OrderBook.cancel_order _ _) as [[] b]; simpl; (split; [done | pick]).
  - (split; [done | pick]).
  - unfold ActionEngine.handle_fill. simpl. case_bool_decide; [(split; [done | pick])|].
    destruct (ActionEngine.pending_trade_ s); [|(split; [done | pick])].
    case_bool_decide; (split; [done | pick]).
  - unfold ActionEngine.handle_clear. simpl.
    destruct (ActionEngine.first_clear_seen_ s); (split; [done | pick]).
  - (split; [done | pick]).
  - (split; [done | pick]).
Qed.

(** X11. The counters of the engine over a stream: [actions_processed_] is
    the number of events, modulo [2^64]; short of that many events, an
    event raises the count of aggregated trades or the count of errors or
    neither, never both, so that their sum is at most the number of
    events, and trades are only counted on [C] events. *)
Theorem engine_counters events book :
  let s := engine_after events book in
  ActionEngine.actions_processed_ s = wrap64 (Z.of_nat (length events)) ∧
  (Z.of_nat (length events) < 2 ^ 64 →
     ActionEngine.actions_processed_ s = Z.of_nat (length events) ∧
     0 <= ActionEngine.trades_aggregated_ s ∧
     0 <= ActionEngine.errors_encountered_ s ∧
     ActionEngine.trades_aggregated_ s + ActionEngine.errors_encountered_ s
       <= ActionEngine.actions_processed_ s ∧
     ActionEngine.trades_aggregated_ s <= Z.of_nat (events_with "C" events)).
Proof.
  intros s.
  assert (Hinv : ActionEngine.actions_processed_ s = wrap64 (Z.of_nat (length events)) ∧
    ∃ nt ne : nat,
      ActionEngine.trades_aggregated_ s = wrap64 (Z.of_nat nt) ∧
      ActionEngine.errors_encountered_ s = wrap64 (Z.of_nat ne) ∧
      (nt + ne ≤ length events)%nat ∧ (nt ≤ events_with "C" events)%nat).
  { unfold s, engine_after. induction events as [|e events IH] using rev_ind.
    - split; [done|]. exists 0%nat, 0%nat. by split_and!.
    - rewrite run_snoc.
      destruct IH as (IHa & nt & ne & IHt & IHe & Hle & Hc).
      destruct (process_event_counters e
                  (ActionEngine.run events (ActionEngine.init book)))
        as (Ha & Hcases).
      assert (Hlen : Z.of_nat (length (events ++ [e])) = Z.of_nat (length events) + 1)
        by (rewrite length_app; simpl; lia).
      assert (Hw : ∀ a, (events_with a events ≤ events_with a (events ++ [e]))%nat).
      { intros a. unfold events_with. rewrite filter_app, length_app. lia. }
      split; [by rewrite Ha, IHa, incr64_wrap, Hlen|].
      destruct Hcases as [[Ht He]|[(Ht & He & Hact & _)|(Ht & He & _)]].
      + exists nt, ne. rewrite Ht, He. split_and!; try done.
        * rewrite length_app. lia.
        * specialize (Hw "C"%char). lia.
      + exists (S nt), ne. rewrite Ht, He, IHt, incr64_wrap.
        split_and!; try done.
        * f_equal. lia.
        * rewrite length_app. simpl. lia.
        * unfold events_with in *. rewrite filter_app, length_app.
          rewrite filter_cons, decide_True by done. simpl. lia.
      + exists nt, (S ne). rewrite Ht, He, IHe, incr64_wrap.
        split_and!; try done.
        * f_equal. lia.
        * rewrite length_app. simpl. lia.
        * specialize (Hw "C"%char). lia. }
  destruct Hinv as (Ha & nt & ne & Ht & He & Hle & Hc).
  split; [done|]. intros Hlen.
  assert (Hs : ∀ n : nat, (n ≤ length events)%nat → wrap64 (Z.of_nat n) = Z.of_nat n).
  { intros n Hn. apply wrap64_small. unfold is_u64. lia. }
  rewrite Ha, Ht, He, !Hs by lia. lia.
Qed.

(** X12. Along any stream of fewer than [2^32] events whose fields fit their
    types, fed to a new engine on a new book, every level of the book
    keeps, after each event, a total equal to the sum of the sizes of its
    orders and a count equal to their number. *)
Theorem levels_consistent_stream events :
  Forall Event.wf events → Z.of_nat (length events) < 2 ^ 32 →
  ∀ k, levels_consistent
         (ActionEngine.order_book_ (engine_after (take k events) OrderBook.init)).
Proof.
  intros Hwf Hlen k. apply book_inv_consistent, engine_after_book_inv.
  - by apply Forall_take.
  - rewrite length_take. lia.
Qed.

Lemma tfc_stream_wf : Forall Event.wf (tfc_stream ++ [tfc_cancel]).
Proof.
  repeat constructor; unfold is_u64, is_u32; simpl; lia.
Qed.

Lemma levels_consistent_stream_witness :
  levels_consistent
    (ActionEngine.order_book_
       (engine_after (take 4 (tfc_stream ++ [tfc_cancel])) OrderBook.init)).
Proof.
  apply (levels_consistent_stream (tfc_stream ++ [tfc_cancel]) tfc_stream_wf).
  simpl. lia.
Defined.

(** ** The verbose engine *)

Lemma events_with_snoc a events e :
  Z.of_nat (events_with a (events ++ [e])) =
  Z.of_nat (events_with a events) + (if decide (Event.action e = a) then 1 else 0).
Proof.
  unfold events_with. rewrite filter_app, length_app, filter_cons, filter_nil.
  destruct (decide _); simpl; lia.
Qed.

Lemma count_fields a st :
  let st' := VerboseActionEngine.count a st in
  let bump (c : ascii) (x : Z) := if decide (a = c) then incr64 x else x in
  VerboseActionEngine.adds st' = bump "A"%char (VerboseActionEngine.adds st) ∧
  VerboseActionEngine.modifies st' = bump "M"%char (VerboseActionEngine.modifies st) ∧
  VerboseActionEngine.cancels st' = bump "C"%char (VerboseActionEngine.cancels st) ∧
  VerboseActionEngine.trades st' = bump "T"%char (VerboseActionEngine.trades st) ∧
  VerboseActionEngine.fills st' = bump "F"%char (VerboseActionEngine.fills st) ∧
  VerboseActionEngine.clears st' = bump "R"%char (VerboseActionEngine.clears st) ∧
  VerboseActionEngine.noops st' = bump "N"%char (VerboseActionEngine.noops st).
Proof.
  intros st' bump. unfold st', bump, VerboseActionEngine.count.
  destruct (Ascii.eqb a "A") eqn:HA; [apply Ascii.eqb_eq in HA as ->; by split_and!|].
  destruct (Ascii.eqb a "M") eqn:HM; [apply Ascii.eqb_eq in HM as ->; by split_and!|].
  destruct (Ascii.eqb a "C") eqn:HC; [apply Ascii.eqb_eq in HC as ->; by split_and!|].
  destruct (Ascii.eqb a "T") eqn:HT; [apply Ascii.eqb_eq in HT as ->; by split_and!|].
  destruct (Ascii.eqb a "F") eqn:HF; [apply Ascii.eqb_eq in HF as ->; by split_and!|].
  destruct (Ascii.eqb a "R") eqn:HR; [apply Ascii.eqb_eq in HR as ->; by split_and!|].
  destruct (Ascii.eqb a "N") eqn:HN; [apply Ascii.eqb_eq in HN as ->; by split_and!|].
  apply Ascii.eqb_neq in HA, HM, HC, HT, HF, HR, HN.
  split_and!; by rewrite decide_False.
Qed.

Lemma bump_wrap (a c : ascii) (n : nat) :
  (if decide (a = c) then incr64 (wrap64 (Z.of_nat n)) else wrap64 (Z.of_nat n)) =
  wrap64 (Z.of_nat n + (if decide (a = c) then 1 else 0)).
Proof. destruct (decide _); [apply incr64_wrap | by rewrite Z.add_0_r]. Qed.

(** X13. The verbose engine drives the book and the state machine exactly as
    the plain engine does and returns the same bits; each of its seven
    counters holds the number of events seen with its action, modulo
    [2^64], and an unknown action raises none of them. *)
Theorem verbose_engine_counts events book :
  let r := VerboseActionEngine.run events (VerboseActionEngine.init book) in
  let st := VerboseActionEngine.stats_ r.2 in
  VerboseActionEngine.base r.2 = engine_after events book ∧
  r.1 = bits_of events (ActionEngine.init book) ∧
  VerboseActionEngine.adds st = wrap64 (Z.of_nat (events_with "A" events)) ∧
  VerboseActionEngine.modifies st = wrap64 (Z.of_nat (events_with "M" events)) ∧
  VerboseActionEngine.cancels st = wrap64 (Z.of_nat (events_with "C" events)) ∧
  VerboseActionEngine.trades st = wrap64 (Z.of_nat (events_with "T" events)) ∧
  VerboseActionEngine.fills st = wrap64 (Z.of_nat (events_with "F" events)) ∧
  VerboseActionEngine.clears st = wrap64 (Z.of_nat (events_with "R" events)) ∧
  VerboseActionEngine.noops st = wrap64 (Z.of_nat (events_with "N" events)).
Proof.
  cbv zeta. unfold VerboseActionEngine.run, bits_of, engine_after, ActionEngine.run.
  induction events as [|e events IH] using rev_ind; [by split_and!|].
  rewrite !foldl_snoc.
  destruct IH as (IHb & IHr & I1 & I2 & I3 & I4 & I5 & I6 & I7).
  set (acc := foldl _ ([], VerboseActionEngine.init book) events) in *.
  set (acc' := foldl _ ([], ActionEngine.init book) events) in *.
  assert (Hacc' : acc'.2 = foldl (λ s e, (ActionEngine.process_event e s).2)
                             (ActionEngine.init book) events).
  { unfold acc'. clear. induction events as [|e events IH] using rev_ind; [done|].
    rewrite !foldl_snoc, <- IH.
    by destruct (ActionEngine.process_event e _). }
  rewrite <- Hacc' in *.
  unfold VerboseActionEngine.process_event_verbose.
  rewrite IHb.
  destruct (ActionEngine.process_event e acc'.2) as [r s1] eqn:Hp. cbn [fst snd].
  destruct (count_fields (Event.action e) (VerboseActionEngine.stats_ acc.2))
    as (C1 & C2 & C3 & C4 & C5 & C6 & C7).
  cbv zeta in *. cbn [VerboseActionEngine.stats_ VerboseActionEngine.base fst snd].
  rewrite C1, C2, C3, C4, C5, C6, C7, I1, I2, I3, I4, I5, I6, I7, IHr.
  rewrite !bump_wrap, !events_with_snoc.
  by split_and!.
Qed.

(** * More of the snapshot emitter *)

Lemma count_bool_cons v d l :
  Z.of_nat (count_bool v (d :: l)) =
  (if decide (d = v) then 1 else 0) + Z.of_nat (count_bool v l).
Proof.
  unfold count_bool. rewrite filter_cons. destruct (decide _); simpl; lia.
Qed.

Lemma manager_counters_gen calls : ∀ m (g k : nat),
  SnapshotManager.snapshots_generated_ m = wrap64 (Z.of_nat g) →
  SnapshotManager.snapshots_skipped_ m = wrap64 (Z.of_nat k) →
  let m' := manager_after m calls in
  SnapshotManager.snapshots_generated_ m' =
    wrap64 (Z.of_nat g + Z.of_nat (count_bool true (decisions m calls))) ∧
  SnapshotManager.snapshots_skipped_ m' =
    wrap64 (Z.of_nat k + Z.of_nat (count_bool false (decisions m calls))) ∧
  length (decisions m calls) = length calls.
Proof.
  induction calls as [|[book ts] calls IH]; intros m g k Hg Hk; simpl.
  - unfold count_bool. simpl. by rewrite !Z.add_0_r.
  - unfold SnapshotManager.should_generate_snapshot.
    destruct (OrderBook.get_top10_snapshot _ book) as [cur book'].
    destruct (_ && _); cbn [fst snd].
    + destruct (IH (SnapshotManager.mk (MBPSnapshot.set_timestamp_ns ts cur)
                    (SnapshotManager.previous_snapshot_ m)
                    (SnapshotManager.has_previous_ m)
                    (SnapshotManager.snapshots_generated_ m)
                    (incr64 (SnapshotManager.snapshots_skipped_ m))) g (S k))
        as (I1 & I2 & I3); [done | simpl; rewrite Hk, incr64_wrap; f_equal; lia |].
      rewrite I1, I2, !count_bool_cons. simpl. split_and!; f_equal; lia.
    + destruct (IH (SnapshotManager.mk (MBPSnapshot.set_timestamp_ns ts cur)
                    (MBPSnapshot.set_timestamp_ns ts cur) true
                    (incr64 (SnapshotManager.snapshots_generated_ m))
                    (SnapshotManager.snapshots_skipped_ m)) (S g) k)
        as (I1 & I2 & I3); [simpl; rewrite Hg, incr64_wrap; f_equal; lia | done |].
      rewrite I1, I2, !count_bool_cons. simpl. split_and!; f_equal; lia.
Qed.

(** X14. The two counters of the manager: [snapshots_generated_] counts the
    invocations of [should_generate_snapshot] that returned true and
    [snapshots_skipped_] those that returned false, modulo [2^64], so that
    together they count the invocations; the first invocation always
    returns true. *)
Theorem manager_counters (calls : list (OrderBook.t * Z)) :
  let m := manager_after SnapshotManager.init calls in
  let ds := decisions SnapshotManager.init calls in
  SnapshotManager.snapshots_generated_ m = wrap64 (Z.of_nat (count_bool true ds)) ∧
  SnapshotManager.snapshots_skipped_ m = wrap64 (Z.of_nat (count_bool false ds)) ∧
  (Z.of_nat (length calls) < 2 ^ 64 →
     SnapshotManager.snapshots_generated_ m + SnapshotManager.snapshots_skipped_ m =
       Z.of_nat (length calls)) ∧
  (calls ≠ [] → 1 <= Z.of_nat (count_bool true ds)).
Proof.
  intros m ds.
  destruct (manager_counters_gen calls SnapshotManager.init 0 0 eq_refl eq_refl)
    as (H1 & H2 & H3).
  fold m in H1, H2. fold ds in H1, H2, H3. simpl in H1, H2.
  split; [done|]. split; [done|]. split.
  - intros Hlen.
    assert (Hsum : (count_bool true ds + count_bool false ds = length ds)%nat).
    { unfold count_bool. clear. induction ds as [|[] ds IH]; simpl; [done|..];
        rewrite !filter_cons; simpl; lia. }
    rewrite H1, H2, !wrap64_small by (unfold is_u64; lia). lia.
  - intros Hne. destruct calls as [|[book ts] calls]; [done|].
    unfold ds. cbn [decisions].
    destruct (should_generate_step book ts SnapshotManager.init None) as [Hd _]; [done|].
    destruct (SnapshotManager.should_generate_snapshot book ts SnapshotManager.init)
      as [[d m'] b'].
    simpl in Hd. subst d. rewrite count_bool_cons. simpl. lia.
Qed.

Lemma should_generate_current book ts m :
  let r := SnapshotManager.should_generate_snapshot book ts m in
  arrays (SnapshotManager.current_snapshot_ r.1.2) = top10_of book ∧
  MBPSnapshot.timestamp_ns (SnapshotManager.current_snapshot_ r.1.2) = ts.
Proof.
  intros r. unfold r, SnapshotManager.should_generate_snapshot.
  pose proof (get_top10_arrays (SnapshotManager.current_snapshot_ m) book) as Ha.
  destruct (OrderBook.get_top10_snapshot _ book) as [cur book'].
  simpl in Ha. by destruct (_ && _).
Qed.

Lemma emitted_snapshots_gen calls : ∀ m previous,
  holds_previous m previous →
  let es := emitted_snapshots m calls in
  (∀ s, head es = Some s → previous ≠ Some (arrays s)) ∧
  (∀ (i : nat) a b, es !! i = Some a → es !! S i = Some b → arrays a ≠ arrays b) ∧
  length es = count_bool true (decisions m calls) ∧
  (∀ s, s ∈ es → ∃ book ts,
     (book, ts) ∈ calls ∧ arrays s = top10_of book ∧ MBPSnapshot.timestamp_ns s = ts).
Proof.
  induction calls as [|[book ts] calls IH]; intros m previous Hm; simpl.
  - split_and!; try done. intros s Hs. by apply elem_of_nil in Hs.
  - destruct (should_generate_step book ts m previous Hm) as [Hd Hm'].
    destruct (should_generate_current book ts m) as [Hc Ht].
    destruct (SnapshotManager.should_generate_snapshot book ts m) as [[d m'] b'].
    cbn [fst snd] in *. cbv zeta in Hd, Hm'.
    set (emit := match previous with
                 | Some p => negb (bool_decide (top10_of book = p))
                 | None => true
                 end) in *.
    destruct (IH m' (if emit then Some (top10_of book) else previous) Hm')
      as (I1 & I2 & I3 & I4).
    unfold count_bool in *. rewrite filter_cons. subst d.
    destruct emit eqn:He.
    + rewrite decide_True by done. split_and!.
      * intros s Hs. injection Hs as <-. rewrite Hc. unfold emit in He.
        destruct previous as [p|]; [|done].
        apply negb_true_iff, bool_decide_eq_false in He. congruence.
      * intros [|i] a b Ha Hb; simpl in Ha, Hb.
        -- injection Ha as <-. rewrite Hc. intros Heq.
           apply (I1 b); [by destruct (emitted_snapshots m' calls)|]. by rewrite Heq.
        -- by eapply I2.
      * simpl. by rewrite I3.
      * intros s Hs. apply elem_of_cons in Hs as [->|Hs].
        -- exists book, ts. split; [left|done].
        -- destruct (I4 s Hs) as (bk & t & Hin & ?). exists bk, t. split; [by right|done].
    + rewrite decide_False by done. split_and!; try done.
      intros s Hs. destruct (I4 s Hs) as (bk & t & Hin & ?).
      exists bk, t. split; [by right|done].
Qed.

Lemma emitted_snapshots_calls calls : ∀ m,
  Forall2 (λ s c, arrays s = top10_of c.1 ∧ MBPSnapshot.timestamp_ns s = c.2)
    (emitted_snapshots m calls)
    ((filter (λ x : OrderBook.t * Z * bool, x.2 = true)
        (zip calls (decisions m calls))).*1).
Proof.
  induction calls as [|[book ts] calls IH]; intros m; simpl; [constructor|].
  destruct (should_generate_current book ts m) as [Hc Ht].
  destruct (SnapshotManager.should_generate_snapshot book ts m) as [[d m'] b'].
  cbn [fst snd] in *. cbn [zip zip_with]. rewrite filter_cons.
  destruct d.
  - rewrite decide_True by done. cbn [fmap list_fmap]. constructor; [done|apply IH].
  - rewrite decide_False by done. apply IH.
Qed.

(** X15. No two snapshots generated one after the other show the same top
    ten levels; there are as many of them as true decisions; and they
    are, one for one and in order, those of the invocations that returned
    true: each is the top ten of the book of its own invocation, stamped
    with the timestamp of that invocation. *)
Theorem emitted_snapshots_differ (calls : list (OrderBook.t * Z)) :
  let es := emitted_snapshots SnapshotManager.init calls in
  let generating :=
    (filter (λ x : OrderBook.t * Z * bool, x.2 = true)
       (zip calls (decisions SnapshotManager.init calls))).*1 in
  (∀ (i : nat) a b, es !! i = Some a → es !! S i = Some b → arrays a ≠ arrays b) ∧
  length es = count_bool true (decisions SnapshotManager.init calls) ∧
  Forall2 (λ s c, arrays s = top10_of c.1 ∧ MBPSnapshot.timestamp_ns s = c.2)
    es generating.
Proof.
  intros es generating.
  destruct (emitted_snapshots_gen calls SnapshotManager.init None) as (_ & H1 & H2 & _);
    [done|].
  split; [exact H1|]. split; [exact H2|]. apply emitted_snapshots_calls.
Qed.

(** ** The processor *)

Lemma format_snapshot_not_empty s : MBPFormatter.format_snapshot s ≠ [].
Proof.
  unfold MBPFormatter.format_snapshot. intros H.
  apply app_eq_nil in H as [_ H]. apply app_eq_nil in H as [_ H].
  by apply app_eq_nil in H as [_ H].
Qed.

Lemma top10_of_cached snap b :
  top10_of (OrderBook.get_top10_snapshot snap b).2 = top10_of b.
Proof.
  unfold top10_of, OrderBook.get_top10_snapshot, arrays.
  destruct (OrderBook.cache_valid_ b) eqn:Hv; simpl; by rewrite ?Hv.
Qed.

Lemma should_generate_book book ts m :
  (SnapshotManager.should_generate_snapshot book ts m).2 =
  (OrderBook.get_top10_snapshot (SnapshotManager.current_snapshot_ m) book).2.
Proof.
  unfold SnapshotManager.should_generate_snapshot.
  destruct (OrderBook.get_top10_snapshot _ book) as [cur book'].
  by destruct (_ && _).
Qed.

Lemma process_event_unfold book ts p :
  let g := SnapshotManager.should_generate_snapshot book ts (SnapshotProcessor.manager_ p) in
  SnapshotProcessor.process_event book ts p =
    (if g.1.1 then MBPFormatter.format_snapshot (SnapshotManager.current_snapshot_ g.1.2)
     else [],
     SnapshotProcessor.mk g.1.2 (incr64 (SnapshotProcessor.total_events_processed_ p))
       (if g.1.1 then incr64 (SnapshotProcessor.snapshots_written_ p)
        else SnapshotProcessor.snapshots_written_ p),
     g.2).
Proof.
  intros g. unfold g, SnapshotProcessor.process_event.
  by destruct (SnapshotManager.should_generate_snapshot _ _ _) as [[[] m] b].
Qed.

Lemma batch_quiet timestamps : ∀ out p book,
  holds_previous (SnapshotProcessor.manager_ p) (Some (top10_of book)) →
  (foldl (λ acc timestamp,
            let '(output, p, book) := acc in
            let '(snapshot, p, book) :=
              SnapshotProcessor.process_event book timestamp p in
            (if bool_decide (snapshot = []) then output else output ++ [snapshot],
             p, book))
         (out, p, book) timestamps).1.1 = out.
Proof.
  induction timestamps as [|ts timestamps IH]; intros out p book Hp; [done|].
  simpl. rewrite process_event_unfold.
  destruct (should_generate_step book ts _ _ Hp) as [Hd Hm']. cbv zeta in Hd, Hm'.
  rewrite bool_decide_eq_true_2 in Hd, Hm' by done. simpl in Hd, Hm'.
  pose proof (should_generate_book book ts (SnapshotProcessor.manager_ p)) as Hb.
  destruct (SnapshotManager.should_generate_snapshot book ts _) as [[d m'] b'].
  cbn [fst snd] in *. subst d b'. rewrite bool_decide_eq_true_2 by done.
  apply IH. rewrite top10_of_cached. done.
Qed.

(** X16. [process_events_batch] reads one book at every timestamp, so that it
    outputs at most one line: the snapshot of the book at the first
    timestamp when the manager has no previous snapshot, and nothing when
    the previous snapshot shows the book as it is, or when there is no
    timestamp. *)
Theorem batch_at_most_one book timestamps p :
  let out := (SnapshotProcessor.process_events_batch book timestamps p).1.1 in
  (length out ≤ 1)%nat ∧
  (SnapshotManager.has_previous_ (SnapshotProcessor.manager_ p) = false →
     ∀ t0 rest, timestamps = t0 :: rest →
       out = [MBPFormatter.format_snapshot
                (MBPSnapshot.set_timestamp_ns t0
                   (OrderBook.get_top10_snapshot
                      (SnapshotManager.current_snapshot_ (SnapshotProcessor.manager_ p))
                      book).1)]) ∧
  (SnapshotManager.has_previous_ (SnapshotProcessor.manager_ p) = true →
     arrays (SnapshotManager.previous_snapshot_ (SnapshotProcessor.manager_ p)) =
       top10_of book →
     out = []) ∧
  (timestamps = [] → out = []).
Proof.
  intros out. unfold out, SnapshotProcessor.process_events_batch.
  assert (Hfirst : ∀ t0 rest previous,
    holds_previous (SnapshotProcessor.manager_ p) previous →
    let g := SnapshotManager.should_generate_snapshot book t0
               (SnapshotProcessor.manager_ p) in
    (foldl (λ acc timestamp,
              let '(output, p, book) := acc in
              let '(snapshot, p, book) :=
                SnapshotProcessor.process_event book timestamp p in
              (if bool_decide (snapshot = []) then output else output ++ [snapshot],
               p, book))
           ([], p, book) (t0 :: rest)).1.1 =
    if g.1.1 then [MBPFormatter.format_snapshot (SnapshotManager.current_snapshot_ g.1.2)]
    else []).
  { intros t0 rest previous Hp g. simpl. rewrite process_event_unfold. fold g.
    destruct (should_generate_step book t0 _ _ Hp) as [Hd Hm']. cbv zeta in Hd, Hm'.
    fold g in Hd, Hm'.
    pose proof (should_generate_book book t0 (SnapshotProcessor.manager_ p)) as Hb.
    fold g in Hb.
    rewrite batch_quiet.
    - destruct (g.1.1); [|done].
      by rewrite bool_decide_eq_false_2 by apply format_snapshot_not_empty.
    - rewrite Hb, top10_of_cached. cbn [SnapshotProcessor.manager_].
      destruct previous as [prev|]; simpl in Hd, Hm'.
      + destruct (bool_decide (top10_of book = prev)) eqn:He; simpl in *; [|done].
        apply bool_decide_eq_true in He. by rewrite He.
      + done. }
  split_and!.
  - destruct timestamps as [|t0 rest]; [simpl; lia|].
    destruct (SnapshotManager.has_previous_ (SnapshotProcessor.manager_ p)) eqn:Hh.
    + rewrite (Hfirst t0 rest
                 (Some (arrays (SnapshotManager.previous_snapshot_
                                  (SnapshotProcessor.manager_ p))))) by done.
      destruct ((SnapshotManager.should_generate_snapshot book t0 _).1.1); simpl; lia.
    + rewrite (Hfirst t0 rest None) by done. destruct ((SnapshotManager.should_generate_snapshot book t0 _).1.1); simpl; lia.
  - intros Hh t0 rest ->. rewrite (Hfirst t0 rest None) by done.
    destruct (should_generate_step book t0 (SnapshotProcessor.manager_ p) None Hh)
      as [Hd _]. cbv zeta in Hd. rewrite Hd. do 2 f_equal.
    unfold SnapshotManager.should_generate_snapshot.
    destruct (OrderBook.get_top10_snapshot _ book) as [cur book'].
    rewrite Hh. done.
  - intros Hh Ha. destruct timestamps as [|t0 rest]; [done|].
    rewrite (Hfirst t0 rest (Some (top10_of book))) by done.
    destruct (should_generate_step book t0 (SnapshotProcessor.manager_ p)
                (Some (top10_of book))) as [Hd _]; [done|].
    cbv zeta in Hd. rewrite Hd. by rewrite bool_decide_eq_true_2.
  - by intros ->.
Qed.

(** * Text: numbers in decimal *)

Lemma digit_cases d : 0 <= d < 10 →
  d = 0 ∨ d = 1 ∨ d = 2 ∨ d = 3 ∨ d = 4 ∨ d = 5 ∨ d = 6 ∨ d = 7 ∨ d = 8 ∨ d = 9.
Proof. lia. Qed.

Lemma digit_char_digit d : 0 <= d < 10 →
  is_digit (digit_char d) = true ∧ digit_of (digit_char d) = d.
Proof.
  intros Hd. destruct (digit_cases d Hd) as [->|[->|[->|[->|[->|[->|[->|[->|[->| ->]]]]]]]]];
    by vm_compute.
Qed.

Lemma is_digit_range c : is_digit c = true → 0 <= digit_of c < 10.
Proof.
  unfold is_digit, digit_of. intros H. apply andb_true_iff in H as [H1 H2].
  apply Z.leb_le in H1, H2. lia.
Qed.

Lemma is_digit_not c c' : is_digit c = true → is_digit c' = false → c ≠ c'.
Proof. intros H1 H2 ->. congruence. Qed.

Lemma decimal_app fuel : ∀ n acc, decimal fuel n acc = decimal fuel n [] ++ acc.
Proof.
  induction fuel as [|fuel IH]; intros n acc; simpl; [done|].
  destruct (n <? 10); [done|].
  rewrite (IH _ (_ :: acc)), (IH _ [_]). by rewrite <- app_assoc.
Qed.

Lemma decimal_digits fuel : ∀ n, 0 <= n →
  Forall (λ c, is_digit c = true) (decimal fuel n []).
Proof.
  induction fuel as [|fuel IH]; intros n Hn; simpl; [constructor|].
  destruct (n <? 10) eqn:Hlt.
  - apply Z.ltb_lt in Hlt. constructor; [|constructor].
    apply digit_char_digit. lia.
  - rewrite decimal_app. apply Forall_app. split.
    + apply IH. apply Z.div_pos; lia.
    + constructor; [|constructor]. apply digit_char_digit.
      apply Z.mod_pos_bound. lia.
Qed.

Lemma decimal_value_app l1 l2 :
  decimal_value (l1 ++ l2) =
  foldl (λ acc c, acc * 10 + digit_of c) (decimal_value l1) l2.
Proof. unfold decimal_value. by rewrite foldl_app. Qed.

Lemma decimal_value_decimal fuel : ∀ n, 0 <= n < 10 ^ Z.of_nat fuel →
  decimal_value (decimal fuel n []) = n.
Proof.
  induction fuel as [|fuel IH]; intros n Hn.
  - simpl in *. unfold decimal_value. simpl. lia.
  - simpl. destruct (n <? 10) eqn:Hlt.
    + apply Z.ltb_lt in Hlt. unfold decimal_value. simpl.
      destruct (digit_char_digit n) as [_ ->]; lia.
    + apply Z.ltb_ge in Hlt. rewrite decimal_app, decimal_value_app. simpl.
      rewrite IH.
      * destruct (digit_char_digit (n mod 10)) as [_ ->].
        { apply Z.mod_pos_bound. lia. }
        pose proof (Z.div_mod n 10). lia.
      * rewrite Nat2Z.inj_succ, Z.pow_succ_r in Hn by lia.
        split; [apply Z.div_pos; lia|]. apply Z.div_lt_upper_bound; lia.
Qed.

Lemma decimal_not_empty fuel n : decimal (S fuel) n [] ≠ [].
Proof.
  simpl. destruct (n <? 10); [done|]. rewrite decimal_app.
  intros H. by apply app_eq_nil in H as [_ H].
Qed.

(** The unsigned values of the code print as their digits. *)
Lemma to_string_nonneg n : 0 <= n → to_string n = decimal 20 n [].
Proof. intros Hn. unfold to_string. by rewrite (proj2 (Z.ltb_ge n 0)). Qed.

Lemma to_string_digits n : 0 <= n → Forall (λ c, is_digit c = true) (to_string n).
Proof. intros Hn. rewrite to_string_nonneg by done. by apply decimal_digits. Qed.

Lemma to_string_value n : 0 <= n < 2 ^ 64 → decimal_value (to_string n) = n.
Proof.
  intros Hn. rewrite to_string_nonneg by lia. apply decimal_value_decimal.
  change (10 ^ Z.of_nat 20) with 100000000000000000000. lia.
Qed.

Lemma to_string_not_empty n : to_string n ≠ [].
Proof.
  unfold to_string. destruct (n <? 0); [done|]. apply decimal_not_empty.
Qed.

(** ** Reading digits *)

Lemma foldl_digits_mod m l : ∀ a a', 0 < m → a mod m = a' mod m →
  foldl (λ acc c, acc * 10 + digit_of c) a l mod m =
  foldl (λ acc c, acc * 10 + digit_of c) a' l mod m.
Proof.
  induction l as [|c l IH]; intros a a' Hm Ha; simpl; [done|].
  apply IH; [done|].
  rewrite (Z.add_mod (a * 10)), (Z.add_mod (a' * 10)) by lia.
  rewrite (Z.mul_mod a), (Z.mul_mod a') by lia. by rewrite Ha.
Qed.

Lemma digits_loop_spec m l : ∀ a rest,
  0 < m →
  Forall (λ c, is_digit c = true) l →
  (∀ c rest', rest = c :: rest' → is_digit c = false) →
  FastCSVParser.digits_loop (λ z, z mod m) a (l ++ rest) =
    (match l with
     | [] => a
     | _ => foldl (λ acc c, acc * 10 + digit_of c) a l mod m
     end, rest).
Proof.
  induction l as [|c l IH]; intros a rest Hm Hl Hrest.
  - simpl. destruct rest as [|c rest']; [done|]. simpl.
    by rewrite (Hrest c rest' eq_refl).
  - apply Forall_cons in Hl as [Hc Hl]. simpl. rewrite Hc.
    rewrite IH by done. f_equal. destruct l as [|c' l]; [done|].
    apply foldl_digits_mod; [done|]. by rewrite Z.mod_mod by lia.
Qed.

Lemma no_digit_ahead_spec rest :
  no_digit_ahead rest → ∀ c rest', rest = c :: rest' → is_digit c = false.
Proof. by intros H c rest' ->. Qed.

Lemma parse_uint64_digits l rest skipped :
  Forall (λ c, is_digit c = true) l → no_digit_ahead rest →
  FastCSVParser.parse_uint64 (FastCSVParser.mk (l ++ rest) skipped) =
    inr (decimal_value l mod 2 ^ 64, FastCSVParser.mk rest skipped).
Proof.
  intros Hl Hrest. unfold FastCSVParser.parse_uint64. simpl.
  change wrap64 with (λ z, z mod 2 ^ 64).
  rewrite digits_loop_spec by (done || lia || by apply no_digit_ahead_spec).
  unfold FastCSVParser.set_current, decimal_value. simpl.
  by destruct l.
Qed.

Lemma parse_uint32_digits l rest skipped :
  Forall (λ c, is_digit c = true) l → no_digit_ahead rest →
  FastCSVParser.parse_uint32 (FastCSVParser.mk (l ++ rest) skipped) =
    inr (decimal_value l mod 2 ^ 32, FastCSVParser.mk rest skipped).
Proof.
  intros Hl Hrest. unfold FastCSVParser.parse_uint32. simpl.
  change wrap32 with (λ z, z mod 2 ^ 32).
  rewrite digits_loop_spec by (done || lia || by apply no_digit_ahead_spec).
  unfold FastCSVParser.set_current, decimal_value. simpl.
  by destruct l.
Qed.

(** X17. A run of digits is read by [parse_uint64] and [parse_uint32] as the
    number it denotes reduced modulo [2^64] and [2^32]; the reader stops
    at the first character that is not a digit, and nothing signals a
    number that does not fit. *)
Theorem parse_uint_wraps l rest skipped :
  Forall (λ c, is_digit c = true) l → no_digit_ahead rest →
  FastCSVParser.parse_uint64 (FastCSVParser.mk (l ++ rest) skipped) =
    inr (decimal_value l mod 2 ^ 64, FastCSVParser.mk rest skipped) ∧
  FastCSVParser.parse_uint32 (FastCSVParser.mk (l ++ rest) skipped) =
    inr (decimal_value l mod 2 ^ 32, FastCSVParser.mk rest skipped).
Proof.
  intros Hl Hrest. split; [by apply parse_uint64_digits | by apply parse_uint32_digits].
Qed.

Lemma parse_uint_wraps_witness :
  FastCSVParser.parse_uint32
    (FastCSVParser.mk (["4"; "2"; "9"; "4"; "9"; "6"; "7"; "2"; "9"; "7"; ","]%char) true) =
  inr (1, FastCSVParser.mk [","%char] true).
Proof.
  assert (Hl : Forall (λ c, is_digit c = true)
                 ["4"; "2"; "9"; "4"; "9"; "6"; "7"; "2"; "9"; "7"]%char)
    by (repeat constructor).
  assert (Hr : no_digit_ahead [","%char]) by reflexivity.
  destruct (parse_uint_wraps _ _ true Hl Hr) as [_ H].
  exact H.
Defined.

(** X18. What [std::to_string] writes, the two readers read back: any 64-bit
    value through [parse_uint64], any 32-bit value through [parse_uint32],
    when the text is not followed by a digit. *)
Theorem parse_uint_to_string n rest skipped :
  is_u64 n → no_digit_ahead rest →
  FastCSVParser.parse_uint64 (FastCSVParser.mk (to_string n ++ rest) skipped) =
    inr (n, FastCSVParser.mk rest skipped) ∧
  (is_u32 n →
   FastCSVParser.parse_uint32 (FastCSVParser.mk (to_string n ++ rest) skipped) =
     inr (n, FastCSVParser.mk rest skipped)).
Proof.
  intros Hn Hrest. unfold is_u64 in Hn. split.
  - rewrite parse_uint64_digits by (done || apply to_string_digits; lia).
    rewrite to_string_value by lia. by rewrite Z.mod_small by lia.
  - intros Hn'. unfold is_u32 in Hn'.
    rewrite parse_uint32_digits by (done || apply to_string_digits; lia).
    rewrite to_string_value by lia. by rewrite Z.mod_small by lia.
Qed.

Lemma parse_uint_to_string_witness :
  FastCSVParser.parse_uint64
    (FastCSVParser.mk (to_string 18446744073709551615 ++ [","%char]) true) =
  inr (18446744073709551615, FastCSVParser.mk [","%char] true).
Proof.
  assert (Hn : is_u64 18446744073709551615) by (unfold is_u64; lia).
  assert (Hr : no_digit_ahead [","%char]) by reflexivity.
  by destruct (parse_uint_to_string _ _ true Hn Hr) as [H _].
Defined.

(** ** Prices *)

Lemma foldl_digits_ge l : ∀ a, 0 <= a →
  Forall (λ c, is_digit c = true) l →
  a <= foldl (λ acc c, acc * 10 + digit_of c) a l.
Proof.
  induction l as [|c l IH]; intros a Ha Hl; simpl; [lia|].
  apply Forall_cons in Hl as [Hc Hl]. apply is_digit_range in Hc.
  etransitivity; [|apply IH; [lia | done]]. lia.
Qed.

Lemma price_digits_spec l : ∀ a rest,
  0 <= a →
  Forall (λ c, is_digit c = true) l →
  no_digit_ahead rest →
  foldl (λ acc c, acc * 10 + digit_of c) a l < 2 ^ 63 →
  FastCSVParser.price_digits a (l ++ rest) =
    inr (foldl (λ acc c, acc * 10 + digit_of c) a l, rest).
Proof.
  induction l as [|c l IH]; intros a rest Ha Hl Hrest Hfit.
  - simpl. destruct rest as [|c rest']; [done|]. simpl in *. by rewrite Hrest.
  - apply Forall_cons in Hl as [Hc Hl]. simpl in *. rewrite Hc.
    pose proof (is_digit_range c Hc) as Hd.
    pose proof (foldl_digits_ge l (a * 10 + digit_of c)) as Hge.
    rewrite (proj2 (Z.ltb_lt _ _)) by (specialize (Hge ltac:(lia) Hl); lia).
    apply IH; (done || lia).
Qed.

Lemma digit_not_minus c : is_digit c = true → Ascii.eqb c "-" = false.
Proof. intros H. apply Ascii.eqb_neq. intros ->. by vm_compute in H. Qed.

Lemma digit_not_dot c : is_digit c = true → Ascii.eqb c "." = false.
Proof. intros H. apply Ascii.eqb_neq. intros ->. by vm_compute in H. Qed.

Ltac parser_simpl :=
  unfold mbind, mret, FastCSVParser.M_bind, FastCSVParser.M_ret,
    FastCSVParser.read_char, FastCSVParser.advance_char, FastCSVParser.get,
    FastCSVParser.set_current, FastCSVParser.expect_char,
    FastCSVParser.skip_to_next_line, FastCSVParser.set_first_line_skipped;
  cbn [FastCSVParser.current_ FastCSVParser.first_line_skipped_].

Lemma int64_fits z st :
  - 2 ^ 63 <= z < 2 ^ 63 → FastCSVParser.int64 z st = inr (z, st).
Proof. intros H. unfold FastCSVParser.int64. by rewrite bool_decide_eq_true_2. Qed.

Lemma fraction_read_range l : 0 <= (fraction_read l).1 < 100.
Proof.
  unfold fraction_read. destruct l as [|d1 l1]; simpl; [lia|].
  destruct (is_digit d1) eqn:H1; simpl; [|lia].
  pose proof (is_digit_range d1 H1).
  destruct l1 as [|d2 l2]; simpl; [lia|].
  destruct (is_digit d2) eqn:H2; simpl; [|lia].
  pose proof (is_digit_range d2 H2). lia.
Qed.

Lemma fraction_digits_spec r l f :
  0 <= r → r + (fraction_read l).1 < 2 ^ 63 →
  match FastCSVParser.fraction_digit 10 r (FastCSVParser.mk l f) with
  | inl e => inl e
  | inr (a, st) => FastCSVParser.fraction_digit 1 a st
  end = inr (r + (fraction_read l).1, FastCSVParser.mk (fraction_read l).2 f).
Proof.
  intros Hr Hfit. unfold FastCSVParser.fraction_digit. unfold fraction_read in *.
  parser_simpl.
  destruct l as [|d1 l1]; simpl in *; [by rewrite Z.add_0_r|].
  destruct (is_digit d1) eqn:H1; simpl in *; [|by rewrite H1, Z.add_0_r].
  pose proof (is_digit_range d1 H1) as Hd1.
  destruct l1 as [|d2 l2]; simpl in *; [by rewrite int64_fits by lia|].
  destruct (is_digit d2) eqn:H2; simpl in *.
  - pose proof (is_digit_range d2 H2) as Hd2.
    rewrite int64_fits by lia. simpl. rewrite H2.
    rewrite int64_fits by lia. simpl. do 2 f_equal. lia.
  - rewrite int64_fits by lia. simpl. by rewrite H2.
Qed.

Lemma parse_price_text (negative : bool) ds rest f :
  ds ≠ [] → Forall (λ c, is_digit c = true) ds →
  let sign (z : Z) := if negative then - z else z in
  let text := (if negative then ["-"%char] else []) ++ ds in
  (no_number_ahead rest → decimal_value ds * 100 < 2 ^ 63 →
   FastCSVParser.parse_price (FastCSVParser.mk (text ++ rest) f) =
     inr (sign (decimal_value ds * 100), FastCSVParser.mk rest f)) ∧
  (decimal_value ds * 100 + (fraction_read rest).1 < 2 ^ 63 →
   FastCSVParser.parse_price (FastCSVParser.mk (text ++ "."%char :: rest) f) =
     inr (sign (decimal_value ds * 100 + (fraction_read rest).1),
          FastCSVParser.mk (fraction_read rest).2 f)).
Proof.
  intros Hne Hds sign text.
  assert (Hv : 0 <= decimal_value ds).
  { unfold decimal_value. by apply (foldl_digits_ge ds 0). }
  assert (Hstart : ∀ tl,
    FastCSVParser.parse_price (FastCSVParser.mk (text ++ tl) f) =
    match FastCSVParser.price_digits 0 (ds ++ tl) with
    | inl e => inl e
    | inr (a0, l) =>
        match
          match l with
          | [] => FastCSVParser.int64 (a0 * 100)
          | c0 :: _ =>
              if Ascii.eqb c0 "."
              then λ st,
                match FastCSVParser.int64 (a0 * 100)
                        (FastCSVParser.mk (tail l) (FastCSVParser.first_line_skipped_ st))
                with
                | inl e => inl e
                | inr (a3, st'3) =>
                    match FastCSVParser.fraction_digit 10 a3 st'3 with
                    | inl e => inl e
                    | inr (a4, st'4) => FastCSVParser.fraction_digit 1 a4 st'4
                    end
                end
              else FastCSVParser.int64 (a0 * 100)
          end (FastCSVParser.mk l f)
        with
        | inl e => inl e
        | inr (a2, st'2) => inr (sign a2, st'2)
        end
    end).
  { intros tl. unfold FastCSVParser.parse_price, text, sign. parser_simpl.
    destruct negative; simpl.
    - destruct (FastCSVParser.price_digits 0 (ds ++ tl)) as [e|[a0 l]]; [done|].
      simpl. destruct l as [|c0 l]; [done|]. by destruct (Ascii.eqb c0 ".").
    - destruct ds as [|c ds']; [done|]. simpl.
      apply Forall_cons in Hds as [Hc _]. rewrite (digit_not_minus c Hc). simpl.
      destruct (if is_digit c then _ else _) as [e|[a0 l]]; [done|].
      simpl. destruct l as [|c0 l]; [done|]. by destruct (Ascii.eqb c0 "."). }
  split.
  - intros Hrest Hfit. rewrite Hstart.
    rewrite price_digits_spec; try done; try lia.
    + fold (decimal_value ds).
      destruct rest as [|c0 rest']; simpl.
      * by rewrite int64_fits by lia.
      * destruct Hrest as [_ Hdot]. apply Ascii.eqb_neq in Hdot. rewrite Hdot.
        by rewrite int64_fits by lia.
    + destruct rest as [|c0 rest']; [done|]. by destruct Hrest.
    + fold (decimal_value ds). lia.
  - intros Hfit. pose proof (fraction_read_range rest) as Hfr.
    rewrite Hstart. rewrite price_digits_spec; try done; try lia.
    + fold (decimal_value ds). simpl. rewrite int64_fits by lia.
      rewrite fraction_digits_spec by lia. done.
    + fold (decimal_value ds). lia.
Qed.

Lemma decimal_length fuel : ∀ n, (length (decimal fuel n []) ≤ fuel)%nat.
Proof.
  induction fuel as [|fuel IH]; intros n; simpl; [lia|].
  destruct (n <? 10); simpl; [lia|].
  rewrite decimal_app, length_app. simpl. specialize (IH (n / 10)). lia.
Qed.

Lemma to_string_length n : (length (to_string n) ≤ 21)%nat.
Proof.
  unfold to_string. destruct (n <? 0); cbn [length].
  - pose proof (decimal_length 20 (- n)). lia.
  - pose proof (decimal_length 20 n). lia.
Qed.

Lemma decimal_S fuel n acc :
  decimal (S fuel) n acc =
  if n <? 10 then digit_char n :: acc
  else decimal fuel (n / 10) (digit_char (n mod 10) :: acc).
Proof. reflexivity. Qed.

Lemma decimal_two n : 0 <= n < 100 →
  decimal 20 n [] =
  if n <? 10 then [digit_char n] else [digit_char (n / 10); digit_char (n mod 10)].
Proof.
  intros Hn. rewrite (decimal_S 19). destruct (n <? 10) eqn:Hlt; [done|].
  apply Z.ltb_ge in Hlt. rewrite (decimal_S 18).
  assert (n / 10 < 10) by (apply Z.div_lt_upper_bound; lia).
  by rewrite (proj2 (Z.ltb_lt (n / 10) 10)).
Qed.

Lemma pad2_two frac : 0 <= frac < 100 →
  MBPFormatter.pad2 frac = [digit_char (frac / 10); digit_char (frac mod 10)].
Proof.
  intros Hf. unfold MBPFormatter.pad2.
  rewrite (proj2 (Z.ltb_ge frac 0)) by lia.
  rewrite to_string_nonneg, decimal_two by lia.
  destruct (frac <? 10) eqn:Hlt; [|done].
  apply Z.ltb_lt in Hlt. by rewrite Z.div_small, Z.mod_small by lia.
Qed.

Lemma pad2_negative frac : -100 < frac < 0 →
  MBPFormatter.pad2 frac = "-"%char :: decimal 20 (- frac) [].
Proof.
  intros Hf. unfold MBPFormatter.pad2, to_string.
  by rewrite (proj2 (Z.ltb_lt frac 0)) by lia.
Qed.

Lemma pad2_length frac : -100 < frac < 100 → (length (MBPFormatter.pad2 frac) ≤ 3)%nat.
Proof.
  intros Hf. destruct (decide (0 <= frac)).
  - rewrite pad2_two by lia. cbn [length]. lia.
  - rewrite pad2_negative, decimal_two by lia.
    destruct (- frac <? 10); cbn [length]; lia.
Qed.

(** The buffer of 32 characters is never too short. *)
Lemma price_to_string_untruncated p :
  MBPFormatter.price_to_string p =
  if Z.rem p 100 =? 0 then to_string (Z.quot p 100)
  else to_string (Z.quot p 100) ++ "."%char :: MBPFormatter.pad2 (Z.rem p 100).
Proof.
  unfold MBPFormatter.price_to_string. destruct (Z.rem p 100 =? 0); [done|].
  apply take_ge. rewrite length_app. simpl.
  pose proof (to_string_length (Z.quot p 100)).
  pose proof (pad2_length (Z.rem p 100)) as Hp.
  pose proof (Z.rem_bound_abs p 100). 
  assert (-100 < Z.rem p 100 < 100) by lia. specialize (Hp ltac:(done)). lia.
Qed.

Lemma quot_rem_facts p :
  p = 100 * Z.quot p 100 + Z.rem p 100 ∧
  (0 <= p → 0 <= Z.quot p 100 ∧ 0 <= Z.rem p 100 < 100) ∧
  (p <= 0 → Z.quot p 100 <= 0 ∧ -100 < Z.rem p 100 <= 0).
Proof.
  split; [apply Z.quot_rem'|]. split; intros Hp.
  - split; [apply Z.quot_pos; lia | apply Z.rem_bound_pos; lia].
  - split.
    + rewrite <- (Z.opp_involutive p), Z.quot_opp_l by lia.
      pose proof (Z.quot_pos (- p) 100). lia.
    + pose proof (Z.rem_nonpos p 100). pose proof (Z.rem_bound_abs p 100). lia.
Qed.

Lemma fraction_read_two d1 d2 c rest :
  0 <= d1 < 10 → 0 <= d2 < 10 →
  fraction_read (digit_char d1 :: digit_char d2 :: c :: rest) = (d1 * 10 + d2, c :: rest).
Proof.
  intros H1 H2. unfold fraction_read.
  destruct (digit_char_digit d1 H1) as [-> ->].
  by destruct (digit_char_digit d2 H2) as [-> ->].
Qed.

Lemma price_read_back p rest skipped :
  is_i64 p → 0 <= p ∨ Z.rem p 100 = 0 →
  FastCSVParser.parse_price
    (FastCSVParser.mk (MBPFormatter.price_to_string p ++ ","%char :: rest) skipped) =
  inr (p, FastCSVParser.mk (","%char :: rest) skipped).
Proof.
  intros Hp Hcase. unfold is_i64 in Hp.
  destruct (quot_rem_facts p) as (Hqr & Hpos & Hneg).
  set (whole := Z.quot p 100) in *. set (frac := Z.rem p 100) in *.
  assert (Hcomma : no_number_ahead (","%char :: rest)) by (by split).
  rewrite price_to_string_untruncated. fold whole frac.
  destruct (decide (0 <= p)) as [H0|H0].
  - destruct (Hpos H0) as [Hw Hf].
    assert (Hds : Forall (λ c, is_digit c = true) (to_string whole))
      by (by apply to_string_digits).
    assert (Hval : decimal_value (to_string whole) = whole)
      by (apply to_string_value; lia).
    destruct (parse_price_text false (to_string whole) (","%char :: rest) skipped
                (to_string_not_empty whole) Hds) as [P1 _].
    destruct (frac =? 0) eqn:Hz.
    + apply Z.eqb_eq in Hz. cbn [app] in P1. rewrite P1, Hval; [|done|lia].
      do 2 f_equal. lia.
    + apply Z.eqb_neq in Hz. rewrite pad2_two by lia.
      destruct (parse_price_text false (to_string whole)
                  (digit_char (frac / 10) :: digit_char (frac mod 10)
                     :: ","%char :: rest) skipped
                  (to_string_not_empty whole) Hds) as [_ P2].
      assert (Hd1 : 0 <= frac / 10 < 10).
      { split; [apply Z.div_pos; lia | apply Z.div_lt_upper_bound; lia]. }
      assert (Hd2 : 0 <= frac mod 10 < 10) by (apply Z.mod_pos_bound; lia).
      rewrite fraction_read_two in P2 by done. cbn [fst snd app] in P2.
      pose proof (Z.div_mod frac 10).
      rewrite <- app_assoc. cbn [app].
      rewrite P2, Hval by (rewrite Hval; lia). do 2 f_equal. lia.
  - destruct Hcase as [?|Hz]; [lia|]. destruct (Hneg ltac:(lia)) as [Hw Hf].
    fold frac in Hz. rewrite Hz. cbn [Z.eqb].
    assert (Hwn : whole < 0) by lia.
    unfold to_string. rewrite (proj2 (Z.ltb_lt whole 0)) by done.
    assert (Hds : Forall (λ c, is_digit c = true) (decimal 20 (- whole) []))
      by (apply decimal_digits; lia).
    assert (Hval : decimal_value (decimal 20 (- whole) []) = - whole).
    { apply decimal_value_decimal.
      change (10 ^ Z.of_nat 20) with 100000000000000000000. lia. }
    destruct (parse_price_text true (decimal 20 (- whole) []) (","%char :: rest) skipped
                (decimal_not_empty 19 (- whole)) Hds) as [P1 _].
    cbn [app] in P1. cbn [app]. rewrite P1, Hval; [|done|lia].
    do 2 f_equal. lia.
Qed.

(** X19. What [price_to_string] writes, [parse_price] reads back when the
    price is not negative or is a whole number.  A negative price with
    cents is written with a second minus sign after the point, and is
    read back as the whole part alone, the reader stopping at that sign. *)
Theorem price_round_trip p rest skipped :
  is_i64 p →
  let st := FastCSVParser.mk (MBPFormatter.price_to_string p ++ ","%char :: rest) skipped in
  (0 <= p ∨ Z.rem p 100 = 0 →
     FastCSVParser.parse_price st =
       inr (p, FastCSVParser.mk (","%char :: rest) skipped)) ∧
  (p < 0 → Z.rem p 100 ≠ 0 →
     ∃ cents,
       MBPFormatter.price_to_string p =
         to_string (Z.quot p 100) ++ "."%char :: "-"%char :: cents ∧
       FastCSVParser.parse_price st =
         inr (100 * Z.quot p 100,
              FastCSVParser.mk ("-"%char :: cents ++ ","%char :: rest) skipped)).
Proof.
  intros Hp st. unfold st. split; [intros Hcase; by apply price_read_back|].
  unfold is_i64 in Hp.
  destruct (quot_rem_facts p) as (Hqr & Hpos & Hneg).
  set (whole := Z.quot p 100) in *. set (frac := Z.rem p 100) in *.
  assert (Hcomma : no_number_ahead (","%char :: rest)) by (by split).
  rewrite price_to_string_untruncated. fold whole frac.
  intros H0 Hz. destruct (Hneg ltac:(lia)) as [Hw Hf]. fold frac in Hz.
  rewrite (proj2 (Z.eqb_neq frac 0)) by done.
  rewrite pad2_negative by lia.
  exists (decimal 20 (- frac) []). split; [done|].
  assert (Hfr : ∀ tl, fraction_read ("-"%char :: tl) = (0, "-"%char :: tl)) by done.
  destruct (decide (whole = 0)) as [Hw0|Hw0].
  - rewrite Hw0.
    destruct (parse_price_text false (to_string 0)
                ("-"%char :: decimal 20 (- frac) [] ++ ","%char :: rest) skipped)
      as [_ P2]; [done | repeat constructor |].
    rewrite Hfr in P2. cbn [fst snd app] in P2.
    rewrite <- app_assoc. cbn [app]. rewrite P2; [done|]. by vm_compute.
  - assert (Hwn : whole < 0) by lia.
    unfold to_string at 1. rewrite (proj2 (Z.ltb_lt whole 0)) by done.
    assert (Hds : Forall (λ c, is_digit c = true) (decimal 20 (- whole) []))
      by (apply decimal_digits; lia).
    assert (Hval : decimal_value (decimal 20 (- whole) []) = - whole).
    { apply decimal_value_decimal.
      change (10 ^ Z.of_nat 20) with 100000000000000000000. lia. }
    destruct (parse_price_text true (decimal 20 (- whole) [])
                ("-"%char :: decimal 20 (- frac) [] ++ ","%char :: rest) skipped
                (decimal_not_empty 19 (- whole)) Hds) as [_ P2].
    rewrite Hfr in P2. cbn [fst snd app] in P2.
    cbn [app]. rewrite <- app_assoc. cbn [app].
    rewrite P2, Hval by (rewrite Hval; lia). do 2 f_equal. lia.
Qed.

Lemma price_round_trip_witness :
  FastCSVParser.parse_price
    (FastCSVParser.mk (MBPFormatter.price_to_string 10050 ++ [","%char]) true) =
  inr (10050, FastCSVParser.mk [","%char] true).
Proof.
  assert (Hi : is_i64 10050) by (unfold is_i64; lia).
  destruct (price_round_trip 10050 [] true Hi) as [H _].
  apply H. left. lia.
Defined.

(** ** The shape of a line *)

Lemma digit_plain c : is_digit c = true → plain c.
Proof. intros H. split; intros ->; by vm_compute in H. Qed.

Lemma to_string_plain n : Forall plain (to_string n).
Proof.
  unfold to_string. destruct (n <? 0) eqn:Hn.
  - apply Z.ltb_lt in Hn. constructor; [by split|].
    eapply Forall_impl; [apply decimal_digits; lia | apply digit_plain].
  - apply Z.ltb_ge in Hn.
    eapply Forall_impl; [by apply decimal_digits | apply digit_plain].
Qed.

Lemma price_to_string_plain p : Forall plain (MBPFormatter.price_to_string p).
Proof.
  unfold MBPFormatter.price_to_string. destruct (_ =? 0); [apply to_string_plain|].
  apply Forall_take, Forall_app. split; [apply to_string_plain|].
  constructor; [by split|]. unfold MBPFormatter.pad2.
  destruct (_ <? 0); [apply to_string_plain|].
  destruct (_ <? 10); [|apply to_string_plain].
  constructor; [by split | apply to_string_plain].
Qed.

Lemma occurrences_app c l1 l2 :
  occurrences c (l1 ++ l2) = (occurrences c l1 + occurrences c l2)%nat.
Proof. unfold occurrences. by rewrite filter_app, length_app. Qed.

Lemma occurrences_cons c x l :
  occurrences c (x :: l) = ((if decide (x = c) then 1 else 0) + occurrences c l)%nat.
Proof. unfold occurrences. rewrite filter_cons. by destruct (decide _). Qed.

Lemma occurrences_plain c l :
  (c = ","%char ∨ c = "010"%char) → Forall plain l → occurrences c l = 0%nat.
Proof.
  intros Hc Hl. unfold occurrences. rewrite filter_none; [done|].
  intros x Hx ->. rewrite Forall_forall in Hl. destruct (Hl _ Hx) as [H1 H2].
  by destruct Hc.
Qed.

Lemma occurrences_bind c (f : nat → list ascii) (k : nat) l :
  (∀ i, occurrences c (f i) = k) → occurrences c (l ≫= f) = (length l * k)%nat.
Proof.
  intros Hf. induction l as [|i l IH]; [done|].
  cbn [mbind list_bind]. change (list_bind _ _ f l) with (l ≫= f).
  rewrite occurrences_app, Hf, IH. simpl. lia.
Qed.

Lemma format_level_commas px sz i :
  occurrences "," (MBPFormatter.format_level px sz i) = 2%nat ∧
  occurrences "010" (MBPFormatter.format_level px sz i) = 0%nat.
Proof.
  unfold MBPFormatter.format_level.
  assert (H1 : Forall plain (if MBPFormatter.at_index px i =? 0 then []
                             else MBPFormatter.price_to_string (MBPFormatter.at_index px i)))
    by (destruct (MBPFormatter.at_index px i =? 0);
        [constructor | apply price_to_string_plain]).
  assert (H2 : Forall plain (if MBPFormatter.at_index sz i =? 0 then []
                             else to_string (MBPFormatter.at_index sz i)))
    by (destruct (MBPFormatter.at_index sz i =? 0);
        [constructor | apply to_string_plain]).
  split.
  - rewrite occurrences_cons, occurrences_app, occurrences_cons.
    rewrite !occurrences_plain by (done || by left). by rewrite !decide_True.
  - rewrite occurrences_cons, occurrences_app, occurrences_cons.
    rewrite !occurrences_plain by (done || by right). by rewrite !decide_False.
Qed.

Lemma format_snapshot_newline s :
  occurrences "010" (MBPFormatter.format_snapshot s) = 1%nat.
Proof.
  unfold MBPFormatter.format_snapshot. rewrite !occurrences_app.
  rewrite (occurrences_bind _ _ 0) by (intros; apply format_level_commas).
  rewrite (occurrences_bind _ _ 0) by (intros; apply format_level_commas).
  rewrite occurrences_plain by (by right || apply to_string_plain). done.
Qed.

Lemma header_newline : occurrences "010" CSVHeader.generate_mbp_header = 1%nat.
Proof. by vm_compute. Qed.

(** X20. A line of output has forty commas and ends with its only newline,
    like the header: forty-one columns, whatever the snapshot holds.  A
    snapshot with no level is its timestamp followed by forty empty
    fields. *)
Theorem format_snapshot_shape (s : MBPSnapshot.t) :
  occurrences "," (MBPFormatter.format_snapshot s) = 40%nat ∧
  occurrences "010" (MBPFormatter.format_snapshot s) = 1%nat ∧
  last (MBPFormatter.format_snapshot s) = Some "010"%char ∧
  occurrences "," CSVHeader.generate_mbp_header = 40%nat ∧
  occurrences "010" CSVHeader.generate_mbp_header = 1%nat ∧
  last CSVHeader.generate_mbp_header = Some "010"%char ∧
  MBPFormatter.format_snapshot
    (MBPSnapshot.set_timestamp_ns (MBPSnapshot.timestamp_ns s) MBPSnapshot.init) =
    to_string (MBPSnapshot.timestamp_ns s) ++ replicate 40 ","%char ++ ["010"%char].
Proof.
  split_and!; try unfold MBPFormatter.format_snapshot at 1.
  - rewrite !occurrences_app.
    rewrite (occurrences_bind _ _ 2) by (intros; apply format_level_commas).
    rewrite (occurrences_bind _ _ 2) by (intros; apply format_level_commas).
    rewrite occurrences_plain by (by left || apply to_string_plain). done.
  - apply format_snapshot_newline.
  - by rewrite !app_assoc, last_snoc.
  - by vm_compute.
  - apply header_newline.
  - by vm_compute.
  - done.
Qed.

(** * The CSV parser *)

(** What follows the price: the size, the order id, and the rest of the
    line.  [pre] is the comma the price stopped at, or nothing when the
    price stopped at a digit. *)
Lemma parse_tail pre U V W event ts a s p skipped :
  (pre = [","%char] ∨ (pre = [] ∧ U ≠ [])) →
  Forall (λ c, is_digit c = true) U →
  Forall (λ c, is_digit c = true) V →
  no_digit_ahead W →
  (_ ← FastCSVParser.expect_char ",";
   size ← FastCSVParser.parse_uint32;
   _ ← FastCSVParser.expect_char ",";
   order_id ← FastCSVParser.parse_uint64;
   _ ← FastCSVParser.skip_to_next_line;
   mret (true, Event.mk ts order_id p size (Event.sequence event) a s))
    (FastCSVParser.mk (pre ++ U ++ ","%char :: V ++ W) skipped) =
  inr ((true,
        Event.mk ts (decimal_value V mod 2 ^ 64) p (decimal_value U mod 2 ^ 32)
          (Event.sequence event) a s),
       FastCSVParser.mk (FastCSVParser.after_newline W) skipped).
Proof.
  intros Hpre HU HV HW.
  assert (H1 : FastCSVParser.expect_char ","
                 (FastCSVParser.mk (pre ++ U ++ ","%char :: V ++ W) skipped) =
               inr (tt, FastCSVParser.mk (U ++ ","%char :: V ++ W) skipped)).
  { destruct Hpre as [->|[-> HU0]]; [done|].
    destruct U as [|c U']; [done|]. apply Forall_cons in HU as [Hc _].
    unfold FastCSVParser.expect_char. simpl.
    assert (Hne : Ascii.eqb c "," = false).
    { apply Ascii.eqb_neq. intros ->. by vm_compute in Hc. }
    by rewrite Hne. }
  unfold mbind at 1. unfold FastCSVParser.M_bind at 1. rewrite H1.
  unfold mbind at 1. unfold FastCSVParser.M_bind at 1.
  rewrite parse_uint32_digits by done.
  unfold mbind at 1. unfold FastCSVParser.M_bind at 1.
  unfold FastCSVParser.expect_char at 1. simpl FastCSVParser.current_.
  cbn [Ascii.eqb Bool.eqb]. unfold FastCSVParser.set_current at 1.
  cbn [FastCSVParser.first_line_skipped_].
  unfold mbind at 1. unfold FastCSVParser.M_bind at 1.
  rewrite parse_uint64_digits by done.
  done.
Qed.

(** The timestamp, the action and the side, up to the price. *)
Lemma parse_front tsd a s P event :
  Forall (λ c, is_digit c = true) tsd →
  FastCSVParser.parse_next_event event
    (FastCSVParser.mk (tsd ++ ","%char :: a :: ","%char :: s :: ","%char :: P) true) =
  (price_raw ← FastCSVParser.parse_price;
   _ ← FastCSVParser.expect_char ",";
   size ← FastCSVParser.parse_uint32;
   _ ← FastCSVParser.expect_char ",";
   order_id ← FastCSVParser.parse_uint64;
   _ ← FastCSVParser.skip_to_next_line;
   mret (true,
         Event.mk (decimal_value tsd mod 2 ^ 64) order_id price_raw size
           (Event.sequence event) a s))
    (FastCSVParser.mk P true).
Proof.
  intros Hts. unfold FastCSVParser.parse_next_event.
  unfold mbind at 1. unfold FastCSVParser.M_bind at 1.
  unfold FastCSVParser.get at 1.
  unfold FastCSVParser.at_end. cbn [FastCSVParser.current_ FastCSVParser.first_line_skipped_].
  rewrite bool_decide_eq_false_2.
  2: { intros H. apply app_eq_nil in H as [_ H]. discriminate H. }
  unfold mbind at 1. unfold FastCSVParser.M_bind at 1.
  unfold mret at 1. unfold FastCSVParser.M_ret at 1. cbn [negb].
  unfold mbind at 1. unfold FastCSVParser.M_bind at 1.
  rewrite parse_uint64_digits by (done || reflexivity).
  unfold mbind at 1. unfold FastCSVParser.M_bind at 1.
  unfold FastCSVParser.expect_char at 1. cbn [FastCSVParser.current_ Ascii.eqb Bool.eqb].
  unfold FastCSVParser.set_current at 1. cbn [FastCSVParser.first_line_skipped_].
  unfold mbind at 1. unfold FastCSVParser.M_bind at 1.
  unfold FastCSVParser.read_char at 1. cbn [FastCSVParser.current_].
  unfold mbind at 1. unfold FastCSVParser.M_bind at 1.
  unfold FastCSVParser.advance_char at 1. cbn [FastCSVParser.current_].
  unfold FastCSVParser.set_current at 1. cbn [FastCSVParser.first_line_skipped_].
  unfold mbind at 1. unfold FastCSVParser.M_bind at 1.
  unfold FastCSVParser.expect_char at 1. cbn [FastCSVParser.current_ Ascii.eqb Bool.eqb].
  unfold FastCSVParser.set_current at 1. cbn [FastCSVParser.first_line_skipped_].
  unfold mbind at 1. unfold FastCSVParser.M_bind at 1.
  unfold FastCSVParser.read_char at 1. cbn [FastCSVParser.current_].
  unfold mbind at 1. unfold FastCSVParser.M_bind at 1.
  unfold FastCSVParser.advance_char at 1. cbn [FastCSVParser.current_].
  unfold FastCSVParser.set_current at 1. cbn [FastCSVParser.first_line_skipped_].
  unfold mbind at 1. unfold FastCSVParser.M_bind at 1.
  unfold FastCSVParser.expect_char at 1. cbn [FastCSVParser.current_ Ascii.eqb Bool.eqb].
  unfold FastCSVParser.set_current at 1. cbn [FastCSVParser.first_line_skipped_].
  reflexivity.
Qed.

Lemma after_newline_app tail rest :
  "010"%char ∉ tail →
  FastCSVParser.after_newline (tail ++ "010"%char :: rest) = rest.
Proof.
  induction tail as [|c tail IH]; intros Hn; [done|].
  simpl. apply not_elem_of_cons in Hn as [Hc Hn].
  assert (He : Ascii.eqb c "010" = false) by (apply Ascii.eqb_neq; congruence).
  rewrite He. by apply IH.
Qed.

Lemma skip_header header l event :
  "010"%char ∉ header → l ≠ [] →
  FastCSVParser.parse_next_event event
    (FastCSVParser.mk (header ++ "010"%char :: l) false) =
  FastCSVParser.parse_next_event event (FastCSVParser.mk l true).
Proof.
  intros Hh Hl. unfold FastCSVParser.parse_next_event.
  unfold mbind at 1. unfold FastCSVParser.M_bind at 1.
  unfold FastCSVParser.get at 1.
  unfold FastCSVParser.at_end at 1.
  cbn [FastCSVParser.current_ FastCSVParser.first_line_skipped_].
  rewrite bool_decide_eq_false_2.
  2: { intros H. apply app_eq_nil in H as [_ H]. discriminate H. }
  unfold mbind at 1. unfold FastCSVParser.M_bind at 1.
  unfold mbind at 1. unfold FastCSVParser.M_bind at 1.
  unfold FastCSVParser.skip_to_next_line at 1. cbn [FastCSVParser.current_].
  rewrite after_newline_app by done.
  unfold FastCSVParser.set_current at 1. cbn [FastCSVParser.first_line_skipped_].
  unfold mbind at 1. unfold FastCSVParser.M_bind at 1.
  unfold FastCSVParser.set_first_line_skipped at 1. cbn [FastCSVParser.current_].
  unfold mbind at 1. unfold FastCSVParser.M_bind at 1.
  unfold FastCSVParser.get at 1.
  unfold mret at 1. unfold FastCSVParser.M_ret at 1.
  unfold FastCSVParser.at_end at 1. cbn [FastCSVParser.current_].
  rewrite bool_decide_eq_false_2 by done. cbn [negb].
  symmetry.
  unfold mbind at 1. unfold FastCSVParser.M_bind at 1.
  unfold FastCSVParser.get at 1.
  unfold FastCSVParser.at_end at 1.
  cbn [FastCSVParser.current_ FastCSVParser.first_line_skipped_].
  rewrite bool_decide_eq_false_2 by done.
  unfold mbind at 1. unfold FastCSVParser.M_bind at 1.
  unfold mret at 1. unfold FastCSVParser.M_ret at 1. cbn [negb].
  reflexivity.
Qed.

(** X21. A line [ts,action,side,price,size,order_id], followed by anything
    that does not start with a digit up to the end of the line, is read
    into the event field by field, [sequence] being left as it was, and
    the parser is left at the start of the next line; on the first call
    the header line is skipped first. *)
Theorem parse_next_event_line ts a s p sz oid tail rest event :
  is_u64 ts → is_i64 p → 0 <= p ∨ Z.rem p 100 = 0 → is_u32 sz → is_u64 oid →
  no_digit_ahead (tail ++ ["010"%char]) → "010"%char ∉ tail →
  let line :=
    to_string ts ++ ","%char :: a :: ","%char :: s :: ","%char ::
    MBPFormatter.price_to_string p ++ ","%char :: to_string sz ++ ","%char ::
    to_string oid ++ tail ++ "010"%char :: rest in
  let parsed :=
    inr ((true, Event.mk ts oid p sz (Event.sequence event) a s),
         FastCSVParser.mk rest true) in
  FastCSVParser.parse_next_event event (FastCSVParser.mk line true) = parsed ∧
  ∀ header, "010"%char ∉ header →
    FastCSVParser.parse_next_event event
      (FastCSVParser.make (header ++ "010"%char :: line)) = parsed.
Proof.
  intros Hts Hp Hcase Hsz Hoid Htail Hnl line parsed.
  assert (Hline : FastCSVParser.parse_next_event event (FastCSVParser.mk line true)
                  = parsed).
  { unfold line.
    rewrite parse_front by (apply to_string_digits; unfold is_u64 in Hts; lia).
    unfold mbind at 1. unfold FastCSVParser.M_bind at 1.
    rewrite (price_read_back p
               (to_string sz ++ ","%char :: to_string oid ++ tail ++ "010"%char :: rest)
               true Hp Hcase).
    change (","%char :: to_string sz ++ ","%char :: to_string oid ++ tail
              ++ "010"%char :: rest)
      with ([","%char] ++ to_string sz ++ ","%char :: to_string oid ++
              (tail ++ "010"%char :: rest)).
    rewrite parse_tail.
    - unfold parsed. rewrite after_newline_app by done.
      rewrite !to_string_value by (unfold is_u64, is_u32 in *; lia).
      rewrite !Z.mod_small by (unfold is_u64, is_u32 in *; lia). done.
    - by left.
    - apply to_string_digits. unfold is_u32 in Hsz. lia.
    - apply to_string_digits. unfold is_u64 in Hoid. lia.
    - destruct tail as [|c tail']; [done|]. exact Htail. }
  split; [done|]. intros header Hh. unfold FastCSVParser.make.
  rewrite skip_header; [done..|].
  unfold line. intros H. apply app_eq_nil in H as [_ H]. discriminate H.
Qed.

Lemma parse_next_event_line_witness :
  FastCSVParser.parse_next_event (Event.make 0 "N" "N" 0 0 0)
    (FastCSVParser.mk
       (to_string 1000 ++ ","%char :: "A"%char :: ","%char :: "B"%char :: ","%char ::
        MBPFormatter.price_to_string 10050 ++ ","%char :: to_string 200 ++ ","%char ::
        to_string 1001 ++ [","; "1"; "3"; "0"]%char ++ "010"%char :: []) true) =
  inr ((true, Event.mk 1000 1001 10050 200 0 "A" "B"), FastCSVParser.mk [] true).
Proof.
  assert (H1 : is_u64 1000) by (unfold is_u64; lia).
  assert (H2 : is_i64 10050) by (unfold is_i64; lia).
  assert (H3 : 0 <= 10050 ∨ Z.rem 10050 100 = 0) by (left; lia).
  assert (H4 : is_u32 200) by (unfold is_u32; lia).
  assert (H5 : is_u64 1001) by (unfold is_u64; lia).
  assert (H6 : no_digit_ahead ([","; "1"; "3"; "0"]%char ++ ["010"%char])) by reflexivity.
  assert (H7 : "010"%char ∉ [","; "1"; "3"; "0"]%char).
  { intros H. repeat (apply elem_of_cons in H as [H|H]; [discriminate H|]).
    by apply elem_of_nil in H. }
  by destruct (parse_next_event_line 1000 "A" "B" 10050 200 1001 _ []
                 (Event.make 0 "N" "N" 0 0 0) H1 H2 H3 H4 H5 H6 H7) as [H _].
Defined.

(** X22. A price written with more than two decimals shifts the fields that
    follow: [parse_price] stops after the second decimal, the digits left
    over are read as the size, and the size column is read as the order
    id. *)
Theorem parse_price_third_decimal tsd a s ds d1 d2 X szd after event :
  Forall (λ c, is_digit c = true) tsd →
  ds ≠ [] → Forall (λ c, is_digit c = true) ds →
  is_digit d1 = true → is_digit d2 = true →
  X ≠ [] → Forall (λ c, is_digit c = true) X →
  Forall (λ c, is_digit c = true) szd →
  decimal_value ds * 100 + 99 < 2 ^ 63 →
  FastCSVParser.parse_next_event event
    (FastCSVParser.mk
       (tsd ++ ","%char :: a :: ","%char :: s :: ","%char ::
        ds ++ "."%char :: d1 :: d2 :: X ++ ","%char :: szd ++ ","%char :: after) true) =
  inr ((true,
        Event.mk (decimal_value tsd mod 2 ^ 64) (decimal_value szd mod 2 ^ 64)
          (decimal_value ds * 100 + digit_of d1 * 10 + digit_of d2)
          (decimal_value X mod 2 ^ 32) (Event.sequence event) a s),
       FastCSVParser.mk (FastCSVParser.after_newline after) true).
Proof.
  intros Hts Hne Hds H1 H2 HXne HX Hsz Hfit.
  rewrite parse_front by done.
  assert (Hfr : fraction_read (d1 :: d2 :: X ++ ","%char :: szd ++ ","%char :: after) =
                (digit_of d1 * 10 + digit_of d2, X ++ ","%char :: szd ++ ","%char :: after)).
  { unfold fraction_read. by rewrite H1, H2. }
  destruct (parse_price_text false ds
              (d1 :: d2 :: X ++ ","%char :: szd ++ ","%char :: after) true Hne Hds)
    as [_ P2].
  rewrite Hfr in P2. cbn [fst snd app] in P2.
  pose proof (is_digit_range d1 H1). pose proof (is_digit_range d2 H2).
  unfold mbind at 1. unfold FastCSVParser.M_bind at 1.
  rewrite P2 by lia.
  change (X ++ ","%char :: szd ++ ","%char :: after)
    with ([] ++ X ++ ","%char :: szd ++ (","%char :: after)).
  rewrite parse_tail; try done.
  - by rewrite Z.add_assoc.
  - by right.
Qed.

Lemma parse_price_third_decimal_witness :
  FastCSVParser.parse_next_event (Event.make 0 "N" "N" 0 0 0)
    (FastCSVParser.mk
       (["1"; ","; "A"; ","; "B"; ","; "5"; "."; "1"; "2"; "3"; ",";
         "2"; "0"; "0"; ","; "7"; "7"; "010"]%char) true) =
  inr ((true, Event.mk 1 200 512 3 0 "A" "B"), FastCSVParser.mk [] true).
Proof.
  apply (parse_price_third_decimal ["1"]%char "A" "B" ["5"]%char "1" "2" ["3"]%char
           ["2"; "0"; "0"]%char ["7"; "7"; "010"]%char (Event.make 0 "N" "N" 0 0 0));
    try done; try (repeat constructor).
Defined.

(** ** The end of the input, and progress *)

Ltac fw :=
  simplify_eq; simpl;
  repeat match goal with
         | H : FastCSVParser.current_ _ = _ |- _ => rewrite !H
         end;
  simpl; split; [lia | done].

Lemma forward_ret {A} (a : A) : forward (mret a : FastCSVParser.M A).
Proof. intros st a' st' H. injection H as <- <-. fw. Qed.

Lemma forward_bind {A B} (m : FastCSVParser.M A) (f : A → FastCSVParser.M B) :
  forward m → (∀ a, forward (f a)) → forward (m ≫= f).
Proof.
  intros Hm Hf st b st' H. unfold mbind, FastCSVParser.M_bind in H.
  destruct (m st) as [e|[a st1]] eqn:H1; [done|].
  destruct (Hm _ _ _ H1) as [L1 F1]. destruct (Hf a _ _ _ H) as [L2 F2].
  split; [lia | congruence].
Qed.

Lemma digits_loop_length wrap l : ∀ a,
  (length (FastCSVParser.digits_loop wrap a l).2 ≤ length l)%nat.
Proof.
  induction l as [|c l IH]; intros a; simpl; [done|].
  destruct (is_digit c); simpl; [|done]. specialize (IH (wrap (a * 10 + digit_of c))). lia.
Qed.

Lemma forward_parse_uint64 : forward FastCSVParser.parse_uint64.
Proof.
  intros st a st' H. unfold FastCSVParser.parse_uint64 in H.
  pose proof (digits_loop_length wrap64 (FastCSVParser.current_ st) 0) as Hl.
  destruct (FastCSVParser.digits_loop _ _ _) as [r l]. simplify_eq. by split.
Qed.

Lemma forward_parse_uint32 : forward FastCSVParser.parse_uint32.
Proof.
  intros st a st' H. unfold FastCSVParser.parse_uint32 in H.
  pose proof (digits_loop_length wrap32 (FastCSVParser.current_ st) 0) as Hl.
  destruct (FastCSVParser.digits_loop _ _ _) as [r l]. simplify_eq. by split.
Qed.

Lemma forward_expect_char c : forward (FastCSVParser.expect_char c).
Proof.
  intros st a st' H. unfold FastCSVParser.expect_char in H.
  destruct (FastCSVParser.current_ st) as [|x l] eqn:Hc.
  { fw. }
  destruct (Ascii.eqb x c); simplify_eq.
  - fw.
  - fw.
Qed.

Lemma forward_advance_char : forward FastCSVParser.advance_char.
Proof.
  intros st a st' H. unfold FastCSVParser.advance_char in H.
  destruct (FastCSVParser.current_ st) as [|x l] eqn:Hc; simplify_eq.
  - fw.
  - fw.
Qed.

Lemma forward_read_char : forward FastCSVParser.read_char.
Proof.
  intros st a st' H. unfold FastCSVParser.read_char in H.
  destruct (FastCSVParser.current_ st) as [|x l] eqn:Hc; [done|].
  fw.
Qed.

Lemma forward_get : forward FastCSVParser.get.
Proof. intros st a st' H. unfold FastCSVParser.get in H. fw. Qed.

Lemma forward_int64 z : forward (FastCSVParser.int64 z).
Proof.
  intros st a st' H. unfold FastCSVParser.int64 in H.
  case_bool_decide; [|done]. fw.
Qed.

Lemma after_newline_length l : (length (FastCSVParser.after_newline l) ≤ length l)%nat.
Proof.
  induction l as [|c l IH]; simpl; [done|]. destruct (Ascii.eqb c "010"); simpl; lia.
Qed.

Lemma forward_skip_to_next_line : forward FastCSVParser.skip_to_next_line.
Proof.
  intros st a st' H. unfold FastCSVParser.skip_to_next_line in H.
  simplify_eq. simpl. split; [apply after_newline_length | done].
Qed.

Lemma price_digits_length l : ∀ a r l',
  FastCSVParser.price_digits a l = inr (r, l') → (length l' ≤ length l)%nat.
Proof.
  induction l as [|c l IH]; intros a r l' H; simpl in H.
  - by injection H as <- <-.
  - destruct (is_digit c).
    + destruct (_ <? _); [|done]. apply IH in H. simpl. lia.
    + by injection H as <- <-.
Qed.

Lemma forward_fraction_digit w r : forward (FastCSVParser.fraction_digit w r).
Proof.
  intros st a st' H. unfold FastCSVParser.fraction_digit in H.
  destruct (FastCSVParser.current_ st) as [|c l] eqn:Hc.
  { fw. }
  destruct (is_digit c); [|fw].
  unfold mbind, mret, FastCSVParser.M_bind, FastCSVParser.M_ret, FastCSVParser.int64 in H.
  case_bool_decide; [|done]. fw.
Qed.

Lemma forward_parse_price : forward FastCSVParser.parse_price.
Proof.
  unfold FastCSVParser.parse_price.
  apply forward_bind; [apply forward_read_char|]. intros c.
  apply forward_bind.
  { destruct (Ascii.eqb c "-"); [|apply forward_ret].
    apply forward_bind; [apply forward_advance_char | intros; apply forward_ret]. }
  intros negative. apply forward_bind.
  { intros st a st' H.
    destruct (FastCSVParser.price_digits 0 (FastCSVParser.current_ st)) as [e|[r l]] eqn:Hp;
      [done|].
    simplify_eq. apply price_digits_length in Hp. by split. }
  intros result. apply forward_bind; [apply forward_get|]. intros st.
  apply forward_bind; [|intros; apply forward_ret].
  destruct (FastCSVParser.current_ st) as [|c0 l]; [apply forward_int64|].
  destruct (Ascii.eqb c0 "."); [|apply forward_int64].
  apply forward_bind; [apply forward_advance_char|]. intros _.
  apply forward_bind; [apply forward_int64|]. intros r1.
  apply forward_bind; [apply forward_fraction_digit|]. intros r2.
  apply forward_fraction_digit.
Qed.

Ltac bind_inv H a st1 E :=
  unfold mbind at 1 in H; unfold FastCSVParser.M_bind at 1 in H;
  match type of H with
  | match ?m ?st with _ => _ end = _ =>
      destruct (m st) as [?|[a st1]] eqn:E; [discriminate H|]
  end.

Lemma read_char_inv st c st' :
  FastCSVParser.read_char st = inr (c, st') →
  st' = st ∧ ∃ l, FastCSVParser.current_ st = c :: l.
Proof.
  unfold FastCSVParser.read_char. destruct (FastCSVParser.current_ st) as [|x l]; [done|].
  intros H. simplify_eq. eauto.
Qed.

Lemma advance_char_strict st c l u st' :
  FastCSVParser.current_ st = c :: l →
  FastCSVParser.advance_char st = inr (u, st') →
  (length (FastCSVParser.current_ st') < length (FastCSVParser.current_ st))%nat ∧
  FastCSVParser.first_line_skipped_ st' = FastCSVParser.first_line_skipped_ st.
Proof.
  intros Hc H. unfold FastCSVParser.advance_char in H. rewrite Hc in H.
  simplify_eq. simpl. rewrite Hc. simpl. split; [lia|done].
Qed.

Lemma parse_fields_progress event st r st' :
  (timestamp_ns ← FastCSVParser.parse_uint64;
   _ ← FastCSVParser.expect_char ",";
   action ← FastCSVParser.read_char;
   _ ← FastCSVParser.advance_char;
   _ ← FastCSVParser.expect_char ",";
   side ← FastCSVParser.read_char;
   _ ← FastCSVParser.advance_char;
   _ ← FastCSVParser.expect_char ",";
   price_raw ← FastCSVParser.parse_price;
   _ ← FastCSVParser.expect_char ",";
   size ← FastCSVParser.parse_uint32;
   _ ← FastCSVParser.expect_char ",";
   order_id ← FastCSVParser.parse_uint64;
   _ ← FastCSVParser.skip_to_next_line;
   mret (true,
         Event.mk timestamp_ns order_id price_raw size (Event.sequence event)
           action side)) st = inr (r, st') →
  r.1 = true ∧ Event.sequence r.2 = Event.sequence event ∧
  (length (FastCSVParser.current_ st') < length (FastCSVParser.current_ st))%nat ∧
  FastCSVParser.first_line_skipped_ st' = FastCSVParser.first_line_skipped_ st.
Proof.
  intros H.
  bind_inv H a1 s1 E1. destruct (forward_parse_uint64 _ _ _ E1) as [L1 F1].
  bind_inv H a2 s2 E2. destruct (forward_expect_char _ _ _ _ E2) as [L2 F2].
  bind_inv H a3 s3 E3. destruct (read_char_inv _ _ _ E3) as [-> [l3 Hc3]].
  bind_inv H a4 s4 E4. destruct (advance_char_strict _ _ _ _ _ Hc3 E4) as [L4 F4].
  bind_inv H a5 s5 E5. destruct (forward_expect_char _ _ _ _ E5) as [L5 F5].
  bind_inv H a6 s6 E6. destruct (forward_read_char _ _ _ E6) as [L6 F6].
  bind_inv H a7 s7 E7. destruct (forward_advance_char _ _ _ E7) as [L7 F7].
  bind_inv H a8 s8 E8. destruct (forward_expect_char _ _ _ _ E8) as [L8 F8].
  bind_inv H a9 s9 E9. destruct (forward_parse_price _ _ _ E9) as [L9 F9].
  bind_inv H a10 s10 E10. destruct (forward_expect_char _ _ _ _ E10) as [L10 F10].
  bind_inv H a11 s11 E11. destruct (forward_parse_uint32 _ _ _ E11) as [L11 F11].
  bind_inv H a12 s12 E12. destruct (forward_expect_char _ _ _ _ E12) as [L12 F12].
  bind_inv H a13 s13 E13. destruct (forward_parse_uint64 _ _ _ E13) as [L13 F13].
  bind_inv H a14 s14 E14. destruct (forward_skip_to_next_line _ _ _ E14) as [L14 F14].
  unfold mret, FastCSVParser.M_ret in H. simplify_eq. simpl.
  split; [done|]. split; [done|]. split; [lia|congruence].
Qed.

Lemma parse_next_event_inv event st (b : bool) event' st' :
  FastCSVParser.parse_next_event event st = inr ((b, event'), st') →
  if b
  then (length (FastCSVParser.current_ st') < length (FastCSVParser.current_ st))%nat ∧
       FastCSVParser.first_line_skipped_ st' = true ∧
       Event.sequence event' = Event.sequence event
  else event' = event ∧ FastCSVParser.current_ st' = [].
Proof.
  intros H. unfold FastCSVParser.parse_next_event in H.
  unfold mbind at 1 in H. unfold FastCSVParser.M_bind at 1 in H.
  unfold FastCSVParser.get at 1 in H.
  unfold FastCSVParser.at_end at 1 in H.
  case_bool_decide as Hc.
  { unfold mret, FastCSVParser.M_ret in H. by simplify_eq. }
  bind_inv H more s1 E1.
  assert (Hs1 : (length (FastCSVParser.current_ s1) ≤ length (FastCSVParser.current_ st))%nat
                ∧ FastCSVParser.first_line_skipped_ s1 = true
                ∧ more = negb (FastCSVParser.at_end s1)).
  { destruct (FastCSVParser.first_line_skipped_ st) eqn:Hf.
    - unfold mret, FastCSVParser.M_ret in E1. simplify_eq.
      split; [lia|]. split; [done|].
      unfold FastCSVParser.at_end. by rewrite bool_decide_eq_false_2.
    - unfold mbind, mret, FastCSVParser.M_bind, FastCSVParser.M_ret,
        FastCSVParser.skip_to_next_line, FastCSVParser.set_first_line_skipped,
        FastCSVParser.get, FastCSVParser.set_current in E1.
      simpl in E1. simplify_eq. simpl.
      split; [apply after_newline_length|]. done. }
  destruct Hs1 as (L1 & F1 & ->).
  unfold FastCSVParser.at_end in H.
  case_bool_decide as Hc1; cbn [negb] in H.
  { unfold mret, FastCSVParser.M_ret in H. by simplify_eq. }
  destruct (parse_fields_progress event s1 (b, event') st' H) as (Hb & Hseq & L2 & F2).
  simpl in Hb, Hseq. subst b. split; [lia|]. split; [congruence|done].
Qed.

(** X23. [parse_next_event] at the end of the input.  It returns false, with
    the event as it was, when nothing is left, and on the first call when
    the input has no second line; it returns false in no other case, the
    input being exhausted each time.  When it returns true it has consumed
    at least one character, has the header flag set and has left
    [sequence] alone. *)
Theorem parse_next_event_progress event st :
  (FastCSVParser.current_ st = [] →
     FastCSVParser.parse_next_event event st = inr ((false, event), st)) ∧
  (FastCSVParser.first_line_skipped_ st = false →
   FastCSVParser.current_ st ≠ [] →
   FastCSVParser.after_newline (FastCSVParser.current_ st) = [] →
     FastCSVParser.parse_next_event event st =
       inr ((false, event), FastCSVParser.mk [] true)) ∧
  (∀ (b : bool) event' st',
     FastCSVParser.parse_next_event event st = inr ((b, event'), st') →
     if b
     then (length (FastCSVParser.current_ st') < length (FastCSVParser.current_ st))%nat ∧
          FastCSVParser.first_line_skipped_ st' = true ∧
          Event.sequence event' = Event.sequence event
     else event' = event ∧ FastCSVParser.current_ st' = []).
Proof.
  split_and!.
  - intros Hc. unfold FastCSVParser.parse_next_event.
    unfold mbind at 1. unfold FastCSVParser.M_bind at 1. unfold FastCSVParser.get at 1.
    unfold FastCSVParser.at_end. by rewrite bool_decide_eq_true_2.
  - intros Hf Hc Hn. unfold FastCSVParser.parse_next_event.
    unfold mbind at 1. unfold FastCSVParser.M_bind at 1. unfold FastCSVParser.get at 1.
    unfold FastCSVParser.at_end at 1. rewrite bool_decide_eq_false_2 by done.
    rewrite Hf.
    unfold mbind at 1. unfold FastCSVParser.M_bind at 1.
    unfold mbind at 1. unfold FastCSVParser.M_bind at 1.
    unfold FastCSVParser.skip_to_next_line at 1. rewrite Hn.
    unfold FastCSVParser.set_current at 1.
    unfold mbind at 1. unfold FastCSVParser.M_bind at 1.
    unfold FastCSVParser.set_first_line_skipped at 1.
    cbn [FastCSVParser.current_].
    unfold mbind at 1. unfold FastCSVParser.M_bind at 1. unfold FastCSVParser.get at 1.
    unfold mret at 1. unfold FastCSVParser.M_ret at 1.
    unfold FastCSVParser.at_end at 1. cbn [FastCSVParser.current_].
    rewrite bool_decide_eq_true_2 by done. done.
  - intros b event' st'. apply parse_next_event_inv.
Qed.

(** *** Reads past the end of the file *)

Lemma expect_char_step c st :
  ∃ st', FastCSVParser.expect_char c st = inr (tt, st') ∧
    (length (FastCSVParser.current_ st') ≤ length (FastCSVParser.current_ st)
       ≤ S (length (FastCSVParser.current_ st')))%nat.
Proof.
  unfold FastCSVParser.expect_char.
  destruct (FastCSVParser.current_ st) as [|x l] eqn:Hc.
  - eexists. split; [done|]. rewrite Hc. simpl. lia.
  - destruct (Ascii.eqb x c); eexists; (split; [done|]); simpl; rewrite ?Hc; simpl; lia.
Qed.

Lemma advance_char_step st :
  ∃ st', FastCSVParser.advance_char st = inr (tt, st') ∧
    length (FastCSVParser.current_ st') = pred (length (FastCSVParser.current_ st)).
Proof.
  unfold FastCSVParser.advance_char.
  destruct (FastCSVParser.current_ st) as [|x l] eqn:Hc.
  - eexists. split; [done|]. by rewrite Hc.
  - eexists. split; [done|]. done.
Qed.

Lemma read_char_step st :
  match FastCSVParser.current_ st with
  | [] => FastCSVParser.read_char st = inl OutOfBounds
  | c :: _ => FastCSVParser.read_char st = inr (c, st)
  end.
Proof. unfold FastCSVParser.read_char. by destruct (FastCSVParser.current_ st). Qed.

Lemma parse_uint64_step st :
  ∃ a st', FastCSVParser.parse_uint64 st = inr (a, st').
Proof.
  unfold FastCSVParser.parse_uint64.
  destruct (FastCSVParser.digits_loop _ _ _); eauto.
Qed.

Lemma parse_uint32_step st :
  ∃ a st', FastCSVParser.parse_uint32 st = inr (a, st').
Proof.
  unfold FastCSVParser.parse_uint32.
  destruct (FastCSVParser.digits_loop _ _ _); eauto.
Qed.

Lemma price_digits_fault l : ∀ a e, FastCSVParser.price_digits a l = inl e → e = SignedOverflow.
Proof.
  induction l as [|c l IH]; intros a e; simpl; [done|].
  destruct (is_digit c); [|done].
  destruct (_ <? _); [apply IH|]. by intros [= <-].
Qed.

Lemma int64_fault z st e : FastCSVParser.int64 z st = inl e → e = SignedOverflow.
Proof. unfold FastCSVParser.int64. case_bool_decide; [done|]. by intros [= <-]. Qed.

Lemma fraction_digit_fault w r st e :
  FastCSVParser.fraction_digit w r st = inl e → e = SignedOverflow.
Proof.
  unfold FastCSVParser.fraction_digit.
  destruct (FastCSVParser.current_ st) as [|c l]; [done|].
  destruct (is_digit c); [|done].
  unfold mbind, FastCSVParser.M_bind.
  destruct (FastCSVParser.int64 _ _) as [e'|[a s]] eqn:E; [|done].
  intros [= <-]. by apply int64_fault in E.
Qed.

Ltac bind_fault H a st1 E :=
  unfold mbind at 1 in H; unfold FastCSVParser.M_bind at 1 in H;
  match type of H with
  | match ?x with _ => _ end = _ =>
      destruct x as [?|[a st1]] eqn:E
  end.

(** [parse_price] reads past the end exactly when nothing is left. *)
Lemma parse_price_bounds st :
  FastCSVParser.parse_price st = inl OutOfBounds ↔ FastCSVParser.current_ st = [].
Proof.
  unfold FastCSVParser.parse_price. split.
  - intros H. bind_fault H c s1 E1.
    { unfold FastCSVParser.read_char in E1. by destruct (FastCSVParser.current_ st). }
    bind_fault H n s2 E2.
    { destruct (Ascii.eqb c "-").
      - unfold mbind, mret, FastCSVParser.M_bind, FastCSVParser.M_ret,
          FastCSVParser.advance_char in E2.
        by destruct (FastCSVParser.current_ s1).
      - done. }
    bind_fault H r s3 E3.
    { destruct (FastCSVParser.price_digits 0 _) as [e'|[? ?]] eqn:Ed; [|done].
      apply price_digits_fault in Ed. by simplify_eq. }
    bind_fault H g s4 E4; [done|].
    unfold FastCSVParser.get in E4. simplify_eq.
    bind_fault H r' s5 E5; [|done].
    exfalso. simplify_eq.
    destruct (FastCSVParser.current_ s4) as [|x l].
    { by apply int64_fault in E5. }
    destruct (Ascii.eqb x ".").
    + bind_fault E5 u1 t1 F1.
      { unfold FastCSVParser.advance_char in F1. by destruct (FastCSVParser.current_ s4). }
      bind_fault E5 u2 t2 F2.
      { apply int64_fault in F2. by simplify_eq. }
      bind_fault E5 u3 t3 F3.
      { apply fraction_digit_fault in F3. by simplify_eq. }
      by apply fraction_digit_fault in E5.
    + by apply int64_fault in E5.
  - intros Hc. unfold mbind at 1. unfold FastCSVParser.M_bind at 1.
    unfold FastCSVParser.read_char. by rewrite Hc.
Qed.

Lemma parse_next_event_fields event st :
  FastCSVParser.first_line_skipped_ st = true →
  FastCSVParser.current_ st ≠ [] →
  FastCSVParser.parse_next_event event st =
  (timestamp_ns ← FastCSVParser.parse_uint64;
   _ ← FastCSVParser.expect_char ",";
   action ← FastCSVParser.read_char;
   _ ← FastCSVParser.advance_char;
   _ ← FastCSVParser.expect_char ",";
   side ← FastCSVParser.read_char;
   _ ← FastCSVParser.advance_char;
   _ ← FastCSVParser.expect_char ",";
   price_raw ← FastCSVParser.parse_price;
   _ ← FastCSVParser.expect_char ",";
   size ← FastCSVParser.parse_uint32;
   _ ← FastCSVParser.expect_char ",";
   order_id ← FastCSVParser.parse_uint64;
   _ ← FastCSVParser.skip_to_next_line;
   mret (true,
         Event.mk timestamp_ns order_id price_raw size (Event.sequence event)
           action side)) st.
Proof.
  intros Hf Hc. unfold FastCSVParser.parse_next_event.
  unfold mbind at 1. unfold FastCSVParser.M_bind at 1. unfold FastCSVParser.get at 1.
  unfold FastCSVParser.at_end at 1. rewrite bool_decide_eq_false_2 by done.
  rewrite Hf.
  unfold mbind at 1. unfold FastCSVParser.M_bind at 1.
  unfold mret at 1. unfold FastCSVParser.M_ret at 1. done.
Qed.

Ltac step_with lem s E L :=
  unfold mbind at 1; unfold FastCSVParser.M_bind at 1;
  destruct lem as (s & E & L); rewrite E; cbv beta iota.

Ltac step_read s x l Hx :=
  unfold mbind at 1; unfold FastCSVParser.M_bind at 1;
  let R := fresh "R" in
  pose proof (read_char_step s) as R;
  destruct (FastCSVParser.current_ s) as [|x l] eqn:Hx; rewrite R; clear R; cbv beta iota.

(** X24. [event.action], [event.side] and the first character of the price
    are read with no test against [end_].  On a last line that stops
    within two characters of its timestamp the character at [end_], past
    the last one of the mapped file, is read; with six characters or more
    after the timestamp no read is out of bounds. *)
Theorem parse_next_event_bounds ds tl event :
  Forall (λ c, is_digit c = true) ds → no_digit_ahead tl → ds ++ tl ≠ [] →
  ((length tl ≤ 2)%nat →
     FastCSVParser.parse_next_event event (FastCSVParser.mk (ds ++ tl) true)
       = inl OutOfBounds) ∧
  ((6 ≤ length tl)%nat →
     FastCSVParser.parse_next_event event (FastCSVParser.mk (ds ++ tl) true)
       ≠ inl OutOfBounds).
Proof.
  intros Hds Htl Hne.
  rewrite parse_next_event_fields by done.
  split; intros Hlen;
    (unfold mbind at 1; unfold FastCSVParser.M_bind at 1;
     rewrite parse_uint64_digits by done; cbv beta iota;
     set (s1 := FastCSVParser.mk tl true);
     assert (L1 : length (FastCSVParser.current_ s1) = length tl) by done;
     clearbody s1).
  - step_with (expect_char_step "," s1) s2 E2 L2.
    step_read s2 x3 l3 H3; [done|].
    step_with (advance_char_step s2) s4 E4 L4.
    step_with (expect_char_step "," s4) s5 E5 L5.
    step_read s5 x6 l6 H6; [done|].
    step_with (advance_char_step s5) s7 E7 L7.
    step_with (expect_char_step "," s7) s8 E8 L8.
    unfold mbind at 1. unfold FastCSVParser.M_bind at 1.
    rewrite (proj2 (parse_price_bounds s8)); [done|].
    rewrite H3, H6 in *. simpl in *.
    apply length_zero_iff_nil. lia.
  - step_with (expect_char_step "," s1) s2 E2 L2.
    step_read s2 x3 l3 H3; [simpl in L2; lia|].
    step_with (advance_char_step s2) s4 E4 L4.
    step_with (expect_char_step "," s4) s5 E5 L5.
    rewrite H3 in *. simpl in L2, L4.
    step_read s5 x6 l6 H6; [simpl in L5; lia|].
    step_with (advance_char_step s5) s7 E7 L7.
    step_with (expect_char_step "," s7) s8 E8 L8.
    rewrite H6 in *. simpl in L5, L7.
    unfold mbind at 1. unfold FastCSVParser.M_bind at 1.
    destruct (FastCSVParser.parse_price s8) as [e|[p s9]] eqn:E9.
    { intros [= ->]. apply parse_price_bounds in E9.
      rewrite E9 in L8. simpl in L8. lia. }
    step_with (expect_char_step "," s9) s10 E10 L10.
    unfold mbind at 1. unfold FastCSVParser.M_bind at 1.
    destruct (parse_uint32_step s10) as (a11 & s11 & ->). cbv beta iota.
    step_with (expect_char_step "," s11) s12 E12 L12.
    unfold mbind at 1. unfold FastCSVParser.M_bind at 1.
    destruct (parse_uint64_step s12) as (a13 & s13 & ->). cbv beta iota.
    done.
Qed.

Lemma parse_next_event_bounds_witness :
  FastCSVParser.parse_next_event (Event.mk 0 0 0 0 0 "R" "N")
    (FastCSVParser.mk (["1"; "0"; "0"; "0"] ++ [","; "A"])%char true) = inl OutOfBounds ∧
  FastCSVParser.parse_next_event (Event.mk 0 0 0 0 0 "R" "N")
    (FastCSVParser.mk (["1"; "0"; "0"; "0"] ++ [","; "A"; ","; "B"; ","; "5"; ","; "1"; ","; "7"])%char true)
    ≠ inl OutOfBounds.
Proof.
  split.
  - apply (parse_next_event_bounds ["1"; "0"; "0"; "0"]%char [","; "A"]%char);
      [by repeat constructor | done | done | simpl; lia].
  - apply (parse_next_event_bounds ["1"; "0"; "0"; "0"]%char
             [","; "A"; ","; "B"; ","; "5"; ","; "1"; ","; "7"]%char);
      [by repeat constructor | done | done | simpl; lia].
Defined.

(** * The driver *)

(** The loop ends: a pass that goes on has consumed a character. *)
Lemma loop_fuel fuel : ∀ fuel' parser event r out,
  (length (FastCSVParser.current_ parser) < fuel)%nat →
  (length (FastCSVParser.current_ parser) < fuel')%nat →
  MBPReconstructor.loop fuel parser event r out ≠ None ∧
  MBPReconstructor.loop fuel parser event r out =
    MBPReconstructor.loop fuel' parser event r out.
Proof.
  induction fuel as [|fuel IH]; intros fuel' parser event r out H1 H2; [lia|].
  destruct fuel' as [|fuel']; [lia|]. cbn [MBPReconstructor.loop].
  destruct (FastCSVParser.parse_next_event event parser)
    as [e|[[b event'] parser']] eqn:E; [done|].
  destruct b; [|done].
  apply parse_next_event_inv in E as (L & _ & _).
  destruct (MBPReconstructor.step event' r) as [line r'].
  apply IH; lia.
Qed.

Lemma loop_invariant (I : FastCSVParser.t → list ascii → MBPReconstructor.t → Prop) :
  (∀ parser event event' parser' out r,
     I parser out r →
     FastCSVParser.parse_next_event event parser = inr ((true, event'), parser') →
     I parser' (out ++ (MBPReconstructor.step event' r).1)
       (MBPReconstructor.step event' r).2) →
  ∀ fuel parser event r out out' r',
    I parser out r →
    MBPReconstructor.loop fuel parser event r out = Some (inr (out', r')) →
    ∃ parser', I parser' out' r'.
Proof.
  intros Hstep. induction fuel as [|fuel IH]; intros parser event r out out' r' HI H;
    [done|].
  cbn [MBPReconstructor.loop] in H.
  destruct (FastCSVParser.parse_next_event event parser)
    as [e|[[b event'] parser']] eqn:E; [done|].
  destruct b.
  - pose proof (Hstep _ _ _ _ _ _ HI E) as HI'.
    destruct (MBPReconstructor.step event' r) as [line r1].
    by apply (IH _ _ _ _ _ _ HI' H).
  - simplify_eq. by exists parser.
Qed.

(** X25. On every file the loop of [reconstruct] ends: as many passes as the
    file has characters, and one more, are enough, and a larger bound on
    the number of passes gives the same result. *)
Theorem reconstruct_terminates data event :
  data ≠ [] →
  (∃ result, MBPReconstructor.reconstruct data event = Some result) ∧
  ∀ fuel, (length data < fuel)%nat →
    MBPReconstructor.reconstruct_within fuel data event =
    MBPReconstructor.reconstruct data event.
Proof.
  intros _. unfold MBPReconstructor.reconstruct, MBPReconstructor.reconstruct_within.
  split.
  - destruct (loop_fuel (S (length data)) (S (length data)) (FastCSVParser.make data)
                event MBPReconstructor.init CSVHeader.generate_mbp_header) as [H _];
      [simpl; lia..|].
    destruct (MBPReconstructor.loop _ _ _ _ _) as [[e|[out r]]|]; [by eexists..|done].
  - intros fuel Hf.
    by destruct (loop_fuel fuel (S (length data)) (FastCSVParser.make data)
                   event MBPReconstructor.init CSVHeader.generate_mbp_header) as [_ ->];
      [simpl; lia..|].
Qed.

Lemma reconstruct_terminates_witness :
  ∃ result,
    MBPReconstructor.reconstruct ["h"; "010"; "1"; ","; "A"; ","; "B"; ","; "5"; ","; "2"; ","; "7"; "010"]%char
      (Event.mk 0 0 0 0 0 "R" "N") = Some result.
Proof.
  by apply (reconstruct_terminates
              ["h"; "010"; "1"; ","; "A"; ","; "B"; ","; "5"; ","; "2"; ","; "7"; "010"]%char).
Defined.

(** What [reconstruct] returns is what its loop left, followed by the
    statistics. *)
Lemma reconstruct_inv data event out r :
  MBPReconstructor.reconstruct data event = Some (inr (out, r)) →
  ∃ text,
    out = Text text :: SnapshotProcessor.print_statistics
                         (MBPReconstructor.snapshot_processor_ r) ∧
    MBPReconstructor.loop (S (length data)) (FastCSVParser.make data) event
      MBPReconstructor.init CSVHeader.generate_mbp_header = Some (inr (text, r)).
Proof.
  unfold MBPReconstructor.reconstruct, MBPReconstructor.reconstruct_within.
  destruct (MBPReconstructor.loop _ _ _ _ _) as [[e|[text r']]|]; [done| |done].
  intros H. simplify_eq. by exists text.
Qed.

Lemma printf_llu_newlines label value :
  occurrences "010" label = 0%nat →
  newlines [printf_llu label value] = 1%nat.
Proof.
  intros Hl. unfold newlines, printf_llu. cbn [foldr].
  rewrite !occurrences_app, Hl.
  rewrite occurrences_plain by (by right || apply to_string_plain). done.
Qed.

Lemma newlines_app out1 out2 :
  newlines (out1 ++ out2) = (newlines out1 + newlines out2)%nat.
Proof.
  induction out1 as [|[s|x] out1 IH]; [done| |]; cbn [app newlines foldr] in *;
    fold (newlines (out1 ++ out2)) (newlines out1); lia.
Qed.

(** The statistics take six lines, and a seventh when an event was
    processed. *)
Lemma print_statistics_newlines p :
  newlines (SnapshotProcessor.print_statistics p) =
    (6 + if (0 <? SnapshotProcessor.total_events_processed_ p)%Z then 1 else 0)%nat.
Proof.
  unfold SnapshotProcessor.print_statistics. rewrite newlines_app.
  assert (H6 : ∀ a b c d e f g h : printed,
            [a; b; c; d; e; f; g; h] = [a] ++ [b] ++ [c] ++ [d] ++ [e] ++ [f; g; h])
    by done.
  rewrite H6, !newlines_app, !printf_llu_newlines by (by vm_compute).
  destruct (0 <? _); by vm_compute.
Qed.

(** One pass of the loop: the counters it moves. *)
Lemma step_cases event r :
  let r' := (MBPReconstructor.step event r).2 in
  let line := (MBPReconstructor.step event r).1 in
  let p := MBPReconstructor.snapshot_processor_ r in
  let p' := MBPReconstructor.snapshot_processor_ r' in
  let m := SnapshotProcessor.manager_ p in
  let m' := SnapshotProcessor.manager_ p' in
  MBPReconstructor.events_processed_ r' = incr64 (MBPReconstructor.events_processed_ r) ∧
  ActionEngine.actions_processed_ (MBPReconstructor.action_engine_ r') =
    incr64 (ActionEngine.actions_processed_ (MBPReconstructor.action_engine_ r)) ∧
  ((line = [] ∧ p' = p ∧
    MBPReconstructor.snapshots_emitted_ r' = MBPReconstructor.snapshots_emitted_ r) ∨
   (line = [] ∧
    MBPReconstructor.snapshots_emitted_ r' = MBPReconstructor.snapshots_emitted_ r ∧
    SnapshotProcessor.snapshots_written_ p' = SnapshotProcessor.snapshots_written_ p ∧
    SnapshotManager.snapshots_generated_ m' = SnapshotManager.snapshots_generated_ m ∧
    SnapshotManager.snapshots_skipped_ m' = incr64 (SnapshotManager.snapshots_skipped_ m) ∧
    SnapshotProcessor.total_events_processed_ p' =
      incr64 (SnapshotProcessor.total_events_processed_ p)) ∨
   (line = MBPFormatter.format_snapshot (SnapshotManager.current_snapshot_ m') ∧
    MBPReconstructor.snapshots_emitted_ r' =
      incr64 (MBPReconstructor.snapshots_emitted_ r) ∧
    SnapshotProcessor.snapshots_written_ p' =
      incr64 (SnapshotProcessor.snapshots_written_ p) ∧
    SnapshotManager.snapshots_generated_ m' =
      incr64 (SnapshotManager.snapshots_generated_ m) ∧
    SnapshotManager.snapshots_skipped_ m' = SnapshotManager.snapshots_skipped_ m ∧
    SnapshotProcessor.total_events_processed_ p' =
      incr64 (SnapshotProcessor.total_events_processed_ p))).
Proof.
  cbv zeta. unfold MBPReconstructor.step.
  destruct (process_event_counters event (MBPReconstructor.action_engine_ r)) as [Ha _].
  cbv zeta in Ha.
  destruct (ActionEngine.process_event event (MBPReconstructor.action_engine_ r))
    as [d engine].
  cbn [snd] in Ha.
  destruct d; [|by split_and!; [done..|left]].
  rewrite process_event_unfold. cbv zeta.
  unfold SnapshotManager.should_generate_snapshot.
  destruct (OrderBook.get_top10_snapshot _ _) as [cur book].
  destruct (_ && _); cbn [fst snd].
  - rewrite bool_decide_eq_true_2 by done. cbn.
    split_and!; [done..|]. right. left. done.
  - rewrite bool_decide_eq_false_2 by apply format_snapshot_not_empty. cbn.
    split_and!; [done..|]. right. right. done.
Qed.

Lemma incr64_small z : 0 <= z → z + 1 < 2 ^ 64 → incr64 z = z + 1.
Proof. intros H1 H2. unfold incr64, wrap64. apply Z.mod_small. lia. Qed.

(** X26. The figures the driver reports agree with each other and with what
    it wrote.  When [reconstruct] completes on a file, the events counted
    by the driver are those counted by the engine and are no more than
    the characters of the file; the snapshots the driver counts are those
    the processor and the manager count; the processor was invoked no more
    often than there were events.  The standard output is the header
    followed by one line for each snapshot counted, and then the
    statistics of the processor: one more than the snapshots, and six or
    seven lines of statistics, seven when the processor was invoked. *)
Theorem reconstruct_counters data event out r :
  data ≠ [] → Z.of_nat (length data) < 2 ^ 64 →
  MBPReconstructor.reconstruct data event = Some (inr (out, r)) →
  let engine := MBPReconstructor.action_engine_ r in
  let processor := MBPReconstructor.snapshot_processor_ r in
  let manager := SnapshotProcessor.manager_ processor in
  MBPReconstructor.events_processed_ r = ActionEngine.actions_processed_ engine ∧
  0 <= MBPReconstructor.events_processed_ r <= Z.of_nat (length data) ∧
  MBPReconstructor.snapshots_emitted_ r = SnapshotProcessor.snapshots_written_ processor ∧
  SnapshotProcessor.snapshots_written_ processor =
    SnapshotManager.snapshots_generated_ manager ∧
  SnapshotProcessor.total_events_processed_ processor =
    SnapshotManager.snapshots_generated_ manager +
    SnapshotManager.snapshots_skipped_ manager ∧
  SnapshotProcessor.total_events_processed_ processor
    <= MBPReconstructor.events_processed_ r ∧
  (∃ body,
     out = Text (CSVHeader.generate_mbp_header ++ body)
             :: SnapshotProcessor.print_statistics processor ∧
     Z.of_nat (occurrences "010" (CSVHeader.generate_mbp_header ++ body)) =
       1 + MBPReconstructor.snapshots_emitted_ r) ∧
  Z.of_nat (newlines out) =
    1 + MBPReconstructor.snapshots_emitted_ r + 6 +
    (if 0 <? SnapshotProcessor.total_events_processed_ processor then 1 else 0).
Proof.
  intros _ Hsize H. apply reconstruct_inv in H as (text & -> & H).
  apply (loop_invariant (λ parser out r,
    ∃ n k j : nat,
      (n + length (FastCSVParser.current_ parser) ≤ length data)%nat ∧
      (k + j ≤ n)%nat ∧
      MBPReconstructor.events_processed_ r = Z.of_nat n ∧
      ActionEngine.actions_processed_ (MBPReconstructor.action_engine_ r) = Z.of_nat n ∧
      MBPReconstructor.snapshots_emitted_ r = Z.of_nat k ∧
      SnapshotProcessor.snapshots_written_ (MBPReconstructor.snapshot_processor_ r)
        = Z.of_nat k ∧
      SnapshotManager.snapshots_generated_
        (SnapshotProcessor.manager_ (MBPReconstructor.snapshot_processor_ r)) = Z.of_nat k ∧
      SnapshotManager.snapshots_skipped_
        (SnapshotProcessor.manager_ (MBPReconstructor.snapshot_processor_ r)) = Z.of_nat j ∧
      SnapshotProcessor.total_events_processed_ (MBPReconstructor.snapshot_processor_ r)
        = Z.of_nat (k + j) ∧
      occurrences "010" out = S k ∧
      ∃ body, out = CSVHeader.generate_mbp_header ++ body)) in H.
  - destruct H as (parser' & n & k & j & Hn & Hkj & H1 & H2 & H3 & H4 & H5 & H6 & H7 & H8
                   & body & ->).
    cbv zeta. split_and!; try done; try lia.
    + exists body. split; [done|]. lia.
    + change (newlines (Text ?t :: ?l)) with (occurrences "010" t + newlines l)%nat.
      rewrite print_statistics_newlines, H8.
      destruct (0 <? _); lia.
  - clear H. intros parser ev ev' parser' o s
      (n & k & j & Hn & Hkj & H1 & H2 & H3 & H4 & H5 & H6 & H7 & H8 & body & H9) Hp.
    apply parse_next_event_inv in Hp as (L & _ & _).
    destruct (step_cases ev' s) as (S1 & S2 & S3). cbv zeta in S1, S2, S3.
    rewrite H1 in S1. rewrite H2 in S2.
    rewrite incr64_small in S1, S2 by lia.
    destruct S3 as [(-> & Sp & Se)|[(-> & Se & Sw & Sg & Sk & St)|(-> & Se & Sw & Sg & Sk & St)]].
    + exists (S n), k, j. rewrite Sp, Se, app_nil_r.
      split_and!; try done; try lia. by exists body.
    + exists (S n), k, (S j). rewrite Se, Sw, Sg, Sk, St, app_nil_r.
      rewrite H6, H7. rewrite !incr64_small by lia.
      split_and!; try done; try lia. by exists body.
    + exists (S n), (S k), j. rewrite Se, Sw, Sg, Sk, St.
      rewrite H3, H4, H5, H7. rewrite !incr64_small by lia.
      rewrite occurrences_app, format_snapshot_newline.
      split_and!; try done; try lia.
      eexists. rewrite H9, <- app_assoc. done.
  - exists 0%nat, 0%nat, 0%nat.
    split_and!; [cbn [FastCSVParser.make FastCSVParser.current_]; lia | lia | done..
                | apply header_newline | exists []; by rewrite app_nil_r].
Qed.

Lemma sample_file_result :
  match MBPReconstructor.reconstruct sample_file blank_event with
  | Some (inr (out, r)) =>
      MBPReconstructor.events_processed_ r = 4 ∧ newlines out = 11%nat
  | _ => False
  end.
Proof. vm_compute. split; reflexivity. Qed.

Lemma reconstruct_counters_witness :
  ∃ out r,
    MBPReconstructor.reconstruct sample_file blank_event = Some (inr (out, r)) ∧
    MBPReconstructor.events_processed_ r = 4 ∧
    newlines out = 11%nat ∧
    Z.of_nat (newlines out) =
      1 + MBPReconstructor.snapshots_emitted_ r + 6 +
      (if 0 <? SnapshotProcessor.total_events_processed_
                 (MBPReconstructor.snapshot_processor_ r) then 1 else 0).
Proof.
  pose proof sample_file_result as Hr.
  destruct (MBPReconstructor.reconstruct sample_file blank_event) as [[e|[out r]]|] eqn:E;
    [destruct Hr| |destruct Hr].
  destruct Hr as [Hr1 Hr2].
  exists out, r. split; [reflexivity|]. split; [exact Hr1|]. split; [exact Hr2|].
  assert (Hn : sample_file ≠ []) by (unfold sample_file; discriminate).
  assert (Hs : Z.of_nat (length sample_file) < 2 ^ 64) by (vm_compute; reflexivity).
  by destruct (reconstruct_counters sample_file blank_event out r Hn Hs E)
    as (_ & _ & _ & _ & _ & _ & _ & H).
Defined.

(** ** The book the driver ends with *)

Lemma digits_loop_range (wrap : Z → Z) m l : ∀ a,
  (∀ z, 0 <= wrap z < m) → 0 <= a < m →
  0 <= (FastCSVParser.digits_loop wrap a l).1 < m.
Proof.
  induction l as [|c l IH]; intros a Hw Ha; simpl; [done|].
  destruct (is_digit c); [|done]. by apply IH.
Qed.

Lemma parse_uint64_range st a st' :
  FastCSVParser.parse_uint64 st = inr (a, st') → is_u64 a.
Proof.
  unfold FastCSVParser.parse_uint64. intros H.
  pose proof (digits_loop_range wrap64 (2 ^ 64) (FastCSVParser.current_ st) 0) as Hr.
  destruct (FastCSVParser.digits_loop _ _ _) as [v l]. simplify_eq.
  apply Hr; [|done]. intros z. unfold wrap64. apply Z.mod_pos_bound. done.
Qed.

Lemma parse_uint32_range st a st' :
  FastCSVParser.parse_uint32 st = inr (a, st') → is_u32 a.
Proof.
  unfold FastCSVParser.parse_uint32. intros H.
  pose proof (digits_loop_range wrap32 (2 ^ 32) (FastCSVParser.current_ st) 0) as Hr.
  destruct (FastCSVParser.digits_loop _ _ _) as [v l]. simplify_eq.
  apply Hr; [|done]. intros z. unfold wrap32. apply Z.mod_pos_bound. done.
Qed.

Lemma parse_fields_wf event st r st' :
  (timestamp_ns ← FastCSVParser.parse_uint64;
   _ ← FastCSVParser.expect_char ",";
   action ← FastCSVParser.read_char;
   _ ← FastCSVParser.advance_char;
   _ ← FastCSVParser.expect_char ",";
   side ← FastCSVParser.read_char;
   _ ← FastCSVParser.advance_char;
   _ ← FastCSVParser.expect_char ",";
   price_raw ← FastCSVParser.parse_price;
   _ ← FastCSVParser.expect_char ",";
   size ← FastCSVParser.parse_uint32;
   _ ← FastCSVParser.expect_char ",";
   order_id ← FastCSVParser.parse_uint64;
   _ ← FastCSVParser.skip_to_next_line;
   mret (true,
         Event.mk timestamp_ns order_id price_raw size (Event.sequence event)
           action side)) st = inr (r, st') →
  Event.wf r.2.
Proof.
  intros H.
  bind_inv H a1 s1 E1. apply parse_uint64_range in E1.
  bind_inv H a2 s2 E2. bind_inv H a3 s3 E3. bind_inv H a4 s4 E4.
  bind_inv H a5 s5 E5. bind_inv H a6 s6 E6. bind_inv H a7 s7 E7.
  bind_inv H a8 s8 E8. bind_inv H a9 s9 E9. bind_inv H a10 s10 E10.
  bind_inv H a11 s11 E11. apply parse_uint32_range in E11.
  bind_inv H a12 s12 E12.
  bind_inv H a13 s13 E13. apply parse_uint64_range in E13.
  bind_inv H a14 s14 E14.
  unfold mret, FastCSVParser.M_ret in H. simplify_eq. by split_and!.
Qed.

(** The fields of an event the parser yields are in the ranges of their
    types. *)
Lemma parse_next_event_wf event st event' st' :
  FastCSVParser.parse_next_event event st = inr ((true, event'), st') → Event.wf event'.
Proof.
  intros H. unfold FastCSVParser.parse_next_event in H.
  unfold mbind at 1 in H. unfold FastCSVParser.M_bind at 1 in H.
  unfold FastCSVParser.get at 1 in H.
  destruct (FastCSVParser.at_end st).
  { unfold mret, FastCSVParser.M_ret in H. by simplify_eq. }
  bind_inv H more s1 E1.
  destruct (negb more).
  { unfold mret, FastCSVParser.M_ret in H. by simplify_eq. }
  by apply (parse_fields_wf event s1 (true, event') st').
Qed.

Lemma update_cache_inv b : book_inv b → book_inv (OrderBook.update_cache b).
Proof.
  intros [H1 H2 H3 H4 H5]. split.
  - intros sm. specialize (H1 sm). by destruct sm.
  - done.
  - intros id p Hp. destruct (H3 id p Hp) as (o & Ho & Hid & sm & l & Hl & Hin).
    exists o. split_and!; [done..|]. exists sm, l. by destruct sm.
  - done.
  - done.
Qed.

Lemma get_top10_inv snap b :
  book_inv b → book_inv (OrderBook.get_top10_snapshot snap b).2.
Proof.
  intros Hb. unfold OrderBook.get_top10_snapshot.
  destruct (OrderBook.cache_valid_ b); simpl; [done|]. by apply update_cache_inv.
Qed.

Lemma get_top10_order_map snap b :
  OrderBook.order_map_ (OrderBook.get_top10_snapshot snap b).2 = OrderBook.order_map_ b.
Proof. unfold OrderBook.get_top10_snapshot. by destruct (OrderBook.cache_valid_ b). Qed.

Lemma get_top10_cache_coherent snap b :
  cache_coherent b → cache_coherent (OrderBook.get_top10_snapshot snap b).2.
Proof.
  intros Hc. unfold OrderBook.get_top10_snapshot.
  destruct (OrderBook.cache_valid_ b) eqn:Hv; simpl; [done|]. by intros _.
Qed.

Lemma process_event_coherent e s :
  cache_coherent (ActionEngine.order_book_ s) →
  cache_coherent (ActionEngine.order_book_ (ActionEngine.process_event e s).2).
Proof.
  intros Hc.
  destruct (process_event_dispatch e s) as [_ ->|_ ->|_ ->|_ ->|_ ->|_ ->|_ ->|_ ->];
    try done.
  - unfold ActionEngine.handle_add. destruct (Ascii.eqb _ _); [done|].
    pose proof (add_order_coherent (Event.order_id e) (Event.price_raw e) (Event.size e)
                  (Event.side e) (Event.timestamp_ns e)
                  (ActionEngine.order_book_ (ActionEngine.count_action s)) Hc) as Hx.
    destruct (OrderBook.add_order _ _ _ _ _ _) as [[] b]; done.
  - unfold ActionEngine.handle_modify. destruct (Ascii.eqb _ _); [done|].
    pose proof (modify_order_coherent (Event.order_id e) (Event.price_raw e) (Event.size e)
                  (ActionEngine.order_book_ (ActionEngine.count_action s)) Hc) as Hx.
    destruct (OrderBook.modify_order _ _ _ _) as [[] b]; done.
  - unfold ActionEngine.handle_cancel, ActionEngine.complete_trade_sequence.
    case_bool_decide as Hst.
    + destruct (ActionEngine.pending_trade_ _) as [t|]; [|done].
      case_bool_decide as Hst2; [done|].
      pose proof (execute_trade_coherent (TradeInfo.price_raw t) (TradeInfo.size t)
                    (TradeInfo.side t)
                    (ActionEngine.order_book_ (ActionEngine.count_action s)) Hc) as Hx.
      destruct (OrderBook.execute_trade _ _ _ _) as [[] b]; done.
    + pose proof (cancel_order_coherent (Event.order_id e)
                    (ActionEngine.order_book_ (ActionEngine.count_action s)) Hc) as Hx.
      destruct (OrderBook.cancel_order _ _) as [[] b]; done.
  - unfold ActionEngine.handle_fill. case_bool_decide; [done|].
    destruct (ActionEngine.pending_trade_ _); [|done]. by case_bool_decide.
  - unfold ActionEngine.handle_clear. destruct (negb _); [done|].
    by apply cache_coherent_invalid.
Qed.

Lemma step_engine event r :
  let s' := (ActionEngine.process_event event (MBPReconstructor.action_engine_ r)).2 in
  MBPReconstructor.action_engine_ (MBPReconstructor.step event r).2 = s' ∨
  ∃ snap,
    MBPReconstructor.action_engine_ (MBPReconstructor.step event r).2 =
      ActionEngine.set_order_book
        (OrderBook.get_top10_snapshot snap (ActionEngine.order_book_ s')).2 s'.
Proof.
  cbv zeta. unfold MBPReconstructor.step.
  destruct (ActionEngine.process_event event (MBPReconstructor.action_engine_ r))
    as [d engine].
  destruct d; [|by left]. right.
  rewrite process_event_unfold. cbv zeta. rewrite should_generate_book.
  exists (SnapshotManager.current_snapshot_
            (SnapshotProcessor.manager_ (MBPReconstructor.snapshot_processor_ r))).
  by destruct (bool_decide _).
Qed.

(** X27. Whatever a file of less than 4 GiB holds, the book the driver ends
    with is well formed when [reconstruct] completes, no read having left
    the file and no price having overflowed: the id map and the levels
    hold the same orders, each level's total is the sum
    of the sizes of its orders, a cache flagged valid holds the ten best
    levels of each side, and the book holds no more orders than the file
    has characters. *)
Theorem reconstruct_book data event out r :
  data ≠ [] → Z.of_nat (length data) < 2 ^ 32 →
  MBPReconstructor.reconstruct data event = Some (inr (out, r)) →
  let book := ActionEngine.order_book_ (MBPReconstructor.action_engine_ r) in
  book_inv book ∧ levels_consistent book ∧ cache_coherent book ∧
  (size (OrderBook.order_map_ book) ≤ length data)%nat.
Proof.
  intros _ Hsize H. apply reconstruct_inv in H as (text & _ & H).
  apply (loop_invariant (λ parser out r,
    ∃ n : nat,
      (n + length (FastCSVParser.current_ parser) ≤ length data)%nat ∧
      engine_book_ok n (MBPReconstructor.action_engine_ r) ∧
      cache_coherent (ActionEngine.order_book_ (MBPReconstructor.action_engine_ r)))) in H.
  - destruct H as (parser' & n & Hn & (Hb & Hm & _) & Hc). cbv zeta.
    split_and!; [done | by apply book_inv_consistent | done | lia].
  - clear H. intros parser ev ev' parser' o s (n & Hn & Hok & Hc) Hp.
    pose proof (parse_next_event_wf _ _ _ _ Hp) as Hwf.
    apply parse_next_event_inv in Hp as (L & _ & _).
    assert (Hok' : engine_book_ok (S n)
                     (ActionEngine.process_event ev' (MBPReconstructor.action_engine_ s)).2)
      by (apply process_event_book_ok; [done..|lia]).
    pose proof (process_event_coherent ev' _ Hc) as Hc'.
    exists (S n). split; [lia|].
    destruct (step_engine ev' s) as [->|[snap ->]]; [done|].
    destruct Hok' as (Hb & Hm & Ht). split.
    + split_and!; cbn [ActionEngine.order_book_ ActionEngine.set_order_book
                        ActionEngine.pending_trade_].
      * by apply get_top10_inv.
      * by rewrite get_top10_order_map.
      * done.
    + cbn [ActionEngine.order_book_ ActionEngine.set_order_book].
      by apply get_top10_cache_coherent.
  - exists 0%nat. split; [cbn [FastCSVParser.make FastCSVParser.current_]; lia|].
    split.
    + split_and!; [apply init_inv | | done].
      cbn [MBPReconstructor.init MBPReconstructor.action_engine_ ActionEngine.init
             ActionEngine.order_book_].
      change (OrderBook.order_map_ OrderBook.init) with (∅ : gmap Z ptr).
      by rewrite map_size_empty.
    + by apply cache_coherent_invalid.
Qed.

Lemma reconstruct_book_witness :
  ∃ out r,
    MBPReconstructor.reconstruct sample_file blank_event = Some (inr (out, r)) ∧
    MBPReconstructor.events_processed_ r = 4 ∧
    levels_consistent (ActionEngine.order_book_ (MBPReconstructor.action_engine_ r)).
Proof.
  pose proof sample_file_result as Hr.
  destruct (MBPReconstructor.reconstruct sample_file blank_event) as [[e|[out r]]|] eqn:E;
    [destruct Hr| |destruct Hr].
  destruct Hr as [Hr _].
  exists out, r. split; [reflexivity|]. split; [exact Hr|].
  assert (Hn : sample_file ≠ []) by (unfold sample_file; discriminate).
  assert (Hs : Z.of_nat (length sample_file) < 2 ^ 32) by (vm_compute; reflexivity).
  by destruct (reconstruct_book sample_file blank_event out r Hn Hs E) as (_ & H & _).
Defined.
